(* ===== verification/_CoqProject ===== *)
-Q . S2P
Prelude.v
Utf8.v
Wire.v
Properties.v
Packets.v
Codec.v
Waiting.v
Reader.v
Topic.v
SubscriptionIndex.v
Guards.v
State.v
Engine.v
Requests.v
RequestCall.v
Inbound.v
Protocol.v
Ownership.v
Calls.v
Outbound.v
Receiving.v
Locking.v
Connection.v
Failures.v
Broker.v
Delivery.v
Ordering.v
Draining.v
Routing.v
Running.v
Errors.v
Transport.v
Options.v
Client.v
Create.v
Reconnect.v
Life.v
Subscriptions.v
Application.v
Detached.v
