(* ===== verification/Prelude.v ===== *)
(** * zMQTT: a verification development

    zMQTT (src/src/zmqtt) is an asyncio MQTT 3.1.1 / 5.0 client.  Bytes from the transport are
    cut into packets ([_internal/packets/reader.py], [codec.py]), the protocol engine
    ([_internal/protocol.py]) dispatches each packet to the flow it belongs to, incoming messages
    go through [_internal/inbound.py], are routed by the subscription index
    ([subscription_index.py], [topic_matching.py]) or claimed by a pending request
    ([request_response.py]) and end in an [asyncio.Queue]; calls of the application send packets
    and wait on futures that the handlers of the acknowledgements resolve.  The session state
    ([state.py]) is shared by all of them.

    ** Files

    - [Prelude]: exceptions and results ([res], with the exceptions of the source as [exn]),
      Python dictionaries as association lists in insertion order, slices, lemmas and tactics
      shared by all files.
    - [Utf8], [Wire]: Python's UTF-8 codec; [packets/_wire.py] (variable byte integers, strings
      and binary fields).
    - [Properties]: [packets/properties.py], the property block and the eleven typed records.
    - [Packets], [Codec]: the packet dataclasses of [packets/] and [types/]; [packets/codec.py].
    - [Reader]: [packets/reader.py], the buffer and its generator, and the read loop around it.
    - [Topic]: [types/topic.py] and [topic_matching.py].
    - [SubscriptionIndex]: [subscription_index.py], the trie and its side tables.
    - [State]: [state.py], [routing.py], [types/message.py]: the identifier pool, the flights, the
      session state, futures.
    - [Engine]: the state of one connection (the fields of [MQTTProtocol] and
      [InboundPublishFlow], and stores for futures, messages and queues, which Python shares by
      reference) and the state and exception monad its code runs in.
    - [Inbound]: [inbound.py]: recipient selection, QoS 0, 1, 2 receive flows, Receive Maximum,
      manual acknowledgement, replay buffer.
    - [Protocol]: [protocol.py]: publish, subscribe, unsubscribe, response observers, ping,
      the packet handlers, CONNACK, the end of [run]; [engine_step], the interleavings.
    - [Ownership], [Calls]: the invariant that ties packet identifiers, tables, futures and
      suspended calls together, under every interleaving ([reachable]).
    - [Guards]: [_SubscriptionGuards] of [protocol.py], the per-filter locks with the queues of
      waiters of [asyncio.Lock].
    - [Requests]: [request_response.py], registration, response topics, claims and shutdown, as
      interleaved steps.
    - [RequestCall]: [MQTTClient.request] from registration to clean-up, [Requests] and [Waiting] together,
      for any number of callers.
    - [Outbound]: publishes from call to result; what a broker or an encoder that misbehaves does.
    - [Receiving]: the invariants of the receiving side; inbound QoS 1 and QoS 2, end to end.
    - [Locking]: [Guards] and [Protocol] together: the subscription calls under their locks.
    - [Connection]: the handshake ([connect], [_await_connack]) and the read loop of a connection,
      [Reader] and [Protocol] together.
    - [Waiting]: [_compat.py], [wait_for] with its timeouts and cancellations, and
      [defer_cancellation].
    - [Failures]: which exceptions the handlers raise, and what they leave alone.
    - [Broker]: what the broker has been told about subscriptions, against what the index needs.
    - [Delivery]: what the operations of the engine do to messages on their way to the application.
    - [Ordering]: messages of one topic keep their order through the queues.
    - [Draining]: the drain of the replay buffer while its acknowledgements are being written.
    - [Routing]: messages go to the queues of the subscriptions they match, engine and index together.
    - [Running]: [run], [_ping_loop] and [_read_loop] with a clock, the writes of PINGREQ taking time.
    - [Transport]: [transport/]: [StreamTransport] over the streams of asyncio, plain and TLS.
    - [Errors]: [errors.py], what the exceptions say, and the warning about a rejected UNSUBSCRIBE.
    - [Options]: [client.py], CONNECT properties, [ConnectionInfo], [UnsubscribeResult].
    - [Client]: [MQTTClient.__init__], [_connect], [__aexit__]: a connection made and installed.
    - [Create]: the keyword arguments and defaults of [MQTTClient] and [create_client].
    - [Reconnect]: [_connect_with_retry], [_run_loop], the recovery callback, over any connections.
    - [Life]: the run loop over actual connections: [Reconnect], [Client], [Running] and, below them,
      the engine and the reader together.
    - [Subscriptions]: the public calls of [MQTTClient] and the life of a [Subscription].
    - [Application]: [Subscriptions] on [Locking] and, below it, the engine, over any number of connections.
    - [Detached]: [Subscription.detach], what enters the queue of a detached subscription afterwards.

    ** What is proved

    - Codec: [decode] inverts [encode] for every packet and both versions; prefixes are
      incomplete, never wrong; [decode] terminates and stays in bounds; size limits.
    - Reader: any chunking of the stream gives the same packets; nothing is lost or repeated.
    - Topics: the validators and the matcher are equivalent to a level by level specification.
    - Subscription index: a refinement of a plain ordered list of registrations, its invariant,
      and the choice of the most specific subscription.
    - Session: identifiers are the least free ones; under every interleaving of calls, packets,
      cancellations and connection loss each identifier in use has exactly one owner, a call
      only gets the acknowledgement of its own exchange, and no call hangs when [run] ends.
    - Exchanges: outbound QoS 1 and QoS 2 from the call to its result; an inbound QoS 2 message is
      delivered exactly once; PUBACK follows delivery; Receive Maximum is never exceeded; the
      replay buffer stays consistent, while its drain is suspended too; on a connection that resumes no session QoS 0 and 1
      messages of one topic are never overtaken on their way to the application (of a resumed session they can be, by a drain
      that is suspended); a queue only gets messages that match a filter, or
      carry an identifier, that was subscribed with it.
    - Locks: the guards exclude each other, lose no waiter and cannot deadlock; subscription calls
      under their locks never disturb each other, and leave them with what they say done ([subscribe] returns later, after a
      drain, when it need not be so any more); whatever is registered or
      observed has been asked for at the broker, and not given up since.
    - Requests: the permits and reference counts are exact, a response reaches its own request
      once, shutdown ends every request; [request()] returns an answer to its own call, ends after its
      timeout, and leaves nothing registered, whatever happens meanwhile.
    - Connection: every outcome of the handshake; the packets of the stream reach the engine in
      order, however the bytes are cut; the times of the PINGREQs, how soon a broker that is silent is
      noticed (both with the time a write may take), and which exceptions end [run].
    - Transport: whatever the streams of asyncio do, stalled and failing writes included, [StreamTransport] keeps the contract of
      a transport; over one that does not fail the engine's [_send] and close are its [write] and [close].  Waiting: [wait_for] hides no cancellation.
    - Client: that [create_client] makes what [MQTTClient] makes; which options are accepted, and that accepted ones encode; what a new connection
      starts from; how often and after which delays a connection is tried; that every connection of a
      client's life starts where the theorems on [run] and the engine apply; how a life ends and when the
      callback is awaited; which subscriptions come back after a reconnect; that over all connections a
      subscription only gets messages it asked for, and that what [stop] reports is so; that a
      detached subscription gets nothing any more.

    ** Conventions

    Machine integers are [Z] with the range checks of the source written out; bytes are lists of
    [Byte.byte]; strings are lists of code points, surrogates included, as Python's [str] is.
    A Python exception is [Err e]; code that mutates before it raises keeps its changes ([M]).
    Loops that are not structural take fuel: [decode_varint_loop] four turns (the code's own
    bound), [find_free] one more than the identifiers in use, [drain_all] one more than the
    buffered bytes, [drain_holds] the calls and guards that remain; lemmas show that none of them
    runs out ([acquire_least_free], [drain_parses], [decode_total], [guards_progress]).  The
    retry loop recurses on the outcomes of the attempts it is given, the run loop on those of
    the connections.

    A coroutine is cut where it can suspend; between two suspensions it is atomic, as in asyncio.  Writes are the exception.
    [StreamTransport.write] hands its bytes to the writer and then awaits [drain] for at most 30 s: before Python 3.12 that suspends at
    every write ([_compat.wait_for] starts a task), since then while the peer does not read.  [_send] writes and returns at once.
    Where the difference shows:
    - A call that waits for an acknowledgement has registered its future and its tables before it writes, and goes on to that future
      afterwards: when the write ends late and without an exception, this is a late [EvResume].
    - A handler of the read loop ends with its write, [handle_pubrel] apart, which delivers after PUBCOMP: the loop goes on to the next packet later.
    - The drain of the replay buffer goes on after each write, and others use the buffer and the queues meanwhile: [Draining] has
      its suspensions, failures and cancellations, and what they break.  [drain_replay] and [expire_after_timeout], one step each, are the drain and
      the expiry whose writes end at once; the theorems on [engine_step] and what is built on it have those.
    - [_ping_loop] writes PINGREQ before the timeout of the ping begins: [Running] has the time this takes.
    - [StreamTransport.write] itself, with its timeout and its failures, is in [Transport].
    A write of the engine that fails after its suspension, and the delivery in [handle_pubrel] while PUBCOMP is being written, are not modelled.

    ** Not modelled

    What is only logged, the warning about a rejected UNSUBSCRIBE apart; the overloads and [Protocol]
    classes that only declare types.  The clock of [Running] is that of the event loop: time passes while
    no loop can go on and timers fire when they are due, which an application that keeps the event loop
    busy can delay.  The sleep of [_expire_after_timeout] is the event [EvExpire], at any time, and the
    back-off is the list of its delays.  What a decoder raises is one of the exceptions of
    [parse_error], which [tame] says of each of them.

    [Requests] and [Subscriptions] see the engine through its answers, which are events of theirs:
    any answer at any time, so their theorems hold for every engine.  [Guards] and [Protocol] are
    put together in [Locking]; the engine's other theorems hold for calls that begin in any order, with
    locks or without.  [Life] runs the client over actual connections; the calls of its subscriptions are
    events of the engine there.  [Application] puts the subscriptions and the engines of their connections
    together, without the retry loop and the clock: connections are made and lost at any time, a
    restoration begins at any time, and a new engine takes the place of the old one once no call of a
    subscription is under way (in the source such a call ends with the exception that the end of [run] gives
    its future).  Response observers are locked calls there, of any coroutine. *)

From Stdlib Require Export ZArith Lia String Ascii.
From Stdlib Require Init.Byte Strings.Byte.
From stdpp Require Export base tactics option list numbers countable gmap.


#[global] Open Scope Z_scope.
#[export] Set Warnings "-clear-no-such-hyp".

Declare Scope py_scope.
Delimit Scope py_scope with py.

(** ** Exceptions and the error monad

    A Python call either returns or raises; [res A] is the value returned or the
    exception.  The message carried by an exception is the constant part of the
    source's message, without the interpolated values. *)

Inductive exn : Type :=
| ValueError (msg : string)
| UnicodeEncodeError
| UnicodeDecodeError
| StructError
| IndexError
| KeyError
| TypeError (msg : string)
| RuntimeError (msg : string)
| PacketTooLargeError (size limit : Z)
| MQTTInvalidTopicError (msg : string)
| MQTTProtocolError (msg : string)
| MQTTDisconnectedError (msg : string)
| BufferError
| OSError
| TimeoutError
| InvalidStateError
| CancelledError
| MQTTConnectError (return_code : Z)
| MQTTQoSExceededError (requested maximum : Z)
| MQTTRetainNotAvailableError
| MQTTTimeoutError (msg : string)
| MQTTSubscribeError (failures : list (list Z * Z))
| MQTTPublishError (reason_code : Z) (reason_name : option string) (reason_string : option (list Z))
| OutOfFuel.

Inductive res (A : Type) : Type :=
| Ok (a : A)
| Err (e : exn).
Arguments Ok {A} _.
Arguments Err {A} _.

#[export] Instance exn_eq_dec : EqDecision exn.
Proof. solve_decision. Defined.
#[export] Instance res_eq_dec `{EqDecision A} : EqDecision (res A).
Proof. solve_decision. Defined.

#[export] Instance res_ret : MRet res := fun A a => Ok a.
#[export] Instance res_bind : MBind res := fun A B f r =>
  match r with Ok a => f a | Err e => Err e end.
#[export] Instance res_fmap : FMap res := fun A B f r =>
  match r with Ok a => Ok (f a) | Err e => Err e end.

Definition is_Ok {A} (r : res A) : Prop := exists a, r = Ok a.

(** [raise_if b e] raises [e] when the guard [b] holds. *)
Definition raise_if (b : bool) (e : exn) : res unit := if b then Err e else Ok tt.

Lemma bind_Ok {A B} (r : res A) (f : A -> res B) b :
  (x ← r; f x) = Ok b <-> exists a, r = Ok a /\ f a = Ok b.
Proof. destruct r; simpl; naive_solver. Qed.

Lemma bind_Err {A B} (r : res A) (f : A -> res B) e :
  (x ← r; f x) = Err e <-> r = Err e \/ exists a, r = Ok a /\ f a = Err e.
Proof. destruct r; simpl; naive_solver. Qed.

Lemma raise_if_Ok b e u : raise_if b e = Ok u <-> b = false.
Proof. destruct b, u; simpl; naive_solver. Qed.

Lemma raise_if_Err b e e' : raise_if b e = Err e' <-> b = true /\ e = e'.
Proof. destruct b; simpl; naive_solver. Qed.

Create HintDb py discriminated.
#[export] Hint Constants Opaque : py.

(** Invert every successful bind in the context, naming nothing by hand. *)
Ltac inv_ok :=
  repeat match goal with
  | H : mbind _ _ = Ok _ |- _ => apply bind_Ok in H as (? & ? & ?)
  | H : raise_if _ _ = Ok _ |- _ => apply raise_if_Ok in H
  | H : Ok _ = Ok _ |- _ => injection H as H
  | H : Err _ = Ok _ |- _ => discriminate H
  | H : Ok _ = Err _ |- _ => discriminate H
  | H : mret _ = Ok _ |- _ => injection H as H
  | p : (_ * _)%type |- _ => destruct p
  | u : unit |- _ => destruct u
  end; simplify_eq.

(** Split the conditional the goal or a hypothesis branches on. *)
Ltac case_if :=
  match goal with
  | |- context [if ?b then _ else _] => destruct b eqn:?
  | H : context [if ?b then _ else _] |- _ => destruct b eqn:?
  end.

(** Boolean comparisons of integers, turned into propositions for [lia]. *)
Ltac zbool :=
  repeat match goal with
  | H : (_ <? _) = true |- _ => apply Z.ltb_lt in H
  | H : (_ <? _) = false |- _ => apply Z.ltb_ge in H
  | H : (_ <=? _) = true |- _ => apply Z.leb_le in H
  | H : (_ <=? _) = false |- _ => apply Z.leb_gt in H
  | H : (_ =? _) = true |- _ => apply Z.eqb_eq in H
  | H : (_ =? _) = false |- _ => apply Z.eqb_neq in H
  | H : _ && _ = true |- _ => apply andb_true_iff in H as [? ?]
  | H : _ || _ = false |- _ => apply orb_false_iff in H as [? ?]
  | H : negb _ = true |- _ => apply negb_true_iff in H
  | H : negb _ = false |- _ => apply negb_false_iff in H
  end.

(** ** Bytes *)

Abbreviation byte := Init.Byte.byte.
Abbreviation bytes := (list byte).

Definition bz (b : byte) : Z := Z.of_N (Byte.to_N b).

(** [zb n] is the byte of value [n] for [0 <= n < 256]; [byte_of] is Python's
    [bytes([n])], which raises outside that range. *)
Definition zb (n : Z) : byte :=
  match Byte.of_N (Z.to_N n) with Some b => b | None => Init.Byte.x00 end.

Definition byte_of (n : Z) : res byte :=
  if (0 <=? n) && (n <? 256) then Ok (zb n)
  else Err (ValueError "bytes must be in range(0, 256)").

Lemma bz_range b : 0 <= bz b < 256.
Proof. unfold bz. pose proof (Byte.to_N_bounded b). lia. Qed.

Lemma zb_bz b : zb (bz b) = b.
Proof. unfold zb, bz. now rewrite N2Z.id, Byte.of_to_N. Qed.

Lemma bz_zb n : 0 <= n < 256 -> bz (zb n) = n.
Proof.
  intros Hn. unfold zb, bz.
  destruct (Byte.of_N (Z.to_N n)) as [b|] eqn:E.
  - apply Byte.to_of_N in E. lia.
  - apply Byte.of_N_None_iff in E. lia.
Qed.

Lemma bz_inj a b : bz a = bz b -> a = b.
Proof. intros H. rewrite <-(zb_bz a), <-(zb_bz b). now f_equal. Qed.

Lemma byte_of_Ok n b : byte_of n = Ok b <-> 0 <= n < 256 /\ b = zb n.
Proof.
  unfold byte_of. case_if; zbool; split; intros; inv_ok; try lia; naive_solver.
Qed.

#[export] Instance byte_eq_dec : EqDecision byte := Strings.Byte.byte_eq_dec.
#[export] Instance byte_countable : Countable byte := inj_countable Byte.to_N Byte.of_N Byte.of_to_N.

Fixpoint bytes_of (l : list Z) : res bytes :=
  match l with
  | [] => Ok []
  | n :: l' => b ← byte_of n; bs ← bytes_of l'; Ok (b :: bs)
  end.

Lemma bytes_of_Ok l bs : bytes_of l = Ok bs -> map bz bs = l.
Proof.
  revert bs; induction l as [|n l IH]; intros bs H; simpl in H; inv_ok; [done|].
  match goal with H : byte_of _ = Ok _ |- _ => apply byte_of_Ok in H as [? ->] end.
  cbn [map]. rewrite bz_zb by lia. f_equal. auto.
Qed.

(** ** Buffers

    A [bytes] or [memoryview] is read at integer positions: [byte_at] is [buf[i]]
    (positions are never negative in the source, so Python's wrap-around of negative
    indices is not needed), [slice] is [buf[a:b]] for [b] within the buffer and
    [slice_from] is [buf[a:]], which is empty past the end. *)

Definition zlen {A} (l : list A) : Z := Z.of_nat (length l).

Definition byte_at (buf : bytes) (pos : Z) : res Z :=
  if (0 <=? pos) && (pos <? zlen buf)
  then Ok (bz (nth (Z.to_nat pos) buf Init.Byte.x00))
  else Err IndexError.

Definition slice (buf : bytes) (a b : Z) : bytes :=
  take (Z.to_nat (b - a)) (drop (Z.to_nat a) buf).

Definition slice_from (buf : bytes) (a : Z) : bytes :=
  drop (Z.to_nat (Z.min a (zlen buf))) buf.

Section zlen.
Context {A : Type}.
Implicit Types l : list A.

Lemma zlen_nil : zlen (@nil A) = 0.
Proof. done. Qed.
Lemma zlen_cons x l : zlen (x :: l) = 1 + zlen l.
Proof. unfold zlen. cbn [length]. lia. Qed.
Lemma zlen_app l1 l2 : zlen (l1 ++ l2) = zlen l1 + zlen l2.
Proof. unfold zlen. rewrite length_app. lia. Qed.
Lemma zlen_nonneg l : 0 <= zlen l.
Proof. unfold zlen. lia. Qed.
Lemma zlen_map {B} (f : A -> B) l : zlen (map f l) = zlen l.
Proof. unfold zlen. now rewrite length_map. Qed.
Lemma zlen_nil_inv l : zlen l = 0 -> l = [].
Proof. destruct l; [done|]. rewrite zlen_cons. pose proof (zlen_nonneg l). lia. Qed.
Lemma to_nat_zlen l : Z.to_nat (zlen l) = length l.
Proof. unfold zlen. lia. Qed.
End zlen.

Create Rewrite HintDb zlen.
#[export] Hint Rewrite @zlen_nil @zlen_cons @zlen_app @zlen_map : zlen.

(** Linear arithmetic over buffer lengths. *)
Ltac zlen_norm := autorewrite with zlen in *.
Ltac zlen_lia :=
  zlen_norm;
  repeat match goal with
  | |- context [zlen ?l] => lazymatch goal with _ : 0 <= zlen l |- _ => fail | _ => pose proof (zlen_nonneg l) end
  | _ : context [zlen ?l] |- _ => lazymatch goal with _ : 0 <= zlen l |- _ => fail | _ => pose proof (zlen_nonneg l) end
  end; lia.

(** [at_pos buf pos rest]: reading [buf] from [pos] on finds exactly [rest]. *)
Definition at_pos (buf : bytes) (pos : Z) (rest : bytes) : Prop :=
  exists pre, buf = pre ++ rest /\ pos = zlen pre.

Lemma at_pos_0 buf : at_pos buf 0 buf.
Proof. now exists []. Qed.

Lemma at_pos_app buf pos x y : at_pos buf pos (x ++ y) -> at_pos buf (pos + zlen x) y.
Proof.
  intros (pre & -> & ->). exists (pre ++ x). rewrite <-app_assoc. split; [done|zlen_lia].
Qed.

Lemma at_pos_len buf pos rest : at_pos buf pos rest -> zlen buf = pos + zlen rest.
Proof. intros (pre & -> & ->). zlen_lia. Qed.

Lemma at_pos_nonneg buf pos rest : at_pos buf pos rest -> 0 <= pos.
Proof. intros (pre & -> & ->). zlen_lia. Qed.

Lemma at_pos_byte buf pos b rest : at_pos buf pos (b :: rest) -> byte_at buf pos = Ok (bz b).
Proof.
  intros (pre & -> & ->). unfold byte_at.
  pose proof (zlen_nonneg pre). pose proof (zlen_nonneg rest).
  rewrite (proj2 (Z.leb_le _ _)), (proj2 (Z.ltb_lt _ _)) by zlen_lia. simpl.
  rewrite to_nat_zlen, app_nth2, Nat.sub_diag by lia. done.
Qed.

Lemma at_pos_next buf pos b rest : at_pos buf pos (b :: rest) -> at_pos buf (pos + 1) rest.
Proof. intros H. change (b :: rest) with ([b] ++ rest) in H. now apply at_pos_app in H. Qed.

Lemma at_pos_slice buf pos x y : at_pos buf pos (x ++ y) -> slice buf pos (pos + zlen x) = x.
Proof.
  intros (pre & -> & ->). unfold slice.
  replace (zlen pre + zlen x - zlen pre) with (zlen x) by lia.
  now rewrite !to_nat_zlen, drop_app_length, take_app_length.
Qed.

Lemma at_pos_slice_from buf pos rest : at_pos buf pos rest -> slice_from buf pos = rest.
Proof.
  intros (pre & -> & ->). unfold slice_from.
  rewrite Z.min_l by zlen_lia. now rewrite to_nat_zlen, drop_app_length.
Qed.

Lemma byte_at_range buf pos n : byte_at buf pos = Ok n -> 0 <= n < 256 /\ 0 <= pos < zlen buf.
Proof.
  unfold byte_at. intros H. case_if; [|done]. inv_ok. zbool.
  split; [apply bz_range|lia].
Qed.

(** ** Big-endian integers: [struct.pack] and [struct.unpack_from] *)

(** The [k] big-endian bytes of [n]. *)
Fixpoint be_bytes (k : nat) (n : Z) : bytes :=
  match k with
  | O => []
  | S k' => be_bytes k' (n / 256) ++ [zb (n mod 256)]
  end.

Definition be_val (bs : bytes) : Z := fold_left (fun acc b => acc * 256 + bz b) bs 0.

(** [pack k n] is [struct.pack] with a big-endian unsigned format of [k] bytes (B, H, I);
    [unpack k buf pos] is [struct.unpack_from] with it. *)
Definition pack (k : nat) (n : Z) : res bytes :=
  if (0 <=? n) && (n <? 256 ^ Z.of_nat k) then Ok (be_bytes k n) else Err StructError.

Definition unpack (k : nat) (buf : bytes) (pos : Z) : res Z :=
  if (0 <=? pos) && (pos + Z.of_nat k <=? zlen buf)
  then Ok (be_val (slice buf pos (pos + Z.of_nat k)))
  else Err StructError.

Lemma be_bytes_length k n : length (be_bytes k n) = k.
Proof. revert n; induction k; intros; simpl; [done|]. rewrite length_app, IHk; simpl; lia. Qed.

Lemma be_bytes_zlen k n : zlen (be_bytes k n) = Z.of_nat k.
Proof. unfold zlen. now rewrite be_bytes_length. Qed.

Lemma be_val_snoc bs b : be_val (bs ++ [b]) = be_val bs * 256 + bz b.
Proof. unfold be_val. now rewrite fold_left_app. Qed.

Lemma be_val_bytes k n : 0 <= n < 256 ^ Z.of_nat k -> be_val (be_bytes k n) = n.
Proof.
  revert n; induction k as [|k IH]; intros n Hn.
  - change (256 ^ Z.of_nat 0) with 1 in Hn. change (0 = n). lia.
  - cbn [be_bytes]. rewrite be_val_snoc, bz_zb by (apply Z.mod_pos_bound; lia).
    rewrite IH.
    + rewrite (Z.div_mod n 256) at 3 by lia. lia.
    + rewrite Nat2Z.inj_succ, Z.pow_succ_r in Hn by lia.
      split; [apply Z.div_pos; lia|apply Z.div_lt_upper_bound; lia].
Qed.

Lemma be_val_range bs : 0 <= be_val bs < 256 ^ zlen bs.
Proof.
  induction bs as [|b bs IH] using rev_ind; [done|].
  rewrite be_val_snoc, zlen_app. change (zlen [b]) with 1.
  rewrite Z.pow_add_r by zlen_lia. change (256 ^ 1) with 256.
  pose proof (bz_range b). lia.
Qed.

Lemma pack_Ok k n bs :
  pack k n = Ok bs -> 0 <= n < 256 ^ Z.of_nat k /\ bs = be_bytes k n /\ zlen bs = Z.of_nat k.
Proof.
  unfold pack. intros H. case_if; [|done]. inv_ok. zbool. now rewrite be_bytes_zlen.
Qed.

Lemma unpack_pack k n bs buf pos rest :
  pack k n = Ok bs -> at_pos buf pos (bs ++ rest) -> unpack k buf pos = Ok n.
Proof.
  intros (Hn & -> & Hlen)%pack_Ok Hat. unfold unpack.
  pose proof (at_pos_len _ _ _ Hat). pose proof (at_pos_nonneg _ _ _ Hat).
  rewrite (proj2 (Z.leb_le _ _)), (proj2 (Z.leb_le _ _)) by zlen_lia. simpl.
  rewrite <-Hlen, (at_pos_slice _ _ _ _ Hat). now rewrite be_val_bytes.
Qed.

Lemma unpack_range k buf pos n : unpack k buf pos = Ok n -> 0 <= n < 256 ^ Z.of_nat k.
Proof.
  unfold unpack. intros H. case_if; [|done]. inv_ok. zbool.
  pose proof (be_val_range (slice buf pos (pos + Z.of_nat k))) as Hr.
  unfold slice in *. replace (pos + Z.of_nat k - pos) with (Z.of_nat k) in * by lia.
  unfold zlen in *. rewrite length_take, length_drop in Hr.
  replace (Z.of_nat (_ `min` _)%nat) with (Z.of_nat k) in Hr by lia. done.
Qed.

(** ** Strings

    A Python [str] is the sequence of its code points.  [py "..."] writes an ASCII one. *)

Abbreviation pystr := (list Z).

Definition py (s : string) : pystr :=
  map (fun c => Z.of_N (N_of_ascii c)) (list_ascii_of_string s).

(** ** Insertion-ordered dictionaries

    A Python [dict] whose iteration order matters is the list of its items in insertion
    order: assigning to a present key keeps its place, a new key goes to the end. *)

Abbreviation dict K V := (list (K * V)).

Section dict.
Context {K : Type} `{EqDecision K} {V : Type}.
Implicit Types (d : dict K V) (k : K) (v : V).

(** [d.get(k)] *)
Fixpoint dict_get (d : dict K V) (k : K) : option V :=
  match d with
  | [] => None
  | (k', v) :: d' => if decide (k = k') then Some v else dict_get d' k
  end.

(** [d[k] = v] *)
Fixpoint dict_set (d : dict K V) (k : K) (v : V) : dict K V :=
  match d with
  | [] => [(k, v)]
  | (k', v') :: d' => if decide (k = k') then (k', v) :: d' else (k', v') :: dict_set d' k v
  end.

(** [d.pop(k, None)], the remaining dictionary *)
Fixpoint dict_del (d : dict K V) (k : K) : dict K V :=
  match d with
  | [] => []
  | (k', v') :: d' => if decide (k = k') then d' else (k', v') :: dict_del d' k
  end.

(** [d.update(d')] *)
Definition dict_update (d d' : dict K V) : dict K V :=
  fold_left (fun acc kv => dict_set acc kv.1 kv.2) d' d.

(** [{k: v for k, v in l if v is not None}] *)
Definition dict_of (l : list (K * option V)) : dict K V :=
  fold_left (fun acc kv => match kv.2 with Some v => dict_set acc kv.1 v | None => acc end) l [].

Definition keys (d : dict K V) : list K := map fst d.

Lemma dict_get_None d k : dict_get d k = None <-> k ∉ keys d.
Proof.
  induction d as [|[k' v] d IH]; simpl; [split; [set_solver|done]|].
  case_decide; subst; [split; [done|set_solver]|]. rewrite IH. set_solver.
Qed.

Lemma dict_get_Some_elem d k v : dict_get d k = Some v -> (k, v) ∈ d.
Proof. induction d as [|[k' v'] d IH]; simpl; [done|]. case_decide; intros; simplify_eq; set_solver. Qed.

Lemma dict_get_elem d k v : NoDup (keys d) -> (k, v) ∈ d -> dict_get d k = Some v.
Proof.
  induction d as [|[k' v'] d IH]; simpl; [set_solver|].
  intros [Hk Hnd]%NoDup_cons [?|Hin]%elem_of_cons; simplify_eq; [by rewrite decide_True|].
  rewrite decide_False; [auto|]. intros ->. apply Hk.
  apply list_elem_of_In, in_map_iff. exists (k', v). split; [done|now apply list_elem_of_In].
Qed.

Lemma dict_get_set d k k' v :
  dict_get (dict_set d k v) k' = if decide (k' = k) then Some v else dict_get d k'.
Proof.
  induction d as [|[k'' v''] d IH]; simpl; [repeat case_decide; congruence|].
  repeat case_decide; simplify_eq/=; repeat case_decide; congruence.
Qed.

Lemma keys_set_new d k v : k ∉ keys d -> dict_set d k v = d ++ [(k, v)].
Proof.
  induction d as [|[k' v'] d IH]; simpl; [done|]. intros Hk.
  rewrite decide_False by set_solver. rewrite IH by set_solver. done.
Qed.

Lemma dict_set_last d k v v' : k ∉ keys d -> dict_set (d ++ [(k, v)]) k v' = d ++ [(k, v')].
Proof.
  induction d as [|[k' w] d IH]; simpl; intros Hk; [by rewrite decide_True|].
  rewrite decide_False by set_solver. rewrite IH by set_solver. done.
Qed.

Lemma keys_app d d' : keys (d ++ d') = keys d ++ keys d'.
Proof. apply map_app. Qed.

Lemma keys_dict_set d k v : keys (dict_set d k v) = if decide (k ∈ keys d) then keys d else keys d ++ [k].
Proof.
  case_decide as Hin.
  - induction d as [|[k' v'] d IH]; simpl in *; [set_solver|]. case_decide; simpl; [done|].
    f_equal. apply IH. set_solver.
  - rewrite keys_set_new by done. apply keys_app.
Qed.

Lemma NoDup_dict_set d k v : NoDup (keys d) -> NoDup (keys (dict_set d k v)).
Proof.
  intros Hnd. rewrite keys_dict_set. case_decide as Hin; [done|].
  apply NoDup_app. repeat split; [done| |apply NoDup_singleton]. set_solver.
Qed.

Lemma dict_get_app d d' k :
  dict_get (d ++ d') k = match dict_get d k with Some v => Some v | None => dict_get d' k end.
Proof. induction d as [|[k' v] d IH]; simpl; [done|]. by case_decide. Qed.

Lemma dict_del_filter d k : NoDup (keys d) -> dict_del d k = filter (fun kv => kv.1 ≠ k) d.
Proof.
  induction d as [|[k' v] d IH]; simpl; [done|]. intros [Hk Hnd]%NoDup_cons.
  rewrite filter_cons. simpl. case_decide as E; [subst|].
  - rewrite decide_False by naive_solver. clear IH. induction d as [|[k'' w] d IH]; [done|].
    simpl in *. rewrite filter_cons. simpl. apply NoDup_cons in Hnd as [_ Hnd].
    rewrite decide_True by set_solver. f_equal. apply IH; set_solver.
  - rewrite decide_True by naive_solver. f_equal. auto.
Qed.

Lemma elem_of_keys d k : k ∈ keys d <-> exists v, (k, v) ∈ d.
Proof.
  unfold keys. rewrite list_elem_of_In, in_map_iff. setoid_rewrite list_elem_of_In.
  split; [intros ([? v] & <- & ?); eauto|intros [v ?]; now exists (k, v)].
Qed.

(** A comprehension over distinct keys keeps exactly the items that are not [None]. *)
Fixpoint somes (l : list (K * option V)) : dict K V :=
  match l with
  | [] => []
  | (k, Some v) :: l' => (k, v) :: somes l'
  | (_, None) :: l' => somes l'
  end.

Lemma keys_somes l k : k ∈ keys (somes l) -> k ∈ map fst l.
Proof. induction l as [|[k' [v|]] l IH]; simpl; set_solver. Qed.

Lemma NoDup_somes l : NoDup (map fst l) -> NoDup (keys (somes l)).
Proof.
  induction l as [|[k [v|]] l IH]; simpl; [constructor| |]; intros [? ?]%NoDup_cons; auto.
  constructor; [|auto]. intros Hin. by apply keys_somes in Hin.
Qed.

Lemma dict_of_somes l : NoDup (map fst l) -> dict_of l = somes l.
Proof.
  unfold dict_of. intros Hnd.
  enough (forall acc, (forall k, k ∈ keys acc -> k ∉ map fst l) ->
    fold_left (fun acc kv => match kv.2 with Some v => dict_set acc kv.1 v | None => acc end) l acc
    = acc ++ somes l) as E by (apply E; set_solver).
  induction l as [|[k [v|]] l IH]; intros acc Hacc; simpl; [by rewrite app_nil_r| |];
    apply NoDup_cons in Hnd as [Hk Hnd].
  - rewrite keys_set_new by set_solver. rewrite IH; [|done|].
    + by rewrite <-app_assoc.
    + intros k'. rewrite keys_app. set_solver.
  - apply IH; set_solver.
Qed.

Lemma dict_get_somes l k ov : NoDup (map fst l) -> (k, ov) ∈ l -> dict_get (somes l) k = ov.
Proof.
  induction l as [|[k' ov'] l IH]; simpl; [set_solver|].
  intros [Hk Hnd]%NoDup_cons [?|Hin]%elem_of_cons; simplify_eq.
  - destruct ov'; simpl; [by rewrite decide_True|].
    apply dict_get_None. intros ?%keys_somes. done.
  - assert (k ≠ k'). { intros ->. apply Hk, list_elem_of_In, in_map_iff. exists (k', ov).
      split; [done|now apply list_elem_of_In]. }
    destruct ov'; simpl; [rewrite decide_False by done|]; auto.
Qed.

Lemma somes_nil l : somes l = [] <-> Forall (fun kv => kv.2 = None) l.
Proof.
  induction l as [|[k [v|]] l IH]; simpl; [split; constructor| |].
  - split; [done|]. by intros [? ?]%Forall_cons.
  - rewrite IH, Forall_cons. simpl. naive_solver.
Qed.
End dict.

(** ** Bits of a byte

    A property of all 256 byte values is checked by computation. *)

Lemma byte_forall {A} `{EqDecision A} (f g : Z -> A) :
  forallb (fun n => bool_decide (f n = g n)) (seqZ 0 256) = true ->
  forall n, 0 <= n < 256 -> f n = g n.
Proof.
  rewrite forallb_forall. intros H n Hn. apply (bool_decide_eq_true_1 _), H.
  apply list_elem_of_In, elem_of_seqZ. lia.
Qed.

(** Prove an equation about the bits of a byte-valued [n] by checking every value. *)
Ltac byte_check n :=
  match goal with
  | |- ?l = ?r =>
      let f := lazymatch (eval pattern n in l) with ?f n => f end in
      let g := lazymatch (eval pattern n in r) with ?g n => g end in
      apply (byte_forall f g); [vm_compute; reflexivity|lia]
  end.

Lemma land_7f n : 0 <= n < 256 -> Z.land n 0x7F = n mod 128.
Proof. intros Hn. byte_check n. Qed.
Lemma land_80 n : 0 <= n < 256 -> (Z.land n 0x80 =? 0) = (n <? 128).
Proof. intros Hn. byte_check n. Qed.
Lemma lor_80 n : 0 <= n < 128 -> Z.lor n 0x80 = n + 128.
Proof.
  intros Hn. cut ((128 <=? n) || (Z.lor n 0x80 =? n + 128) = true); [lia|].
  byte_check n.
Qed.

(** Equality of two successful results that are pairs. *)
Ltac ok_pair := apply f_equal, f_equal2; [try reflexivity|try lia].

(** ** What a parser raises

    [tame r]: the call raises nothing but the exceptions of a parser; in particular it does not
    stop for lack of fuel. *)

Definition parse_error (e : exn) : bool :=
  match e with
  | ValueError _ | StructError | IndexError | UnicodeDecodeError | PacketTooLargeError _ _ => true
  | _ => false
  end.

Definition tame {A} (r : res A) : Prop := match r with Ok _ => True | Err e => parse_error e = true end.

Lemma tame_Ok {A} (a : A) : tame (Ok a).
Proof. done. Qed.

Lemma tame_bind {A B} (r : res A) (f : A -> res B) :
  tame r -> (forall a, r = Ok a -> tame (f a)) -> tame (x ← r; f x).
Proof. unfold tame. destruct r; simpl; naive_solver. Qed.

Lemma tame_byte_at buf pos : tame (byte_at buf pos).
Proof. unfold byte_at. by case_if. Qed.

Lemma tame_unpack k buf pos : tame (unpack k buf pos).
Proof. unfold unpack. by case_if. Qed.

#[export] Hint Resolve tame_Ok tame_byte_at tame_unpack : py.

(** Walk through binds, conditionals and raises of a call that needs no fuel. *)
Ltac tame :=
  repeat first
    [ solve [auto with py]
    | exact (eq_refl true)
    | apply tame_bind; [|intros [? ?] ?]
    | apply tame_bind; [|intros ? ?]
    | progress cbn beta iota
    | case_if ].

(** ** Counting the entries of a map *)

Section count.
Context {K : Type} `{Countable K} {A : Type}.
Implicit Types (P : K -> A -> bool) (Q : A -> bool) (m : gmap K A).

Definition count_if P m : nat := size (filter (fun kv => P kv.1 kv.2 = true) m).

(** The entries whose value satisfies [Q]. *)
Definition count Q m : nat := count_if (fun _ => Q) m.

Lemma count_if_insert P m k x : m !! k = None -> count_if P (<[k := x]> m) = (count_if P m + Nat.b2n (P k x))%nat.
Proof.
  intros Hk. unfold count_if. rewrite map_filter_insert. cbn. destruct (P k x); cbn.
  - rewrite decide_True by done. rewrite map_size_insert_None; [lia|]. apply map_lookup_filter_None. by left.
  - rewrite decide_False by done. rewrite delete_id by done. lia.
Qed.

Lemma count_if_delete P m k x : m !! k = Some x -> (count_if P (delete k m) + Nat.b2n (P k x))%nat = count_if P m.
Proof.
  intros Hk. rewrite <-(count_if_insert P _ k x) by apply lookup_delete_eq. by rewrite insert_delete_id.
Qed.

Lemma count_if_pos P m k x : m !! k = Some x -> P k x = true -> (0 < count_if P m)%nat.
Proof. intros Hk HP. rewrite <-(count_if_delete P m k x Hk), HP. cbn. lia. Qed.

Lemma count_if_some P m : (0 < count_if P m)%nat -> exists k x, m !! k = Some x /\ P k x = true.
Proof.
  unfold count_if. intros Hc. destruct (map_choose (filter (fun kv : K * A => P kv.1 kv.2 = true) m)) as (k & x & Hl).
  { intros E. rewrite E, map_size_empty in Hc. lia. }
  apply map_lookup_filter_Some in Hl as [Hl HP]. by exists k, x.
Qed.

Lemma count_if_none P m : (forall k x, m !! k = Some x -> P k x = false) -> count_if P m = 0%nat.
Proof.
  intros HP. destruct (count_if P m) eqn:E; [done|].
  destruct (count_if_some P m) as (k & x & Hk & Hx); [lia|]. by rewrite (HP k x Hk) in Hx.
Qed.

Lemma count_insert Q m k x : m !! k = None -> count Q (<[k := x]> m) = (count Q m + Nat.b2n (Q x))%nat.
Proof. apply (count_if_insert (fun _ => Q)). Qed.

Lemma count_delete Q m k x : m !! k = Some x -> (count Q (delete k m) + Nat.b2n (Q x))%nat = count Q m.
Proof. apply (count_if_delete (fun _ => Q)). Qed.

Lemma count_update Q m k x y :
  m !! k = Some x -> (count Q (<[k := y]> m) + Nat.b2n (Q x) = count Q m + Nat.b2n (Q y))%nat.
Proof.
  intros Hk. rewrite <-(count_delete Q m k x Hk), <-insert_delete_eq.
  rewrite count_insert by apply lookup_delete_eq. lia.
Qed.

Lemma count_pos Q m k x : m !! k = Some x -> Q x = true -> (0 < count Q m)%nat.
Proof. apply (count_if_pos (fun _ => Q)). Qed.

Lemma count_some Q m : (0 < count Q m)%nat -> exists k x, m !! k = Some x /\ Q x = true.
Proof. apply (count_if_some (fun _ => Q)). Qed.

Lemma count_none Q m : (forall k x, m !! k = Some x -> Q x = false) -> count Q m = 0%nat.
Proof. apply (count_if_none (fun _ => Q)). Qed.

Lemma count_one Q m i j x y :
  (count Q m <= 1)%nat -> m !! i = Some x -> m !! j = Some y -> Q x = true -> Q y = true -> i = j.
Proof.
  intros Hc Hi Hj Hx Hy. destruct (decide (i = j)) as [|Hne]; [done|].
  pose proof (count_delete Q m i x Hi) as E. rewrite Hx in E. cbn in E.
  assert (0 < count Q (delete i m))%nat by (apply (count_pos Q _ j y); [by rewrite lookup_delete_ne|done]).
  lia.
Qed.

Lemma count_empty Q : count Q (∅ : gmap K A) = 0%nat.
Proof. apply count_none. intros k x Hk. by rewrite lookup_empty in Hk. Qed.

End count.
