(* ===== verification/Utf8.v ===== *)
(** * UTF-8

    [str.encode("utf-8")] and strict [bytes.decode("utf-8")], the two built-ins the wire
    helpers rely on.  A code point is encoded in one to four bytes; surrogates cannot be
    encoded.  The decoder accepts exactly the well-formed sequences (no overlong forms, no
    surrogates, nothing above U+10FFFF).  The two round trips hold with no side condition. *)

From S2P Require Import Prelude.

Definition is_surrogate (c : Z) : bool := (0xD800 <=? c) && (c <=? 0xDFFF).

Definition encode_cp (c : Z) : res bytes :=
  if c <? 0 then Err UnicodeEncodeError
  else if c <? 0x80 then Ok [zb c]
  else if c <? 0x800 then Ok [zb (0xC0 + c / 64); zb (0x80 + c mod 64)]
  else if c <? 0x10000 then
    if is_surrogate c then Err UnicodeEncodeError
    else Ok [zb (0xE0 + c / 4096); zb (0x80 + c / 64 mod 64); zb (0x80 + c mod 64)]
  else if c <? 0x110000 then
    Ok [zb (0xF0 + c / 262144); zb (0x80 + c / 4096 mod 64); zb (0x80 + c / 64 mod 64);
        zb (0x80 + c mod 64)]
  else Err UnicodeEncodeError.

Fixpoint utf8_encode (s : pystr) : res bytes :=
  match s with
  | [] => Ok []
  | c :: s' => b ← encode_cp c; bs ← utf8_encode s'; Ok (b ++ bs)
  end.

(** Continuation byte [10xxxxxx]. *)
Definition cont (b : byte) : bool := (0x80 <=? bz b) && (bz b <? 0xC0).

Definition cp2 (b0 b1 : byte) : Z := (bz b0 - 0xC0) * 64 + (bz b1 - 0x80).
Definition cp3 (b0 b1 b2 : byte) : Z :=
  (bz b0 - 0xE0) * 4096 + (bz b1 - 0x80) * 64 + (bz b2 - 0x80).
Definition cp4 (b0 b1 b2 b3 : byte) : Z :=
  (bz b0 - 0xF0) * 262144 + (bz b1 - 0x80) * 4096 + (bz b2 - 0x80) * 64 + (bz b3 - 0x80).

Fixpoint utf8_decode (bs : bytes) : res pystr :=
  match bs with
  | [] => Ok []
  | b0 :: r =>
    if bz b0 <? 0x80 then s ← utf8_decode r; Ok (bz b0 :: s)
    else if bz b0 <? 0xC2 then Err UnicodeDecodeError
    else if bz b0 <? 0xE0 then
      match r with
      | b1 :: r1 =>
        if cont b1 then s ← utf8_decode r1; Ok (cp2 b0 b1 :: s) else Err UnicodeDecodeError
      | _ => Err UnicodeDecodeError
      end
    else if bz b0 <? 0xF0 then
      match r with
      | b1 :: b2 :: r2 =>
        if cont b1 && cont b2 && (0x800 <=? cp3 b0 b1 b2) && negb (is_surrogate (cp3 b0 b1 b2))
        then s ← utf8_decode r2; Ok (cp3 b0 b1 b2 :: s) else Err UnicodeDecodeError
      | _ => Err UnicodeDecodeError
      end
    else if bz b0 <? 0xF5 then
      match r with
      | b1 :: b2 :: b3 :: r3 =>
        if cont b1 && cont b2 && cont b3 && (0x10000 <=? cp4 b0 b1 b2 b3)
           && (cp4 b0 b1 b2 b3 <? 0x110000)
        then s ← utf8_decode r3; Ok (cp4 b0 b1 b2 b3 :: s) else Err UnicodeDecodeError
      | _ => Err UnicodeDecodeError
      end
    else Err UnicodeDecodeError
  end.

(** ** Decoding an encoded code point *)

Ltac dmlia := Z.div_mod_to_equations; lia.

Ltac bz_bytes :=
  repeat match goal with
  | |- context [bz (zb ?n)] => rewrite (bz_zb n) by dmlia
  end.

(** Decide the conditional at the head of the goal by arithmetic. *)
Ltac if_lia :=
  match goal with
  | |- context [if ?b then _ else _] =>
      first [ assert (b = true) as -> by (unfold cont, is_surrogate, cp2, cp3, cp4; bz_bytes; dmlia)
            | assert (b = false) as -> by (unfold cont, is_surrogate, cp2, cp3, cp4; bz_bytes; dmlia) ]
  end.

Lemma utf8_decode_cp c b rest :
  encode_cp c = Ok b -> utf8_decode (b ++ rest) = (s ← utf8_decode rest; Ok (c :: s)).
Proof.
  unfold encode_cp, is_surrogate. intros H.
  repeat (case_if; [try done|]); try done; zbool; inv_ok;
    cbn [app utf8_decode]; bz_bytes; repeat if_lia; [done|..];
    match goal with |- context [Ok (?x :: _)] =>
      lazymatch x with c => fail | _ =>
        replace x with c by (unfold cp2, cp3, cp4; bz_bytes; dmlia) end
    end; done.
Qed.

Lemma utf8_decode_encode s bs : utf8_encode s = Ok bs -> utf8_decode bs = Ok s.
Proof.
  revert bs; induction s as [|c s IH]; simpl; intros bs H; inv_ok; [done|].
  match goal with H : encode_cp c = Ok _ |- _ => rewrite (utf8_decode_cp _ _ _ H) end.
  erewrite IH by done. done.
Qed.

(** ** Encoding a decoded sequence *)

Ltac zb_eq :=
  match goal with
  | |- zb _ = ?b => apply bz_inj; rewrite bz_zb by dmlia; dmlia
  end.

Lemma utf8_encode_decode bs s : utf8_decode bs = Ok s -> utf8_encode s = Ok bs.
Proof.
  assert (forall n bs s, (length bs < n)%nat -> utf8_decode bs = Ok s -> utf8_encode s = Ok bs)
    as Hn; [|eauto using Nat.lt_succ_diag_r].
  clear bs s. intros n; induction n as [|n IH]; intros bs s Hlen H; [lia|].
  destruct bs as [|b0 r]; [simpl in H; by inv_ok|]. pose proof (bz_range b0).
  cbn [utf8_decode] in H. cbn [length] in Hlen.
  repeat first [ case_if
               | match goal with H : match ?l with _ => _ end = Ok _ |- _ => destruct l as [|? ?] end ];
    try done; zbool; inv_ok; cbn [length] in Hlen; simpl;
    match goal with H : utf8_decode ?r = Ok ?s |- _ =>
      rewrite (IH r s) by first [exact H | cbn [length] in *; lia] end;
    unfold encode_cp, cont, is_surrogate, cp2, cp3, cp4 in *; zbool;
    repeat match goal with b : byte |- _ => lazymatch goal with _ : 0 <= bz b < 256 |- _ => fail
           | _ => pose proof (bz_range b) end end;
    repeat if_lia; simpl; repeat f_equal; zb_eq.
Qed.

Lemma utf8_encode_inj s s' bs : utf8_encode s = Ok bs -> utf8_encode s' = Ok bs -> s = s'.
Proof. intros H%utf8_decode_encode H'%utf8_decode_encode. congruence. Qed.

Lemma tame_utf8_decode bs : tame (utf8_decode bs).
Proof.
  assert (forall n bs, (length bs < n)%nat -> tame (utf8_decode bs)) as Hn;
    [|eauto using Nat.lt_succ_diag_r].
  clear bs. intros n; induction n as [|n IH]; intros bs Hlen; [lia|].
  destruct bs as [|b0 r]; [done|]. cbn [length utf8_decode] in *.
  repeat first [ exact (eq_refl true) | case_if
               | match goal with |- tame (match ?l with _ => _ end) => destruct l as [|? ?] end
               | apply tame_bind; [apply IH; cbn [length] in *; lia|done] ].
Qed.
#[export] Hint Resolve tame_utf8_decode : py.
