(* ===== verification/Wire.v ===== *)
(** * Wire primitives ([_internal/packets/_wire.py])

    Variable-length integers, UTF-8 strings and binary fields.  Each encoder is shown to be
    the inverse of its decoder at any position of any buffer, and the decoders to stay inside
    the buffer they read. *)

From S2P Require Import Prelude Utf8.

Definition MAX_MQTT_VARINT : Z := 268435455.

(** The [while True] loop of [encode_varint]: one byte per turn.  Four turns are enough for
    every accepted value ([encode_varint_total]). *)
Fixpoint encode_varint_loop (fuel : nat) (value : Z) : res bytes :=
  match fuel with
  | O => Err OutOfFuel
  | S fuel' =>
    let byte := Z.land value 0x7F in
    let value' := Z.shiftr value 7 in
    let byte' := if negb (value' =? 0) then Z.lor byte 0x80 else byte in
    b ← byte_of byte';
    if value' =? 0 then Ok [b]
    else rest ← encode_varint_loop fuel' value'; Ok (b :: rest)
  end.

Definition encode_varint (value : Z) : res bytes :=
  if (value <? 0) || (MAX_MQTT_VARINT <? value)
  then Err (ValueError "out of varint range")
  else encode_varint_loop 4 value.

(** The [for i in range(4)] loop of [decode_varint], from turn [i] with [n] turns left. *)
Fixpoint decode_varint_loop (n : nat) (buf : bytes) (offset i multiplier value : Z) : res (Z * Z) :=
  match n with
  | O => Err (ValueError "Varint exceeds 4 bytes")
  | S n' =>
    let pos := offset + i in
    if zlen buf <=? pos then Err (ValueError "Buffer too short for varint")
    else
      byte ← byte_at buf pos;
      let value' := value + Z.land byte 0x7F * multiplier in
      if Z.land byte 0x80 =? 0 then Ok (value', i + 1)
      else decode_varint_loop n' buf offset (i + 1) (multiplier * 128) value'
  end.

Definition decode_varint (buf : bytes) (offset : Z) : res (Z * Z) :=
  decode_varint_loop 4 buf offset 0 1 0.

Definition encode_str (s : pystr) : res bytes :=
  encoded ← utf8_encode s;
  len ← pack 2 (zlen encoded);
  Ok (len ++ encoded).

Definition decode_str (buf : bytes) (offset : Z) : res (pystr * Z) :=
  if zlen buf <? offset + 2 then Err (ValueError "Buffer too short for string length prefix")
  else
    length ← unpack 2 buf offset;
    let end_ := offset + 2 + length in
    if zlen buf <? end_ then Err (ValueError "Buffer too short for string data")
    else
      s ← utf8_decode (slice buf (offset + 2) end_);
      Ok (s, 2 + length).

Definition encode_bytes_field (data : bytes) : res bytes :=
  len ← pack 2 (zlen data);
  Ok (len ++ data).

Definition decode_bytes_field (buf : bytes) (offset : Z) : res (bytes * Z) :=
  if zlen buf <? offset + 2 then Err (ValueError "Buffer too short for bytes length prefix")
  else
    length ← unpack 2 buf offset;
    let end_ := offset + 2 + length in
    if zlen buf <? end_ then Err (ValueError "Buffer too short for bytes data")
    else Ok (slice buf (offset + 2) end_, 2 + length).

(** ** Variable-length integers *)

Lemma land_7f_mod v : Z.land v 0x7F = v mod 128.
Proof. change 0x7F with (Z.ones 7). now rewrite Z.land_ones. Qed.

Lemma shiftr_7_div v : Z.shiftr v 7 = v / 128.
Proof. now rewrite Z.shiftr_div_pow2. Qed.

(** One turn of the encoder. *)
Lemma encode_varint_step fuel v :
  encode_varint_loop (S fuel) v =
    if v / 128 =? 0 then Ok [zb (v mod 128)]
    else rest ← encode_varint_loop fuel (v / 128); Ok (zb (v mod 128 + 128) :: rest).
Proof.
  cbn [encode_varint_loop]. rewrite land_7f_mod, shiftr_7_div.
  pose proof (Z.mod_pos_bound v 128 eq_refl).
  destruct (v / 128 =? 0); cbn [negb]; [|rewrite lor_80 by lia];
    unfold byte_of; rewrite (proj2 (Z.leb_le _ _)), (proj2 (Z.ltb_lt _ _)) by lia; done.
Qed.

(** One turn of the decoder on a byte that is there. *)
Lemma decode_varint_step n buf off i m v b rest :
  at_pos buf (off + i) (b :: rest) ->
  decode_varint_loop (S n) buf off i m v =
    if bz b <? 128 then Ok (v + bz b mod 128 * m, i + 1)
    else decode_varint_loop n buf off (i + 1) (m * 128) (v + bz b mod 128 * m).
Proof.
  intros Hat. cbn [decode_varint_loop].
  pose proof (at_pos_len _ _ _ Hat). pose proof (bz_range b).
  rewrite (proj2 (Z.leb_gt _ _)) by zlen_lia. rewrite (at_pos_byte _ _ _ _ Hat).
  cbn [mbind res_bind]. now rewrite land_7f, land_80 by lia.
Qed.

Lemma decode_encode_varint_loop fuel v enc buf off i m acc rest :
  0 <= v -> encode_varint_loop fuel v = Ok enc ->
  at_pos buf (off + i) (enc ++ rest) ->
  decode_varint_loop fuel buf off i m acc = Ok (acc + v * m, i + zlen enc).
Proof.
  revert v enc i m acc; induction fuel as [|fuel IH]; intros v enc i m acc Hv He Hat; [done|].
  rewrite encode_varint_step in He.
  pose proof (Z.mod_pos_bound v 128 eq_refl).
  case_if; zbool; inv_ok; cbn [app] in Hat.
  - rewrite (decode_varint_step _ _ _ _ _ _ _ _ Hat), bz_zb, (proj2 (Z.ltb_lt _ _)) by lia.
    apply f_equal, f_equal2; [|zlen_lia].
    rewrite Z.mod_mod by lia. rewrite (Z.div_mod v 128) at 2 by lia. rewrite Heqb. ring.
  - rewrite (decode_varint_step _ _ _ _ _ _ _ _ Hat), bz_zb, (proj2 (Z.ltb_ge _ _)) by lia.
    apply at_pos_next in Hat.
    rewrite IH with (v := v / 128) (enc := x) by
      first [done | apply Z.div_pos; lia | now rewrite Z.add_assoc].
    rewrite zlen_cons. rewrite <-Z.add_mod_idemp_r by lia. change (128 mod 128) with 0.
    rewrite Z.add_0_r, Z.mod_mod by lia.
    apply f_equal, f_equal2; [|lia]. rewrite (Z.div_mod v 128) at 3 by lia. ring.
Qed.

(** The encoder accepts exactly the range of the format. *)
Lemma encode_varint_loop_total fuel v :
  0 <= v < 128 ^ Z.of_nat (S fuel) ->
  exists enc, encode_varint_loop (S fuel) v = Ok enc /\ 1 <= zlen enc <= Z.of_nat (S fuel).
Proof.
  revert v; induction fuel as [|fuel IH]; intros v Hv; rewrite encode_varint_step.
  - change (128 ^ Z.of_nat 1) with 128 in Hv. rewrite Z.div_small by lia.
    eexists; split; [done|]. zlen_lia.
  - case_if; zbool; [eexists; split; [done|]; zlen_lia|].
    destruct (IH (v / 128)) as (enc & -> & Hlen).
    + rewrite Nat2Z.inj_succ, Z.pow_succ_r in Hv by lia.
      split; [apply Z.div_pos; lia|apply Z.div_lt_upper_bound; lia].
    + cbn [mbind res_bind]. eexists; split; [done|]. rewrite zlen_cons. lia.
Qed.

Lemma encode_varint_Ok v enc :
  encode_varint v = Ok enc -> 0 <= v <= MAX_MQTT_VARINT /\ encode_varint_loop 4 v = Ok enc.
Proof. unfold encode_varint. intros H. case_if; [done|]. zbool. split; [lia|done]. Qed.

Lemma encode_varint_total v :
  0 <= v <= MAX_MQTT_VARINT -> exists enc, encode_varint v = Ok enc /\ 1 <= zlen enc <= 4.
Proof.
  intros Hv. unfold encode_varint, MAX_MQTT_VARINT in *.
  rewrite (proj2 (Z.ltb_ge _ _)), (proj2 (Z.ltb_ge _ _)) by lia. cbn [orb].
  apply (encode_varint_loop_total 3). change (128 ^ Z.of_nat 4) with 268435456. lia.
Qed.

Lemma encode_varint_zlen v enc : encode_varint v = Ok enc -> 1 <= zlen enc <= 4.
Proof.
  intros H. pose proof (encode_varint_Ok _ _ H) as [Hv _].
  destruct (encode_varint_total v Hv) as (enc' & H' & ?). congruence.
Qed.

Lemma decode_varint_at v enc buf off rest :
  encode_varint v = Ok enc -> at_pos buf off (enc ++ rest) ->
  decode_varint buf off = Ok (v, zlen enc).
Proof.
  intros [Hv He]%encode_varint_Ok Hat. unfold decode_varint.
  rewrite (decode_encode_varint_loop 4 v enc buf off 0 1 0 rest) by
    first [lia | done | now rewrite Z.add_0_r].
  repeat f_equal; lia.
Qed.

Lemma decode_varint_loop_bounds n buf off i m acc v k :
  decode_varint_loop n buf off i m acc = Ok (v, k) -> 0 <= off -> 0 <= i -> 0 <= acc -> 0 <= m ->
  acc <= v <= acc + m * (128 ^ Z.of_nat n - 1) /\
  i + 1 <= k <= i + Z.of_nat n /\ off + k <= zlen buf.
Proof.
  revert i m acc; induction n as [|n IH]; intros i m acc H Hoff Hi Hacc Hm;
    cbn [decode_varint_loop] in H; [done|].
  case_if; [done|]. zbool. inv_ok.
  match goal with H : byte_at _ _ = Ok _ |- _ => apply byte_at_range in H as [Hb Hp] end.
  rewrite land_7f, land_80 in H0 by lia.
  pose proof (Z.mod_pos_bound x 128 eq_refl).
  assert (0 < 128 ^ Z.of_nat n) by (apply Z.pow_pos_nonneg; lia).
  rewrite Nat2Z.inj_succ, Z.pow_succ_r by lia.
  case_if; inv_ok.
  - split; [nia|lia].
  - apply IH in H0; [|lia..]. split; [nia|lia].
Qed.

Lemma decode_varint_bounds buf off v k :
  decode_varint buf off = Ok (v, k) -> 0 <= off ->
  0 <= v <= MAX_MQTT_VARINT /\ 1 <= k <= 4 /\ off + k <= zlen buf.
Proof.
  intros H Hoff. apply decode_varint_loop_bounds in H; [|lia..].
  change (128 ^ Z.of_nat 4) with 268435456 in H. unfold MAX_MQTT_VARINT. lia.
Qed.

(** ** Strings and binary fields *)

Lemma encode_str_Ok s bs :
  encode_str s = Ok bs ->
  exists encoded, utf8_encode s = Ok encoded /\ bs = be_bytes 2 (zlen encoded) ++ encoded /\
    zlen encoded < 65536 /\ pack 2 (zlen encoded) = Ok (be_bytes 2 (zlen encoded)).
Proof.
  unfold encode_str. intros H. inv_ok.
  match goal with H : pack _ _ = Ok _ |- _ => pose proof (pack_Ok _ _ _ H) as (? & -> & ?) end.
  eexists. repeat split; [done|zlen_lia|done].
Qed.

Lemma encode_bytes_field_Ok d bs :
  encode_bytes_field d = Ok bs ->
  bs = be_bytes 2 (zlen d) ++ d /\ zlen d < 65536 /\ pack 2 (zlen d) = Ok (be_bytes 2 (zlen d)).
Proof.
  unfold encode_bytes_field. intros H. inv_ok.
  match goal with H : pack _ _ = Ok _ |- _ => pose proof (pack_Ok _ _ _ H) as (? & -> & ?) end.
  repeat split; [zlen_lia|done].
Qed.

(** Reading a two-byte length prefix and the data after it. *)
Lemma prefixed_at (d : bytes) buf off rest :
  pack 2 (zlen d) = Ok (be_bytes 2 (zlen d)) ->
  at_pos buf off ((be_bytes 2 (zlen d) ++ d) ++ rest) ->
  (zlen buf <? off + 2) = false /\ unpack 2 buf off = Ok (zlen d) /\
  (zlen buf <? off + 2 + zlen d) = false /\ slice buf (off + 2) (off + 2 + zlen d) = d.
Proof.
  intros Hp Hat. rewrite <-app_assoc in Hat.
  pose proof (unpack_pack _ _ _ _ _ _ Hp Hat). pose proof (at_pos_len _ _ _ Hat) as Hlen.
  apply at_pos_app in Hat. rewrite be_bytes_zlen in Hat. change (Z.of_nat 2) with 2 in Hat.
  rewrite !zlen_app, be_bytes_zlen in Hlen.
  repeat split; [apply Z.ltb_ge; zlen_lia|done|apply Z.ltb_ge; zlen_lia|].
  exact (at_pos_slice _ _ _ _ Hat).
Qed.

Lemma decode_str_at s enc buf off rest :
  encode_str s = Ok enc -> at_pos buf off (enc ++ rest) -> decode_str buf off = Ok (s, zlen enc).
Proof.
  intros (d & Hd & -> & Hlt & Hp)%encode_str_Ok Hat. unfold decode_str.
  destruct (prefixed_at _ _ _ _ Hp Hat) as (-> & -> & E3 & E4).
  cbn [mbind res_bind]. rewrite E3, E4, (utf8_decode_encode _ _ Hd). cbn [mbind res_bind].
  now rewrite zlen_app, be_bytes_zlen.
Qed.

Lemma decode_bytes_field_at d enc buf off rest :
  encode_bytes_field d = Ok enc -> at_pos buf off (enc ++ rest) ->
  decode_bytes_field buf off = Ok (d, zlen enc).
Proof.
  intros (-> & Hlt & Hp)%encode_bytes_field_Ok Hat. unfold decode_bytes_field.
  destruct (prefixed_at _ _ _ _ Hp Hat) as (-> & -> & E3 & E4).
  cbn [mbind res_bind]. rewrite E3, E4. now rewrite zlen_app, be_bytes_zlen.
Qed.

Lemma decode_str_bounds buf off s n :
  decode_str buf off = Ok (s, n) -> 2 <= n /\ off + n <= zlen buf.
Proof.
  unfold decode_str. intros H. case_if; [done|]. inv_ok. case_if; [done|]. inv_ok. zbool.
  match goal with H : unpack _ _ _ = Ok _ |- _ => apply unpack_range in H end. lia.
Qed.

Lemma decode_bytes_field_bounds buf off d n :
  decode_bytes_field buf off = Ok (d, n) -> 2 <= n /\ off + n <= zlen buf.
Proof.
  unfold decode_bytes_field. intros H. case_if; [done|]. inv_ok. case_if; [done|]. inv_ok. zbool.
  match goal with H : unpack _ _ _ = Ok _ |- _ => apply unpack_range in H end. lia.
Qed.

(** A field that was read can be written back. *)
Lemma pack_unpack2 buf off n : unpack 2 buf off = Ok n -> pack 2 n = Ok (be_bytes 2 n).
Proof.
  intros H%unpack_range. unfold pack.
  now rewrite (proj2 (Z.leb_le _ _)), (proj2 (Z.ltb_lt _ _)) by lia.
Qed.

Lemma zlen_slice buf a b : 0 <= a -> a <= b <= zlen buf -> zlen (slice buf a b) = b - a.
Proof. intros Ha Hb. unfold slice, zlen in *. rewrite length_take, length_drop. lia. Qed.

(** ** The decoders need no fuel *)

Lemma tame_decode_varint buf off : tame (decode_varint buf off).
Proof.
  assert (forall n i m acc, tame (decode_varint_loop n buf off i m acc)) as H;
    [|apply H].
  intros n; induction n as [|n IH]; intros; cbn [decode_varint_loop]; tame; apply IH.
Qed.

Lemma tame_decode_str buf off : tame (decode_str buf off).
Proof. unfold decode_str. tame. Qed.

Lemma tame_decode_bytes_field buf off : tame (decode_bytes_field buf off).
Proof. unfold decode_bytes_field. tame. Qed.

#[export] Hint Resolve tame_decode_varint tame_decode_str tame_decode_bytes_field : py.

(** ** The contract of the primitives *)

(** The number of bytes the encoder uses: the shortest encoding. *)
Lemma encode_varint_size v enc :
  encode_varint v = Ok enc ->
  zlen enc = if v <? 128 then 1 else if v <? 16384 then 2 else if v <? 2097152 then 3 else 4.
Proof.
  intros [Hv He]%encode_varint_Ok. unfold MAX_MQTT_VARINT in Hv.
  pose proof (Z.div_mod v 128 ltac:(lia)). pose proof (Z.mod_pos_bound v 128 eq_refl).
  pose proof (Z.div_mod (v / 128) 128 ltac:(lia)). pose proof (Z.mod_pos_bound (v / 128) 128 eq_refl).
  pose proof (Z.div_mod (v / 128 / 128) 128 ltac:(lia)).
  pose proof (Z.mod_pos_bound (v / 128 / 128) 128 eq_refl).
  rewrite !encode_varint_step in He. cbn [encode_varint_loop] in He.
  destruct (v / 128 =? 0) eqn:E1; [|destruct (v / 128 / 128 =? 0) eqn:E2;
    [|destruct (v / 128 / 128 / 128 =? 0) eqn:E3;
      [|destruct (v / 128 / 128 / 128 / 128 =? 0) eqn:E4]]];
    cbn [mbind res_bind] in He; inv_ok; rewrite ?zlen_cons; change (zlen (@nil byte)) with 0;
    zbool; repeat case_if; zbool; lia.
Qed.

(** The variable-length integer encoder accepts exactly 0..268435455 and raises ValueError
    on every other integer; an accepted value takes the least number of bytes (one to four),
    and the decoder reads it back from any position of any buffer that holds those bytes,
    whatever comes before and after them, consuming exactly them. *)
Theorem encode_varint_spec v :
  match encode_varint v with
  | Ok enc =>
      0 <= v <= MAX_MQTT_VARINT /\
      zlen enc = (if v <? 128 then 1 else if v <? 16384 then 2 else if v <? 2097152 then 3 else 4) /\
      forall pre rest, decode_varint (pre ++ enc ++ rest) (zlen pre) = Ok (v, zlen enc)
  | Err e => e = ValueError "out of varint range" /\ ~ (0 <= v <= MAX_MQTT_VARINT)
  end.
Proof.
  destruct (encode_varint v) as [enc|e] eqn:E.
  - split; [apply (encode_varint_Ok _ _ E)|]. split; [by apply encode_varint_size|].
    intros pre rest. apply (decode_varint_at v enc _ _ rest E). by exists pre.
  - split.
    + unfold encode_varint in E. case_if; [congruence|]. zbool.
      destruct (encode_varint_total v ltac:(lia)) as (enc & He & _).
      unfold encode_varint in He. rewrite !(proj2 (Z.ltb_ge _ _)) in He by lia. cbn [orb] in He.
      congruence.
    + intros (enc & He & _)%encode_varint_total. congruence.
Qed.

Lemma be_bytes_val bs : be_bytes (length bs) (be_val bs) = bs.
Proof.
  induction bs as [|b bs IH] using rev_ind; [done|].
  rewrite length_app, be_val_snoc. cbn [length]. rewrite Nat.add_1_r. cbn [be_bytes].
  pose proof (bz_range b).
  rewrite Z.div_add_l, Z.div_small, Z.add_0_r, IH by lia.
  rewrite Z.add_comm, Z_mod_plus_full, Z.mod_small, zb_bz by lia. done.
Qed.

Lemma unpack_pack_inv k buf pos n : unpack k buf pos = Ok n -> pack k n = Ok (slice buf pos (pos + Z.of_nat k)).
Proof.
  intros H. pose proof (unpack_range _ _ _ _ H) as Hr. unfold unpack in H. case_if; [|done].
  inv_ok. zbool. unfold pack. rewrite (proj2 (Z.leb_le _ _)), (proj2 (Z.ltb_lt _ _)) by lia.
  cbn [andb]. f_equal. pose proof (zlen_slice buf pos (pos + Z.of_nat k) ltac:(lia) ltac:(lia)) as Hl.
  rewrite <-(be_bytes_val (slice buf pos (pos + Z.of_nat k))) at 2.
  f_equal. unfold zlen in Hl. lia.
Qed.

Lemma slice_cat buf a b c : 0 <= a -> a <= b <= c -> slice buf a b ++ slice buf b c = slice buf a c.
Proof.
  intros Ha Hb. unfold slice.
  replace (Z.to_nat (c - a)) with (Z.to_nat (b - a) + Z.to_nat (c - b))%nat by lia.
  replace (drop (Z.to_nat b) buf) with (drop (Z.to_nat (b - a)) (drop (Z.to_nat a) buf))
    by (rewrite drop_drop; f_equal; lia).
  generalize (drop (Z.to_nat a) buf) as l. generalize (Z.to_nat (b - a)) as i.
  generalize (Z.to_nat (c - b)) as j. clear.
  intros j i l; revert l; induction i as [|i IH]; intros [|x l]; simpl; [done..|by destruct j|].
  by rewrite IH.
Qed.

Lemma slice_at_app pre buf n :
  slice (pre ++ buf) (zlen pre) (zlen pre + n) = take (Z.to_nat n) buf.
Proof.
  unfold slice. rewrite Z.add_simpl_l, to_nat_zlen. now rewrite drop_app_length.
Qed.

(** A length-prefixed field the decoders accept is the bytes of its encoder. *)
Lemma prefixed_inv pre buf k :
  unpack 2 (pre ++ buf) (zlen pre) = Ok k -> zlen pre + 2 + k <= zlen (pre ++ buf) ->
  let d := slice (pre ++ buf) (zlen pre + 2) (zlen pre + 2 + k) in
  zlen d = k /\
  exists l rest, pack 2 (zlen d) = Ok l /\ zlen l = 2 /\ buf = (l ++ d) ++ rest.
Proof.
  intros H Hl d. pose proof (unpack_range _ _ _ _ H) as Hk. apply unpack_pack_inv in H.
  pose proof (zlen_nonneg pre). change (Z.of_nat 2) with 2 in H.
  assert (zlen d = k) as Hd by (subst d; rewrite zlen_slice; lia).
  split; [done|]. exists (slice (pre ++ buf) (zlen pre) (zlen pre + 2)), (drop (Z.to_nat (2 + k)) buf).
  rewrite Hd. repeat split; [done|rewrite zlen_slice; zlen_lia|].
  subst d. rewrite slice_cat by lia. rewrite <-Z.add_assoc, slice_at_app.
  now rewrite take_drop.
Qed.

(** Decoding a UTF-8 string field is the inverse of encoding one in both directions.  The
    decoder, started anywhere in a buffer, accepts exactly the bytes the encoder writes for some
    string, returns that string and consumes exactly those bytes.  In particular every string
    has one wire form only. *)
Theorem decode_str_spec pre buf s n :
  decode_str (pre ++ buf) (zlen pre) = Ok (s, n) <->
  exists enc rest, buf = enc ++ rest /\ encode_str s = Ok enc /\ n = zlen enc.
Proof.
  split.
  - unfold decode_str. intros H. case_if; [done|]. inv_ok. case_if; [done|]. inv_ok. zbool.
    destruct (prefixed_inv _ _ _ H ltac:(lia)) as (Hd & l & rest & Hl & Hl2 & Hb).
    exists (l ++ slice (pre ++ buf) (zlen pre + 2) (zlen pre + 2 + x)), rest.
    split; [done|]. unfold encode_str. rewrite (utf8_encode_decode _ _ H0). cbn [mbind res_bind].
    rewrite Hl, zlen_app, Hd, Hl2. done.
  - intros (enc & rest & -> & He & ->). apply (decode_str_at s enc _ _ rest He). by exists pre.
Qed.

(** The same for binary fields: the decoder accepts exactly the bytes the encoder writes for
    some data, at any position of any buffer, and returns that data and the length of its
    field; the encoder raises exactly when the data is longer than 65535 bytes. *)
Theorem decode_bytes_field_spec pre buf d n :
  (decode_bytes_field (pre ++ buf) (zlen pre) = Ok (d, n) <->
   exists enc rest, buf = enc ++ rest /\ encode_bytes_field d = Ok enc /\ n = zlen enc) /\
  (encode_bytes_field d = Err StructError <-> 65535 < zlen d).
Proof.
  split; [split|].
  - unfold decode_bytes_field. intros H. case_if; [done|]. inv_ok. case_if; [done|]. inv_ok. zbool.
    destruct (prefixed_inv _ _ _ H ltac:(lia)) as (Hd & l & rest & Hl & Hl2 & Hb).
    exists (l ++ slice (pre ++ buf) (zlen pre + 2) (zlen pre + 2 + x)), rest.
    split; [done|]. unfold encode_bytes_field. rewrite Hl, zlen_app, Hd, Hl2. done.
  - intros (enc & rest & -> & He & ->). apply (decode_bytes_field_at d enc _ _ rest He).
    by exists pre.
  - unfold encode_bytes_field, pack. change (256 ^ Z.of_nat 2) with 65536.
    pose proof (zlen_nonneg d). case_if; zbool; split; intros; simpl in *; try done; try lia.
Qed.
