(* ===== verification/Properties.v ===== *)
(** * MQTT 5.0 properties ([_internal/packets/properties.py])

    [PropertyID] with its wire codes and wire types, the generic block encoder and decoder
    over property dictionaries, the eleven typed property records and their encode and decode
    functions.  The typed functions are instances of one interface, [PropertySet]: a record
    that is written as a list of optional properties and read back from a dictionary.  The
    round trip is proved once, against the interface. *)

From S2P Require Import Prelude Utf8 Wire.

Inductive PropertyID : Type :=
| PAYLOAD_FORMAT_INDICATOR
| MESSAGE_EXPIRY_INTERVAL
| CONTENT_TYPE
| RESPONSE_TOPIC
| CORRELATION_DATA
| SUBSCRIPTION_IDENTIFIER
| SESSION_EXPIRY_INTERVAL
| ASSIGNED_CLIENT_IDENTIFIER
| SERVER_KEEP_ALIVE
| AUTHENTICATION_METHOD
| AUTHENTICATION_DATA
| REQUEST_PROBLEM_INFORMATION
| WILL_DELAY_INTERVAL
| REQUEST_RESPONSE_INFORMATION
| RESPONSE_INFORMATION
| SERVER_REFERENCE
| REASON_STRING
| RECEIVE_MAXIMUM
| TOPIC_ALIAS_MAXIMUM
| TOPIC_ALIAS
| MAXIMUM_QOS
| RETAIN_AVAILABLE
| USER_PROPERTY
| MAXIMUM_PACKET_SIZE
| WILDCARD_SUBSCRIPTION_AVAILABLE
| SUBSCRIPTION_IDENTIFIER_AVAILABLE
| SHARED_SUBSCRIPTION_AVAILABLE.

#[export] Instance PropertyID_eq_dec : EqDecision PropertyID.
Proof. solve_decision. Defined.

(** The value of the enumeration member. *)
Definition pid_code (pid : PropertyID) : Z :=
  match pid with
  | PAYLOAD_FORMAT_INDICATOR => 0x01
  | MESSAGE_EXPIRY_INTERVAL => 0x02
  | CONTENT_TYPE => 0x03
  | RESPONSE_TOPIC => 0x08
  | CORRELATION_DATA => 0x09
  | SUBSCRIPTION_IDENTIFIER => 0x0B
  | SESSION_EXPIRY_INTERVAL => 0x11
  | ASSIGNED_CLIENT_IDENTIFIER => 0x12
  | SERVER_KEEP_ALIVE => 0x13
  | AUTHENTICATION_METHOD => 0x15
  | AUTHENTICATION_DATA => 0x16
  | REQUEST_PROBLEM_INFORMATION => 0x17
  | WILL_DELAY_INTERVAL => 0x18
  | REQUEST_RESPONSE_INFORMATION => 0x19
  | RESPONSE_INFORMATION => 0x1A
  | SERVER_REFERENCE => 0x1C
  | REASON_STRING => 0x1F
  | RECEIVE_MAXIMUM => 0x21
  | TOPIC_ALIAS_MAXIMUM => 0x22
  | TOPIC_ALIAS => 0x23
  | MAXIMUM_QOS => 0x24
  | RETAIN_AVAILABLE => 0x25
  | USER_PROPERTY => 0x26
  | MAXIMUM_PACKET_SIZE => 0x27
  | WILDCARD_SUBSCRIPTION_AVAILABLE => 0x28
  | SUBSCRIPTION_IDENTIFIER_AVAILABLE => 0x29
  | SHARED_SUBSCRIPTION_AVAILABLE => 0x2A
  end.

Definition all_pids : list PropertyID :=
  [PAYLOAD_FORMAT_INDICATOR; MESSAGE_EXPIRY_INTERVAL; CONTENT_TYPE; RESPONSE_TOPIC;
   CORRELATION_DATA; SUBSCRIPTION_IDENTIFIER; SESSION_EXPIRY_INTERVAL;
   ASSIGNED_CLIENT_IDENTIFIER; SERVER_KEEP_ALIVE; AUTHENTICATION_METHOD; AUTHENTICATION_DATA;
   REQUEST_PROBLEM_INFORMATION; WILL_DELAY_INTERVAL; REQUEST_RESPONSE_INFORMATION;
   RESPONSE_INFORMATION; SERVER_REFERENCE; REASON_STRING; RECEIVE_MAXIMUM;
   TOPIC_ALIAS_MAXIMUM; TOPIC_ALIAS; MAXIMUM_QOS; RETAIN_AVAILABLE; USER_PROPERTY;
   MAXIMUM_PACKET_SIZE; WILDCARD_SUBSCRIPTION_AVAILABLE; SUBSCRIPTION_IDENTIFIER_AVAILABLE;
   SHARED_SUBSCRIPTION_AVAILABLE].

(** [PropertyID(n)]: the member of value [n]; the call raises when there is none. *)
Definition PropertyID_of (n : Z) : option PropertyID :=
  List.find (fun pid => pid_code pid =? n) all_pids.

Definition WIRE_BYTE : list PropertyID :=
  [PAYLOAD_FORMAT_INDICATOR; REQUEST_PROBLEM_INFORMATION; REQUEST_RESPONSE_INFORMATION;
   MAXIMUM_QOS; RETAIN_AVAILABLE; WILDCARD_SUBSCRIPTION_AVAILABLE;
   SUBSCRIPTION_IDENTIFIER_AVAILABLE; SHARED_SUBSCRIPTION_AVAILABLE].
Definition WIRE_UINT16 : list PropertyID :=
  [SERVER_KEEP_ALIVE; RECEIVE_MAXIMUM; TOPIC_ALIAS_MAXIMUM; TOPIC_ALIAS].
Definition WIRE_UINT32 : list PropertyID :=
  [MESSAGE_EXPIRY_INTERVAL; SESSION_EXPIRY_INTERVAL; WILL_DELAY_INTERVAL; MAXIMUM_PACKET_SIZE].
Definition WIRE_VARINT : list PropertyID := [SUBSCRIPTION_IDENTIFIER].
Definition WIRE_STR : list PropertyID :=
  [CONTENT_TYPE; RESPONSE_TOPIC; ASSIGNED_CLIENT_IDENTIFIER; AUTHENTICATION_METHOD;
   REASON_STRING; RESPONSE_INFORMATION; SERVER_REFERENCE].
Definition WIRE_BYTES_DATA : list PropertyID := [CORRELATION_DATA; AUTHENTICATION_DATA].

Definition is_in (pid : PropertyID) (l : list PropertyID) : bool := bool_decide (pid ∈ l).

(** The values a property dictionary holds ([dict[PropertyID, Any]]). *)
Inductive pval : Type :=
| PInt (n : Z)
| PBool (b : bool)
| PStr (s : pystr)
| PBytes (b : bytes)
| PPairs (l : list (pystr * pystr)).

#[export] Instance pval_eq_dec : EqDecision pval.
Proof. solve_decision. Defined.

Abbreviation props := (dict PropertyID pval).

(** ** The generic block encoder and decoder *)

(** [int(value)] *)
Definition as_int (v : pval) : res Z :=
  match v with
  | PInt n => Ok n
  | PBool b => Ok (Z.b2z b)
  | _ => Err (TypeError "int")
  end.
Definition as_str (v : pval) : res pystr :=
  match v with PStr s => Ok s | _ => Err (TypeError "str") end.
Definition as_bytes (v : pval) : res bytes :=
  match v with PBytes b => Ok b | _ => Err (TypeError "bytes") end.
Definition as_pairs (v : pval) : res (list (pystr * pystr)) :=
  match v with PPairs l => Ok l | _ => Err (TypeError "pairs") end.

Fixpoint encode_pairs (pid : PropertyID) (l : list (pystr * pystr)) : res bytes :=
  match l with
  | [] => Ok []
  | (k, v) :: l' =>
    p ← byte_of (pid_code pid);
    kb ← encode_str k;
    vb ← encode_str v;
    rest ← encode_pairs pid l';
    Ok ((p :: kb ++ vb) ++ rest)
  end.

(** The body of the loop of [encode_props]. *)
Definition encode_prop (pid : PropertyID) (value : pval) : res bytes :=
  if is_in pid WIRE_BYTE then
    n ← as_int value; p ← pack 1 (pid_code pid); b ← pack 1 n; Ok (p ++ b)
  else if is_in pid WIRE_UINT16 then
    n ← as_int value; p ← pack 1 (pid_code pid); b ← pack 2 n; Ok (p ++ b)
  else if is_in pid WIRE_UINT32 then
    n ← as_int value; p ← pack 1 (pid_code pid); b ← pack 4 n; Ok (p ++ b)
  else if is_in pid WIRE_VARINT then
    n ← as_int value; p ← byte_of (pid_code pid); b ← encode_varint n; Ok (p :: b)
  else if is_in pid WIRE_STR then
    s ← as_str value; p ← byte_of (pid_code pid); b ← encode_str s; Ok (p :: b)
  else if is_in pid WIRE_BYTES_DATA then
    d ← as_bytes value; p ← byte_of (pid_code pid); b ← encode_bytes_field d; Ok (p :: b)
  else if decide (pid = USER_PROPERTY) then
    l ← as_pairs value; encode_pairs pid l
  else Ok [].

Fixpoint encode_props (d : props) : res bytes :=
  match d with
  | [] => Ok []
  | (pid, value) :: d' =>
    b ← encode_prop pid value; rest ← encode_props d'; Ok (b ++ rest)
  end.

Definition encode_props_block (d : props) : res bytes :=
  match d with
  | [] => encode_varint 0
  | _ => raw ← encode_props d; n ← encode_varint (zlen raw); Ok (n ++ raw)
  end.

(** The pairs collected so far: [list(d.get(pid, []))]. *)
Definition pairs_of (o : option pval) : list (pystr * pystr) :=
  match o with Some (PPairs l) => l | _ => [] end.

(** The body of the loop of [decode_props_block], after the property identifier. *)
Definition decode_prop (buf : bytes) (pos : Z) (pid : PropertyID) (d : props) : res (props * Z) :=
  if is_in pid WIRE_BYTE then
    v ← byte_at buf pos; Ok (dict_set d pid (PInt v), pos + 1)
  else if is_in pid WIRE_UINT16 then
    v ← unpack 2 buf pos; Ok (dict_set d pid (PInt v), pos + 2)
  else if is_in pid WIRE_UINT32 then
    v ← unpack 4 buf pos; Ok (dict_set d pid (PInt v), pos + 4)
  else if is_in pid WIRE_VARINT then
    '(v, vn) ← decode_varint buf pos; Ok (dict_set d pid (PInt v), pos + vn)
  else if is_in pid WIRE_STR then
    '(v, sn) ← decode_str buf pos; Ok (dict_set d pid (PStr v), pos + sn)
  else if is_in pid WIRE_BYTES_DATA then
    '(v, bn) ← decode_bytes_field buf pos; Ok (dict_set d pid (PBytes v), pos + bn)
  else if decide (pid = USER_PROPERTY) then
    '(k, kn) ← decode_str buf pos;
    '(v, vn) ← decode_str buf (pos + kn);
    Ok (dict_set d pid (PPairs (pairs_of (dict_get d pid) ++ [(k, v)])), pos + kn + vn)
  else Ok (d, pos).

Fixpoint decode_props_loop (fuel : nat) (buf : bytes) (pos end_ : Z) (d : props) : res props :=
  match fuel with
  | O => Err OutOfFuel
  | S fuel' =>
    if pos <? end_ then
      n ← byte_at buf pos;
      match PropertyID_of n with
      | None => Err (ValueError "Unknown property ID")
      | Some pid =>
        '(d', pos') ← decode_prop buf (pos + 1) pid d;
        decode_props_loop fuel' buf pos' end_ d'
      end
    else Ok d
  end.

(** Every turn of the loop consumes a byte of the buffer, so its length bounds the turns
    ([decode_props_block_fuel]). *)
Definition decode_props_block (buf : bytes) (offset : Z) : res (props * Z) :=
  '(props_len, n) ← decode_varint buf offset;
  let pos := offset + n in
  d ← decode_props_loop (S (length buf)) buf pos (pos + props_len) [];
  Ok (d, n + props_len).

(** ** The block round trip *)

Lemma PropertyID_of_code pid : PropertyID_of (pid_code pid) = Some pid.
Proof. destruct pid; reflexivity. Qed.

Lemma PropertyID_of_Some n pid : PropertyID_of n = Some pid -> n = pid_code pid.
Proof. intros [_ H]%List.find_some. zbool. done. Qed.

Lemma pid_code_range pid : 0 <= pid_code pid < 256.
Proof. destruct pid; simpl; lia. Qed.

Lemma byte_of_pid pid : byte_of (pid_code pid) = Ok (zb (pid_code pid)).
Proof. destruct pid; reflexivity. Qed.

Lemma pack_pid pid : pack 1 (pid_code pid) = Ok [zb (pid_code pid)].
Proof. destruct pid; reflexivity. Qed.

Definition pid_byte (pid : PropertyID) : byte := zb (pid_code pid).

(** What decoding makes of a value: a boolean comes back as the byte 0 or 1. *)
Definition norm_val (v : pval) : pval :=
  match v with PBool b => PInt (Z.b2z b) | _ => v end.

Definition norm (d : props) : props := map (fun kv => (kv.1, norm_val kv.2)) d.

Lemma keys_norm d : keys (norm d) = keys d.
Proof. unfold keys, norm. rewrite map_map. done. Qed.

(** The wire type of a property, as the two chains of tests compute it. *)
Inductive wire : Type := WUint (k : nat) | WVarint | WStr | WData | WPairs.

Definition wire_of (pid : PropertyID) : wire :=
  if is_in pid WIRE_BYTE then WUint 1
  else if is_in pid WIRE_UINT16 then WUint 2
  else if is_in pid WIRE_UINT32 then WUint 4
  else if is_in pid WIRE_VARINT then WVarint
  else if is_in pid WIRE_STR then WStr
  else if is_in pid WIRE_BYTES_DATA then WData
  else WPairs.

Lemma wire_of_pairs pid : wire_of pid = WPairs <-> pid = USER_PROPERTY.
Proof. destruct pid; vm_compute; split; done. Qed.

Lemma encode_prop_wire pid v :
  encode_prop pid v =
    match wire_of pid with
    | WUint k => n ← as_int v; b ← pack k n; Ok (pid_byte pid :: b)
    | WVarint => n ← as_int v; b ← encode_varint n; Ok (pid_byte pid :: b)
    | WStr => s ← as_str v; b ← encode_str s; Ok (pid_byte pid :: b)
    | WData => d ← as_bytes v; b ← encode_bytes_field d; Ok (pid_byte pid :: b)
    | WPairs => l ← as_pairs v; encode_pairs pid l
    end.
Proof. destruct pid; reflexivity. Qed.

Lemma decode_prop_wire buf pos pid d :
  decode_prop buf pos pid d =
    match wire_of pid with
    | WUint 1 => v ← byte_at buf pos; Ok (dict_set d pid (PInt v), pos + 1)
    | WUint k => v ← unpack k buf pos; Ok (dict_set d pid (PInt v), pos + Z.of_nat k)
    | WVarint => '(v, vn) ← decode_varint buf pos; Ok (dict_set d pid (PInt v), pos + vn)
    | WStr => '(v, sn) ← decode_str buf pos; Ok (dict_set d pid (PStr v), pos + sn)
    | WData => '(v, bn) ← decode_bytes_field buf pos; Ok (dict_set d pid (PBytes v), pos + bn)
    | WPairs =>
        '(k, kn) ← decode_str buf pos;
        '(v, vn) ← decode_str buf (pos + kn);
        Ok (dict_set d pid (PPairs (pairs_of (dict_get d pid) ++ [(k, v)])), pos + kn + vn)
    end.
Proof. destruct pid; reflexivity. Qed.

Lemma byte_at_pid buf pos pid rest :
  at_pos buf pos (pid_byte pid :: rest) -> byte_at buf pos = Ok (pid_code pid).
Proof.
  intros Hat. rewrite (at_pos_byte _ _ _ _ Hat). unfold pid_byte.
  now rewrite bz_zb by apply pid_code_range.
Qed.

Lemma unpack_byte buf pos v bs rest :
  pack 1 v = Ok bs -> at_pos buf pos (bs ++ rest) -> byte_at buf pos = Ok v.
Proof.
  intros (Hr & -> & _)%pack_Ok Hat. change (256 ^ Z.of_nat 1) with 256 in Hr.
  cbn [be_bytes app] in Hat. rewrite (at_pos_byte _ _ _ _ Hat), bz_zb by (apply Z.mod_pos_bound; lia).
  now rewrite Z.mod_small.
Qed.

Lemma as_int_norm v n : as_int v = Ok n -> norm_val v = PInt n.
Proof. destruct v; simpl; intros; inv_ok; done. Qed.

(** One property that is not USER_PROPERTY: a single item of the block. *)
Lemma decode_prop_at pid v enc buf pos rest d :
  pid <> USER_PROPERTY -> encode_prop pid v = Ok enc -> at_pos buf pos (enc ++ rest) ->
  byte_at buf pos = Ok (pid_code pid) /\ 0 < zlen enc /\
  decode_prop buf (pos + 1) pid d = Ok (dict_set d pid (norm_val v), pos + zlen enc).
Proof.
  rewrite <-wire_of_pairs, encode_prop_wire, decode_prop_wire. intros Hpid He Hat.
  destruct (wire_of pid) as [k| | | |]; try done; inv_ok;
    split; [exact (byte_at_pid _ _ _ _ Hat)| |exact (byte_at_pid _ _ _ _ Hat)| |
            exact (byte_at_pid _ _ _ _ Hat)| |exact (byte_at_pid _ _ _ _ Hat)|];
    apply at_pos_next in Hat; fold (app x0 rest) in Hat; (split; [zlen_lia|]);
    rewrite zlen_cons.
  - pose proof (pack_Ok _ _ _ H0) as (_ & _ & Hk). rewrite (as_int_norm _ _ H), Hk.
    destruct k as [|[|k]];
      [rewrite (unpack_pack _ _ _ _ _ _ H0 Hat)|rewrite (unpack_byte _ _ _ _ _ H0 Hat)
      |rewrite (unpack_pack _ _ _ _ _ _ H0 Hat)]; cbn [mbind res_bind]; ok_pair.
  - rewrite (as_int_norm _ _ H), (decode_varint_at _ _ _ _ _ H0 Hat). cbn [mbind res_bind].
    ok_pair.
  - destruct v; try discriminate; injection H as <-. rewrite (decode_str_at _ _ _ _ _ H0 Hat). cbn [mbind res_bind].
    ok_pair.
  - destruct v; try discriminate; injection H as <-. rewrite (decode_bytes_field_at _ _ _ _ _ H0 Hat).
    cbn [mbind res_bind]. ok_pair.
Qed.

(** One pair of USER_PROPERTY. *)
Lemma decode_pair_at k v kb vb buf pos rest d :
  encode_str k = Ok kb -> encode_str v = Ok vb ->
  at_pos buf pos (pid_byte USER_PROPERTY :: (kb ++ vb) ++ rest) ->
  byte_at buf pos = Ok (pid_code USER_PROPERTY) /\
  decode_prop buf (pos + 1) USER_PROPERTY d =
    Ok (dict_set d USER_PROPERTY (PPairs (pairs_of (dict_get d USER_PROPERTY) ++ [(k, v)])),
        pos + (1 + zlen kb + zlen vb)).
Proof.
  intros Hk Hv Hat. split; [exact (byte_at_pid _ _ _ _ Hat)|].
  rewrite decode_prop_wire. cbn [wire_of is_in].
  replace (wire_of USER_PROPERTY) with WPairs by reflexivity.
  apply at_pos_next in Hat. rewrite <-app_assoc in Hat.
  rewrite (decode_str_at _ _ _ _ _ Hk Hat). cbn [mbind res_bind]. apply at_pos_app in Hat.
  rewrite (decode_str_at _ _ _ _ _ Hv Hat). cbn [mbind res_bind]. ok_pair.
Qed.

(** One turn of the decoding loop. *)
Lemma decode_props_step fuel buf pos end_ d pid d' pos' :
  pos < end_ -> byte_at buf pos = Ok (pid_code pid) ->
  decode_prop buf (pos + 1) pid d = Ok (d', pos') ->
  decode_props_loop (S fuel) buf pos end_ d = decode_props_loop fuel buf pos' end_ d'.
Proof.
  intros Hlt Hb Hd. cbn [decode_props_loop]. rewrite (proj2 (Z.ltb_lt _ _)) by done.
  rewrite Hb. cbn [mbind res_bind]. rewrite PropertyID_of_code, Hd. done.
Qed.

(** A dictionary as the typed encoders build it: distinct keys, and USER_PROPERTY only with
    at least one pair. *)
Definition props_ok (d : props) : Prop := NoDup (keys d) /\ (USER_PROPERTY, PPairs []) ∉ d.

(** The dictionary decoded after the pairs [ps] of USER_PROPERTY. *)
Definition with_pairs (d : props) (ps : list (pystr * pystr)) : props :=
  match ps with [] => d | _ => d ++ [(USER_PROPERTY, PPairs ps)] end.

Lemma with_pairs_snoc d ps k v :
  USER_PROPERTY ∉ keys d ->
  dict_set (with_pairs d ps) USER_PROPERTY
    (PPairs (pairs_of (dict_get (with_pairs d ps) USER_PROPERTY) ++ [(k, v)]))
  = with_pairs d (ps ++ [(k, v)]).
Proof.
  intros Hd. apply dict_get_None in Hd as Hg. destruct ps as [|p ps]; cbn [with_pairs app].
  - rewrite Hg. now apply keys_set_new.
  - rewrite dict_get_app, Hg. cbn [dict_get]. rewrite decide_True by done. cbn [pairs_of].
    now rewrite dict_set_last.
Qed.

Lemma decode_pairs_loop l enc fuel buf pos end_ d ps rest :
  USER_PROPERTY ∉ keys d -> encode_pairs USER_PROPERTY l = Ok enc ->
  at_pos buf pos (enc ++ rest) -> pos + zlen enc <= end_ -> zlen enc < Z.of_nat fuel ->
  exists fuel', Z.of_nat fuel - zlen enc <= Z.of_nat fuel' /\
  decode_props_loop fuel buf pos end_ (with_pairs d ps) =
  decode_props_loop fuel' buf (pos + zlen enc) end_ (with_pairs d (ps ++ l)).
Proof.
  intros Hd. revert enc fuel pos ps; induction l as [|[k v] l IH]; intros enc fuel pos ps He Hat Hend Hf;
    cbn [encode_pairs] in He; inv_ok.
  - exists fuel. rewrite app_nil_r, Z.add_0_r. split; [zlen_lia|done].
  - rewrite byte_of_pid in H. inv_ok. fold (pid_byte USER_PROPERTY) in Hat.
    cbn [app] in Hat. rewrite <-app_assoc in Hat.
    destruct (decode_pair_at _ _ _ _ _ _ _ (with_pairs d ps) H0 H1 Hat) as [Hb Hdec].
    cbn [app] in *. zlen_norm. destruct fuel as [|fuel]; [zlen_lia|].
    assert (pos < end_) as Hlt by zlen_lia.
    rewrite (decode_props_step _ _ _ _ _ _ _ _ Hlt Hb Hdec), with_pairs_snoc by done.
    apply at_pos_next in Hat. rewrite <-app_assoc in Hat. apply at_pos_app, at_pos_app in Hat.
    replace (pos + 1 + zlen x0 + zlen x1) with (pos + (1 + zlen x0 + zlen x1)) in Hat by lia.
    destruct (IH _ fuel _ (ps ++ [(k, v)]) H2 Hat) as (fuel' & Hf' & ->); [zlen_lia..|].
    exists fuel'. split; [zlen_lia|]. rewrite <-app_assoc. cbn [app].
    f_equal. lia.
Qed.

Lemma decode_props_loop_at d raw fuel buf pos d0 rest :
  NoDup (keys (d0 ++ d)) -> (USER_PROPERTY, PPairs []) ∉ d ->
  encode_props d = Ok raw -> at_pos buf pos (raw ++ rest) -> zlen raw < Z.of_nat fuel ->
  decode_props_loop fuel buf pos (pos + zlen raw) d0 = Ok (d0 ++ norm d).
Proof.
  revert raw fuel pos d0; induction d as [|[pid v] d IH]; intros raw fuel pos d0 Hnd Hne He Hat Hf;
    cbn [encode_props] in He; inv_ok.
  - rewrite app_nil_r, Z.add_0_r. destruct fuel; [zlen_lia|]. cbn. now rewrite Z.ltb_irrefl.
  - rewrite <-app_assoc in Hat. zlen_norm. rename x into enc, x0 into raw.
    assert (pid ∉ keys d0) as Hpid.
    { rewrite keys_app in Hnd. apply NoDup_app in Hnd as (_ & Hdis & _). intros Hin.
      apply (Hdis _ Hin). cbn. set_solver. }
    assert (NoDup (keys ((d0 ++ [(pid, norm_val v)]) ++ d))) as Hnd'.
    { rewrite !keys_app in *. rewrite <-app_assoc. exact Hnd. }
    assert ((USER_PROPERTY, PPairs []) ∉ d) as Hne' by set_solver.
    replace (d0 ++ norm ((pid, v) :: d)) with ((d0 ++ [(pid, norm_val v)]) ++ norm d)
      by (now rewrite <-app_assoc).
    destruct (decide (pid = USER_PROPERTY)) as [->|Hu].
    + rewrite encode_prop_wire in H.
      replace (wire_of USER_PROPERTY) with WPairs in H by reflexivity.
      cbn [mbind res_bind] in H.
      destruct v as [| | | |l]; try discriminate. cbn in H. rename H into Henc.
      destruct (decode_pairs_loop _ _ fuel _ _ (pos + (zlen enc + zlen raw)) d0 [] _ Hpid Henc Hat)
        as (fuel' & Hf' & E); [zlen_lia..|].
      cbn [with_pairs app] in E. rewrite E. apply at_pos_app in Hat.
      destruct l as [|p l]; [set_solver|]. cbn [with_pairs].
      rewrite Z.add_assoc. apply IH; try done. zlen_lia.
    + destruct (decode_prop_at _ _ _ _ _ _ d0 Hu H Hat) as (Hb & Hlen & Hdec).
      destruct fuel as [|fuel]; [zlen_lia|].
      assert (pos < pos + (zlen enc + zlen raw)) as Hlt by zlen_lia.
      rewrite (decode_props_step _ _ _ _ _ _ _ _ Hlt Hb Hdec).
      apply at_pos_app in Hat. rewrite keys_set_new by done. rewrite Z.add_assoc.
      apply IH; try done. zlen_lia.
Qed.

Lemma decode_props_block_at d enc buf off rest :
  props_ok d -> encode_props_block d = Ok enc -> at_pos buf off (enc ++ rest) ->
  decode_props_block buf off = Ok (norm d, zlen enc).
Proof.
  intros [Hnd Hne] He Hat.
  assert (exists raw n, encode_props d = Ok raw /\ encode_varint (zlen raw) = Ok n /\ enc = n ++ raw)
    as (raw & n & Hraw & Hn & ->).
  { destruct d as [|kv d].
    - exists [], enc. by rewrite app_nil_r.
    - unfold encode_props_block in He. inv_ok. eauto 6. }
  rewrite <-app_assoc in Hat. unfold decode_props_block.
  rewrite (decode_varint_at _ _ _ _ _ Hn Hat). cbn [mbind res_bind].
  apply at_pos_app in Hat. pose proof (at_pos_len _ _ _ Hat). pose proof (at_pos_nonneg _ _ _ Hat).
  rewrite (decode_props_loop_at _ _ _ _ _ [] _ Hnd Hne Hraw Hat).
  - cbn [mbind res_bind app]. ok_pair. zlen_lia.
  - unfold zlen in *. rewrite length_app in *. lia.
Qed.

(** ** Termination: the fuel is never exhausted *)

Lemma decode_prop_tame buf pos pid d : tame (decode_prop buf pos pid d).
Proof. unfold decode_prop. tame. Qed.

Lemma decode_prop_progress buf pos pid d d' pos' :
  decode_prop buf pos pid d = Ok (d', pos') -> 0 <= pos -> pos <= pos'.
Proof.
  rewrite decode_prop_wire. intros H Hpos.
  destruct (wire_of pid) as [[|[|k]]| | | |]; inv_ok; try lia;
    repeat match goal with
    | H : decode_varint _ _ = Ok _ |- _ => apply decode_varint_bounds in H; [|lia]
    | H : decode_str _ _ = Ok _ |- _ => apply decode_str_bounds in H
    | H : decode_bytes_field _ _ = Ok _ |- _ => apply decode_bytes_field_bounds in H
    end; lia.
Qed.

Lemma decode_props_loop_tame fuel buf pos end_ d :
  0 <= pos -> zlen buf - pos < Z.of_nat fuel -> (0 < fuel)%nat ->
  tame (decode_props_loop fuel buf pos end_ d).
Proof.
  revert pos d; induction fuel as [|fuel IH]; intros pos d Hpos Hf Hf'; [lia|].
  cbn [decode_props_loop]. case_if; [|done].
  apply tame_bind; [auto with py|]. intros n [? Hn]%byte_at_range.
  destruct (PropertyID_of n) as [pid|]; [|done].
  apply tame_bind; [apply decode_prop_tame|]. intros [d' pos'] Hd.
  apply decode_prop_progress in Hd; [|lia]. apply IH; lia.
Qed.

Lemma decode_props_block_tame buf off : 0 <= off -> tame (decode_props_block buf off).
Proof.
  intros Hoff. unfold decode_props_block. apply tame_bind; [auto with py|].
  intros [len n] H. apply decode_varint_bounds in H; [|done].
  apply tame_bind; [|done]. apply decode_props_loop_tame; unfold zlen; lia.
Qed.

(** ** The typed property records

    One record per packet, with the fields of the source's dataclass. *)

Record ConnectProperties : Type := mkConnectProperties {
  cp_session_expiry_interval : option Z;
  cp_receive_maximum : option Z;
  cp_maximum_packet_size : option Z;
  cp_topic_alias_maximum : option Z;
  cp_request_response_information : option bool;
  cp_request_problem_information : option bool;
  cp_authentication_method : option pystr;
  cp_authentication_data : option bytes;
  cp_user_properties : list (pystr * pystr)
}.

Record WillProperties : Type := mkWillProperties {
  wp_will_delay_interval : option Z;
  wp_payload_format_indicator : option Z;
  wp_message_expiry_interval : option Z;
  wp_content_type : option pystr;
  wp_response_topic : option pystr;
  wp_correlation_data : option bytes;
  wp_user_properties : list (pystr * pystr)
}.

Record ConnAckProperties : Type := mkConnAckProperties {
  cap_session_expiry_interval : option Z;
  cap_receive_maximum : option Z;
  cap_maximum_qos : option Z;
  cap_retain_available : option bool;
  cap_maximum_packet_size : option Z;
  cap_assigned_client_identifier : option pystr;
  cap_topic_alias_maximum : option Z;
  cap_reason_string : option pystr;
  cap_wildcard_subscription_available : option bool;
  cap_subscription_identifier_available : option bool;
  cap_shared_subscription_available : option bool;
  cap_server_keep_alive : option Z;
  cap_response_information : option pystr;
  cap_server_reference : option pystr;
  cap_authentication_method : option pystr;
  cap_authentication_data : option bytes;
  cap_user_properties : list (pystr * pystr)
}.

Record PublishProperties : Type := mkPublishProperties {
  pp_payload_format_indicator : option Z;
  pp_message_expiry_interval : option Z;
  pp_topic_alias : option Z;
  pp_response_topic : option pystr;
  pp_correlation_data : option bytes;
  pp_subscription_identifier : option Z;
  pp_content_type : option pystr;
  pp_user_properties : list (pystr * pystr)
}.

Record PubAckProperties : Type := mkPubAckProperties {
  pap_reason_string : option pystr;
  pap_user_properties : list (pystr * pystr)
}.

Record SubscribeProperties : Type := mkSubscribeProperties {
  sp_subscription_identifier : option Z;
  sp_user_properties : list (pystr * pystr)
}.

Record SubAckProperties : Type := mkSubAckProperties {
  sap_reason_string : option pystr;
  sap_user_properties : list (pystr * pystr)
}.

Record UnsubscribeProperties : Type := mkUnsubscribeProperties {
  up_user_properties : list (pystr * pystr)
}.

Record UnsubAckProperties : Type := mkUnsubAckProperties {
  uap_reason_string : option pystr;
  uap_user_properties : list (pystr * pystr)
}.

Record DisconnectProperties : Type := mkDisconnectProperties {
  dp_session_expiry_interval : option Z;
  dp_reason_string : option pystr;
  dp_server_reference : option pystr;
  dp_user_properties : list (pystr * pystr)
}.

Record AuthProperties : Type := mkAuthProperties {
  ap_authentication_method : option pystr;
  ap_authentication_data : option bytes;
  ap_reason_string : option pystr;
  ap_user_properties : list (pystr * pystr)
}.

#[export] Instance ConnectProperties_eq_dec : EqDecision ConnectProperties.
Proof. solve_decision. Defined.
#[export] Instance WillProperties_eq_dec : EqDecision WillProperties.
Proof. solve_decision. Defined.
#[export] Instance ConnAckProperties_eq_dec : EqDecision ConnAckProperties.
Proof. solve_decision. Defined.
#[export] Instance PublishProperties_eq_dec : EqDecision PublishProperties.
Proof. solve_decision. Defined.
#[export] Instance PubAckProperties_eq_dec : EqDecision PubAckProperties.
Proof. solve_decision. Defined.
#[export] Instance SubscribeProperties_eq_dec : EqDecision SubscribeProperties.
Proof. solve_decision. Defined.
#[export] Instance SubAckProperties_eq_dec : EqDecision SubAckProperties.
Proof. solve_decision. Defined.
#[export] Instance UnsubscribeProperties_eq_dec : EqDecision UnsubscribeProperties.
Proof. solve_decision. Defined.
#[export] Instance UnsubAckProperties_eq_dec : EqDecision UnsubAckProperties.
Proof. solve_decision. Defined.
#[export] Instance DisconnectProperties_eq_dec : EqDecision DisconnectProperties.
Proof. solve_decision. Defined.
#[export] Instance AuthProperties_eq_dec : EqDecision AuthProperties.
Proof. solve_decision. Defined.

(** [_up]: the dictionary with the user properties, if there are any. *)
Definition _up (user_properties : list (pystr * pystr)) : props :=
  match user_properties with [] => [] | l => [(USER_PROPERTY, PPairs l)] end.

(** [_up_tuple] *)
Definition _up_tuple (d : props) : list (pystr * pystr) := pairs_of (dict_get d USER_PROPERTY).

(** [d.get(pid)] at the type of the field, and [bool(d[pid]) if pid in d else None]. *)
Definition get_int (d : props) (pid : PropertyID) : option Z :=
  match dict_get d pid with Some (PInt n) => Some n | _ => None end.
Definition get_str (d : props) (pid : PropertyID) : option pystr :=
  match dict_get d pid with Some (PStr s) => Some s | _ => None end.
Definition get_bytes (d : props) (pid : PropertyID) : option bytes :=
  match dict_get d pid with Some (PBytes b) => Some b | _ => None end.
Definition get_bool (d : props) (pid : PropertyID) : option bool :=
  match dict_get d pid with Some (PInt n) => Some (negb (n =? 0)) | _ => None end.

(** *** Encoders *)

Definition encode_connect_properties (props : option ConnectProperties) : res bytes :=
  match props with
  | None => encode_varint 0
  | Some props =>
    let d := dict_of [
      (SESSION_EXPIRY_INTERVAL, PInt <$> cp_session_expiry_interval props);
      (RECEIVE_MAXIMUM, PInt <$> cp_receive_maximum props);
      (MAXIMUM_PACKET_SIZE, PInt <$> cp_maximum_packet_size props);
      (TOPIC_ALIAS_MAXIMUM, PInt <$> cp_topic_alias_maximum props);
      (REQUEST_RESPONSE_INFORMATION, PBool <$> cp_request_response_information props);
      (REQUEST_PROBLEM_INFORMATION, PBool <$> cp_request_problem_information props);
      (AUTHENTICATION_METHOD, PStr <$> cp_authentication_method props);
      (AUTHENTICATION_DATA, PBytes <$> cp_authentication_data props)] in
    encode_props_block (dict_update d (_up (cp_user_properties props)))
  end.

Definition encode_will_properties (props : option WillProperties) : res bytes :=
  match props with
  | None => encode_varint 0
  | Some props =>
    let d := dict_of [
      (WILL_DELAY_INTERVAL, PInt <$> wp_will_delay_interval props);
      (PAYLOAD_FORMAT_INDICATOR, PInt <$> wp_payload_format_indicator props);
      (MESSAGE_EXPIRY_INTERVAL, PInt <$> wp_message_expiry_interval props);
      (CONTENT_TYPE, PStr <$> wp_content_type props);
      (RESPONSE_TOPIC, PStr <$> wp_response_topic props);
      (CORRELATION_DATA, PBytes <$> wp_correlation_data props)] in
    encode_props_block (dict_update d (_up (wp_user_properties props)))
  end.

Definition encode_connack_properties (props : option ConnAckProperties) : res bytes :=
  match props with
  | None => encode_varint 0
  | Some props =>
    let d := dict_of [
      (SESSION_EXPIRY_INTERVAL, PInt <$> cap_session_expiry_interval props);
      (RECEIVE_MAXIMUM, PInt <$> cap_receive_maximum props);
      (MAXIMUM_QOS, PInt <$> cap_maximum_qos props);
      (RETAIN_AVAILABLE, PBool <$> cap_retain_available props);
      (MAXIMUM_PACKET_SIZE, PInt <$> cap_maximum_packet_size props);
      (ASSIGNED_CLIENT_IDENTIFIER, PStr <$> cap_assigned_client_identifier props);
      (TOPIC_ALIAS_MAXIMUM, PInt <$> cap_topic_alias_maximum props);
      (REASON_STRING, PStr <$> cap_reason_string props);
      (WILDCARD_SUBSCRIPTION_AVAILABLE, PBool <$> cap_wildcard_subscription_available props);
      (SUBSCRIPTION_IDENTIFIER_AVAILABLE, PBool <$> cap_subscription_identifier_available props);
      (SHARED_SUBSCRIPTION_AVAILABLE, PBool <$> cap_shared_subscription_available props);
      (SERVER_KEEP_ALIVE, PInt <$> cap_server_keep_alive props);
      (RESPONSE_INFORMATION, PStr <$> cap_response_information props);
      (SERVER_REFERENCE, PStr <$> cap_server_reference props);
      (AUTHENTICATION_METHOD, PStr <$> cap_authentication_method props);
      (AUTHENTICATION_DATA, PBytes <$> cap_authentication_data props)] in
    encode_props_block (dict_update d (_up (cap_user_properties props)))
  end.

Definition encode_publish_properties (props : option PublishProperties) : res bytes :=
  match props with
  | None => encode_varint 0
  | Some props =>
    let d := dict_of [
      (PAYLOAD_FORMAT_INDICATOR, PInt <$> pp_payload_format_indicator props);
      (MESSAGE_EXPIRY_INTERVAL, PInt <$> pp_message_expiry_interval props);
      (TOPIC_ALIAS, PInt <$> pp_topic_alias props);
      (RESPONSE_TOPIC, PStr <$> pp_response_topic props);
      (CORRELATION_DATA, PBytes <$> pp_correlation_data props);
      (SUBSCRIPTION_IDENTIFIER, PInt <$> pp_subscription_identifier props);
      (CONTENT_TYPE, PStr <$> pp_content_type props)] in
    encode_props_block (dict_update d (_up (pp_user_properties props)))
  end.

Definition encode_puback_properties (props : option PubAckProperties) : res bytes :=
  match props with
  | None => encode_varint 0
  | Some props =>
    let d := match pap_reason_string props with
             | Some v => dict_set [] REASON_STRING (PStr v)
             | None => []
             end in
    encode_props_block (dict_update d (_up (pap_user_properties props)))
  end.

Definition encode_subscribe_properties (props : option SubscribeProperties) : res bytes :=
  match props with
  | None => encode_varint 0
  | Some props =>
    let d := match sp_subscription_identifier props with
             | Some v => dict_set [] SUBSCRIPTION_IDENTIFIER (PInt v)
             | None => []
             end in
    encode_props_block (dict_update d (_up (sp_user_properties props)))
  end.

Definition encode_suback_properties (props : option SubAckProperties) : res bytes :=
  match props with
  | None => encode_varint 0
  | Some props =>
    let d := match sap_reason_string props with
             | Some v => dict_set [] REASON_STRING (PStr v)
             | None => []
             end in
    encode_props_block (dict_update d (_up (sap_user_properties props)))
  end.

Definition encode_unsubscribe_properties (props : option UnsubscribeProperties) : res bytes :=
  match props with
  | None => encode_varint 0
  | Some props =>
    encode_props_block (_up (up_user_properties props))
  end.

Definition encode_unsuback_properties (props : option UnsubAckProperties) : res bytes :=
  match props with
  | None => encode_varint 0
  | Some props =>
    let d := match uap_reason_string props with
             | Some v => dict_set [] REASON_STRING (PStr v)
             | None => []
             end in
    encode_props_block (dict_update d (_up (uap_user_properties props)))
  end.

Definition encode_disconnect_properties (props : option DisconnectProperties) : res bytes :=
  match props with
  | None => encode_varint 0
  | Some props =>
    let d := dict_of [
      (SESSION_EXPIRY_INTERVAL, PInt <$> dp_session_expiry_interval props);
      (REASON_STRING, PStr <$> dp_reason_string props);
      (SERVER_REFERENCE, PStr <$> dp_server_reference props)] in
    encode_props_block (dict_update d (_up (dp_user_properties props)))
  end.

Definition encode_auth_properties (props : option AuthProperties) : res bytes :=
  match props with
  | None => encode_varint 0
  | Some props =>
    let d := dict_of [
      (AUTHENTICATION_METHOD, PStr <$> ap_authentication_method props);
      (AUTHENTICATION_DATA, PBytes <$> ap_authentication_data props);
      (REASON_STRING, PStr <$> ap_reason_string props)] in
    encode_props_block (dict_update d (_up (ap_user_properties props)))
  end.

(** *** Decoders *)

Definition connect_properties_of (d : props) : ConnectProperties := {|
  cp_session_expiry_interval := get_int d SESSION_EXPIRY_INTERVAL;
  cp_receive_maximum := get_int d RECEIVE_MAXIMUM;
  cp_maximum_packet_size := get_int d MAXIMUM_PACKET_SIZE;
  cp_topic_alias_maximum := get_int d TOPIC_ALIAS_MAXIMUM;
  cp_request_response_information := get_bool d REQUEST_RESPONSE_INFORMATION;
  cp_request_problem_information := get_bool d REQUEST_PROBLEM_INFORMATION;
  cp_authentication_method := get_str d AUTHENTICATION_METHOD;
  cp_authentication_data := get_bytes d AUTHENTICATION_DATA;
  cp_user_properties := _up_tuple d
|}.

Definition decode_connect_properties (buf : bytes) (offset : Z) : res (option ConnectProperties * Z) :=
  '(d, n) ← decode_props_block buf offset;
  match d with
  | [] => Ok (None, n)
  | _ => Ok (Some (connect_properties_of d), n)
  end.

Definition will_properties_of (d : props) : WillProperties := {|
  wp_will_delay_interval := get_int d WILL_DELAY_INTERVAL;
  wp_payload_format_indicator := get_int d PAYLOAD_FORMAT_INDICATOR;
  wp_message_expiry_interval := get_int d MESSAGE_EXPIRY_INTERVAL;
  wp_content_type := get_str d CONTENT_TYPE;
  wp_response_topic := get_str d RESPONSE_TOPIC;
  wp_correlation_data := get_bytes d CORRELATION_DATA;
  wp_user_properties := _up_tuple d
|}.

Definition decode_will_properties (buf : bytes) (offset : Z) : res (option WillProperties * Z) :=
  '(d, n) ← decode_props_block buf offset;
  match d with
  | [] => Ok (None, n)
  | _ => Ok (Some (will_properties_of d), n)
  end.

Definition connack_properties_of (d : props) : ConnAckProperties := {|
  cap_session_expiry_interval := get_int d SESSION_EXPIRY_INTERVAL;
  cap_receive_maximum := get_int d RECEIVE_MAXIMUM;
  cap_maximum_qos := get_int d MAXIMUM_QOS;
  cap_retain_available := get_bool d RETAIN_AVAILABLE;
  cap_maximum_packet_size := get_int d MAXIMUM_PACKET_SIZE;
  cap_assigned_client_identifier := get_str d ASSIGNED_CLIENT_IDENTIFIER;
  cap_topic_alias_maximum := get_int d TOPIC_ALIAS_MAXIMUM;
  cap_reason_string := get_str d REASON_STRING;
  cap_wildcard_subscription_available := get_bool d WILDCARD_SUBSCRIPTION_AVAILABLE;
  cap_subscription_identifier_available := get_bool d SUBSCRIPTION_IDENTIFIER_AVAILABLE;
  cap_shared_subscription_available := get_bool d SHARED_SUBSCRIPTION_AVAILABLE;
  cap_server_keep_alive := get_int d SERVER_KEEP_ALIVE;
  cap_response_information := get_str d RESPONSE_INFORMATION;
  cap_server_reference := get_str d SERVER_REFERENCE;
  cap_authentication_method := get_str d AUTHENTICATION_METHOD;
  cap_authentication_data := get_bytes d AUTHENTICATION_DATA;
  cap_user_properties := _up_tuple d
|}.

Definition decode_connack_properties (buf : bytes) (offset : Z) : res (option ConnAckProperties * Z) :=
  '(d, n) ← decode_props_block buf offset;
  match d with
  | [] => Ok (None, n)
  | _ => Ok (Some (connack_properties_of d), n)
  end.

Definition publish_properties_of (d : props) : PublishProperties := {|
  pp_payload_format_indicator := get_int d PAYLOAD_FORMAT_INDICATOR;
  pp_message_expiry_interval := get_int d MESSAGE_EXPIRY_INTERVAL;
  pp_topic_alias := get_int d TOPIC_ALIAS;
  pp_response_topic := get_str d RESPONSE_TOPIC;
  pp_correlation_data := get_bytes d CORRELATION_DATA;
  pp_subscription_identifier := get_int d SUBSCRIPTION_IDENTIFIER;
  pp_content_type := get_str d CONTENT_TYPE;
  pp_user_properties := _up_tuple d
|}.

Definition decode_publish_properties (buf : bytes) (offset : Z) : res (option PublishProperties * Z) :=
  '(d, n) ← decode_props_block buf offset;
  match d with
  | [] => Ok (None, n)
  | _ => Ok (Some (publish_properties_of d), n)
  end.

Definition puback_properties_of (d : props) : PubAckProperties := {|
  pap_reason_string := get_str d REASON_STRING;
  pap_user_properties := _up_tuple d
|}.

Definition decode_puback_properties (buf : bytes) (offset : Z) : res (option PubAckProperties * Z) :=
  '(d, n) ← decode_props_block buf offset;
  match d with
  | [] => Ok (None, n)
  | _ => Ok (Some (puback_properties_of d), n)
  end.

Definition subscribe_properties_of (d : props) : SubscribeProperties := {|
  sp_subscription_identifier := get_int d SUBSCRIPTION_IDENTIFIER;
  sp_user_properties := _up_tuple d
|}.

Definition decode_subscribe_properties (buf : bytes) (offset : Z) : res (option SubscribeProperties * Z) :=
  '(d, n) ← decode_props_block buf offset;
  match d with
  | [] => Ok (None, n)
  | _ => Ok (Some (subscribe_properties_of d), n)
  end.

Definition suback_properties_of (d : props) : SubAckProperties := {|
  sap_reason_string := get_str d REASON_STRING;
  sap_user_properties := _up_tuple d
|}.

Definition decode_suback_properties (buf : bytes) (offset : Z) : res (option SubAckProperties * Z) :=
  '(d, n) ← decode_props_block buf offset;
  match d with
  | [] => Ok (None, n)
  | _ => Ok (Some (suback_properties_of d), n)
  end.

Definition unsubscribe_properties_of (d : props) : UnsubscribeProperties := {|
  up_user_properties := _up_tuple d
|}.

Definition decode_unsubscribe_properties (buf : bytes) (offset : Z) : res (option UnsubscribeProperties * Z) :=
  '(d, n) ← decode_props_block buf offset;
  match d with
  | [] => Ok (None, n)
  | _ => Ok (Some (unsubscribe_properties_of d), n)
  end.

Definition unsuback_properties_of (d : props) : UnsubAckProperties := {|
  uap_reason_string := get_str d REASON_STRING;
  uap_user_properties := _up_tuple d
|}.

Definition decode_unsuback_properties (buf : bytes) (offset : Z) : res (option UnsubAckProperties * Z) :=
  '(d, n) ← decode_props_block buf offset;
  match d with
  | [] => Ok (None, n)
  | _ => Ok (Some (unsuback_properties_of d), n)
  end.

Definition disconnect_properties_of (d : props) : DisconnectProperties := {|
  dp_session_expiry_interval := get_int d SESSION_EXPIRY_INTERVAL;
  dp_reason_string := get_str d REASON_STRING;
  dp_server_reference := get_str d SERVER_REFERENCE;
  dp_user_properties := _up_tuple d
|}.

Definition decode_disconnect_properties (buf : bytes) (offset : Z) : res (option DisconnectProperties * Z) :=
  '(d, n) ← decode_props_block buf offset;
  match d with
  | [] => Ok (None, n)
  | _ => Ok (Some (disconnect_properties_of d), n)
  end.

Definition auth_properties_of (d : props) : AuthProperties := {|
  ap_authentication_method := get_str d AUTHENTICATION_METHOD;
  ap_authentication_data := get_bytes d AUTHENTICATION_DATA;
  ap_reason_string := get_str d REASON_STRING;
  ap_user_properties := _up_tuple d
|}.

Definition decode_auth_properties (buf : bytes) (offset : Z) : res (option AuthProperties * Z) :=
  '(d, n) ← decode_props_block buf offset;
  match d with
  | [] => Ok (None, n)
  | _ => Ok (Some (auth_properties_of d), n)
  end.

(** ** The interface of a property record

    A record is written as the list [ps_fields] of its optional properties, with the user
    properties last, and read back from a dictionary by [ps_read].  The laws are what the
    round trip of [encode_X_properties] and [decode_X_properties] needs. *)

Class PropertySet (P : Type) `{EqDecision P} : Type := {
  ps_fields : P -> list (PropertyID * option pval);
  ps_users : P -> list (pystr * pystr);
  ps_read : props -> P;
  ps_encode : option P -> res bytes;
  ps_decode : bytes -> Z -> res (option P * Z);
  ps_empty : somes (ps_fields (ps_read [])) ++ _up (ps_users (ps_read [])) = [];
  ps_NoDup : forall p, NoDup (map fst (ps_fields p) ++ [USER_PROPERTY]);
  ps_read_fields : forall p,
    ps_read (norm (somes (ps_fields p) ++ _up (ps_users p))) = p;
  ps_encode_eq : forall o, ps_encode o =
    match o with
    | None => encode_varint 0
    | Some p => encode_props_block (somes (ps_fields p) ++ _up (ps_users p))
    end;
  ps_decode_eq : forall buf off, ps_decode buf off =
    ('(d, n) ← decode_props_block buf off;
     Ok (match d with [] => None | _ => Some (ps_read d) end, n))
}.
(** *** Building the dictionary *)

Lemma dict_update_up d l : USER_PROPERTY ∉ keys d -> dict_update d (_up l) = d ++ _up l.
Proof.
  intros Hd. destruct l as [|p l]; [by rewrite app_nil_r|]. cbn. now apply keys_set_new.
Qed.

Lemma dict_of_up l users :
  NoDup (map fst l ++ [USER_PROPERTY]) ->
  dict_update (dict_of l) (_up users) = somes l ++ _up users.
Proof.
  intros Hnd. apply NoDup_app in Hnd as (Hnd & Hu & _). rewrite dict_of_somes by done.
  apply dict_update_up. intros Hin%keys_somes. apply (Hu _ Hin). set_solver.
Qed.

(** The value of a key in a list of optional properties, found by computation. *)
Fixpoint field (l : list (PropertyID * option pval)) (pid : PropertyID) : option pval :=
  match l with
  | [] => None
  | (pid', ov) :: l' => if decide (pid = pid') then ov else field l' pid
  end.

Lemma dict_get_norm d pid : dict_get (norm d) pid = norm_val <$> dict_get d pid.
Proof. induction d as [|[k v] d IH]; simpl; [done|]. by case_decide. Qed.

Lemma field_somes l pid : NoDup (map fst l) -> dict_get (somes l) pid = field l pid.
Proof.
  intros Hnd. induction l as [|[k ov] l IH]; [done|]. cbn [map fst] in Hnd.
  apply NoDup_cons in Hnd as [Hk Hnd]. cbn [field]. case_decide as E.
  - subst. destruct ov; cbn [somes dict_get]; [by rewrite decide_True|].
    apply dict_get_None. by intros ?%keys_somes.
  - destruct ov; cbn [somes dict_get]; [rewrite decide_False by done|]; auto.
Qed.

(** Reading a key of the dictionary a record is written as. *)
Lemma dict_get_fields l users pid :
  NoDup (map fst l ++ [USER_PROPERTY]) -> pid <> USER_PROPERTY ->
  dict_get (norm (somes l ++ _up users)) pid = norm_val <$> field l pid.
Proof.
  intros Hnd Hpid. apply NoDup_app in Hnd as (Hnd & _ & _).
  rewrite dict_get_norm, dict_get_app, field_somes by done. f_equal.
  destruct (field l pid); [done|]. destruct users; cbn; [done|]. by rewrite decide_False.
Qed.

Lemma up_tuple_fields l users :
  NoDup (map fst l ++ [USER_PROPERTY]) -> _up_tuple (norm (somes l ++ _up users)) = users.
Proof.
  intros Hnd. apply NoDup_app in Hnd as (_ & Hu & _). unfold _up_tuple.
  rewrite dict_get_norm, dict_get_app.
  rewrite (proj2 (dict_get_None (somes l) USER_PROPERTY)).
  - destruct users; done.
  - intros Hin%keys_somes. apply (Hu _ Hin). set_solver.
Qed.

Ltac nodup_fields := apply (bool_decide_unpack _); vm_compute; exact I.

(** One field of a record read back. *)
Ltac read_field :=
  unfold get_int, get_str, get_bytes, get_bool;
  rewrite dict_get_fields by (nodup_fields || done); cbn [field];
  repeat (rewrite decide_False by done); rewrite decide_True by done;
  match goal with |- _ = ?o => destruct o as [[]|] end; reflexivity.

(** The laws of a record: reading back, and the two functions of the source. *)
Ltac read_record p :=
  destruct p; match goal with |- ?read _ = _ => unfold read end; f_equal;
  first [ read_field | rewrite up_tuple_fields by nodup_fields; reflexivity ].

Ltac encode_record o :=
  destruct o as [?|]; [|reflexivity];
  match goal with |- ?enc _ = _ => unfold enc end;
  first [ rewrite dict_of_up by nodup_fields; reflexivity
        | match goal with |- context [match ?f with _ => _ end] => destruct f end;
          cbn [dict_set]; rewrite dict_update_up by (apply (bool_decide_unpack _); vm_compute; exact I);
          reflexivity
        | rewrite <-dict_update_up by (apply (bool_decide_unpack _); vm_compute; exact I);
          match goal with |- context [_up ?l] => destruct l end; reflexivity ].

Ltac decode_record :=
  match goal with |- ?dec ?buf ?off = _ => unfold dec; destruct (decode_props_block buf off) as [[[|] ?]|] end;
  reflexivity.

Ltac property_set :=
  intros;
  lazymatch goal with
  | |- _ ++ _ = [] => reflexivity
  | |- NoDup _ => nodup_fields
  | |- _ = match ?o with _ => _ end => encode_record o
  | |- _ = mbind _ _ => decode_record
  | |- _ = ?p => read_record p
  end.

#[export] Instance ConnectProperties_PropertySet : PropertySet ConnectProperties.
Proof.
  refine {|
    ps_fields p := [
      (SESSION_EXPIRY_INTERVAL, PInt <$> cp_session_expiry_interval p);
      (RECEIVE_MAXIMUM, PInt <$> cp_receive_maximum p);
      (MAXIMUM_PACKET_SIZE, PInt <$> cp_maximum_packet_size p);
      (TOPIC_ALIAS_MAXIMUM, PInt <$> cp_topic_alias_maximum p);
      (REQUEST_RESPONSE_INFORMATION, PBool <$> cp_request_response_information p);
      (REQUEST_PROBLEM_INFORMATION, PBool <$> cp_request_problem_information p);
      (AUTHENTICATION_METHOD, PStr <$> cp_authentication_method p);
      (AUTHENTICATION_DATA, PBytes <$> cp_authentication_data p)];
    ps_users := cp_user_properties;
    ps_read := connect_properties_of;
    ps_encode := encode_connect_properties;
    ps_decode := decode_connect_properties
  |}; property_set.
Defined.

#[export] Instance WillProperties_PropertySet : PropertySet WillProperties.
Proof.
  refine {|
    ps_fields p := [
      (WILL_DELAY_INTERVAL, PInt <$> wp_will_delay_interval p);
      (PAYLOAD_FORMAT_INDICATOR, PInt <$> wp_payload_format_indicator p);
      (MESSAGE_EXPIRY_INTERVAL, PInt <$> wp_message_expiry_interval p);
      (CONTENT_TYPE, PStr <$> wp_content_type p);
      (RESPONSE_TOPIC, PStr <$> wp_response_topic p);
      (CORRELATION_DATA, PBytes <$> wp_correlation_data p)];
    ps_users := wp_user_properties;
    ps_read := will_properties_of;
    ps_encode := encode_will_properties;
    ps_decode := decode_will_properties
  |}; property_set.
Defined.

#[export] Instance ConnAckProperties_PropertySet : PropertySet ConnAckProperties.
Proof.
  refine {|
    ps_fields p := [
      (SESSION_EXPIRY_INTERVAL, PInt <$> cap_session_expiry_interval p);
      (RECEIVE_MAXIMUM, PInt <$> cap_receive_maximum p);
      (MAXIMUM_QOS, PInt <$> cap_maximum_qos p);
      (RETAIN_AVAILABLE, PBool <$> cap_retain_available p);
      (MAXIMUM_PACKET_SIZE, PInt <$> cap_maximum_packet_size p);
      (ASSIGNED_CLIENT_IDENTIFIER, PStr <$> cap_assigned_client_identifier p);
      (TOPIC_ALIAS_MAXIMUM, PInt <$> cap_topic_alias_maximum p);
      (REASON_STRING, PStr <$> cap_reason_string p);
      (WILDCARD_SUBSCRIPTION_AVAILABLE, PBool <$> cap_wildcard_subscription_available p);
      (SUBSCRIPTION_IDENTIFIER_AVAILABLE, PBool <$> cap_subscription_identifier_available p);
      (SHARED_SUBSCRIPTION_AVAILABLE, PBool <$> cap_shared_subscription_available p);
      (SERVER_KEEP_ALIVE, PInt <$> cap_server_keep_alive p);
      (RESPONSE_INFORMATION, PStr <$> cap_response_information p);
      (SERVER_REFERENCE, PStr <$> cap_server_reference p);
      (AUTHENTICATION_METHOD, PStr <$> cap_authentication_method p);
      (AUTHENTICATION_DATA, PBytes <$> cap_authentication_data p)];
    ps_users := cap_user_properties;
    ps_read := connack_properties_of;
    ps_encode := encode_connack_properties;
    ps_decode := decode_connack_properties
  |}; property_set.
Defined.

#[export] Instance PublishProperties_PropertySet : PropertySet PublishProperties.
Proof.
  refine {|
    ps_fields p := [
      (PAYLOAD_FORMAT_INDICATOR, PInt <$> pp_payload_format_indicator p);
      (MESSAGE_EXPIRY_INTERVAL, PInt <$> pp_message_expiry_interval p);
      (TOPIC_ALIAS, PInt <$> pp_topic_alias p);
      (RESPONSE_TOPIC, PStr <$> pp_response_topic p);
      (CORRELATION_DATA, PBytes <$> pp_correlation_data p);
      (SUBSCRIPTION_IDENTIFIER, PInt <$> pp_subscription_identifier p);
      (CONTENT_TYPE, PStr <$> pp_content_type p)];
    ps_users := pp_user_properties;
    ps_read := publish_properties_of;
    ps_encode := encode_publish_properties;
    ps_decode := decode_publish_properties
  |}; property_set.
Defined.

#[export] Instance PubAckProperties_PropertySet : PropertySet PubAckProperties.
Proof.
  refine {|
    ps_fields p := [
      (REASON_STRING, PStr <$> pap_reason_string p)];
    ps_users := pap_user_properties;
    ps_read := puback_properties_of;
    ps_encode := encode_puback_properties;
    ps_decode := decode_puback_properties
  |}; property_set.
Defined.

#[export] Instance SubscribeProperties_PropertySet : PropertySet SubscribeProperties.
Proof.
  refine {|
    ps_fields p := [
      (SUBSCRIPTION_IDENTIFIER, PInt <$> sp_subscription_identifier p)];
    ps_users := sp_user_properties;
    ps_read := subscribe_properties_of;
    ps_encode := encode_subscribe_properties;
    ps_decode := decode_subscribe_properties
  |}; property_set.
Defined.

#[export] Instance SubAckProperties_PropertySet : PropertySet SubAckProperties.
Proof.
  refine {|
    ps_fields p := [
      (REASON_STRING, PStr <$> sap_reason_string p)];
    ps_users := sap_user_properties;
    ps_read := suback_properties_of;
    ps_encode := encode_suback_properties;
    ps_decode := decode_suback_properties
  |}; property_set.
Defined.

#[export] Instance UnsubscribeProperties_PropertySet : PropertySet UnsubscribeProperties.
Proof.
  refine {|
    ps_fields p := [
];
    ps_users := up_user_properties;
    ps_read := unsubscribe_properties_of;
    ps_encode := encode_unsubscribe_properties;
    ps_decode := decode_unsubscribe_properties
  |}; property_set.
Defined.

#[export] Instance UnsubAckProperties_PropertySet : PropertySet UnsubAckProperties.
Proof.
  refine {|
    ps_fields p := [
      (REASON_STRING, PStr <$> uap_reason_string p)];
    ps_users := uap_user_properties;
    ps_read := unsuback_properties_of;
    ps_encode := encode_unsuback_properties;
    ps_decode := decode_unsuback_properties
  |}; property_set.
Defined.

#[export] Instance DisconnectProperties_PropertySet : PropertySet DisconnectProperties.
Proof.
  refine {|
    ps_fields p := [
      (SESSION_EXPIRY_INTERVAL, PInt <$> dp_session_expiry_interval p);
      (REASON_STRING, PStr <$> dp_reason_string p);
      (SERVER_REFERENCE, PStr <$> dp_server_reference p)];
    ps_users := dp_user_properties;
    ps_read := disconnect_properties_of;
    ps_encode := encode_disconnect_properties;
    ps_decode := decode_disconnect_properties
  |}; property_set.
Defined.

#[export] Instance AuthProperties_PropertySet : PropertySet AuthProperties.
Proof.
  refine {|
    ps_fields p := [
      (AUTHENTICATION_METHOD, PStr <$> ap_authentication_method p);
      (AUTHENTICATION_DATA, PBytes <$> ap_authentication_data p);
      (REASON_STRING, PStr <$> ap_reason_string p)];
    ps_users := ap_user_properties;
    ps_read := auth_properties_of;
    ps_encode := encode_auth_properties;
    ps_decode := decode_auth_properties
  |}; property_set.
Defined.
(** ** The round trip, against the interface *)

Section PropertySet.
Context `{PropertySet P}.

(** The record with no property set. *)
Definition ps_default : P := ps_read [].

(** What a decoder makes of encoded properties: a record with nothing set comes back as
    no record at all. *)
Definition canon (o : option P) : option P :=
  if decide (o = Some ps_default) then None else o.

Lemma fields_ok p : props_ok (somes (ps_fields p) ++ _up (ps_users p)).
Proof.
  pose proof (ps_NoDup p) as Hnd. apply NoDup_app in Hnd as (Hnd & Hu & _). split.
  - rewrite keys_app. apply NoDup_app. split; [by apply NoDup_somes|]. split.
    + intros k Hk%keys_somes. apply Hu in Hk. destruct (ps_users p); set_solver.
    + destruct (ps_users p); [constructor|]. apply NoDup_singleton.
  - rewrite not_elem_of_app. split.
    + intros Hin. apply (Hu USER_PROPERTY); [|set_solver].
      apply keys_somes, elem_of_keys. eauto.
    + destruct (ps_users p); set_solver.
Qed.

Lemma decoded_fields p :
  match norm (somes (ps_fields p) ++ _up (ps_users p)) with
  | [] => None
  | _ => Some (ps_read (norm (somes (ps_fields p) ++ _up (ps_users p))))
  end = canon (Some p).
Proof.
  unfold canon. rewrite ps_read_fields. case_decide as E.
  - injection E as ->. unfold ps_default. by rewrite ps_empty.
  - destruct (norm _) eqn:En; [|done]. destruct E. f_equal.
    rewrite <-(ps_read_fields p), En. done.
Qed.

Lemma ps_decode_at o enc buf off rest :
  ps_encode o = Ok enc -> at_pos buf off (enc ++ rest) ->
  ps_decode buf off = Ok (canon o, zlen enc).
Proof.
  rewrite ps_encode_eq, ps_decode_eq. intros He Hat. destruct o as [p|].
  - rewrite (decode_props_block_at _ _ _ _ _ (fields_ok p) He Hat). cbn [mbind res_bind].
    now rewrite decoded_fields.
  - assert (props_ok []) as Hok by (split; [constructor|set_solver]).
    rewrite (decode_props_block_at [] _ _ _ _ Hok He Hat). done.
Qed.

Lemma ps_decode_tame buf off : 0 <= off -> tame (ps_decode buf off).
Proof.
  intros Hoff. rewrite ps_decode_eq. apply tame_bind; [by apply decode_props_block_tame|].
  by intros [? ?].
Qed.

Lemma ps_decode_bounds buf off o n : ps_decode buf off = Ok (o, n) -> 0 <= off -> 1 <= n.
Proof.
  rewrite ps_decode_eq. unfold decode_props_block. intros Hd Hoff. inv_ok.
  match goal with Hv : decode_varint _ _ = Ok _ |- _ => apply decode_varint_bounds in Hv; [|done] end.
  lia.
Qed.
End PropertySet.

(** ** The contract of the property layer *)

(** [reads_back enc dec]: whatever [enc] writes, [dec] reads from any position of any buffer. *)
Definition reads_back {P} `{PropertySet P} (enc : option P -> res bytes)
    (dec : bytes -> Z -> res (option P * Z)) : Prop :=
  forall o b pre rest, enc o = Ok b -> dec (pre ++ b ++ rest) (zlen pre) = Ok (canon o, zlen b).

Lemma ps_reads_back `{PropertySet P} : reads_back (P := P) ps_encode ps_decode.
Proof. intros o b pre rest Hb. apply (ps_decode_at o b _ _ rest Hb). by exists pre. Qed.

(** The property dictionaries of MQTT 5.0 survive the wire.  A dictionary without duplicate
    keys (a Python dict has none) and without an empty list of user properties that
    [encode_props_block] accepts is read back by [decode_props_block], from any position of any
    buffer, with the same keys in the same order and the same values (a boolean as the integer
    0 or 1, repeated user properties collected in order), consuming exactly the bytes written. *)
Theorem props_block_roundtrip d enc pre rest :
  NoDup (keys d) -> (USER_PROPERTY, PPairs []) ∉ d -> encode_props_block d = Ok enc ->
  decode_props_block (pre ++ enc ++ rest) (zlen pre) = Ok (norm d, zlen enc).
Proof. intros Hk Hu He. apply (decode_props_block_at d enc _ _ rest); [done..|]. by exists pre. Qed.

Lemma props_block_roundtrip_witness :
  decode_props_block ([Init.Byte.xff] ++
    [Init.Byte.x0e; Init.Byte.x01; Init.Byte.x01;
     Init.Byte.x0b; Init.Byte.x80; Init.Byte.x01;
     Init.Byte.x26; Init.Byte.x00; Init.Byte.x01; Init.Byte.x6b; Init.Byte.x00; Init.Byte.x03;
     Init.Byte.xe2; Init.Byte.x82; Init.Byte.xac] ++ []) 1 =
  Ok ([(PAYLOAD_FORMAT_INDICATOR, PInt 1); (SUBSCRIPTION_IDENTIFIER, PInt 128);
       (USER_PROPERTY, PPairs [(py "k", [8364])])], 15).
Proof.
  exact (props_block_roundtrip
    [(PAYLOAD_FORMAT_INDICATOR, PBool true); (SUBSCRIPTION_IDENTIFIER, PInt 128);
     (USER_PROPERTY, PPairs [(py "k", [8364])])]
    [Init.Byte.x0e; Init.Byte.x01; Init.Byte.x01;
     Init.Byte.x0b; Init.Byte.x80; Init.Byte.x01;
     Init.Byte.x26; Init.Byte.x00; Init.Byte.x01; Init.Byte.x6b; Init.Byte.x00; Init.Byte.x03;
     Init.Byte.xe2; Init.Byte.x82; Init.Byte.xac]
    [Init.Byte.xff] [] ltac:(apply (bool_decide_unpack _); vm_compute; exact I)
    ltac:(apply (bool_decide_unpack _); vm_compute; exact I) ltac:(vm_compute; reflexivity)).
Defined.

(** Each of the eleven typed property records survives the wire: what [encode_X_properties]
    writes, [decode_X_properties] reads back field by field, at any position of any buffer,
    consuming exactly the bytes written; only a record that sets nothing comes back as [None]. *)
Theorem typed_properties_roundtrip :
  reads_back encode_connect_properties decode_connect_properties /\
  reads_back encode_will_properties decode_will_properties /\
  reads_back encode_connack_properties decode_connack_properties /\
  reads_back encode_publish_properties decode_publish_properties /\
  reads_back encode_puback_properties decode_puback_properties /\
  reads_back encode_subscribe_properties decode_subscribe_properties /\
  reads_back encode_suback_properties decode_suback_properties /\
  reads_back encode_unsubscribe_properties decode_unsubscribe_properties /\
  reads_back encode_unsuback_properties decode_unsuback_properties /\
  reads_back encode_disconnect_properties decode_disconnect_properties /\
  reads_back encode_auth_properties decode_auth_properties.
Proof. repeat split; exact ps_reads_back. Qed.

(** The decoder checks that a property starts inside the declared length of the block, but
    not that its value ends there: a block declared one byte long, holding the identifier
    PAYLOAD_FORMAT_INDICATOR alone, takes its value from the byte after the block, which the
    caller then reads a second time as the next field (the position returned is 2, where that
    byte is). *)
Theorem props_block_overrun b rest :
  decode_props_block ([Init.Byte.x01; Init.Byte.x01] ++ b :: rest) 0 =
    Ok ([(PAYLOAD_FORMAT_INDICATOR, PInt (bz b))], 2) /\
  at_pos ([Init.Byte.x01; Init.Byte.x01] ++ b :: rest) 2 (b :: rest).
Proof.
  split; [|by exists [Init.Byte.x01; Init.Byte.x01]].
  set (buf := _ ++ _).
  assert (at_pos buf 0 ([Init.Byte.x01] ++ [Init.Byte.x01] ++ b :: rest)) as H0 by (by exists []).
  unfold decode_props_block. rewrite (decode_varint_at 1 [Init.Byte.x01] _ _ _ eq_refl H0).
  cbn [mbind res_bind]. cbv zeta.
  apply at_pos_next in H0. change (0 + 1) with 1 in H0. change (0 + zlen [Init.Byte.x01]) with 1.
  cbn [app] in H0. assert (at_pos buf 2 (b :: rest)) as H1 by exact (at_pos_next _ _ _ _ H0).
  assert (decode_prop buf (0 + zlen [Init.Byte.x01] + 1) PAYLOAD_FORMAT_INDICATOR [] =
          Ok ([(PAYLOAD_FORMAT_INDICATOR, PInt (bz b))], 3)) as E.
  { rewrite decode_prop_wire. change (wire_of _) with (WUint 1). cbv iota.
    change (0 + zlen [Init.Byte.x01] + 1) with 2. rewrite (at_pos_byte _ _ _ _ H1). done. }
  erewrite (decode_props_step _ _ _ _ _ PAYLOAD_FORMAT_INDICATOR); [|apply Z.lt_add_pos_r; reflexivity|exact (at_pos_byte _ _ _ _ H0)|exact E].
  done.
Qed.
