(* ===== verification/Packets.v ===== *)
(** * Packet types

    The enumerations [QoS] and [RetainHandling] ([_internal/types/]), [PacketType]
    ([_internal/packets/types.py]) and the packet dataclasses of
    [_internal/packets/connect.py], [publish.py], [subscribe.py], [disconnect.py], [ping.py]
    and [auth.py]. *)

From S2P Require Import Prelude Properties.

(** [Literal["3.1.1", "5.0"]] *)
Inductive version : Type := V311 | V50.

Inductive QoS : Type := AT_MOST_ONCE | AT_LEAST_ONCE | EXACTLY_ONCE.

Inductive RetainHandling : Type := SEND_ON_SUBSCRIBE | SEND_IF_NOT_EXISTS | DO_NOT_SEND.

Inductive PacketType : Type :=
| CONNECT | CONNACK | PUBLISH | PUBACK | PUBREC | PUBREL | PUBCOMP | SUBSCRIBE | SUBACK
| UNSUBSCRIBE | UNSUBACK | PINGREQ | PINGRESP | DISCONNECT | AUTH.

#[export] Instance version_eq_dec : EqDecision version.
Proof. solve_decision. Defined.
#[export] Instance QoS_eq_dec : EqDecision QoS.
Proof. solve_decision. Defined.
#[export] Instance RetainHandling_eq_dec : EqDecision RetainHandling.
Proof. solve_decision. Defined.
#[export] Instance PacketType_eq_dec : EqDecision PacketType.
Proof. solve_decision. Defined.

(** The integer value of a member, and the enumeration called on an integer. *)
Definition qos_val (q : QoS) : Z :=
  match q with AT_MOST_ONCE => 0 | AT_LEAST_ONCE => 1 | EXACTLY_ONCE => 2 end.

Definition QoS_of (n : Z) : res QoS :=
  if n =? 0 then Ok AT_MOST_ONCE
  else if n =? 1 then Ok AT_LEAST_ONCE
  else if n =? 2 then Ok EXACTLY_ONCE
  else Err (ValueError "is not a valid QoS").

Definition rh_val (r : RetainHandling) : Z :=
  match r with SEND_ON_SUBSCRIBE => 0 | SEND_IF_NOT_EXISTS => 1 | DO_NOT_SEND => 2 end.

Definition RetainHandling_of (n : Z) : res RetainHandling :=
  if n =? 0 then Ok SEND_ON_SUBSCRIBE
  else if n =? 1 then Ok SEND_IF_NOT_EXISTS
  else if n =? 2 then Ok DO_NOT_SEND
  else Err (ValueError "is not a valid RetainHandling").

Definition pt_val (t : PacketType) : Z :=
  match t with
  | CONNECT => 1 | CONNACK => 2 | PUBLISH => 3 | PUBACK => 4 | PUBREC => 5 | PUBREL => 6
  | PUBCOMP => 7 | SUBSCRIBE => 8 | SUBACK => 9 | UNSUBSCRIBE => 10 | UNSUBACK => 11
  | PINGREQ => 12 | PINGRESP => 13 | DISCONNECT => 14 | AUTH => 15
  end.

Definition all_packet_types : list PacketType :=
  [CONNECT; CONNACK; PUBLISH; PUBACK; PUBREC; PUBREL; PUBCOMP; SUBSCRIBE; SUBACK;
   UNSUBSCRIBE; UNSUBACK; PINGREQ; PINGRESP; DISCONNECT; AUTH].

Definition PacketType_of (n : Z) : option PacketType :=
  List.find (fun t => pt_val t =? n) all_packet_types.

Record Will : Type := mkWill {
  w_topic : pystr;
  w_payload : bytes;
  w_qos : QoS;
  w_retain : bool;
  w_properties : option WillProperties
}.

Record Connect : Type := mkConnect {
  c_client_id : pystr;
  c_clean_session : bool;
  c_keepalive : Z;
  c_username : option pystr;
  c_password : option bytes;
  c_will : option Will;
  c_properties : option ConnectProperties
}.

Record ConnAck : Type := mkConnAck {
  ca_session_present : bool;
  ca_return_code : Z;
  ca_properties : option ConnAckProperties
}.

Record Publish : Type := mkPublish {
  p_topic : pystr;
  p_payload : bytes;
  p_qos : QoS;
  p_retain : bool;
  p_dup : bool;
  p_packet_id : option Z;
  p_properties : option PublishProperties
}.

(** [PubAck], [PubRec], [PubRel] and [PubComp] have the same three fields. *)
Record PubAckFields : Type := mkAck {
  a_packet_id : Z;
  a_reason_code : Z;
  a_properties : option PubAckProperties
}.

Record SubscriptionRequest : Type := mkSubscriptionRequest {
  sr_topic_filter : pystr;
  sr_qos : QoS;
  sr_no_local : bool;
  sr_retain_as_published : bool;
  sr_retain_handling : RetainHandling
}.

Record Subscribe : Type := mkSubscribe {
  s_packet_id : Z;
  s_subscriptions : list SubscriptionRequest;
  s_properties : option SubscribeProperties
}.

Record SubAck : Type := mkSubAck {
  sa_packet_id : Z;
  sa_return_codes : list Z;
  sa_properties : option SubAckProperties
}.

Record Unsubscribe : Type := mkUnsubscribe {
  u_packet_id : Z;
  u_topic_filters : list pystr;
  u_properties : option UnsubscribeProperties
}.

Record UnsubAck : Type := mkUnsubAck {
  ua_packet_id : Z;
  ua_reason_codes : list Z;
  ua_properties : option UnsubAckProperties
}.

Record Disconnect : Type := mkDisconnect {
  d_reason_code : Z;
  d_properties : option DisconnectProperties
}.

Record Auth : Type := mkAuth {
  au_reason_code : Z;
  au_properties : option AuthProperties
}.

Inductive AnyPacket : Type :=
| PConnect (p : Connect)
| PConnAck (p : ConnAck)
| PPublish (p : Publish)
| PPubAck (p : PubAckFields)
| PPubRec (p : PubAckFields)
| PPubRel (p : PubAckFields)
| PPubComp (p : PubAckFields)
| PSubscribe (p : Subscribe)
| PSubAck (p : SubAck)
| PUnsubscribe (p : Unsubscribe)
| PUnsubAck (p : UnsubAck)
| PPingReq
| PPingResp
| PDisconnect (p : Disconnect)
| PAuth (p : Auth).

#[export] Instance Publish_eq_dec : EqDecision Publish.
Proof. solve_decision. Defined.
#[export] Instance PubAckFields_eq_dec : EqDecision PubAckFields.
Proof. solve_decision. Defined.
#[export] Instance SubscriptionRequest_eq_dec : EqDecision SubscriptionRequest.
Proof. solve_decision. Defined.
#[export] Instance SubAck_eq_dec : EqDecision SubAck.
Proof. solve_decision. Defined.
#[export] Instance UnsubAck_eq_dec : EqDecision UnsubAck.
Proof. solve_decision. Defined.

Lemma QoS_of_val q : QoS_of (qos_val q) = Ok q.
Proof. now destruct q. Qed.
Lemma RetainHandling_of_val r : RetainHandling_of (rh_val r) = Ok r.
Proof. now destruct r. Qed.
Lemma PacketType_of_val t : PacketType_of (pt_val t) = Some t.
Proof. now destruct t. Qed.
Create Rewrite HintDb py_enum.
#[export] Hint Rewrite QoS_of_val RetainHandling_of_val PacketType_of_val : py_enum.
