(* ===== verification/Codec.v ===== *)
(** * The codec ([_internal/packets/codec.py])

    [encode] turns a packet into the bytes of one frame and [decode] reads one frame from the
    front of a buffer.  The main result is the round trip over every packet type and both
    protocol versions ([decode_encode]): whatever [encode] accepts, [decode] reads back, up to
    the fields the wire format of the version does not carry ([canonical]). *)

From S2P Require Import Prelude Utf8 Wire Properties Packets.

(** ** Encoding *)

(** [flags |= mask] under a condition. *)
Definition flag_if (b : bool) (mask : Z) : Z := if b then mask else 0.

Definition _build_packet (packet_type : PacketType) (flags : Z) (body : bytes) : res bytes :=
  let first_byte := Z.lor (Z.shiftl (pt_val packet_type) 4) (Z.land flags 0x0F) in
  b ← byte_of first_byte;
  n ← encode_varint (zlen body);
  Ok (b :: n ++ body).

Definition _packet_id_only (packet_type : PacketType) (flags packet_id : Z) : res bytes :=
  body ← pack 2 packet_id;
  _build_packet packet_type flags body.

Definition connect_flags (packet : Connect) : Z :=
  let flags := flag_if (c_clean_session packet) 0x02 in
  let flags :=
    match c_will packet with
    | Some will =>
      let flags := Z.lor flags 0x04 in
      let flags := Z.lor flags (Z.shiftl (qos_val (w_qos will)) 3) in
      Z.lor flags (flag_if (w_retain will) 0x20)
    | None => flags
    end in
  let flags := match c_username packet with Some _ => Z.lor flags 0x80 | None => flags end in
  match c_password packet with Some _ => Z.lor flags 0x40 | None => flags end.

Definition encode_will (will : Will) (v : version) : res bytes :=
  props ← match v with
          | V50 => encode_will_properties (w_properties will)
          | V311 => Ok []
          end;
  topic ← encode_str (w_topic will);
  payload ← encode_bytes_field (w_payload will);
  Ok (props ++ topic ++ payload).

(** An optional field of the payload. *)
Definition encode_opt {A} (enc : A -> res bytes) (o : option A) : res bytes :=
  match o with Some a => enc a | None => Ok [] end.

Definition _encode_connect (packet : Connect) (v : version) : res bytes :=
  let proto_level := match v with V50 => 0x05 | V311 => 0x04 end in
  name ← encode_str (py "MQTT");
  lf ← bytes_of [proto_level; connect_flags packet];
  keepalive ← pack 2 (c_keepalive packet);
  props ← match v with
          | V50 => encode_connect_properties (c_properties packet)
          | V311 => Ok []
          end;
  client_id ← encode_str (c_client_id packet);
  will ← encode_opt (fun will => encode_will will v) (c_will packet);
  username ← encode_opt encode_str (c_username packet);
  password ← encode_opt encode_bytes_field (c_password packet);
  _build_packet CONNECT 0
    (name ++ lf ++ keepalive ++ props ++ client_id ++ will ++ username ++ password).

Definition _encode_connack (packet : ConnAck) (v : version) : res bytes :=
  let sp := if ca_session_present packet then 0x01 else 0x00 in
  body ← bytes_of [sp; ca_return_code packet];
  props ← match v with
          | V50 => encode_connack_properties (ca_properties packet)
          | V311 => Ok []
          end;
  _build_packet CONNACK 0 (body ++ props).

Definition publish_flags (packet : Publish) : Z :=
  Z.lor (Z.lor (Z.shiftl (Z.b2z (p_dup packet)) 3) (Z.shiftl (qos_val (p_qos packet)) 1))
        (Z.b2z (p_retain packet)).

Definition _encode_publish (packet : Publish) (v : version) : res bytes :=
  topic ← encode_str (p_topic packet);
  pid ← (if decide (p_qos packet = AT_MOST_ONCE) then Ok []
         else match p_packet_id packet with
              | None => Err (ValueError "Cannot publish without packet id")
              | Some packet_id => pack 2 packet_id
              end);
  props ← match v with
          | V50 => encode_publish_properties (p_properties packet)
          | V311 => Ok []
          end;
  _build_packet PUBLISH (publish_flags packet) (topic ++ pid ++ props ++ p_payload packet).

Definition is_Some_b {A} (o : option A) : bool := match o with Some _ => true | None => false end.

Definition _encode_pub_ack_variant (packet_type : PacketType) (flags packet_id reason_code : Z)
    (properties : option PubAckProperties) (v : version) : res bytes :=
  if bool_decide (v = V50) && (negb (reason_code =? 0) || is_Some_b properties) then
    pid ← pack 2 packet_id;
    rc ← pack 1 reason_code;
    props ← encode_puback_properties properties;
    _build_packet packet_type flags (pid ++ rc ++ props)
  else _packet_id_only packet_type flags packet_id.

Definition sub_options (sub : SubscriptionRequest) (v : version) : Z :=
  match v with
  | V50 =>
    Z.lor (Z.lor (Z.lor (qos_val (sr_qos sub)) (Z.shiftl (Z.b2z (sr_no_local sub)) 2))
                 (Z.shiftl (Z.b2z (sr_retain_as_published sub)) 3))
          (Z.shiftl (rh_val (sr_retain_handling sub)) 4)
  | V311 => qos_val (sr_qos sub)
  end.

Fixpoint encode_subscriptions (l : list SubscriptionRequest) (v : version) : res bytes :=
  match l with
  | [] => Ok []
  | sub :: l' =>
    f ← encode_str (sr_topic_filter sub);
    o ← byte_of (sub_options sub v);
    rest ← encode_subscriptions l' v;
    Ok ((f ++ [o]) ++ rest)
  end.

Definition _encode_subscribe (packet : Subscribe) (v : version) : res bytes :=
  pid ← pack 2 (s_packet_id packet);
  props ← match v with
          | V50 => encode_subscribe_properties (s_properties packet)
          | V311 => Ok []
          end;
  subs ← encode_subscriptions (s_subscriptions packet) v;
  _build_packet SUBSCRIBE 2 (pid ++ props ++ subs).

Definition _encode_suback (packet : SubAck) (v : version) : res bytes :=
  pid ← pack 2 (sa_packet_id packet);
  props ← match v with
          | V50 => encode_suback_properties (sa_properties packet)
          | V311 => Ok []
          end;
  codes ← bytes_of (sa_return_codes packet);
  _build_packet SUBACK 0 (pid ++ props ++ codes).

Fixpoint encode_filters (l : list pystr) : res bytes :=
  match l with
  | [] => Ok []
  | topic :: l' => f ← encode_str topic; rest ← encode_filters l'; Ok (f ++ rest)
  end.

Definition _encode_unsubscribe (packet : Unsubscribe) (v : version) : res bytes :=
  pid ← pack 2 (u_packet_id packet);
  props ← match v with
          | V50 => encode_unsubscribe_properties (u_properties packet)
          | V311 => Ok []
          end;
  filters ← encode_filters (u_topic_filters packet);
  _build_packet UNSUBSCRIBE 2 (pid ++ props ++ filters).

Definition _encode_unsuback (packet : UnsubAck) (v : version) : res bytes :=
  match v with
  | V50 =>
    pid ← pack 2 (ua_packet_id packet);
    props ← encode_unsuback_properties (ua_properties packet);
    codes ← bytes_of (ua_reason_codes packet);
    _build_packet UNSUBACK 0 (pid ++ props ++ codes)
  | V311 => _packet_id_only UNSUBACK 0 (ua_packet_id packet)
  end.

Definition _encode_disconnect (packet : Disconnect) (v : version) : res bytes :=
  if bool_decide (v = V50) && (negb (d_reason_code packet =? 0) || is_Some_b (d_properties packet)) then
    rc ← byte_of (d_reason_code packet);
    props ← encode_disconnect_properties (d_properties packet);
    _build_packet DISCONNECT 0 (rc :: props)
  else _build_packet DISCONNECT 0 [].

Definition encode (packet : AnyPacket) (v : version) : res bytes :=
  match packet with
  | PConnect p => _encode_connect p v
  | PConnAck p => _encode_connack p v
  | PPublish p => _encode_publish p v
  | PPubAck p => _encode_pub_ack_variant PUBACK 0 (a_packet_id p) (a_reason_code p) (a_properties p) v
  | PPubRec p => _encode_pub_ack_variant PUBREC 0 (a_packet_id p) (a_reason_code p) (a_properties p) v
  | PPubRel p => _encode_pub_ack_variant PUBREL 2 (a_packet_id p) (a_reason_code p) (a_properties p) v
  | PPubComp p => _encode_pub_ack_variant PUBCOMP 0 (a_packet_id p) (a_reason_code p) (a_properties p) v
  | PSubscribe p => _encode_subscribe p v
  | PSubAck p => _encode_suback p v
  | PUnsubscribe p => _encode_unsubscribe p v
  | PUnsubAck p => _encode_unsuback p v
  | PPingReq => _build_packet PINGREQ 0 []
  | PPingResp => _build_packet PINGRESP 0 []
  | PDisconnect p => _encode_disconnect p v
  | PAuth p =>
    rc ← byte_of (au_reason_code p);
    props ← encode_auth_properties (au_properties p);
    _build_packet AUTH 0 (rc :: props)
  end.

(** ** Decoding *)

(** [bool(flags & mask)] *)
Definition flag (flags mask : Z) : bool := negb (Z.land flags mask =? 0).

Definition _decode_connect (buf : bytes) : res Connect :=
  '(proto_name, pos) ← decode_str buf 0;
  _ ← raise_if (negb (bool_decide (proto_name = py "MQTT"))) (ValueError "Invalid protocol name");
  proto_level ← byte_at buf pos;
  _ ← raise_if (negb ((proto_level =? 0x04) || (proto_level =? 0x05)))
        (ValueError "Unsupported protocol level");
  let ver := if proto_level =? 0x05 then V50 else V311 in
  let pos := pos + 1 in
  flags ← byte_at buf pos;
  let pos := pos + 1 in
  let clean_session := flag flags 0x02 in
  let will_flag := flag flags 0x04 in
  will_qos ← QoS_of (Z.land (Z.shiftr flags 3) 0x03);
  let will_retain := flag flags 0x20 in
  let username_flag := flag flags 0x80 in
  let password_flag := flag flags 0x40 in
  keepalive ← unpack 2 buf pos;
  let pos := pos + 2 in
  '(connect_props, pos) ← match ver with
                          | V50 => '(props, n) ← decode_connect_properties buf pos; Ok (props, pos + n)
                          | V311 => Ok (None, pos)
                          end;
  '(client_id, n) ← decode_str buf pos;
  let pos := pos + n in
  '(will, pos) ←
    (if will_flag then
       '(will_props, pos) ← match ver with
                            | V50 => '(props, n) ← decode_will_properties buf pos; Ok (props, pos + n)
                            | V311 => Ok (None, pos)
                            end;
       '(topic, n) ← decode_str buf pos;
       let pos := pos + n in
       '(payload, n) ← decode_bytes_field buf pos;
       Ok (Some (mkWill topic payload will_qos will_retain will_props), pos + n)
     else Ok (None, pos));
  '(username, pos) ←
    (if username_flag then '(u, n) ← decode_str buf pos; Ok (Some u, pos + n)
     else Ok (None, pos));
  '(password, pos) ←
    (if password_flag then '(p, n) ← decode_bytes_field buf pos; Ok (Some p, pos + n)
     else Ok (None, pos));
  Ok (mkConnect client_id clean_session keepalive username password will connect_props).

Definition _decode_connack (buf : bytes) (v : version) : res ConnAck :=
  if zlen buf <? 2 then Err (ValueError "CONNACK too short")
  else
    b0 ← byte_at buf 0;
    return_code ← byte_at buf 1;
    props ← (if bool_decide (v = V50) && (2 <? zlen buf)
             then '(props, _) ← decode_connack_properties buf 2; Ok props
             else Ok None);
    Ok (mkConnAck (flag b0 0x01) return_code props).

Definition _decode_publish (buf : bytes) (flags : Z) (v : version) : res Publish :=
  let dup := flag flags 0x08 in
  qos ← QoS_of (Z.land (Z.shiftr flags 1) 0x03);
  let retain := flag flags 0x01 in
  '(topic, pos) ← decode_str buf 0;
  '(packet_id, pos) ←
    (if decide (qos = AT_MOST_ONCE) then Ok (None, pos)
     else if zlen buf <? pos + 2 then Err (ValueError "PUBLISH too short for packet ID")
     else pid ← unpack 2 buf pos; Ok (Some pid, pos + 2));
  '(props, pos) ← match v with
                  | V50 => '(props, n) ← decode_publish_properties buf pos; Ok (props, pos + n)
                  | V311 => Ok (None, pos)
                  end;
  Ok (mkPublish topic (slice_from buf pos) qos retain dup packet_id props).

Definition _decode_pub_ack_variant (buf : bytes) (v : version) : res PubAckFields :=
  if zlen buf <? 2 then Err (ValueError "Packet too short for packet ID")
  else
    packet_id ← unpack 2 buf 0;
    if bool_decide (v = V50) && (2 <? zlen buf) then
      reason_code ← byte_at buf 2;
      props ← (if 3 <? zlen buf then '(props, _) ← decode_puback_properties buf 3; Ok props
               else Ok None);
      Ok (mkAck packet_id reason_code props)
    else Ok (mkAck packet_id 0 None).

(** The [while pos < len(buf)] loop of [_decode_subscribe]; each turn consumes bytes. *)
Fixpoint decode_subscriptions (fuel : nat) (buf : bytes) (pos : Z) (v : version)
    : res (list SubscriptionRequest) :=
  match fuel with
  | O => Err OutOfFuel
  | S fuel' =>
    if pos <? zlen buf then
      '(topic_filter, n) ← decode_str buf pos;
      let pos := pos + n in
      if zlen buf <=? pos then Err (ValueError "SUBSCRIBE missing options byte")
      else
        options ← byte_at buf pos;
        let pos := pos + 1 in
        qos ← QoS_of (Z.land options 0x03);
        req ← match v with
              | V50 =>
                let no_local := flag options 0x04 in
                let retain_as_published := flag options 0x08 in
                retain_handling ← RetainHandling_of (Z.land (Z.shiftr options 4) 0x03);
                Ok (mkSubscriptionRequest topic_filter qos no_local retain_as_published retain_handling)
              | V311 =>
                Ok (mkSubscriptionRequest topic_filter qos false false SEND_ON_SUBSCRIBE)
              end;
        rest ← decode_subscriptions fuel' buf pos v;
        Ok (req :: rest)
    else Ok []
  end.

Definition _decode_subscribe (buf : bytes) (v : version) : res Subscribe :=
  if zlen buf <? 2 then Err (ValueError "SUBSCRIBE too short")
  else
    packet_id ← unpack 2 buf 0;
    '(props, pos) ← match v with
                    | V50 => '(props, n) ← decode_subscribe_properties buf 2; Ok (props, 2 + n)
                    | V311 => Ok (None, 2)
                    end;
    subs ← decode_subscriptions (S (length buf)) buf pos v;
    Ok (mkSubscribe packet_id subs props).

Definition _decode_suback (buf : bytes) (v : version) : res SubAck :=
  if zlen buf <? 2 then Err (ValueError "SUBACK too short")
  else
    packet_id ← unpack 2 buf 0;
    '(props, pos) ← match v with
                    | V50 => '(props, n) ← decode_suback_properties buf 2; Ok (props, 2 + n)
                    | V311 => Ok (None, 2)
                    end;
    Ok (mkSubAck packet_id (map bz (slice_from buf pos)) props).

(** The [while pos < len(buf)] loop of [_decode_unsubscribe]. *)
Fixpoint decode_filters (fuel : nat) (buf : bytes) (pos : Z) : res (list pystr) :=
  match fuel with
  | O => Err OutOfFuel
  | S fuel' =>
    if pos <? zlen buf then
      '(topic_filter, n) ← decode_str buf pos;
      rest ← decode_filters fuel' buf (pos + n);
      Ok (topic_filter :: rest)
    else Ok []
  end.

Definition _decode_unsubscribe (buf : bytes) (v : version) : res Unsubscribe :=
  if zlen buf <? 2 then Err (ValueError "UNSUBSCRIBE too short")
  else
    packet_id ← unpack 2 buf 0;
    '(props, pos) ← match v with
                    | V50 => '(props, n) ← decode_unsubscribe_properties buf 2; Ok (props, 2 + n)
                    | V311 => Ok (None, 2)
                    end;
    filters ← decode_filters (S (length buf)) buf pos;
    Ok (mkUnsubscribe packet_id filters props).

Definition _decode_unsuback (buf : bytes) (v : version) : res UnsubAck :=
  if zlen buf <? 2 then Err (ValueError "UNSUBACK too short")
  else
    packet_id ← unpack 2 buf 0;
    match v with
    | V50 =>
      '(props, n) ← decode_unsuback_properties buf 2;
      Ok (mkUnsubAck packet_id (map bz (slice_from buf (2 + n))) props)
    | V311 => Ok (mkUnsubAck packet_id [] None)
    end.

Definition _decode_disconnect (buf : bytes) (v : version) : res Disconnect :=
  if bool_decide (v = V50) && (1 <=? zlen buf) then
    reason_code ← byte_at buf 0;
    props ← (if 1 <? zlen buf then '(props, _) ← decode_disconnect_properties buf 1; Ok props
             else Ok None);
    Ok (mkDisconnect reason_code props)
  else Ok (mkDisconnect 0 None).

(** The [match packet_type] of [decode]. *)
Definition decode_body (packet_type : PacketType) (flags : Z) (body : bytes) (v : version) : res AnyPacket :=
  match packet_type with
  | CONNECT => PConnect <$> _decode_connect body
  | CONNACK => PConnAck <$> _decode_connack body v
  | PUBLISH => PPublish <$> _decode_publish body flags v
  | PUBACK => PPubAck <$> _decode_pub_ack_variant body v
  | PUBREC => PPubRec <$> _decode_pub_ack_variant body v
  | PUBREL => PPubRel <$> _decode_pub_ack_variant body v
  | PUBCOMP => PPubComp <$> _decode_pub_ack_variant body v
  | SUBSCRIBE => PSubscribe <$> _decode_subscribe body v
  | SUBACK => PSubAck <$> _decode_suback body v
  | UNSUBSCRIBE => PUnsubscribe <$> _decode_unsubscribe body v
  | UNSUBACK => PUnsubAck <$> _decode_unsuback body v
  | PINGREQ => Ok PPingReq
  | PINGRESP => Ok PPingResp
  | DISCONNECT => PDisconnect <$> _decode_disconnect body v
  | AUTH =>
    if zlen body <? 1 then Err (ValueError "AUTH too short")
    else
      auth_rc ← byte_at body 0;
      auth_props ← (if 1 <? zlen body then '(props, _) ← decode_auth_properties body 1; Ok props
                    else Ok None);
      Ok (PAuth (mkAuth auth_rc auth_props))
  end.

(** The inline varint loop of [decode], from turn [i] with [n] turns left: the remaining
    length and the number of its bytes, or [None] when the fixed header is incomplete. *)
Fixpoint decode_header_loop (n : nat) (buffer : bytes) (i remaining_length multiplier varint_bytes : Z)
    : res (option (Z * Z)) :=
  match n with
  | O => Err (ValueError "Remaining-length varint exceeds 4 bytes")
  | S n' =>
    if zlen buffer <=? 1 + i then Ok None
    else
      byte ← byte_at buffer (1 + i);
      let remaining_length := remaining_length + Z.land byte 0x7F * multiplier in
      let varint_bytes := varint_bytes + 1 in
      if Z.land byte 0x80 =? 0 then Ok (Some (remaining_length, varint_bytes))
      else decode_header_loop n' buffer (i + 1) remaining_length (multiplier * 128) varint_bytes
  end.

Definition decode (buffer : bytes) (v : version) (max_packet_size : option Z)
    : res (option (AnyPacket * Z)) :=
  if zlen buffer <? 2 then Ok None
  else
    first_byte ← byte_at buffer 0;
    let packet_type_val := Z.land (Z.shiftr first_byte 4) 0x0F in
    let flags := Z.land first_byte 0x0F in
    header ← decode_header_loop 4 buffer 0 0 1 0;
    match header with
    | None => Ok None
    | Some (remaining_length, varint_bytes) =>
      let total := 1 + varint_bytes + remaining_length in
      _ ← match max_packet_size with
          | Some limit => raise_if (limit <? total) (PacketTooLargeError total limit)
          | None => Ok tt
          end;
      if zlen buffer <? total then Ok None
      else
        match PacketType_of packet_type_val with
        | None => Err (ValueError "Unknown MQTT packet type")
        | Some packet_type =>
          packet ← decode_body packet_type flags (slice buffer (1 + varint_bytes) total) v;
          Ok (Some (packet, total))
        end
    end.

(** ** What survives the wire *)

Definition v5_only {P} `{PropertySet P} (v : version) (o : option P) : option P :=
  match v with V50 => canon o | V311 => None end.

Definition canonical_request (v : version) (r : SubscriptionRequest) : SubscriptionRequest :=
  match v with
  | V50 => r
  | V311 => mkSubscriptionRequest (sr_topic_filter r) (sr_qos r) false false SEND_ON_SUBSCRIBE
  end.

Definition canonical_will (v : version) (w : Will) : Will :=
  mkWill (w_topic w) (w_payload w) (w_qos w) (w_retain w) (v5_only v (w_properties w)).

Definition canonical_ack (v : version) (p : PubAckFields) : PubAckFields :=
  match v with
  | V50 => mkAck (a_packet_id p) (a_reason_code p) (canon (a_properties p))
  | V311 => mkAck (a_packet_id p) 0 None
  end.

(** The packet a peer sees: without the fields MQTT 3.1.1 does not carry, without the packet
    identifier of a QoS 0 PUBLISH, and with property records that set nothing left out. *)
Definition canonical (v : version) (packet : AnyPacket) : AnyPacket :=
  match packet with
  | PConnect p => PConnect
      (mkConnect (c_client_id p) (c_clean_session p) (c_keepalive p) (c_username p) (c_password p)
         (canonical_will v <$> c_will p) (v5_only v (c_properties p)))
  | PConnAck p => PConnAck
      (mkConnAck (ca_session_present p) (ca_return_code p) (v5_only v (ca_properties p)))
  | PPublish p => PPublish
      (mkPublish (p_topic p) (p_payload p) (p_qos p) (p_retain p) (p_dup p)
         (if decide (p_qos p = AT_MOST_ONCE) then None else p_packet_id p)
         (v5_only v (p_properties p)))
  | PPubAck p => PPubAck (canonical_ack v p)
  | PPubRec p => PPubRec (canonical_ack v p)
  | PPubRel p => PPubRel (canonical_ack v p)
  | PPubComp p => PPubComp (canonical_ack v p)
  | PSubscribe p => PSubscribe
      (mkSubscribe (s_packet_id p) (canonical_request v <$> s_subscriptions p)
         (v5_only v (s_properties p)))
  | PSubAck p => PSubAck (mkSubAck (sa_packet_id p) (sa_return_codes p) (v5_only v (sa_properties p)))
  | PUnsubscribe p => PUnsubscribe
      (mkUnsubscribe (u_packet_id p) (u_topic_filters p) (v5_only v (u_properties p)))
  | PUnsubAck p => PUnsubAck
      (mkUnsubAck (ua_packet_id p) (match v with V50 => ua_reason_codes p | V311 => [] end)
         (v5_only v (ua_properties p)))
  | PPingReq => PPingReq
  | PPingResp => PPingResp
  | PDisconnect p => PDisconnect
      (match v with
       | V50 => mkDisconnect (d_reason_code p) (canon (d_properties p))
       | V311 => mkDisconnect 0 None
       end)
  | PAuth p => PAuth (mkAuth (au_reason_code p) (canon (au_properties p)))
  end.

(** ** The frame *)

Lemma first_byte_bits t flags :
  let fb := Z.lor (Z.shiftl (pt_val t) 4) (Z.land flags 0x0F) in
  0 <= fb < 256 /\ Z.land (Z.shiftr fb 4) 0x0F = pt_val t /\ Z.land fb 0x0F = Z.land flags 0x0F.
Proof.
  cbn zeta. change 0x0F with (Z.ones 4). rewrite (Z.land_ones flags) by lia.
  pose proof (Z.mod_pos_bound flags (2 ^ 4) eq_refl) as Hf.
  generalize dependent (flags mod 2 ^ 4). intros f Hf. change (2 ^ 4) with 16 in Hf.
  assert (f ∈ seqZ 0 16) as Hin by (apply elem_of_seqZ; lia).
  clear Hf. revert f Hin. apply Forall_forall. destruct t; apply (bool_decide_unpack _); vm_compute; exact I.
Qed.

(** The inline header loop reads back what [encode_varint] wrote. *)
Lemma decode_header_loop_at fuel len enc buf i acc m k rest :
  0 <= len -> encode_varint_loop fuel len = Ok enc -> at_pos buf (1 + i) (enc ++ rest) ->
  decode_header_loop fuel buf i acc m k = Ok (Some (acc + len * m, k + zlen enc)).
Proof.
  revert len enc i acc m k; induction fuel as [|fuel IH]; intros len enc i acc m k Hl He Hat; [done|].
  rewrite encode_varint_step in He. pose proof (Z.mod_pos_bound len 128 eq_refl).
  assert (exists b enc', enc = b :: enc') as (b & enc' & ->).
  { case_if; inv_ok; eauto. }
  cbn [app] in Hat. cbn [decode_header_loop].
  pose proof (at_pos_len _ _ _ Hat). pose proof (bz_range b).
  rewrite (proj2 (Z.leb_gt _ _)) by zlen_lia. rewrite (at_pos_byte _ _ _ _ Hat).
  cbn [mbind res_bind]. rewrite land_7f, land_80 by lia.
  destruct (len / 128 =? 0) eqn:E; zbool; inv_ok.
  - rewrite bz_zb, (proj2 (Z.ltb_lt _ _)) by lia. rewrite Z.mod_mod by lia.
    do 2 f_equal. apply f_equal2; [|zlen_lia]. rewrite (Z.div_mod len 128) at 2 by lia.
    rewrite E. ring.
  - rewrite bz_zb, (proj2 (Z.ltb_ge _ _)) by lia. apply at_pos_next in Hat.
    rewrite <-Z.add_assoc in Hat.
    rewrite (IH (len / 128) enc') by first [done | apply Z.div_pos; lia].
    rewrite <-Z.add_mod_idemp_r by lia. change (128 mod 128) with 0.
    rewrite Z.add_0_r, Z.mod_mod, zlen_cons by lia.
    do 2 f_equal. apply f_equal2; [|lia]. rewrite (Z.div_mod len 128) at 3 by lia. ring.
Qed.

Lemma decode_frame t flags body enc rest v limit :
  _build_packet t flags body = Ok enc ->
  decode (enc ++ rest) v limit =
    (_ ← match limit with
         | Some l => raise_if (l <? zlen enc) (PacketTooLargeError (zlen enc) l)
         | None => Ok tt
         end;
     packet ← decode_body t (Z.land flags 0x0F) body v;
     Ok (Some (packet, zlen enc))).
Proof.
  unfold _build_packet. intros H. inv_ok. rename x into b, x0 into n.
  apply byte_of_Ok in H as [Hb ->].
  pose proof (first_byte_bits t flags) as (_ & Hpt & Hfl).
  pose proof (encode_varint_zlen _ _ H0) as Hn.
  apply encode_varint_Ok in H0 as [Hlen Hl].
  assert (at_pos ((zb (Z.lor (Z.shiftl (pt_val t) 4) (Z.land flags 15)) :: n ++ body) ++ rest) 0
            (zb (Z.lor (Z.shiftl (pt_val t) 4) (Z.land flags 15)) :: n ++ body ++ rest)) as Hat.
  { exists []. split; [|reflexivity]. cbn [app]. f_equal. symmetry. apply app_assoc. }
  set (buf := _ ++ rest) in *. clearbody buf.
  assert (zlen buf = 1 + zlen n + zlen body + zlen rest) as Hbuf.
  { rewrite (at_pos_len _ _ _ Hat). zlen_lia. }
  unfold decode. rewrite (proj2 (Z.ltb_ge _ _)) by zlen_lia.
  rewrite (at_pos_byte _ _ _ _ Hat), bz_zb by lia. cbn [mbind res_bind].
  apply at_pos_next in Hat. rewrite Z.add_0_l in Hat.
  rewrite (decode_header_loop_at _ _ _ _ 0 0 1 0 _ (zlen_nonneg body) Hl Hat). cbn [mbind res_bind].
  rewrite Hpt, Hfl. replace (1 + (0 + zlen n) + (0 + zlen body * 1)) with
    (1 + zlen n + zlen body) by lia.
  replace (zlen (zb _ :: n ++ body)) with (1 + zlen n + zlen body) by zlen_lia.
  rewrite (proj2 (Z.ltb_ge (zlen buf) _)) by zlen_lia.
  rewrite PacketType_of_val, Z.add_0_l. apply at_pos_app in Hat.
  rewrite (at_pos_slice _ _ _ _ Hat). now destruct limit.
Qed.

(** ** The bodies

    [read_step Hat]: the goal reads the next field of the buffer described by [Hat]; rewrite
    with what was written there and move [Hat] past it. *)

Ltac read_step Hat :=
  lazymatch type of Hat with
  | at_pos ?buf ?pos (?enc ++ ?rest) =>
    first
      [ match goal with
        | H : encode_str ?s = Ok enc |- context [decode_str buf ?p] =>
            replace p with pos by lia; rewrite (decode_str_at _ _ _ _ _ H Hat)
        | H : encode_bytes_field ?s = Ok enc |- context [decode_bytes_field buf ?p] =>
            replace p with pos by lia; rewrite (decode_bytes_field_at _ _ _ _ _ H Hat)
        | H : pack ?k ?n = Ok enc |- context [unpack ?k buf ?p] =>
            replace p with pos by lia; rewrite (unpack_pack _ _ _ _ _ _ H Hat);
            let Hz := fresh "Hz" in
            pose proof (proj2 (proj2 (pack_Ok _ _ _ H))) as Hz; cbn in Hz
        | H : ?e ?o = Ok enc |- context [?d buf ?p] =>
            let E := fresh "E" in
            assert (E : d buf pos = Ok (canon o, zlen enc))
              by exact (ps_decode_at o enc buf pos rest H Hat);
            replace p with pos by lia; rewrite E; clear E
        end ];
    apply at_pos_app in Hat; cbn [mbind res_bind]
  end.

Lemma connect_flags_bits p :
  let f := connect_flags p in
  0 <= f < 256 /\ flag f 0x02 = c_clean_session p /\ flag f 0x04 = is_Some_b (c_will p) /\
  QoS_of (Z.land (Z.shiftr f 3) 0x03) =
    Ok (match c_will p with Some w => w_qos w | None => AT_MOST_ONCE end) /\
  flag f 0x20 = (match c_will p with Some w => w_retain w | None => false end) /\
  flag f 0x80 = is_Some_b (c_username p) /\ flag f 0x40 = is_Some_b (c_password p).
Proof.
  destruct p as [? cs ? user pass will ?]. unfold connect_flags. cbn.
  destruct cs, user, pass, will as [[? ? q r ?]|]; [destruct q, r| |destruct q, r| |destruct q, r|
    |destruct q, r| |destruct q, r| |destruct q, r| |destruct q, r| |destruct q, r|];
    repeat split; first [reflexivity | vm_compute; congruence].
Qed.

Ltac read_byte Hat :=
  lazymatch type of Hat with
  | at_pos ?buf ?pos (?b :: ?rest) =>
    match goal with |- context [byte_at buf ?p] => replace p with pos by lia end;
    rewrite (at_pos_byte _ _ _ _ Hat); apply at_pos_next in Hat; cbn [mbind res_bind]
  end.

(** Name the buffer being read, knowing only what it holds. *)
Ltac open_body buf Hat :=
  match goal with
  | |- context [?l ++ ?r] =>
    pose proof (at_pos_0 (l ++ r)) as Hat; rewrite <-(app_nil_r (l ++ r)) in Hat at 2;
    repeat rewrite <-app_assoc in Hat;
    set (buf := l ++ r) in *; clearbody buf
  end.

Lemma decode_connect_at p v level name lf keepalive props client_id will username password :
  level = match v with V50 => 5 | V311 => 4 end ->
  encode_str (py "MQTT") = Ok name ->
  bytes_of [level; connect_flags p] = Ok lf ->
  pack 2 (c_keepalive p) = Ok keepalive ->
  match v with V50 => encode_connect_properties (c_properties p) | V311 => Ok [] end = Ok props ->
  encode_str (c_client_id p) = Ok client_id ->
  encode_opt (fun will => encode_will will v) (c_will p) = Ok will ->
  encode_opt encode_str (c_username p) = Ok username ->
  encode_opt encode_bytes_field (c_password p) = Ok password ->
  PConnect <$> _decode_connect
    (name ++ lf ++ keepalive ++ props ++ client_id ++ will ++ username ++ password)
  = Ok (canonical v (PConnect p)).
Proof.
  intros Hlevel Hname Hlf Hka Hprops Hid Hwill Huser Hpass.
  apply bytes_of_Ok in Hlf. destruct lf as [|b1 [|b2 [|]]]; try done. injection Hlf as Hb1 Hb2.
  destruct (connect_flags_bits p) as (Hf & Ecs & Ewf & Eqos & Ewr & Euf & Epf).
  open_body buf Hat. cbn [app] in Hat.
  unfold _decode_connect. read_step Hat. rewrite bool_decide_true by done. cbn [negb raise_if mbind res_bind].
  read_byte Hat. rewrite Hb1.
  replace (negb ((level =? 4) || (level =? 5))) with false by (subst; by destruct v).
  cbn [raise_if mbind res_bind].
  replace (if level =? 5 then V50 else V311) with v by (subst; by destruct v).
  read_byte Hat. rewrite Hb2, Eqos, Ecs, Ewf, Ewr, Euf, Epf. cbn [mbind res_bind].
  read_step Hat. clear - Hprops Hid Hwill Huser Hpass Hat Hz. cbn [canonical].
  destruct v, (c_will p) as [w|], (c_username p), (c_password p);
    cbn [encode_opt is_Some_b] in *; unfold encode_will in *; inv_ok;
    repeat rewrite <-app_assoc in Hat; cbn [app mbind res_bind] in *; repeat read_step Hat; reflexivity.
Qed.

(** Read the rest of a body as raw bytes. *)
Lemma slice_from_codes buf pos codes bs :
  bytes_of codes = Ok bs -> at_pos buf pos (bs ++ []) -> map bz (slice_from buf pos) = codes.
Proof.
  intros Hc Hat. rewrite app_nil_r in Hat. rewrite (at_pos_slice_from _ _ _ Hat).
  now apply bytes_of_Ok.
Qed.

Lemma zlen_ge_2 (a b : bytes) k : zlen a = Z.of_nat k -> (2 <= k)%nat -> (zlen (a ++ b) <? 2) = false.
Proof. intros Ha Hk. apply Z.ltb_ge. zlen_lia. Qed.

Lemma decode_connack_at p v body props :
  bytes_of [if ca_session_present p then 0x01 else 0x00; ca_return_code p] = Ok body ->
  match v with V50 => encode_connack_properties (ca_properties p) | V311 => Ok [] end = Ok props ->
  _decode_connack (body ++ props) v
  = Ok (mkConnAck (ca_session_present p) (ca_return_code p) (v5_only v (ca_properties p))).
Proof.
  intros Hb Hp. apply bytes_of_Ok in Hb. destruct body as [|b1 [|b2 [|]]]; try done.
  injection Hb as Hb1 Hb2. cbn [app]. unfold _decode_connack.
  assert (v = V50 -> 0 < zlen props) as Hlen.
  { intros ->. change (encode_connack_properties (ca_properties p)) with (ps_encode (ca_properties p)) in Hp.
    pose proof (ps_decode_at _ _ _ _ [] Hp (at_pos_0 _)) as E.
    destruct props; [|zlen_lia]. discriminate. }
  assert (at_pos (b1 :: b2 :: props) 0 (b1 :: b2 :: props ++ [])) as Hat
    by (rewrite app_nil_r; apply at_pos_0).
  assert (zlen (b1 :: b2 :: props) = 2 + zlen props) as Hbl by zlen_lia.
  set (buf := b1 :: b2 :: props) in Hat at 1, Hbl |- *. clearbody buf.
  rewrite (proj2 (Z.ltb_ge _ _)) by zlen_lia.
  read_byte Hat. read_byte Hat. rewrite Hb1, Hb2.
  destruct v; inv_ok;
    [rewrite bool_decide_false by done|rewrite bool_decide_true by done];
    cbn [andb mbind res_bind v5_only].
  - by destruct (ca_session_present p).
  - rewrite (proj2 (Z.ltb_lt _ _)) by (pose proof (Hlen eq_refl); zlen_lia). cbn [andb].
    read_step Hat. by destruct (ca_session_present p).
Qed.

Lemma publish_flags_bits p :
  let f := Z.land (publish_flags p) 0x0F in
  flag f 0x08 = p_dup p /\ flag f 0x01 = p_retain p /\
  QoS_of (Z.land (Z.shiftr f 1) 0x03) = Ok (p_qos p).
Proof.
  destruct p as [? ? q r d ? ?]. unfold publish_flags. cbn.
  destruct q, r, d; repeat split; reflexivity.
Qed.

Lemma decode_publish_at p v topic pid props :
  encode_str (p_topic p) = Ok topic ->
  (if decide (p_qos p = AT_MOST_ONCE) then Ok []
   else match p_packet_id p with
        | None => Err (ValueError "Cannot publish without packet id")
        | Some packet_id => pack 2 packet_id
        end) = Ok pid ->
  match v with V50 => encode_publish_properties (p_properties p) | V311 => Ok [] end = Ok props ->
  _decode_publish (topic ++ pid ++ props ++ p_payload p) (Z.land (publish_flags p) 0x0F) v
  = Ok (mkPublish (p_topic p) (p_payload p) (p_qos p) (p_retain p) (p_dup p)
          (if decide (p_qos p = AT_MOST_ONCE) then None else p_packet_id p)
          (v5_only v (p_properties p))).
Proof.
  intros Ht Hpid Hp. destruct (publish_flags_bits p) as (Ed & Er & Eq).
  open_body buf Hat. unfold _decode_publish. rewrite Ed, Er, Eq. cbn [mbind res_bind].
  read_step Hat. clear Ed Er Eq.
  case_decide; [injection Hpid as <-; cbn [app mbind res_bind] in *|
    destruct (p_packet_id p) as [id|]; [|done];
    pose proof (proj2 (proj2 (pack_Ok _ _ _ Hpid))) as Hplen; pose proof (at_pos_len _ _ _ Hat) as Hbl;
    rewrite (proj2 (Z.ltb_ge _ _)) by zlen_lia; read_step Hat];
  (destruct v; [injection Hp as <-; cbn [app mbind res_bind] in *|read_step Hat];
   do 2 f_equal; rewrite app_nil_r in Hat;
   match type of Hat with at_pos _ ?pos _ =>
     match goal with |- slice_from buf ?p = _ => replace p with pos by lia end end;
   exact (at_pos_slice_from _ _ _ Hat)).
Qed.

(** A typed property block is never empty on the wire: it has at least its length. *)
Lemma ps_encode_nonempty `{PropertySet P} (o : option P) enc : ps_encode o = Ok enc -> 0 < zlen enc.
Proof.
  intros He. rewrite ps_encode_eq in He. unfold encode_props_block in He.
  repeat match type of He with
  | match ?x with _ => _ end = _ => destruct x
  end; inv_ok; repeat match goal with H : encode_varint _ = Ok _ |- _ => apply encode_varint_zlen in H end;
  zlen_lia.
Qed.

(** The trailing [reason code, properties] of an acknowledgement, DISCONNECT or AUTH. *)
Lemma reason_props_at `{PropertySet P} (o : option P) rc pid props :
  0 <= rc < 256 -> ps_encode o = Ok props -> 
  byte_at (pid ++ zb rc :: props) (zlen pid) = Ok rc /\
  (zlen (pid ++ zb rc :: props) <? zlen pid + 2) = false /\
  (zlen pid + 1 <? zlen (pid ++ zb rc :: props)) = true /\
  ps_decode (pid ++ zb rc :: props) (zlen pid + 1) = Ok (canon o, zlen props).
Proof.
  intros Hrc Hp. pose proof (ps_encode_nonempty _ _ Hp) as Hne.
  assert (at_pos (pid ++ zb rc :: props) (zlen pid) (zb rc :: props ++ [])) as Hat
    by (rewrite app_nil_r; now exists pid).
  pose proof (at_pos_len _ _ _ Hat) as Hl. rewrite app_nil_r, zlen_cons in Hl.
  rewrite (at_pos_byte _ _ _ _ Hat), bz_zb by done. apply at_pos_next in Hat.
  rewrite (ps_decode_at _ _ _ _ _ Hp Hat). rewrite Hl.
  repeat split; [apply Z.ltb_ge|apply Z.ltb_lt]; lia.
Qed.

Lemma pid_only_at k pid buf : pack 2 k = Ok pid -> buf = pid ->
  (zlen buf <? 2) = false /\ (2 <? zlen buf) = false /\ unpack 2 buf 0 = Ok k.
Proof.
  intros Hp ->. pose proof (proj2 (proj2 (pack_Ok _ _ _ Hp))) as Hl. rewrite Hl.
  repeat split. apply (unpack_pack _ _ _ _ _ [] Hp). rewrite app_nil_r. apply at_pos_0.
Qed.

Lemma decode_pub_ack_at v t flags p enc :
  _encode_pub_ack_variant t flags (a_packet_id p) (a_reason_code p) (a_properties p) v = Ok enc ->
  exists body, _build_packet t flags body = Ok enc /\
    _decode_pub_ack_variant body v = Ok (canonical_ack v p).
Proof.
  destruct p as [id rc o]. cbn [a_packet_id a_reason_code a_properties].
  unfold _encode_pub_ack_variant, _packet_id_only. intros H.
  destruct (bool_decide _ && _) eqn:Hc.
  - inv_ok. rename x into pid, x0 into rcb, x1 into props.
    exists (pid ++ rcb ++ props). split; [done|]. apply andb_true_iff in Hc as [Hv _].
    apply bool_decide_eq_true in Hv as ->.
    pose proof (pack_Ok _ _ _ H) as (_ & _ & Hpl). pose proof (pack_Ok _ _ _ H0) as (Hr & -> & _).
    change (256 ^ Z.of_nat 1) with 256 in Hr. change (Z.of_nat 2) with 2 in Hpl.
    assert (be_bytes 1 rc = [zb rc]) as -> by (cbn; now rewrite Z.mod_small).
    cbn [app]. assert (ps_encode o = Ok props) as Hp by exact H1.
    destruct (reason_props_at o rc pid props Hr Hp) as (E1 & E2 & E3 & E4).
    unfold _decode_pub_ack_variant. rewrite Hpl in *. change (2 + 1) with 3 in *.
    assert (unpack 2 (pid ++ zb rc :: props) 0 = Ok id) as E0
      by exact (unpack_pack _ _ _ _ _ _ H (at_pos_0 _)).
    assert (decode_puback_properties (pid ++ zb rc :: props) 3 = Ok (canon o, zlen props)) as E5
      by exact E4.
    rewrite (proj2 (Z.ltb_ge _ 2)) by (zbool; lia). rewrite E0. cbn [mbind res_bind].
    rewrite bool_decide_true, (proj2 (Z.ltb_lt 2 _)) by (zbool; lia || done). cbn [andb].
    rewrite E1. cbn [mbind res_bind]. rewrite E3, E5. done.
  - inv_ok. rename x into pid. exists pid. split; [done|].
    destruct (pid_only_at _ _ pid H eq_refl) as (E1 & E2 & E3).
    unfold _decode_pub_ack_variant. rewrite E1, E2, E3, andb_false_r. cbn [mbind res_bind].
    destruct v; [done|]. rewrite bool_decide_true in Hc by done. cbn [andb] in Hc.
    zbool. subst. destruct o; done.
Qed.

Lemma sub_options_bits r v :
  0 <= sub_options r v < 256 /\ QoS_of (Z.land (sub_options r v) 0x03) = Ok (sr_qos r) /\
  (v = V50 -> flag (sub_options r v) 0x04 = sr_no_local r /\
     flag (sub_options r v) 0x08 = sr_retain_as_published r /\
     RetainHandling_of (Z.land (Z.shiftr (sub_options r v) 4) 0x03) = Ok (sr_retain_handling r)).
Proof.
  destruct r as [? q nl rap rh]. unfold sub_options. cbn.
  destruct v, q, nl, rap, rh; repeat split; first [reflexivity | done | vm_compute; congruence].
Qed.

Lemma decode_subscriptions_at l v enc buf pos fuel :
  encode_subscriptions l v = Ok enc -> at_pos buf pos (enc ++ []) -> zlen enc < Z.of_nat fuel ->
  decode_subscriptions fuel buf pos v = Ok (canonical_request v <$> l).
Proof.
  revert enc pos fuel; induction l as [|r l IH]; intros enc pos fuel He Hat Hf;
    cbn [encode_subscriptions] in He; inv_ok; (destruct fuel as [|fuel]; [zlen_lia|]);
    cbn [decode_subscriptions]; pose proof (at_pos_len _ _ _ Hat) as Hl.
  - rewrite (proj2 (Z.ltb_ge _ _)) by zlen_lia. done.
  - apply byte_of_Ok in H0 as [Ho ->]. destruct (encode_str_Ok _ _ H) as (? & _ & Hx & _).
    rewrite <-!app_assoc in Hat. cbn [app] in Hat. zlen_norm.
    rewrite (proj2 (Z.ltb_lt _ _)) by zlen_lia. read_step Hat.
    rewrite (proj2 (Z.leb_gt _ _)) by zlen_lia. read_byte Hat. rewrite bz_zb by done.
    destruct (sub_options_bits r v) as (_ & -> & Hv). cbn [mbind res_bind].
    rewrite (IH _ _ _ H1 Hat) by zlen_lia.
    destruct v; cbn [mbind res_bind]; [done|].
    destruct (Hv eq_refl) as (-> & -> & ->). cbn [mbind res_bind]. by destruct r.
Qed.

Lemma decode_subscribe_at p v pid props subs :
  pack 2 (s_packet_id p) = Ok pid ->
  match v with V50 => encode_subscribe_properties (s_properties p) | V311 => Ok [] end = Ok props ->
  encode_subscriptions (s_subscriptions p) v = Ok subs ->
  PSubscribe <$> _decode_subscribe (pid ++ props ++ subs) v = Ok (canonical v (PSubscribe p)).
Proof.
  intros Hpid Hp Hs. unfold _decode_subscribe. open_body buf Hat.
  pose proof (proj2 (proj2 (pack_Ok _ _ _ Hpid))) as Hpl. change (Z.of_nat 2) with 2 in Hpl.
  pose proof (at_pos_len _ _ _ Hat) as Hl. zlen_norm.
  rewrite (proj2 (Z.ltb_ge _ 2)) by zlen_lia. read_step Hat.
  assert (zlen subs < Z.of_nat (S (length buf))) as Hf by (unfold zlen in *; lia).
  destruct v; [injection Hp as <-; cbn [app mbind res_bind] in *|read_step Hat];
    match type of Hat with at_pos _ ?pos _ =>
      match goal with |- context [decode_subscriptions _ buf ?q _] => replace q with pos by lia end end;
    rewrite (decode_subscriptions_at _ _ _ _ _ _ Hs Hat Hf); done.
Qed.

Lemma decode_filters_at l enc buf pos fuel :
  encode_filters l = Ok enc -> at_pos buf pos (enc ++ []) -> zlen enc < Z.of_nat fuel ->
  decode_filters fuel buf pos = Ok l.
Proof.
  revert enc pos fuel; induction l as [|r l IH]; intros enc pos fuel He Hat Hf;
    cbn [encode_filters] in He; inv_ok; (destruct fuel as [|fuel]; [zlen_lia|]);
    cbn [decode_filters]; pose proof (at_pos_len _ _ _ Hat) as Hl.
  - rewrite (proj2 (Z.ltb_ge _ _)) by zlen_lia. done.
  - destruct (encode_str_Ok _ _ H) as (? & _ & Hx & _).
    assert (2 <= zlen x) by (subst x; rewrite zlen_app, be_bytes_zlen; zlen_lia).
    rewrite <-!app_assoc in Hat. zlen_norm.
    rewrite (proj2 (Z.ltb_lt _ _)) by zlen_lia. read_step Hat.
    rewrite (IH _ _ _ H0 Hat) by zlen_lia. done.
Qed.

Lemma decode_unsubscribe_at p v pid props filters :
  pack 2 (u_packet_id p) = Ok pid ->
  match v with V50 => encode_unsubscribe_properties (u_properties p) | V311 => Ok [] end = Ok props ->
  encode_filters (u_topic_filters p) = Ok filters ->
  PUnsubscribe <$> _decode_unsubscribe (pid ++ props ++ filters) v = Ok (canonical v (PUnsubscribe p)).
Proof.
  intros Hpid Hp Hs. unfold _decode_unsubscribe. open_body buf Hat.
  pose proof (proj2 (proj2 (pack_Ok _ _ _ Hpid))) as Hpl. change (Z.of_nat 2) with 2 in Hpl.
  pose proof (at_pos_len _ _ _ Hat) as Hl. zlen_norm.
  rewrite (proj2 (Z.ltb_ge _ 2)) by zlen_lia. read_step Hat.
  assert (zlen filters < Z.of_nat (S (length buf))) as Hf by (unfold zlen in *; lia).
  destruct v; [injection Hp as <-; cbn [app mbind res_bind] in *|read_step Hat];
    match type of Hat with at_pos _ ?pos _ =>
      match goal with |- context [decode_filters _ buf ?q] => replace q with pos by lia end end;
    rewrite (decode_filters_at _ _ _ _ _ Hs Hat Hf); done.
Qed.

Lemma decode_suback_at p v pid props codes :
  pack 2 (sa_packet_id p) = Ok pid ->
  match v with V50 => encode_suback_properties (sa_properties p) | V311 => Ok [] end = Ok props ->
  bytes_of (sa_return_codes p) = Ok codes ->
  PSubAck <$> _decode_suback (pid ++ props ++ codes) v = Ok (canonical v (PSubAck p)).
Proof.
  intros Hpid Hp Hs. unfold _decode_suback. open_body buf Hat.
  pose proof (proj2 (proj2 (pack_Ok _ _ _ Hpid))) as Hpl. change (Z.of_nat 2) with 2 in Hpl.
  pose proof (at_pos_len _ _ _ Hat) as Hl. zlen_norm.
  rewrite (proj2 (Z.ltb_ge _ 2)) by zlen_lia. read_step Hat.
  destruct v; [injection Hp as <-; cbn [app mbind res_bind] in *|read_step Hat];
    match type of Hat with at_pos _ ?pos _ =>
      match goal with |- context [slice_from _ ?q] => replace q with pos by lia end end;
    rewrite (slice_from_codes _ _ _ _ Hs Hat); done.
Qed.

Lemma decode_unsuback_at p enc v :
  _encode_unsuback p v = Ok enc ->
  exists body, _build_packet UNSUBACK 0 body = Ok enc /\
    PUnsubAck <$> _decode_unsuback body v = Ok (canonical v (PUnsubAck p)).
Proof.
  intros H. destruct v; cbn [_encode_unsuback] in H.
  - unfold _packet_id_only in H. inv_ok. eexists. split; [done|]. unfold _decode_unsuback.
    destruct (pid_only_at _ _ _ H eq_refl) as (-> & _ & ->). done.
  - inv_ok. rename H into Hpid, H0 into Hp, H1 into Hs. eexists. split; [done|].
    unfold _decode_unsuback. open_body buf Hat.
    pose proof (proj2 (proj2 (pack_Ok _ _ _ Hpid))) as Hpl. change (Z.of_nat 2) with 2 in Hpl.
    pose proof (at_pos_len _ _ _ Hat) as Hl. zlen_norm.
    rewrite (proj2 (Z.ltb_ge _ 2)) by zlen_lia. read_step Hat. read_step Hat.
    match type of Hat with at_pos _ ?pos _ =>
      match goal with |- context [slice_from _ ?q] => replace q with pos by lia end end.
    rewrite (slice_from_codes _ _ _ _ Hs Hat). done.
Qed.

Lemma decode_disconnect_at p enc v :
  _encode_disconnect p v = Ok enc ->
  exists body, _build_packet DISCONNECT 0 body = Ok enc /\
    PDisconnect <$> _decode_disconnect body v = Ok (canonical v (PDisconnect p)).
Proof.
  destruct p as [rc o]. unfold _encode_disconnect. cbn [d_reason_code d_properties]. intros H.
  destruct (bool_decide _ && _) eqn:Hc.
  - inv_ok. apply byte_of_Ok in H as [Hr ->]. rename x0 into props. eexists. split; [done|].
    assert (ps_encode o = Ok props) as Hp by exact H0.
    destruct (reason_props_at o rc [] props Hr Hp) as (E1 & E2 & E3 & E4).
    assert (decode_disconnect_properties (zb rc :: props) 1 = Ok (canon o, zlen props)) as E5
      by exact E4.
    cbn [app] in *. change (zlen []) with 0 in *. cbn [Z.add] in *. zbool.
    unfold _decode_disconnect. apply bool_decide_eq_true in H as ->.
    rewrite bool_decide_true, (proj2 (Z.leb_le 1 _)) by (lia || done). cbn [andb].
    rewrite E1. cbn [mbind res_bind]. rewrite (proj2 (Z.ltb_lt 1 _)) by lia. rewrite E5. done.
  - exists []. split; [done|]. unfold _decode_disconnect. rewrite andb_false_r.
    destruct v; [done|]. rewrite bool_decide_true in Hc by done. cbn [andb] in Hc.
    zbool. subst. destruct o; done.
Qed.

Lemma decode_auth_at p rc props v :
  byte_of (au_reason_code p) = Ok rc -> encode_auth_properties (au_properties p) = Ok props ->
  decode_body AUTH 0 (rc :: props) v = Ok (canonical v (PAuth p)).
Proof.
  intros Hrc Hp. apply byte_of_Ok in Hrc as [Hr ->]. destruct p as [rc o].
  cbn [au_reason_code au_properties] in *.
  assert (ps_encode o = Ok props) as Hp' by exact Hp.
  destruct (reason_props_at o rc [] props Hr Hp') as (E1 & E2 & E3 & E4).
  assert (decode_auth_properties (zb rc :: props) 1 = Ok (canon o, zlen props)) as E5 by exact E4.
  cbn [app] in *. change (zlen []) with 0 in *. cbn [Z.add] in *. zbool. cbn [decode_body].
  rewrite (proj2 (Z.ltb_ge _ 1)) by lia. rewrite E1. cbn [mbind res_bind].
  rewrite (proj2 (Z.ltb_lt 1 _)) by lia. rewrite E5. done.
Qed.

(** ** The round trip *)

Lemma encode_body p v enc :
  encode p v = Ok enc ->
  exists t flags body, _build_packet t flags body = Ok enc /\
    decode_body t (Z.land flags 0x0F) body v = Ok (canonical v p).
Proof.
  destruct p as [p|p|p|p|p|p|p|p|p|p|p| | |p|p]; cbn [encode]; intros H.
  - unfold _encode_connect in H. inv_ok. do 3 eexists. split; [done|].
    eapply decode_connect_at; done.
  - unfold _encode_connack in H. inv_ok. do 3 eexists. split; [done|]. cbn [decode_body].
    by erewrite decode_connack_at.
  - unfold _encode_publish in H. inv_ok. do 3 eexists. split; [done|]. cbn [decode_body].
    by erewrite decode_publish_at.
  - destruct (decode_pub_ack_at _ _ _ _ _ H) as (body & ? & E). do 3 eexists. split; [done|].
    cbn [decode_body]. by rewrite E.
  - destruct (decode_pub_ack_at _ _ _ _ _ H) as (body & ? & E). do 3 eexists. split; [done|].
    cbn [decode_body]. by rewrite E.
  - destruct (decode_pub_ack_at _ _ _ _ _ H) as (body & ? & E). do 3 eexists. split; [done|].
    cbn [decode_body]. by rewrite E.
  - destruct (decode_pub_ack_at _ _ _ _ _ H) as (body & ? & E). do 3 eexists. split; [done|].
    cbn [decode_body]. by rewrite E.
  - unfold _encode_subscribe in H. inv_ok. do 3 eexists. split; [done|].
    by apply decode_subscribe_at.
  - unfold _encode_suback in H. inv_ok. do 3 eexists. split; [done|]. by apply decode_suback_at.
  - unfold _encode_unsubscribe in H. inv_ok. do 3 eexists. split; [done|].
    by apply decode_unsubscribe_at.
  - destruct (decode_unsuback_at _ _ _ H) as (body & ? & E). do 3 eexists. split; [done|]. exact E.
  - do 3 eexists. split; [done|]. done.
  - do 3 eexists. split; [done|]. done.
  - destruct (decode_disconnect_at _ _ _ H) as (body & ? & E). do 3 eexists. split; [done|]. exact E.
  - inv_ok. do 3 eexists. split; [done|]. by apply decode_auth_at.
Qed.

Lemma decode_encoded p v enc rest limit :
  encode p v = Ok enc ->
  decode (enc ++ rest) v limit =
    (_ ← match limit with
         | Some l => raise_if (l <? zlen enc) (PacketTooLargeError (zlen enc) l)
         | None => Ok tt
         end;
     Ok (Some (canonical v p, zlen enc))).
Proof.
  intros (t & flags & body & Hb & Hd)%encode_body.
  rewrite (decode_frame _ _ _ _ _ _ _ Hb), Hd. done.
Qed.

(** ** Framing: decoding reads a prefix of the buffer *)

Lemma byte_at_app buf more pos : 0 <= pos < zlen buf -> byte_at (buf ++ more) pos = byte_at buf pos.
Proof.
  intros Hp. unfold byte_at. rewrite zlen_app. pose proof (zlen_nonneg more).
  rewrite (proj2 (Z.leb_le _ _)), !(proj2 (Z.ltb_lt _ _)) by lia. cbn [andb].
  rewrite app_nth1; [done|]. unfold zlen in *. lia.
Qed.

Lemma slice_app buf more a b : 0 <= a -> b <= zlen buf -> slice (buf ++ more) a b = slice buf a b.
Proof.
  intros Ha Hb. unfold slice. destruct (Z.le_gt_cases a b) as [Hab|Hab].
  - rewrite drop_app_le by (unfold zlen in *; lia). apply take_app_le.
    rewrite length_drop. unfold zlen in *. lia.
  - replace (Z.to_nat (b - a)) with O by lia. done.
Qed.

(** Once the header loop has an answer, more input does not change it; it consumes
    between one and four bytes and the length it reads is not negative. *)
Lemma decode_header_loop_prefix n buf more i acc m k :
  0 <= i -> 0 <= acc -> 0 <= m ->
  match decode_header_loop n buf i acc m k with
  | Ok None => True
  | r => decode_header_loop n (buf ++ more) i acc m k = r /\
      match r with
      | Ok (Some (len, k')) => 0 <= len /\ k + 1 <= k' /\ k' - k <= Z.of_nat n
      | _ => True
      end
  end.
Proof.
  revert i acc m k; induction n as [|n IH]; intros i acc m k Hi Hacc Hm; [done|].
  cbn [decode_header_loop]. case_if; [done|]. zbool.
  rewrite zlen_app, (proj2 (Z.leb_gt _ _)) by zlen_lia. rewrite byte_at_app by lia.
  destruct (byte_at buf (1 + i)) as [b|e] eqn:Eb; cbn [mbind res_bind]; [|done].
  apply byte_at_range in Eb as [Hb _]. rewrite land_7f by done.
  pose proof (Z.mod_pos_bound b 128 eq_refl).
  case_if; [split; [done|]; repeat split; nia|].
  specialize (IH (i + 1) (acc + b mod 128 * m) (m * 128) (k + 1)
                ltac:(lia) ltac:(nia) ltac:(lia)).
  destruct (decode_header_loop n buf _ _ _ _) as [[[len k']|]|e]; [|done|done].
  destruct IH as [-> ?]. split; [done|lia].
Qed.

(** A decoded packet consumed at least its two header bytes, all of them buffered. *)
Lemma decode_consumes buf v limit p n :
  decode buf v limit = Ok (Some (p, n)) ->
  2 <= n <= zlen buf /\ (forall l, limit = Some l -> n <= l).
Proof.
  unfold decode. intros H. case_if; [done|]. inv_ok.
  pose proof (decode_header_loop_prefix 4 buf [] 0 0 1 0 ltac:(lia) ltac:(lia) ltac:(lia)) as Hh.
  rewrite H0 in Hh. destruct x0 as [[len k]|]; [|done]. inv_ok.
  case_if; [done|]. zbool. destruct (PacketType_of _); [|done]. inv_ok. destruct Hh as (_ & ? & ? & ?).
  split; [lia|]. intros l ->. apply raise_if_Ok in H1. zbool. lia.
Qed.

(** Any answer of [decode] except "incomplete" is final. *)
Lemma decode_prefix buf more v limit :
  decode buf v limit <> Ok None -> decode (buf ++ more) v limit = decode buf v limit.
Proof.
  unfold decode. pose proof (zlen_nonneg more).
  destruct (zlen buf <? 2) eqn:E2; [done|]. zbool.
  rewrite zlen_app, (proj2 (Z.ltb_ge _ _)) by lia. rewrite byte_at_app by lia.
  destruct (byte_at buf 0) as [fb|e]; cbn [mbind res_bind]; [|done].
  pose proof (decode_header_loop_prefix 4 buf more 0 0 1 0 ltac:(lia) ltac:(lia) ltac:(lia)) as Hh.
  destruct (decode_header_loop 4 buf 0 0 1 0) as [[[len k]|]|e]; cbn [mbind res_bind];
    [|done|destruct Hh as [-> _]; done].
  destruct Hh as (-> & Hlen & Hk & _). cbn [mbind res_bind].
  destruct (match limit with Some _ => _ | None => _ end) as [[]|e]; cbn [mbind res_bind]; [|done].
  destruct (zlen buf <? 1 + k + len) eqn:Et; [done|]. zbool. intros _.
  rewrite (proj2 (Z.ltb_ge _ _)) by lia. destruct (PacketType_of _); [|done].
  now rewrite slice_app by lia.
Qed.

(** ** Decoding always terminates *)

Lemma tame_QoS_of n : tame (QoS_of n).
Proof. unfold QoS_of. by repeat case_if. Qed.
Lemma tame_RetainHandling_of n : tame (RetainHandling_of n).
Proof. unfold RetainHandling_of. by repeat case_if. Qed.
Lemma tame_raise_if b e : parse_error e = true -> tame (raise_if b e).
Proof. by destruct b. Qed.
Lemma tame_fmap {A B} (f : A -> B) r : tame r -> tame (f <$> r).
Proof. by destruct r. Qed.
#[export] Hint Resolve tame_QoS_of tame_RetainHandling_of : py.

Lemma decode_subscriptions_tame fuel buf pos v :
  0 <= pos -> zlen buf - pos < Z.of_nat fuel -> (0 < fuel)%nat ->
  tame (decode_subscriptions fuel buf pos v).
Proof.
  revert pos; induction fuel as [|fuel IH]; intros pos Hp Hf Hf'; [lia|].
  cbn [decode_subscriptions]. case_if; [|done]. zbool.
  apply tame_bind; [auto with py|]. intros [t n] Hn%decode_str_bounds. case_if; [done|]. zbool.
  apply tame_bind; [auto with py|]. intros o _. apply tame_bind; [auto with py|].
  intros q _. apply tame_bind; [destruct v; tame|]. intros r _.
  apply tame_bind; [apply IH; lia|done].
Qed.

Lemma decode_filters_tame fuel buf pos :
  0 <= pos -> zlen buf - pos < Z.of_nat fuel -> (0 < fuel)%nat ->
  tame (decode_filters fuel buf pos).
Proof.
  revert pos; induction fuel as [|fuel IH]; intros pos Hp Hf Hf'; [lia|].
  cbn [decode_filters]. case_if; [|done]. zbool.
  apply tame_bind; [auto with py|]. intros [t n] Hn%decode_str_bounds.
  apply tame_bind; [apply IH; lia|done].
Qed.

(** Walk through a packet decoder: every leaf needs no fuel, and every position reached is
    inside the integers the property decoders accept. *)
Ltac pos_facts :=
  inv_ok;
  repeat (match goal with
          | H : match ?x with _ => _ end = Ok _ |- _ => destruct x eqn:?
          end; inv_ok);
  repeat match goal with
  | H : decode_str _ _ = Ok _ |- _ => apply decode_str_bounds in H
  | H : decode_bytes_field _ _ = Ok _ |- _ => apply decode_bytes_field_bounds in H
  | H : (?d ?buf ?pos) = Ok (?o, ?n) |- _ =>
      let P := lazymatch type of o with option ?P => P end in
      assert (1 <= n) by (refine (ps_decode_bounds (P := P) buf pos o n H _); lia); clear H
  end.

Ltac decoder_tame :=
  repeat first
    [ solve [auto with py]
    | exact (eq_refl true)
    | apply tame_fmap
    | apply tame_raise_if; reflexivity
    | match goal with
      | |- tame (?d ?buf ?pos) =>
          let P := lazymatch type of (d buf pos) with res (option ?P * Z) => P end in
          refine (ps_decode_tame (P := P) buf pos _); pos_facts; lia
      | |- tame (decode_subscriptions _ ?buf _ _) =>
          apply decode_subscriptions_tame; [pos_facts; lia|pos_facts; unfold zlen; lia|lia]
      | |- tame (decode_filters _ ?buf _) =>
          apply decode_filters_tame; [pos_facts; lia|pos_facts; unfold zlen; lia|lia]
      | |- tame (mbind _ (match ?v with _ => _ end)) => destruct v eqn:?
      | |- tame (mbind _ (if ?b then _ else _)) => destruct b eqn:?
      | |- tame (mbind _ (mbind _ _)) => apply tame_bind
      | |- tame (mbind _ (Ok _)) => cbn [mbind res_bind]
      | |- tame (mbind _ _) =>
          apply tame_bind; [|first [intros [? ?] ?|intros ? ?]]
      | |- tame (if ?b then _ else _) => destruct b eqn:?
      | |- tame (match ?v with _ => _ end) => destruct v eqn:?
      | |- forall _, _ => intros
      end
    | progress cbn beta iota zeta ].

Lemma decode_connect_tame body : tame (_decode_connect body).
Proof. unfold _decode_connect. decoder_tame. Qed.

Lemma decode_body_tame t flags body v : tame (decode_body t flags body v).
Proof.
  destruct t; cbn [decode_body]; try apply tame_fmap; try apply decode_connect_tame;
    unfold _decode_connack, _decode_publish, _decode_pub_ack_variant, _decode_subscribe,
      _decode_suback, _decode_unsubscribe, _decode_unsuback, _decode_disconnect;
    decoder_tame.
Qed.

Lemma decode_header_loop_tame n buf i acc m k : tame (decode_header_loop n buf i acc m k).
Proof.
  revert i acc m k; induction n as [|n IH]; intros; cbn [decode_header_loop]; [done|].
  case_if; [done|]. apply tame_bind; [auto with py|]. intros. case_if; [done|apply IH].
Qed.

Lemma decode_tame buf v limit : tame (decode buf v limit).
Proof.
  unfold decode. case_if; [done|]. apply tame_bind; [auto with py|]. intros fb _.
  apply tame_bind; [apply decode_header_loop_tame|].
  intros [[len k]|] _; [|done]. apply tame_bind; [destruct limit; [by apply tame_raise_if|done]|].
  intros _ _. case_if; [done|]. destruct (PacketType_of _); [|done].
  apply tame_bind; [apply decode_body_tame|done].
Qed.

(** ** Partial frames *)

Lemma take_prefix {A} (l : list A) k : exists more, l = take k l ++ more.
Proof. exists (drop k l). by rewrite take_drop. Qed.

Lemma zlen_take {A} (l : list A) k : zlen (take k l) = Z.min (Z.of_nat k) (zlen l).
Proof. unfold zlen. rewrite length_take. lia. Qed.

(** A strict prefix of a frame is an incomplete packet, and an oversized frame is refused as
    soon as its fixed header is there. *)
Lemma decode_partial t flags body enc rest v limit k :
  _build_packet t flags body = Ok enc -> (k < length enc)%nat ->
  match limit with
  | Some l => if l <? zlen enc then
      (5 <= k)%nat -> decode (take k (enc ++ rest)) v limit = Err (PacketTooLargeError (zlen enc) l)
    else decode (take k (enc ++ rest)) v limit = Ok None
  | None => decode (take k (enc ++ rest)) v limit = Ok None
  end.
Proof.
  unfold _build_packet. intros H Hk. inv_ok. rename x into b, x0 into n.
  pose proof (encode_varint_zlen _ _ H0) as Hn.
  apply encode_varint_Ok in H0 as [_ Hl].
  rewrite take_app_le by lia.
  set (enc := b :: n ++ body) in *.
  assert (zlen enc = 1 + zlen n + zlen body) as Henc by (subst enc; zlen_lia).
  destruct (take_prefix enc k) as [more Hmore].
  assert (at_pos enc (1 + 0) (n ++ body)) as Hat by (by exists [b]).
  pose proof (decode_header_loop_at 4 (zlen body) n enc 0 0 1 0 body (zlen_nonneg body) Hl Hat) as Hh.
  replace (0 + zlen body * 1) with (zlen body) in Hh by lia. rewrite Z.add_0_l in Hh.
  pose proof (decode_header_loop_prefix 4 (take k enc) more 0 0 1 0
                ltac:(lia) ltac:(lia) ltac:(lia)) as Hp.
  rewrite <-Hmore in Hp. pose proof (zlen_take enc k) as Htk.
  assert (zlen (take k enc) = Z.of_nat k) as Htk' by (unfold zlen in *; lia). clear Htk.
  unfold decode. destruct (zlen (take k enc) <? 2) eqn:E2.
  { destruct limit as [l|]; [|done]. case_if; [|done]. intros. zbool. lia. }
  zbool.
  assert (byte_at (take k enc) 0 = Ok (bz b)) as ->.
  { apply (at_pos_byte _ 0 b (take (k - 1) (n ++ body))). subst enc.
    destruct k; [lia|]. cbn [take]. rewrite Nat.sub_succ, Nat.sub_0_r. apply at_pos_0. }
  cbn [mbind res_bind].
  destruct (decode_header_loop 4 (take k enc) 0 0 1 0) as [[[len m]|]|e] eqn:Ed; cbn [mbind res_bind].
  - destruct Hp as [Hp _]. rewrite Hp in Hh. injection Hh as -> ->.
    rewrite <-Henc. destruct limit as [l|]; [|cbn [mbind res_bind]; rewrite (proj2 (Z.ltb_lt _ _)); [done|]; unfold zlen in *; lia].
    destruct (l <? zlen enc) eqn:El; cbn [raise_if mbind res_bind]; [done|].
    rewrite (proj2 (Z.ltb_lt _ _)); [done|]. unfold zlen in *; lia.
  - destruct limit as [l|]; [|done]. case_if; [|done]. intros H5. exfalso.
    (* five bytes hold the whole header *)
    assert (exists body', take k enc = b :: n ++ body') as [body' Hb].
    { exists (take (k - 1 - length n) body). subst enc. destruct k; [lia|]. cbn [take].
      f_equal. rewrite take_app_ge by (unfold zlen in *; lia). do 2 f_equal. lia. }
    assert (at_pos (take k enc) (1 + 0) (n ++ body')) as Hat' by (rewrite Hb; by exists [b]).
    pose proof (decode_header_loop_at 4 (zlen body) n _ 0 0 1 0 body' (zlen_nonneg body) Hl Hat').
    congruence.
  - destruct Hp as [Hp _]. congruence.
Qed.

(** ** The contract of the codec *)

(** C1: the codec round trip, for all fifteen packet types and both protocol versions.  Every
    packet [encode] accepts is read back by [decode] from the front of any buffer that starts
    with its bytes, whatever follows them, under any size limit that admits the packet; the
    result is the packet with its wire-visible fields unchanged ([canonical]) and the number of
    bytes consumed is exactly the length of the encoding. *)
Theorem decode_encode p v enc rest limit :
  encode p v = Ok enc -> from_option (fun l => zlen enc <= l) True limit ->
  decode (enc ++ rest) v limit = Ok (Some (canonical v p, zlen enc)).
Proof.
  intros He Hl. rewrite (decode_encoded _ _ _ _ _ He). destruct limit as [l|]; [|done].
  cbn in Hl. rewrite (proj2 (Z.ltb_ge _ _)) by lia. done.
Qed.

Definition sample_publish : Publish :=
  mkPublish (py "a/b") [Init.Byte.x68; Init.Byte.x69] AT_LEAST_ONCE true false (Some 258)
    (Some (mkPublishProperties (Some 1) None None None None None None [(py "k", py "v")])).

Definition sample_frame : bytes :=
  [Init.Byte.x33; Init.Byte.x13;
   Init.Byte.x00; Init.Byte.x03; Init.Byte.x61; Init.Byte.x2f; Init.Byte.x62;
   Init.Byte.x01; Init.Byte.x02; Init.Byte.x09;
   Init.Byte.x01; Init.Byte.x01;
   Init.Byte.x26; Init.Byte.x00; Init.Byte.x01; Init.Byte.x6b; Init.Byte.x00; Init.Byte.x01; Init.Byte.x76;
   Init.Byte.x68; Init.Byte.x69].

Lemma decode_encode_witness :
  decode (sample_frame ++ [Init.Byte.xd0; Init.Byte.x00]) V50 (Some 21) =
    Ok (Some (PPublish sample_publish, 21)).
Proof.
  exact (decode_encode (PPublish sample_publish) V50 sample_frame
           [Init.Byte.xd0; Init.Byte.x00] (Some 21)
           ltac:(vm_compute; reflexivity) ltac:(vm_compute; discriminate)).
Defined.

(** Framing under TCP segmentation.  While only part of an encoded packet has arrived (any
    strict prefix of its bytes), [decode] reports "incomplete" and never an error or a packet,
    for every packet, version and admissible size limit. *)
Theorem decode_incomplete p v enc limit k :
  encode p v = Ok enc -> (k < length enc)%nat -> from_option (fun l => zlen enc <= l) True limit ->
  decode (take k enc) v limit = Ok None.
Proof.
  intros (t & flags & body & Hb & _)%encode_body Hk Hl.
  pose proof (decode_partial t flags body enc [] v limit k Hb Hk) as Hp. rewrite app_nil_r in Hp.
  destruct limit as [l|]; [|done]. cbn in Hl. by rewrite (proj2 (Z.ltb_ge _ _)) in Hp by lia.
Qed.

Lemma decode_incomplete_witness : decode (take 7 sample_frame) V50 (Some 100) = Ok None.
Proof.
  exact (decode_incomplete (PPublish sample_publish) V50 sample_frame (Some 100) 7
           ltac:(vm_compute; reflexivity) ltac:(vm_compute; lia) ltac:(vm_compute; discriminate)).
Defined.

(** A packet above the size limit is refused with [PacketTooLargeError] carrying its size
    and the limit, and the refusal does not wait for the packet: it comes as soon as the first
    five bytes (which hold the whole fixed header) have arrived, however much follows. *)
Theorem decode_oversized p v enc rest l k :
  encode p v = Ok enc -> l < zlen enc -> (5 <= k)%nat ->
  decode (take k (enc ++ rest)) v (Some l) = Err (PacketTooLargeError (zlen enc) l).
Proof.
  intros He Hl Hk. destruct (Nat.lt_ge_cases k (length enc)) as [Hlt|Hge].
  - pose proof (encode_body _ _ _ He) as (t & flags & body & Hb & _).
    pose proof (decode_partial t flags body enc rest v (Some l) k Hb Hlt) as Hp. cbn in Hp.
    rewrite (proj2 (Z.ltb_lt _ _)) in Hp by lia. auto.
  - rewrite take_app_ge, (decode_encoded _ _ _ _ _ He) by lia. cbn.
    by rewrite (proj2 (Z.ltb_lt _ _)) by lia.
Qed.

Lemma decode_oversized_witness :
  decode (take 5 (sample_frame ++ [])) V50 (Some 20) = Err (PacketTooLargeError 21 20).
Proof.
  exact (decode_oversized (PPublish sample_publish) V50 sample_frame [] 20 5
           ltac:(vm_compute; reflexivity) ltac:(vm_compute; reflexivity) ltac:(lia)).
Defined.

(** C39: [decode] is total on arbitrary input from the network: none of its loops runs forever
    (the fuel of the property, SUBSCRIBE and UNSUBSCRIBE loops is never exhausted), it answers
    "incomplete", a packet or an exception, which is [ValueError], [struct.error], [IndexError],
    [UnicodeDecodeError] or [PacketTooLargeError]; a packet it returns consumed at least two bytes,
    no more than are buffered and no more than the limit; and every answer other than
    "incomplete" is final: further input does not change it. *)
Theorem decode_total buf v limit :
  match decode buf v limit with
  | Ok None => True
  | Ok (Some (p, n)) =>
      2 <= n <= zlen buf /\ from_option (fun l => n <= l) True limit /\
      forall more, decode (buf ++ more) v limit = Ok (Some (p, n))
  | Err e => parse_error e = true /\ forall more, decode (buf ++ more) v limit = Err e
  end.
Proof.
  destruct (decode buf v limit) as [[[p n]|]|e] eqn:E; [|done|].
  - destruct (decode_consumes _ _ _ _ _ E) as [? Hl]. split; [done|]. split.
    + destruct limit; cbn; auto.
    + intros more. rewrite decode_prefix; [done|congruence].
  - split.
    + pose proof (decode_tame buf v limit) as H. by rewrite E in H.
    + intros more. rewrite decode_prefix; [done|congruence].
Qed.

(** A PUBLISH above QoS 0 must carry a packet identifier: without one [encode] raises
    ValueError and writes nothing, whatever the other fields, provided the topic is encodable
    (otherwise the topic's error comes first); with one outside 0..65535 it raises
    [struct.error]; at QoS 0 the identifier is not looked at. *)
Theorem encode_publish_packet_id p v :
  (p_qos p <> AT_MOST_ONCE -> is_Ok (encode_str (p_topic p)) ->
   match p_packet_id p with
   | None => encode (PPublish p) v = Err (ValueError "Cannot publish without packet id")
   | Some i => (i < 0 \/ 65535 < i) -> encode (PPublish p) v = Err StructError
   end) /\
  (p_qos p = AT_MOST_ONCE -> forall i,
   encode (PPublish (mkPublish (p_topic p) (p_payload p) (p_qos p) (p_retain p) (p_dup p) i
             (p_properties p))) v = encode (PPublish p) v).
Proof.
  cbn [encode]. unfold _encode_publish. destruct p as [t pl q r d pid pr]. cbn.
  split.
  - intros Hq [tb ->]. cbn. rewrite decide_False by done. destruct pid as [i|]; [|done].
    intros Hi. unfold pack. change (256 ^ Z.of_nat 2) with 65536.
    destruct ((0 <=? i) && (i <? 65536)) eqn:E; [|done]. zbool. lia.
  - intros -> i. by rewrite !decide_True.
Qed.

Lemma encode_publish_packet_id_witness :
  encode (PPublish (mkPublish (py "t") [] EXACTLY_ONCE false false None None)) V311 =
    Err (ValueError "Cannot publish without packet id").
Proof.
  refine (proj1 (encode_publish_packet_id
    (mkPublish (py "t") [] EXACTLY_ONCE false false None None) V311) _ _).
  - discriminate.
  - eexists. vm_compute. reflexivity.
Defined.
