(* ===== verification/Waiting.v ===== *)
(** * Timeouts and cancellation ([_internal/_compat.py])

    [wait_for] as the library has it for Python before 3.12, over the tasks and [asyncio.wait] of
    asyncio; and [defer_cancellation] for Python from 3.11 on.

    A task that is cancelled may still return, raise something else, or take its time: its end is
    an event of its own.

    Theorems: [wait_for] never hides a cancellation of its caller, gives the caller the outcome of
    the awaited task or [TimeoutError], and leaves no task running unless it is cancelled while it
    waits for the cancelled task; it always comes to its end; [defer_cancellation] gives
    back the cancellations it has set aside. *)

From S2P Require Import Prelude.

(** ** Tasks *)

Section wait_for.
Context {A : Type}.

(** How a task ends; an exception it raised itself is [Raised]. *)
Inductive TaskOutcome : Type :=
| Result (a : A)
| Raised (e : exn)
| Cancelled.

(** [task.result()] *)
Definition task_result (o : TaskOutcome) : res A :=
  match o with Result a => Ok a | Raised e => Err e | Cancelled => Err CancelledError end.

(** Why [_cancel_and_wait] was called. *)
Inductive why : Type := CallerCancelled | TimedOut.

Inductive wait_phase : Type :=
| WDirect             (** [await aw]: there is no timeout *)
| WWaiting            (** [asyncio.wait((task,), timeout=timeout)] *)
| WDraining (w : why) (** [asyncio.wait((task,))] of [_cancel_and_wait] *)
| WEnded (r : res A).

(** [w_task]: how the awaited task has ended; [w_cancelled]: [cancel()] was called on it;
    [w_fired]: the timer has; [w_thrown]: the caller was cancelled and has not resumed since. *)
Record waiting : Type := mkWaiting {
  w_phase : wait_phase;
  w_task : option TaskOutcome;
  w_cancelled : bool;
  w_fired : bool;
  w_thrown : bool
}.

Definition wait_for_begin (timeout : bool) : waiting :=
  mkWaiting (if timeout then WWaiting else WDirect) None false false false.

Inductive wait_event : Type :=
| WTaskEnds (o : TaskOutcome)
| WTimer
| WCancel      (** [cancel()] of the task that runs [wait_for] *)
| WResume.

Definition end_with (r : res A) (w : waiting) : waiting :=
  mkWaiting (WEnded r) (w_task w) (w_cancelled w) (w_fired w) false.

(** [task.cancel()], which does nothing to a task that is done, and then [asyncio.wait((task,))]. *)
Definition _cancel_and_wait (y : why) (w : waiting) : waiting :=
  mkWaiting (WDraining y) (w_task w) (w_cancelled w || match w_task w with None => true | Some _ => false end) (w_fired w) false.

(** The coroutine runs on: with [CancelledError] if it was cancelled, which wins over what it waited
    for. *)
Definition wait_resume (w : waiting) : waiting :=
  match w_phase w with
  | WDirect =>
    if w_thrown w then end_with (Err CancelledError) w
    else match w_task w with Some o => end_with (task_result o) w | None => w end
  | WWaiting =>
    if w_thrown w then _cancel_and_wait CallerCancelled w
    else
      match w_task w with
      | Some o => end_with (task_result o) w
      | None => if w_fired w then _cancel_and_wait TimedOut w else w
      end
  | WDraining y =>
    if w_thrown w then end_with (Err CancelledError) w
    else
      match w_task w, y with
      | Some _, CallerCancelled => end_with (Err CancelledError) w
      | Some Cancelled, TimedOut => end_with (Err (TimeoutError)) w
      | Some o, TimedOut => end_with (task_result o) w
      | None, _ => w
      end
  | WEnded _ => w
  end.

Definition wait_step (w : waiting) (ev : wait_event) : waiting :=
  match ev with
  | WTaskEnds o =>
    match w_task w with
    | None => mkWaiting (w_phase w) (Some o) (w_cancelled w) (w_fired w) (w_thrown w)
    | Some _ => w
    end
  | WTimer =>
    match w_phase w with
    | WWaiting => mkWaiting (w_phase w) (w_task w) (w_cancelled w) true (w_thrown w)
    | _ => w
    end
  | WCancel =>
    match w_phase w with
    | WEnded _ => w
    | WDirect =>
      (** The cancellation goes to what the caller awaits, if that is not done. *)
      if w_task w is Some _ then mkWaiting WDirect (w_task w) (w_cancelled w) (w_fired w) true
      else mkWaiting WDirect (w_task w) true (w_fired w) (w_thrown w)
    | _ => mkWaiting (w_phase w) (w_task w) (w_cancelled w) (w_fired w) true
    end
  | WResume => wait_resume w
  end.

Definition wait_steps (w : waiting) (evs : list wait_event) : waiting := foldl wait_step w evs.

Lemma wait_steps_app w evs evs' : wait_steps w (evs ++ evs') = wait_steps (wait_steps w evs) evs'.
Proof. apply foldl_app. Qed.

Definition wait_ended (w : waiting) : bool := match w_phase w with WEnded _ => true | _ => false end.

(** A cancellation is on its way to the caller, or there. *)
Definition cancelling (w : waiting) : Prop :=
  match w_phase w with
  | WDirect => False
  | WWaiting | WDraining TimedOut => w_thrown w = true
  | WDraining CallerCancelled => True
  | WEnded r => r = Err CancelledError
  end.

Lemma cancelling_step w ev : cancelling w -> cancelling (wait_step w ev).
Proof.
  unfold cancelling. destruct w as [p t c f th]. cbn [w_phase w_thrown].
  destruct ev as [o| | |], p as [| |[]|r], t as [[]|], th; cbn; try done.
Qed.

Lemma cancelling_steps w evs : cancelling w -> cancelling (wait_steps w evs).
Proof. revert w; induction evs as [|ev evs IH]; intros w H; [done|]. by apply IH, cancelling_step. Qed.

(** What an end means; [c] says that the caller has been cancelled. *)
Record wait_for_ok (c : bool) (w : waiting) : Prop := {
  wo_mode : w_phase w <> WDirect;
  wo_thrown : w_thrown w = true -> c = true;
  wo_drain : forall y, w_phase w = WDraining y ->
    (w_task w = None -> w_cancelled w = true) /\
    match y with CallerCancelled => c = true | TimedOut => w_fired w = true end;
  wo_end : forall r, w_phase w = WEnded r ->
    (w_task w = None -> w_cancelled w = true) /\
    (c = false -> exists o, w_task w = Some o /\
       (r = task_result o \/ (o = Cancelled /\ w_fired w = true /\ r = Err (TimeoutError))))
}.

Lemma wait_ok_step c w ev :
  wait_for_ok c w -> wait_for_ok (c || match ev with WCancel => true | _ => false end) (wait_step w ev).
Proof.
  destruct w as [p t k f th]. intros [H1 H2 H3 H4]. cbn [w_phase w_task w_cancelled w_fired w_thrown] in *.
  destruct c; destruct ev as [o| | |]; destruct p as [| |[]|r]; try done;
    (try destruct (H3 _ eq_refl) as [H3a H3b]); (try destruct (H4 _ eq_refl) as [H4a H4b]);
    destruct t as [[]|]; cbn; (try destruct th); (try destruct f); cbn;
    split; cbn; try done; intros; simplify_eq; split; intros; try done; try congruence; rewrite ?orb_true_r; auto; naive_solver.
Qed.

Lemma wait_ok_steps c w evs :
  wait_for_ok c w -> wait_for_ok (c || existsb (fun ev => match ev with WCancel => true | _ => false end) evs) (wait_steps w evs).
Proof.
  revert c w; induction evs as [|ev evs IH]; intros c w H; [by rewrite orb_false_r|].
  cbn [existsb wait_steps foldl]. rewrite orb_assoc. apply IH, wait_ok_step, H.
Qed.

Lemma wait_ok_begin : wait_for_ok false (wait_for_begin true).
Proof. by split. Qed.

Lemma resume_ends w o : w_phase w <> WDirect -> w_task w = Some o -> wait_ended (wait_steps w [WResume; WResume]) = true.
Proof.
  destruct w as [p t k f th]. cbn. intros Hp ->. destruct p as [| |[]|r]; try done; destruct th; try done; destruct o; done.
Qed.

(** C28: [wait_for].  Whatever the awaited task does when it is cancelled, and however timer, task and
    cancellations interleave: cancelled at any moment before it has ended, [wait_for] ends with
    [CancelledError], never with a result; not cancelled, it ends with the outcome of the task, or
    with [TimeoutError] if it has cancelled the task after the timeout and the task has
    ended so; it never leaves a task behind that it has not cancelled; and once the task
    has ended, it ends in two turns. *)
Theorem wait_for_cancellation evs :
  let w := wait_steps (wait_for_begin true) evs in
  (wait_ended w = false -> forall evs' r, w_phase (wait_steps w (WCancel :: evs')) = WEnded r -> r = Err CancelledError) /\
  (forall r, w_phase w = WEnded r ->
     (w_task w = None -> w_cancelled w = true) /\
     (WCancel ∉ evs -> exists o, w_task w = Some o /\
        (r = task_result o \/ (o = Cancelled /\ w_fired w = true /\ r = Err (TimeoutError))))) /\
  (forall o, w_task w = Some o -> wait_ended (wait_steps w [WResume; WResume]) = true).
Proof.
  intros w. pose proof (wait_ok_steps false _ evs wait_ok_begin) as Hw. fold w in Hw. split; [|split].
  - intros Hend evs' r Hr. pose proof (wo_mode _ _ Hw) as Hmode.
    assert (cancelling (wait_step w WCancel)) as Hc.
    { clearbody w. unfold cancelling, wait_ended in *. destruct w as [p t k f th]. cbn in *. by destruct p as [| |[]|r']. }
    pose proof (cancelling_steps _ evs' Hc) as H. change (wait_steps w (WCancel :: evs')) with (wait_steps (wait_step w WCancel) evs') in Hr.
    unfold cancelling in H. by rewrite Hr in H.
  - intros r Hr. destruct (wo_end _ _ Hw r Hr) as [H1 H2]. split; [done|]. intros Hn. apply H2. cbn.
    apply not_true_iff_false. intros (ev & He & Hev)%existsb_exists. destruct ev; try done. by destruct Hn; apply list_elem_of_In.
  - intros o Ho. apply (resume_ends w o); [apply Hw|done].
Qed.

(** The task swallows the cancellation that follows the timeout and returns. *)
Lemma late_result (a : A) :
  w_phase (wait_steps (wait_for_begin true) [WTimer; WResume; WTaskEnds (Result a); WResume]) = WEnded (Ok a).
Proof. done. Qed.
End wait_for.

(** ** [defer_cancellation] *)

(** What a task knows of its cancellations: [task.cancelling()] and the [CancelledError] to throw when
    it runs next, which [uncancel] takes back or not, depending on the version of Python. *)
Record AsyncTask : Type := mkAsyncTask {
  tk_cancelling : Z;
  tk_must_cancel : bool
}.

Definition cancel (t : AsyncTask) : AsyncTask := mkAsyncTask (tk_cancelling t + 1) true.
Definition uncancel (clears : bool) (t : AsyncTask) : AsyncTask :=
  let n := if 0 <? tk_cancelling t then tk_cancelling t - 1 else tk_cancelling t in
  mkAsyncTask n (if clears && (n =? 0) then false else tk_must_cancel t).

Definition repeatedly (f : AsyncTask -> AsyncTask) (n : Z) (t : AsyncTask) : AsyncTask := Nat.iter (Z.to_nat n) f t.

(** The [async with] around a body, which may be cancelled itself. *)
Definition defer_cancellation {R} (clears : bool) (body : AsyncTask -> res R * AsyncTask) (t : AsyncTask) : res R * AsyncTask :=
  let cancels := tk_cancelling t in
  let '(r, t) := body (repeatedly (uncancel clears) cancels t) in
  (r, repeatedly cancel cancels t).

Lemma uncancel_all clears n t :
  tk_cancelling t = Z.of_nat n -> tk_cancelling (Nat.iter n (uncancel clears) t) = 0.
Proof.
  assert (forall k t, tk_cancelling t = Z.of_nat (n + k) -> tk_cancelling (Nat.iter n (uncancel clears) t) = Z.of_nat k) as H;
    [|intros Ht; apply (H 0%nat); by rewrite Nat.add_0_r].
  induction n as [|n IH]; intros k t' Ht; [done|]. cbn [Nat.iter]. specialize (IH (S k) t'). rewrite <-Nat.add_succ_comm in IH.
  change (tk_cancelling (uncancel clears (Nat.iter n (uncancel clears) t')) = Z.of_nat k). unfold uncancel at 1. cbn [tk_cancelling].
  rewrite IH by done. rewrite (proj2 (Z.ltb_lt _ _)) by lia. lia.
Qed.

Lemma cancel_again n t :
  tk_cancelling (Nat.iter n cancel t) = tk_cancelling t + Z.of_nat n /\
  tk_must_cancel (Nat.iter n cancel t) = tk_must_cancel t || negb (Nat.eqb n 0).
Proof.
  induction n as [|n [IH1 IH2]]; [cbn; rewrite orb_false_r; split; [lia|done]|]. split.
  - change (tk_cancelling (Nat.iter n cancel t) + 1 = tk_cancelling t + Z.of_nat (S n)). lia.
  - by rewrite orb_true_r.
Qed.

(** The body runs as if the task had not been cancelled; afterwards the cancellations set aside are
    there again, on top of those that came meanwhile, and a task that had been cancelled
    before is told so when it runs next. *)
Theorem cancellation_deferred {R} clears (body : AsyncTask -> res R * AsyncTask) t :
  0 <= tk_cancelling t ->
  let before := repeatedly (uncancel clears) (tk_cancelling t) t in
  let after := (defer_cancellation clears body t).2 in
  tk_cancelling before = 0 /\
  (defer_cancellation clears body t).1 = (body before).1 /\
  tk_cancelling after = tk_cancelling (body before).2 + tk_cancelling t /\
  tk_must_cancel after = tk_must_cancel (body before).2 || (0 <? tk_cancelling t).
Proof.
  intros Hn before after. split; [apply uncancel_all; lia|]. subst after. unfold defer_cancellation. fold before.
  destruct (body before) as [r t']. cbn [fst snd]. split; [done|]. unfold repeatedly.
  destruct (cancel_again (Z.to_nat (tk_cancelling t)) t') as [-> ->]. split; [lia|]. f_equal.
  destruct (Z.ltb_spec 0 (tk_cancelling t)), (Nat.eqb_spec (Z.to_nat (tk_cancelling t)) 0); try done; lia.
Qed.
