(* ===== verification/Reader.v ===== *)
(** * The incremental packet reader ([_internal/packets/reader.py])

    [PacketBuffer] as a record with its operations: [feed], one step of the generator
    [__iter__] ([iter_next]), closing it early ([iter_close]), and the consumers' [for] loop
    over it ([drain]).  The specification is the relation [parses], which says what a byte
    stream contains; the reader is shown to implement it for every way of cutting the stream
    into chunks. *)

From S2P Require Import Prelude Packets Codec.

(** [pb_exported]: a suspended iterator holds a [memoryview] of [_buf]. *)
Record PacketBuffer : Type := mkPacketBuffer {
  pb_buf : bytes;
  pb_offset : Z;
  pb_version : version;
  pb_max_packet_size : option Z;
  pb_exported : bool
}.

Definition PacketBuffer_new (v : version) (max_packet_size : option Z) : PacketBuffer :=
  mkPacketBuffer [] 0 v max_packet_size false.

(** A [bytearray] cannot be resized while a view on it is exported: both statements of [feed]
    resize it, unless they remove or add nothing. *)
Definition feed (b : PacketBuffer) (data : bytes) : res PacketBuffer :=
  buf ← (if pb_offset b =? 0 then Ok (pb_buf b)
         else if pb_exported b then Err BufferError
         else Ok (slice_from (pb_buf b) (pb_offset b)));
  match data with
  | [] => Ok (mkPacketBuffer buf 0 (pb_version b) (pb_max_packet_size b) (pb_exported b))
  | _ =>
    if pb_exported b then Err BufferError
    else Ok (mkPacketBuffer (buf ++ data) 0 (pb_version b) (pb_max_packet_size b) false)
  end.

(** [view.release()] *)
Definition iter_close (b : PacketBuffer) : PacketBuffer :=
  mkPacketBuffer (pb_buf b) (pb_offset b) (pb_version b) (pb_max_packet_size b) false.

(** One turn of the [while True] loop of [__iter__], up to the [yield], the [return] or the
    exception; the last two run the [finally] clause. *)
Definition iter_next (b : PacketBuffer) : res (option AnyPacket) * PacketBuffer :=
  match decode (slice_from (pb_buf b) (pb_offset b)) (pb_version b) (pb_max_packet_size b) with
  | Err e => (Err e, iter_close b)
  | Ok None => (Ok None, iter_close b)
  | Ok (Some (packet, consumed)) =>
    (Ok (Some packet),
     mkPacketBuffer (pb_buf b) (pb_offset b + consumed) (pb_version b) (pb_max_packet_size b) true)
  end.

(** [for packet in buf: ...]: the packets yielded, and the exception that ended the loop. *)
Fixpoint drain (fuel : nat) (b : PacketBuffer) : list AnyPacket * option exn * PacketBuffer :=
  match fuel with
  | O => ([], Some OutOfFuel, b)
  | S fuel' =>
    match iter_next b with
    | (Ok None, b') => ([], None, b')
    | (Err e, b') => ([], Some e, b')
    | (Ok (Some p), b') =>
      let '(ps, e, b'') := drain fuel' b' in (p :: ps, e, b'')
    end
  end.

(** The bytes received and not yet parsed. *)
Definition pending (b : PacketBuffer) : bytes := slice_from (pb_buf b) (pb_offset b).

(** Every packet takes bytes off [pending], so its length bounds the turns ([drain_parses]). *)
Definition drain_all (b : PacketBuffer) : list AnyPacket * option exn * PacketBuffer :=
  drain (S (length (pending b))) b.

(** The reading side of a connection: drain the buffer, read a chunk, feed it, and so on. *)
Fixpoint read_loop (b : PacketBuffer) (chunks : list bytes) : list AnyPacket * option exn * PacketBuffer :=
  match drain_all b with
  | (ps, Some e, b') => (ps, Some e, b')
  | (ps, None, b') =>
    match chunks with
    | [] => (ps, None, b')
    | data :: chunks' =>
      match feed b' data with
      | Err e => (ps, Some e, b')
      | Ok b'' => let '(ps', e, b''') := read_loop b'' chunks' in (ps ++ ps', e, b''')
      end
    end
  end.

(** ** What a stream contains *)

(** [parses v limit bs ps r]: the stream [bs] holds the packets [ps], and then either an
    incomplete packet ([inr] its bytes) or a malformed or oversized one ([inl]). *)
Inductive parses (v : version) (limit : option Z) : bytes -> list AnyPacket -> exn + bytes -> Prop :=
| parses_wait bs : decode bs v limit = Ok None -> parses v limit bs [] (inr bs)
| parses_error bs e : decode bs v limit = Err e -> parses v limit bs [] (inl e)
| parses_packet bs p n ps r :
    decode bs v limit = Ok (Some (p, n)) -> parses v limit (slice_from bs n) ps r ->
    parses v limit bs (p :: ps) r.

Lemma zlen_slice_from bs n : 0 <= n <= zlen bs -> zlen (slice_from bs n) = zlen bs - n.
Proof. intros Hn. unfold slice_from. rewrite Z.min_l by lia. unfold zlen in *. rewrite length_drop. lia. Qed.

Lemma slice_from_app bs more n : 0 <= n <= zlen bs -> slice_from (bs ++ more) n = slice_from bs n ++ more.
Proof.
  intros Hn. unfold slice_from. rewrite !Z.min_l by zlen_lia. apply drop_app_le.
  unfold zlen in *. lia.
Qed.

Lemma slice_from_0 bs : slice_from bs 0 = bs.
Proof. unfold slice_from. rewrite Z.min_l by zlen_lia. done. Qed.

Lemma slice_from_slice_from bs m n :
  0 <= m <= zlen bs -> 0 <= n <= zlen bs - m -> slice_from (slice_from bs m) n = slice_from bs (m + n).
Proof.
  intros Hm Hn. assert (n <= zlen (slice_from bs m)) by (rewrite zlen_slice_from; lia).
  unfold slice_from at 1. rewrite Z.min_l by done. unfold slice_from.
  rewrite !Z.min_l by lia. rewrite drop_drop. f_equal. lia.
Qed.

Section parses.
Context (v : version) (limit : option Z).

Lemma parses_total bs : exists ps r, parses v limit bs ps r.
Proof.
  remember (length bs) as k eqn:Hk. revert bs Hk.
  induction k as [k IH] using lt_wf_ind. intros bs ->.
  destruct (decode bs v limit) as [[[p n]|]|e] eqn:E.
  - destruct (decode_consumes _ _ _ _ _ E) as [Hn _].
    destruct (IH (length (slice_from bs n))) with (bs := slice_from bs n) as (ps & r & Hr);
      [|done|eauto using parses].
    pose proof (zlen_slice_from bs n ltac:(lia)). unfold zlen in *. lia.
  - eauto using parses.
  - eauto using parses.
Qed.

Lemma parses_functional bs ps r ps' r' :
  parses v limit bs ps r -> parses v limit bs ps' r' -> ps = ps' /\ r = r'.
Proof.
  intros H; revert ps' r'; induction H; intros ps' r' H'; inversion H'; subst; try congruence; try done.
  - split; congruence.
  - match goal with E : decode _ _ _ = Ok (Some (?q, ?m)) |- _ =>
      assert (p = q /\ n = m) as [-> ->] by (split; congruence) end.
    match goal with P : parses _ _ (slice_from _ _) _ _, Q : parses _ _ (slice_from _ _) ?qs r' |- _ =>
      destruct (IHparses qs r') as [-> ->]; [assumption|done] end.
Qed.

(** More input: the packets already there stay, and parsing goes on where it stopped. *)
Lemma parses_app bs more ps rest ps' r :
  parses v limit bs ps (inr rest) -> parses v limit (rest ++ more) ps' r ->
  parses v limit (bs ++ more) (ps ++ ps') r.
Proof.
  intros H. remember (inr rest) as r0 eqn:Hr. induction H; simplify_eq; intros H'; [done|].
  pose proof (decode_consumes _ _ _ _ _ H) as [Hn _]. apply (parses_packet _ _ _ _ n).
  - rewrite decode_prefix; [done|congruence].
  - rewrite slice_from_app by lia. auto.
Qed.

Lemma parses_app_error bs more ps e :
  parses v limit bs ps (inl e) -> parses v limit (bs ++ more) ps (inl e).
Proof.
  intros H. remember (inl e) as r0 eqn:Hr. induction H; simplify_eq.
  - constructor. rewrite decode_prefix; [done|congruence].
  - pose proof (decode_consumes _ _ _ _ _ H) as [Hn _]. apply (parses_packet _ _ _ _ n).
    + rewrite decode_prefix; [done|congruence].
    + rewrite slice_from_app by lia. auto.
Qed.

(** A stream ends in an exception of the decoder. *)
Lemma parses_tame bs ps e : parses v limit bs ps (inl e) -> parse_error e = true.
Proof.
  intros H. remember (inl e) as r0 eqn:Hr. induction H as [bs e' H| |]; simplify_eq; [|auto].
  pose proof (decode_tame bs v limit) as Ht. by rewrite H in Ht.
Qed.

(** Encoded packets, one after another, followed by a part of the next. *)
Lemma parses_encoded packets encs tail :
  Forall2 (fun p enc => encode p v = Ok enc /\ from_option (fun l => zlen enc <= l) True limit)
    packets encs ->
  decode tail v limit = Ok None ->
  parses v limit (concat encs ++ tail) (canonical v <$> packets) (inr tail).
Proof.
  intros H Ht. induction H as [|p enc packets encs [He Hl] _ IH]; [by constructor|].
  cbn [concat fmap list_fmap]. rewrite <-app_assoc.
  apply (parses_packet _ _ _ _ (zlen enc)).
  - rewrite (decode_encoded _ _ _ _ _ He). destruct limit as [l|]; [|done].
    cbn in Hl |- *. by rewrite (proj2 (Z.ltb_ge _ _)) by lia.
  - rewrite (at_pos_slice_from _ _ (concat encs ++ tail)); [done|]. by exists enc.
Qed.
End parses.

(** ** The reader implements it *)

Definition well_formed (b : PacketBuffer) : Prop := 0 <= pb_offset b <= zlen (pb_buf b).

Lemma drain_parses fuel b ps r :
  well_formed b -> (length (pending b) < fuel)%nat ->
  parses (pb_version b) (pb_max_packet_size b) (pending b) ps r ->
  exists b', drain fuel b = (ps, match r with inl e => Some e | inr _ => None end, b') /\
    well_formed b' /\ pb_exported b' = false /\ pb_version b' = pb_version b /\
    pb_max_packet_size b' = pb_max_packet_size b /\
    match r with inl _ => True | inr rest => pending b' = rest end.
Proof.
  intros Hwf Hf H. remember (pb_version b) as v eqn:Hv. remember (pb_max_packet_size b) as l eqn:Hl.
  remember (pending b) as bs eqn:Hb.
  revert fuel b Hwf Hf Hv Hl Hb. induction H as [bs E|bs e E|bs p n ps r E _ IH];
    intros [|fuel] b Hwf Hf -> -> ->; try lia; cbn [drain]; unfold iter_next;
    fold (pending b); rewrite E.
  - exists (iter_close b). done.
  - exists (iter_close b). done.
  - pose proof (decode_consumes _ _ _ _ _ E) as [Hn _]. unfold well_formed in Hwf.
    assert (zlen (pending b) = zlen (pb_buf b) - pb_offset b) as Hp by (by apply zlen_slice_from).
    edestruct (IH fuel (mkPacketBuffer (pb_buf b) (pb_offset b + n) (pb_version b)
                          (pb_max_packet_size b) true)) as (b' & -> & Hb').
    + unfold well_formed. cbn. lia.
    + pose proof (zlen_slice_from (pending b) n ltac:(lia)). unfold zlen in *. lia.
    + done.
    + done.
    + unfold pending in *. cbn. rewrite slice_from_slice_from; [done|lia|lia].
    + exists b'. done.
Qed.

Lemma drain_all_parses b ps r :
  well_formed b -> parses (pb_version b) (pb_max_packet_size b) (pending b) ps r ->
  exists b', drain_all b = (ps, match r with inl e => Some e | inr _ => None end, b') /\
    well_formed b' /\ pb_exported b' = false /\ pb_version b' = pb_version b /\
    pb_max_packet_size b' = pb_max_packet_size b /\
    match r with inl _ => True | inr rest => pending b' = rest end.
Proof. intros Hwf H. apply drain_parses; [done|lia|done]. Qed.

Lemma feed_pending b data :
  well_formed b -> pb_exported b = false ->
  exists b', feed b data = Ok b' /\ well_formed b' /\ pb_exported b' = false /\
    pb_version b' = pb_version b /\ pb_max_packet_size b' = pb_max_packet_size b /\
    pending b' = pending b ++ data /\ pb_offset b' = 0.
Proof.
  intros Hwf He. unfold feed. rewrite He.
  assert ((if pb_offset b =? 0 then Ok (pb_buf b) else Ok (slice_from (pb_buf b) (pb_offset b)))
          = Ok (pending b)) as ->.
  { unfold pending. case_if; zbool; [|done]. by rewrite Heqb0, slice_from_0. }
  cbn [mbind res_bind]. unfold pending, well_formed.
  destruct data as [|x data]; eexists; (split; [done|]); cbn [pb_buf pb_offset pb_version
    pb_max_packet_size pb_exported]; rewrite ?app_nil_r, slice_from_0;
    repeat split; try done; zlen_lia.
Qed.

Lemma read_loop_parses b chunks ps r :
  well_formed b -> parses (pb_version b) (pb_max_packet_size b) (pending b ++ concat chunks) ps r ->
  exists b', read_loop b chunks = (ps, match r with inl e => Some e | inr _ => None end, b') /\
    match r with inl _ => True | inr rest => pending b' = rest end.
Proof.
  revert b ps r; induction chunks as [|data chunks IH]; intros b ps r Hwf H; cbn [read_loop concat] in *.
  - rewrite app_nil_r in H. destruct (drain_all_parses _ _ _ Hwf H) as (b' & -> & _ & _ & _ & _ & Hr).
    exists b'. destruct r; done.
  - destruct (parses_total (pb_version b) (pb_max_packet_size b) (pending b)) as (ps1 & r1 & H1).
    destruct (drain_all_parses _ _ _ Hwf H1) as (b1 & -> & Hwf1 & Hx1 & Hv1 & Hm1 & Hr1).
    destruct r1 as [e|rest].
    + apply (parses_app_error _ _ _ (data ++ concat chunks)) in H1.
      destruct (parses_functional _ _ _ _ _ _ _ H H1) as [-> ->]. eauto.
    + destruct (feed_pending b1 data Hwf1 Hx1) as (b2 & -> & Hwf2 & Hx2 & Hv2 & Hm2 & Hp2 & _).
      destruct (parses_total (pb_version b) (pb_max_packet_size b) (pending b2 ++ concat chunks))
        as (ps2 & r2 & H2).
      assert (ps = ps1 ++ ps2 /\ r = r2) as [-> ->].
      { eapply parses_functional; [exact H|]. eapply parses_app; [exact H1|].
        by rewrite Hp2, Hr1, <-app_assoc in H2. }
      rewrite <-Hv1, <-Hv2, <-Hm1, <-Hm2 in H2.
      destruct (IH _ _ _ Hwf2 H2) as (b3 & -> & Hr3). eauto.
Qed.

(** While a packet is incomplete, its buffered part is smaller than the size limit. *)
Lemma decode_header_loop_wait n buf i acc m k :
  decode_header_loop n buf i acc m k = Ok None -> zlen buf <= i + Z.of_nat n.
Proof.
  revert i acc m k; induction n as [|n IH]; intros i acc m k H; cbn [decode_header_loop] in H; [done|].
  case_if; [zbool; lia|]. inv_ok. case_if; [done|]. apply IH in H0. lia.
Qed.

Lemma decode_wait_bound bs v l : decode bs v (Some l) = Ok None -> zlen bs < Z.max 5 l.
Proof.
  unfold decode. case_if; [zbool; lia|]. intros H. inv_ok. destruct x0 as [[len m]|].
  - inv_ok. case_if; zbool; [lia|]. destruct (PacketType_of _); inv_ok.
  - apply decode_header_loop_wait in H0. lia.
Qed.

Lemma well_formed_new v limit : well_formed (PacketBuffer_new v limit).
Proof. unfold well_formed. cbn. split; [lia|]. change (0 <= zlen (@nil byte)). zlen_lia. Qed.

Lemma parses_bound v l bs ps rest : parses v (Some l) bs ps (inr rest) -> zlen rest < Z.max 5 l.
Proof.
  intros H. remember (inr rest) as r0 eqn:Hr. induction H; simplify_eq; [|auto].
  eapply decode_wait_bound; eassumption.
Qed.

(** ** The contract of the reader *)

(** A part of an encoded packet within the limit is incomplete. *)
Lemma encoded_part_waits p v enc limit k :
  encode p v = Ok enc -> from_option (fun l => zlen enc <= l) True limit -> (k < length enc)%nat ->
  decode (take k enc) v limit = Ok None.
Proof.
  intros (t & flags & body & Hb & _)%encode_body Hl Hk.
  pose proof (decode_partial t flags body enc [] v limit k Hb Hk) as Hp. rewrite app_nil_r in Hp.
  destruct limit as [l|]; [|done]. cbn in Hl. by rewrite (proj2 (Z.ltb_ge _ _)) in Hp by lia.
Qed.

(** C37: the reader does not depend on how TCP cuts the stream: for every input, well-formed or
    not, and every way of splitting it into chunks, draining the buffer before each chunk is fed
    and after the last yields the same packets in the same order and ends with the same
    exception of the decoder (or none) as feeding the whole stream at once; it always terminates, and without
    an exception the same bytes are left waiting. *)
Theorem read_loop_chunking v limit chunks :
  exists ps e b1 b2,
    read_loop (PacketBuffer_new v limit) chunks = (ps, e, b1) /\
    read_loop (PacketBuffer_new v limit) [concat chunks] = (ps, e, b2) /\
    from_option (fun x => parse_error x = true) True e /\ (e = None -> pending b1 = pending b2).
Proof.
  destruct (parses_total v limit (concat chunks)) as (ps & r & H).
  pose proof (well_formed_new v limit) as Hwf.
  destruct (read_loop_parses _ chunks ps r Hwf H) as (b1 & H1 & Hr1).
  destruct (read_loop_parses _ [concat chunks] ps r Hwf) as (b2 & H2 & Hr2).
  { cbn [concat]. by rewrite app_nil_r. }
  exists ps, (match r with inl e => Some e | inr _ => None end), b1, b2.
  repeat split; [done|done| |]; destruct r as [e|rest]; try done.
  - by apply (parses_tame _ _ _ _ _ H).
  - intros _. congruence.
Qed.

(** C2: end to end through encoder, wire and reader: a sequence of packets, each accepted by
    [encode] and within the size limit, followed by a strict prefix of one more, is delivered by
    the reader as exactly that sequence, in order, nothing lost, invented or duplicated, however
    the bytes are cut into chunks; the partial packet is kept as it is for the next read. *)
Theorem read_loop_packets v limit packets encs last enc k chunks :
  Forall2 (fun p enc => encode p v = Ok enc /\ from_option (fun l => zlen enc <= l) True limit)
    (packets ++ [last]) (encs ++ [enc]) ->
  (k < length enc)%nat -> concat chunks = concat encs ++ take k enc ->
  exists b, read_loop (PacketBuffer_new v limit) chunks = (canonical v <$> packets, None, b) /\
    pending b = take k enc.
Proof.
  intros H Hk Hc. apply Forall2_app_inv in H as [H Hlast].
  2:{ apply Forall2_length in H. rewrite !length_app in H. cbn in H. lia. }
  apply Forall2_cons in Hlast as [[He Hl] _].
  pose proof (encoded_part_waits last v enc limit k He Hl Hk) as Hwait.
  pose proof (parses_encoded v limit packets encs (take k enc) H Hwait) as Hparse.
  rewrite <-Hc in Hparse.
  destruct (read_loop_parses (PacketBuffer_new v limit) chunks _ _ (well_formed_new v limit) Hparse)
    as (b & Hb1 & Hb2). eauto.
Qed.

Lemma read_loop_packets_witness :
  exists b, read_loop (PacketBuffer_new V50 (Some 50))
      [take 1 sample_frame; drop 1 sample_frame ++ take 9 sample_frame]
    = ([PPublish sample_publish], None, b) /\ pending b = take 9 sample_frame.
Proof.
  refine (read_loop_packets V50 (Some 50) [PPublish sample_publish] [sample_frame]
    (PPublish sample_publish) sample_frame 9 _ _ _ _).
  - repeat constructor; vm_compute; (reflexivity || discriminate).
  - vm_compute. lia.
  - reflexivity.
Defined.

(** The iterator protocol.  Suspended after yielding a packet, the iterator pins the buffer,
    so feeding bytes raises [BufferError] and changes nothing; once it is closed, feeding is
    possible again, drops exactly the consumed bytes and appends the new ones, so leaving the
    loop early loses no byte and yields no packet twice. *)
Theorem iter_early_exit b p b' data :
  well_formed b -> iter_next b = (Ok (Some p), b') -> data <> [] ->
  feed b' data = Err BufferError /\
  exists n b'', decode (pending b) (pb_version b) (pb_max_packet_size b) = Ok (Some (p, n)) /\
    feed (iter_close b') data = Ok b'' /\ pb_offset b'' = 0 /\
    pb_buf b'' = slice_from (pending b) n ++ data.
Proof.
  unfold iter_next. fold (pending b). intros Hwf H Hd.
  destruct (decode (pending b) _ _) as [[[q n]|]|e] eqn:E; [|done|done].
  injection H as -> <-. pose proof (decode_consumes _ _ _ _ _ E) as [Hn _].
  unfold well_formed in Hwf. pose proof (zlen_slice_from (pb_buf b) (pb_offset b) Hwf) as Hp.
  fold (pending b) in Hp. split.
  - unfold feed. destruct data as [|x data]; [by destruct Hd|]. cbn. by case_if.
  - exists n. unfold feed. cbn. rewrite (proj2 (Z.eqb_neq _ _)) by lia. cbn.
    destruct data; [by destruct Hd|]. eexists; repeat split. cbn. unfold pending in *.
    rewrite slice_from_slice_from by lia. done.
Qed.

Lemma iter_early_exit_witness :
  let b := mkPacketBuffer (sample_frame ++ [Init.Byte.xd0]) 0 V50 None false in
  feed (mkPacketBuffer (pb_buf b) 21 V50 None true) [Init.Byte.x00] = Err BufferError /\
  exists n b'', decode (pending b) V50 None = Ok (Some (PPublish sample_publish, n)) /\
    feed (mkPacketBuffer (pb_buf b) 21 V50 None false) [Init.Byte.x00] = Ok b'' /\
    pb_offset b'' = 0 /\ pb_buf b'' = slice_from (pending b) n ++ [Init.Byte.x00].
Proof.
  refine (iter_early_exit
    (mkPacketBuffer (sample_frame ++ [Init.Byte.xd0]) 0 V50 None false) _ _ _ _ _ _).
  - split; vm_compute; discriminate.
  - vm_compute. reflexivity.
  - discriminate.
Defined.

(** With a size limit the reader's memory is bounded whatever the peer sends: after any
    chunks have been read without an exception, fewer bytes than the limit (or five, if the
    limit is smaller) are left in the buffer. *)
Theorem read_loop_bounded v l chunks ps b :
  read_loop (PacketBuffer_new v (Some l)) chunks = (ps, None, b) -> zlen (pending b) < Z.max 5 l.
Proof.
  intros H. destruct (parses_total v (Some l) (concat chunks)) as (ps' & r & Hp).
  destruct (read_loop_parses (PacketBuffer_new v (Some l)) chunks ps' r (well_formed_new v (Some l)) Hp)
    as (b' & H' & Hr).
  rewrite H in H'. destruct r as [e|rest]; [congruence|]. injection H' as _ <-. rewrite Hr.
  by eapply parses_bound.
Qed.

Lemma read_loop_bounded_witness :
  zlen (pending (snd (read_loop (PacketBuffer_new V50 (Some 30)) [sample_frame; take 9 sample_frame]))) < 30.
Proof.
  apply (read_loop_bounded V50 30 [sample_frame; take 9 sample_frame] [PPublish sample_publish]).
  vm_compute. reflexivity.
Defined.
