(* ===== verification/Topic.v ===== *)
(** * Topics and topic filters ([_internal/types/topic.py], [_internal/topic_matching.py])

    The validators, the stripping of subscription decorators and the matching of a filter
    against a topic.  Strings are lists of code points; the string operations of Python they
    use ([split], [partition], [startswith], [removeprefix], [index]) are defined first.
    Matching is shown to be the relation [Matches] of the MQTT specification on every filter
    the validator accepts. *)

From S2P Require Import Prelude.

Definition SLASH : Z := 47.
Definition PLUS : Z := 43.
Definition HASH : Z := 35.
Definition DOLLAR : Z := 36.

(** ** Python's string operations *)

(** [chr in s] *)
Definition contains_char (c : Z) (s : pystr) : bool := existsb (Z.eqb c) s.

(** [s.split(chr)] *)
Fixpoint split (c : Z) (s : pystr) : list pystr :=
  match s with
  | [] => [[]]
  | x :: s' =>
    if x =? c then [] :: split c s'
    else match split c s' with
         | h :: t => (x :: h) :: t
         | [] => [[x]]
         end
  end.

(** [s.partition(chr)]: the parts before and after the first [chr], [None] when there is none. *)
Fixpoint partition_at (c : Z) (s : pystr) : option (pystr * pystr) :=
  match s with
  | [] => None
  | x :: s' =>
    if x =? c then Some ([], s')
    else match partition_at c s' with
         | Some (h, t) => Some (x :: h, t)
         | None => None
         end
  end.

(** [s.startswith(p)] *)
Fixpoint startswith (s p : pystr) {struct p} : bool :=
  match p, s with
  | [], _ => true
  | x :: p', y :: s' => (x =? y) && startswith s' p'
  | _ :: _, [] => false
  end.

Definition removeprefix (s p : pystr) : pystr := if startswith s p then drop (length p) s else s.

(** [s.index(chr)], for a [chr] that is in [s] *)
Fixpoint index_of (c : Z) (s : pystr) : Z :=
  match s with
  | [] => 0
  | x :: s' => if x =? c then 0 else 1 + index_of c s'
  end.

(** [s == t] *)
Definition str_eqb (s t : pystr) : bool := bool_decide (s = t).

Definition str_at (s : pystr) (i : Z) : Z := nth (Z.to_nat i) s 0.

(** ** Validation *)

Definition validate_publish (topic : pystr) : res unit :=
  match topic with
  | [] => Err (MQTTInvalidTopicError "Topic must not be empty")
  | _ :: tail =>
    if contains_char HASH topic || contains_char PLUS topic
    then Err (MQTTInvalidTopicError "Wildcards not allowed in publish topic")
    else if contains_char DOLLAR tail
    then Err (MQTTInvalidTopicError "'$' is only valid as the first character of a topic")
    else Ok tt
  end.

(** The [for level in topic.split("/")] loop. *)
Fixpoint check_plus_levels (levels : list pystr) : res unit :=
  match levels with
  | [] => Ok tt
  | level :: levels' =>
    if contains_char PLUS level && negb (str_eqb level (py "+"))
    then Err (MQTTInvalidTopicError "'+' must occupy an entire topic level in filter")
    else check_plus_levels levels'
  end.

Definition check_hash (topic : pystr) : res unit :=
  if contains_char HASH topic then
    let idx := index_of HASH topic in
    if negb (idx =? zlen topic - 1)
    then Err (MQTTInvalidTopicError "'#' must be the last character in a topic filter")
    else if (0 <? idx) && negb (str_at topic (idx - 1) =? SLASH)
    then Err (MQTTInvalidTopicError "'#' must be preceded by '/' in a topic filter")
    else Ok tt
  else Ok tt.

Definition validate_subscribe_topic (topic : pystr) : res unit :=
  match topic with
  | [] => Err (MQTTInvalidTopicError "Topic filter must not be empty")
  | _ :: tail =>
    if contains_char DOLLAR tail
    then Err (MQTTInvalidTopicError "'$' is only valid as the first character of a topic filter")
    else
      _ ← check_hash topic;
      check_plus_levels (split SLASH topic)
  end.

Definition validate_response_topic (topic : pystr) : res unit := validate_publish topic.

(** ** Matching *)

Definition DEFAULT_STRIPPED_PREFIXES : list pystr := [py "$queue"; py "$exclusive"].

(** The [for prefix in stripped_prefixes] loop; [split("/", 1)[1]] is what follows the first
    slash, which is there because the filter starts with [prefix + "/"]. *)
Fixpoint strip_prefixes (filter_ : pystr) (stripped_prefixes : list pystr) : pystr :=
  match stripped_prefixes with
  | [] => filter_
  | prefix :: rest =>
    if startswith filter_ (prefix ++ [SLASH])
    then match partition_at SLASH filter_ with Some (_, actual) => actual | None => filter_ end
    else strip_prefixes filter_ rest
  end.

Definition _shared_filter_to_actual (filter_ : pystr) (stripped_prefixes : list pystr) : pystr :=
  if startswith filter_ (py "$share/") then
    match partition_at SLASH (removeprefix filter_ (py "$share/")) with
    | Some (_, actual_filter) => actual_filter
    | None => strip_prefixes filter_ stripped_prefixes
    end
  else strip_prefixes filter_ stripped_prefixes.

Fixpoint _match_parts (fparts tparts : list pystr) : bool :=
  match fparts with
  | [] => match tparts with [] => true | _ => false end
  | f :: fparts' =>
    if str_eqb f (py "#") then true
    else match tparts with
         | [] => false
         | t :: tparts' =>
           if negb (str_eqb f (py "+")) && negb (str_eqb f t) then false
           else _match_parts fparts' tparts'
         end
  end.

Definition _topic_matches (actual_filter topic : pystr) : bool :=
  if negb (Bool.eqb (startswith topic (py "$")) (startswith actual_filter (py "$")))
  then false
  else _match_parts (split SLASH actual_filter) (split SLASH topic).

Definition topic_matches (topic_filter topic : pystr) (stripped_prefixes : list pystr) : bool :=
  let actual_filter := _shared_filter_to_actual topic_filter stripped_prefixes in
  _topic_matches actual_filter topic.

Definition _segment_rank (seg : pystr) : Z :=
  if str_eqb seg (py "#") then 2 else if str_eqb seg (py "+") then 1 else 0.

Definition _filter_specificity (actual_filter : pystr) : list Z :=
  map _segment_rank (split SLASH actual_filter).

(** ** Strings and their levels *)

(** [chr.join(levels)] *)
Fixpoint join (c : Z) (levels : list pystr) : pystr :=
  match levels with
  | [] => []
  | [l] => l
  | l :: levels' => l ++ c :: join c levels'
  end.

Section split.
Context (c : Z).
Implicit Types (s t l : pystr) (ls : list pystr).

Lemma split_nonempty s : split c s <> [].
Proof. destruct s as [|x s]; simpl; [done|]. case_if; [done|]. by destruct (split c s). Qed.

Lemma contains_char_In x s : contains_char x s = true <-> x ∈ s.
Proof.
  unfold contains_char. rewrite existsb_exists, list_elem_of_In. split.
  - intros (y & Hy & E%Z.eqb_eq). by subst.
  - intros H. exists x. by rewrite Z.eqb_refl.
Qed.

Lemma join_split s : join c (split c s) = s.
Proof.
  induction s as [|x s IH]; [done|]. cbn [split]. pose proof (split_nonempty s).
  destruct (x =? c) eqn:E; zbool.
  - subst. destruct (split c s); [done|]. cbn [join] in *. by rewrite IH.
  - destruct (split c s) as [|h [|h' t]] eqn:Es; [done|..]; cbn [join app] in *; by rewrite IH.
Qed.

Lemma split_inj s t : split c s = split c t -> s = t.
Proof. intros H. by rewrite <-(join_split s), H, join_split. Qed.

Lemma split_level s l x : l ∈ split c s -> x ∈ l -> x <> c /\ x ∈ s.
Proof.
  revert l; induction s as [|y s IH]; intros l; cbn [split].
  - rewrite list_elem_of_singleton. intros ->. by intros ?%elem_of_nil.
  - destruct (y =? c) eqn:E; zbool.
    + intros [->|Hl]%elem_of_cons Hx; [by apply elem_of_nil in Hx|].
      destruct (IH _ Hl Hx). split; [done|]. by right.
    + destruct (split c s) as [|h t] eqn:Es; [by destruct (split_nonempty s)|].
      intros [->|Hl]%elem_of_cons Hx.
      * apply elem_of_cons in Hx as [->|Hx]; [split; [done|by left]|].
        destruct (IH h ltac:(by left) Hx). split; [done|by right].
      * destruct (IH l ltac:(by right) Hx). split; [done|by right].
Qed.

Lemma split_char s x : x <> c -> x ∈ s -> exists l, l ∈ split c s /\ x ∈ l.
Proof.
  intros Hx. induction s as [|y s IH]; [by intros ?%elem_of_nil|]. cbn [split].
  intros Hin. destruct (y =? c) eqn:E; zbool.
  - apply elem_of_cons in Hin as [->|Hin]; [done|]. destruct (IH Hin) as (l & ? & ?).
    exists l. split; [by right|done].
  - destruct (split c s) as [|h t] eqn:Es; [by destruct (split_nonempty s)|].
    apply elem_of_cons in Hin as [->|Hin]; [exists (y :: h); split; by left|].
    destruct (IH Hin) as (l & [->|Hl]%elem_of_cons & Hxl).
    + exists (y :: h). split; [by left|by right].
    + exists l. split; [by right|done].
Qed.

(** Splitting at the first separator. *)
Lemma partition_split s h t :
  partition_at c s = Some (h, t) -> split c s = h :: split c t /\ s = h ++ c :: t /\ c ∉ h.
Proof.
  revert h; induction s as [|x s IH]; intros h; cbn [partition_at split]; [done|].
  destruct (x =? c) eqn:E; zbool.
  - intros [= <- <-]. subst. split; [done|]. split; [done|]. apply not_elem_of_nil.
  - destruct (partition_at c s) as [[h' t']|]; [|done]. intros [= <- <-].
    destruct (IH h' eq_refl) as (-> & -> & Hh). split; [done|]. split; [done|].
    rewrite not_elem_of_cons. split; [congruence|done].
Qed.

Lemma partition_app h t : c ∉ h -> partition_at c (h ++ c :: t) = Some (h, t).
Proof.
  induction h as [|x h IH]; cbn [partition_at app]; intros Hc; [by rewrite Z.eqb_refl|].
  apply not_elem_of_cons in Hc as [Hx Hc]. rewrite (proj2 (Z.eqb_neq _ _)) by congruence.
  by rewrite IH.
Qed.

Lemma split_app h t : c ∉ h -> split c (h ++ c :: t) = h :: split c t.
Proof. intros Hc. by destruct (partition_split _ _ _ (partition_app h t Hc)). Qed.
End split.

Lemma startswith_app s p : startswith s p = true <-> exists t, s = p ++ t.
Proof.
  revert s; induction p as [|x p IH]; intros s; cbn [startswith app].
  - split; [by exists s|by intros _].
  - destruct s as [|y s]; [split; [done|]; by intros [? ?]|].
    rewrite andb_true_iff, Z.eqb_eq, IH. split.
    + intros [-> [t ->]]. by exists t.
    + intros [t [= -> ->]]. eauto.
Qed.

Lemma str_eqb_eq s t : str_eqb s t = true <-> s = t.
Proof. apply bool_decide_eq_true. Qed.
Lemma str_eqb_neq s t : str_eqb s t = false <-> s <> t.
Proof. apply bool_decide_eq_false. Qed.

Lemma split_cat c s t : split c (s ++ c :: t) = split c s ++ split c t.
Proof.
  induction s as [|x s IH]; cbn [app split]; [by rewrite Z.eqb_refl|].
  rewrite IH. case_if; [done|]. pose proof (split_nonempty c s). by destruct (split c s).
Qed.

Lemma join_snoc c ls l : ls <> [] -> join c (ls ++ [l]) = join c ls ++ c :: l.
Proof.
  induction ls as [|a [|b ls] IH]; intros H; [done|done|].
  change (join c ((a :: b :: ls) ++ [l])) with (a ++ c :: join c ((b :: ls) ++ [l])).
  rewrite IH by done. change (join c (a :: b :: ls)) with (a ++ c :: join c (b :: ls)).
  by rewrite <-app_assoc.
Qed.

(** ** What a valid filter is, level by level *)

Definition levels_valid (levels : list pystr) : Prop :=
  (forall l, l ∈ levels -> PLUS ∈ l -> l = py "+") /\
  (forall a l b, levels = a ++ l :: b -> HASH ∈ l -> l = py "#" /\ b = []).

Definition valid_filter (f : pystr) : Prop :=
  f <> [] /\ (DOLLAR ∉ tail f) /\ levels_valid (split SLASH f).

(** ['#'] is only a level of its own, and the last. *)
Definition hash_last (levels : list pystr) : Prop :=
  forall a b, levels = a ++ py "#" :: b -> b = [].

Lemma levels_valid_hash_last levels : levels_valid levels -> hash_last levels.
Proof. intros [_ H] a b E. apply (H _ _ _ E). by left. Qed.

Lemma hash_last_suffix pre levels : hash_last (pre ++ levels) -> hash_last levels.
Proof. intros H a b ->. apply (H (pre ++ a)). by rewrite app_assoc. Qed.

Lemma check_plus_levels_spec levels :
  check_plus_levels levels = Ok tt <-> forall l, l ∈ levels -> PLUS ∈ l -> l = py "+".
Proof.
  induction levels as [|l levels IH]; cbn [check_plus_levels].
  - split; [by intros _ l ?%elem_of_nil|done].
  - destruct (contains_char PLUS l && negb (str_eqb l (py "+"))) eqn:E.
    + split; [done|]. intros H. zbool. apply str_eqb_neq in H1. destruct H1.
      apply H; [by left|by apply contains_char_In].
    + rewrite IH. split; [|intros H m Hm; apply H; by right].
      intros H m [->|Hm]%elem_of_cons Hp; [|by apply H].
      apply contains_char_In in Hp. rewrite Hp in E. cbn [andb] in E. zbool. by apply str_eqb_eq.
Qed.

Lemma index_of_first c s :
  c ∈ s -> exists pre post, s = pre ++ c :: post /\ (c ∉ pre) /\ index_of c s = zlen pre.
Proof.
  induction s as [|x s IH]; [by intros ?%elem_of_nil|]. intros Hin. cbn [index_of].
  destruct (x =? c) eqn:E; zbool.
  - subst. exists [], s. repeat split. apply not_elem_of_nil.
  - apply elem_of_cons in Hin as [->|Hin]; [done|]. destruct (IH Hin) as (pre & post & -> & Hp & ->).
    exists (x :: pre), post. repeat split; [|zlen_lia]. rewrite not_elem_of_cons. split; [congruence|done].
Qed.

Lemma str_at_app pre x post : str_at (pre ++ x :: post) (zlen pre) = x.
Proof. unfold str_at. rewrite to_nat_zlen, app_nth2 by lia. by rewrite Nat.sub_diag. Qed.

(** The index arithmetic of the ['#'] check, as a shape of the string. *)
Lemma check_hash_shape s :
  check_hash s = Ok tt <->
  (HASH ∉ s) \/ (exists pre, (HASH ∉ pre) /\ s = pre ++ [HASH] /\ (pre = [] \/ exists q, pre = q ++ [SLASH])).
Proof.
  unfold check_hash. destruct (contains_char HASH s) eqn:E.
  - apply contains_char_In in E. destruct (index_of_first _ _ E) as (pre & post & -> & Hpre & ->).
    destruct post as [|y post].
    + rewrite zlen_app, (proj2 (Z.eqb_eq _ _)) by (change (zlen [HASH]) with 1; lia). cbn [negb].
      destruct pre as [|z pre _] using rev_ind.
      { cbn. split; [|done]. intros _. right. exists []. split; [done|]. split; [done|]. by left. }
      replace (zlen (pre ++ [z]) - 1) with (zlen pre) by (rewrite zlen_app; change (zlen [z]) with 1; lia).
      rewrite (proj2 (Z.ltb_lt 0 _)) by (rewrite zlen_app; change (zlen [z]) with 1; zlen_lia).
      rewrite <-(app_assoc pre [z] [HASH]). cbn [app andb]. rewrite str_at_app.
      destruct (z =? SLASH) eqn:Ez; zbool; cbn [negb].
      * subst. split; [intros _|done]. right. exists (pre ++ [SLASH]).
        split; [done|]. split; [by rewrite <-app_assoc|]. right. eauto.
      * split; [done|]. intros [Hn|(q & _ & Hq & Hs)]; [destruct Hn; set_solver|].
        change (pre ++ [z; HASH]) with (pre ++ [z] ++ [HASH]) in Hq. rewrite app_assoc in Hq.
        apply app_inj_tail in Hq as [<- _]. destruct Hs as [Hs|[q' Hs]].
        -- by destruct pre.
        -- apply app_inj_tail in Hs as [_ ->]. done.
    + rewrite (proj2 (Z.eqb_neq _ _)) by (rewrite zlen_app, !zlen_cons; zlen_lia). cbn [negb].
      split; [done|]. intros [Hn|(q & Hq & Hs & _)]; [destruct Hn; set_solver|].
      destruct (exists_last (l := y :: post)) as (post' & z & Ez); [done|].
      rewrite Ez in Hs.
      change (pre ++ HASH :: post' ++ [z]) with (pre ++ (HASH :: post') ++ [z]) in Hs.
      rewrite app_assoc in Hs. apply app_inj_tail in Hs as [<- _]. destruct Hq. set_solver.
  - split; [|done]. intros _. left. intros Hin%contains_char_In. congruence.
Qed.

Lemma check_hash_spec s :
  check_hash s = Ok tt <->
  forall a l b, split SLASH s = a ++ l :: b -> HASH ∈ l -> l = py "#" /\ b = [].
Proof.
  rewrite check_hash_shape. split.
  - intros [Hn|(pre & Hpre & -> & Hs)] a l b E Hl.
    + destruct Hn. eapply split_level; [|exact Hl]. rewrite E. set_solver.
    + destruct Hs as [->|[q ->]].
      * cbn in E. destruct a as [|? [|]]; [|done..]. by injection E as <- <-.
      * rewrite <-app_assoc in E. cbn [app] in E. rewrite split_cat in E.
        destruct b as [|z b _] using rev_ind.
        { apply app_inj_tail in E as [_ <-]. done. }
        change (a ++ l :: b ++ [z]) with (a ++ (l :: b) ++ [z]) in E. rewrite app_assoc in E.
        apply app_inj_tail in E as [E _]. destruct Hpre. apply elem_of_app. left.
        eapply split_level; [|exact Hl]. rewrite E. set_solver.
  - intros H. destruct (contains_char HASH s) eqn:E.
    + apply contains_char_In in E. right.
      destruct (split_char SLASH s HASH ltac:(done) E) as (l & Hin & Hl).
      apply list_elem_of_split in Hin as (a & b & Es). destruct (H _ _ _ Es Hl) as [-> ->].
      assert (s = join SLASH (a ++ [py "#"])) as -> by (by rewrite <-Es, join_split).
      destruct a as [|x a].
      { exists []. split; [apply not_elem_of_nil|]. split; [done|by left]. }
      rewrite join_snoc in * by done. set (q := join SLASH (x :: a)) in *.
      assert (split SLASH q = x :: a) as Eq.
      { rewrite split_cat in Es. by apply app_inj_tail in Es as [? _]. }
      exists (q ++ [SLASH]). split; [|split; [by rewrite <-app_assoc|eauto]].
      intros [Hq|Hq]%elem_of_app; [|by apply list_elem_of_singleton in Hq].
      destruct (split_char SLASH q HASH ltac:(done) Hq) as (l & Hin & Hl').
      rewrite Eq in Hin. apply list_elem_of_split in Hin as (a1 & a2 & Ea). rewrite Ea, <-app_assoc in Es.
      destruct (H a1 l (a2 ++ [py "#"]) Es Hl') as [_ ?]. by destruct a2.
    + left. intros Hin%contains_char_In. congruence.
Qed.

Lemma validate_subscribe_topic_valid f : validate_subscribe_topic f = Ok tt <-> valid_filter f.
Proof.
  unfold validate_subscribe_topic, valid_filter, levels_valid.
  destruct f as [|x f]; [split; [done|by intros [? _]]|]. cbn [tail].
  destruct (contains_char DOLLAR f) eqn:E.
  - apply contains_char_In in E. split; [done|by intros (_ & ? & _)].
  - rewrite bind_Ok. setoid_rewrite check_plus_levels_spec. split.
    + intros ([] & Hh & Hp). pose proof (proj1 (check_hash_spec _) Hh).
      split; [done|]. split; [|done].
      intros Hin%contains_char_In. congruence.
    + intros (_ & _ & Hp & Hh). exists tt. split; [by apply check_hash_spec|done].
Qed.

(** ** Matching, as the MQTT specification defines it *)

Inductive Matches : list pystr -> list pystr -> Prop :=
| Matches_end : Matches [] []
| Matches_hash ts : Matches [py "#"] ts
| Matches_plus fs t ts : Matches fs ts -> Matches (py "+" :: fs) (t :: ts)
| Matches_level l fs ts :
    l <> py "#" -> l <> py "+" -> Matches fs ts -> Matches (l :: fs) (l :: ts).

Lemma match_parts_Matches fs ts : hash_last fs -> _match_parts fs ts = true <-> Matches fs ts.
Proof.
  revert ts; induction fs as [|f fs IH]; intros ts Hh; cbn [_match_parts].
  { destruct ts; split; try done; [by constructor|by inversion 1]. }
  assert (hash_last fs) as Hh' by exact (hash_last_suffix [f] fs Hh).
  destruct (str_eqb f (py "#")) eqn:Ef.
  - apply str_eqb_eq in Ef as ->. rewrite (Hh [] fs eq_refl). split; [constructor|done].
  - apply str_eqb_neq in Ef. destruct ts as [|t ts].
    { split; [done|]. inversion 1; congruence. }
    destruct (str_eqb f (py "+")) eqn:Ep; [apply str_eqb_eq in Ep as ->|apply str_eqb_neq in Ep];
      cbn [negb andb]; [rewrite IH by done; split; [by constructor|by inversion 1]|].
    destruct (str_eqb f t) eqn:Et; [apply str_eqb_eq in Et as ->|apply str_eqb_neq in Et];
      cbn [negb]; [rewrite IH by done; split; [by constructor|by inversion 1]|].
    split; [done|]. inversion 1; congruence.
Qed.

(** Stripping a decorator keeps a suffix of the levels. *)
Lemma strip_prefixes_suffix f ps : exists pre, split SLASH f = pre ++ split SLASH (strip_prefixes f ps).
Proof.
  induction ps as [|p ps IH]; cbn [strip_prefixes]; [by exists []|]. case_if; [|done].
  destruct (partition_at SLASH f) as [[h t]|] eqn:Ep; [|by exists []].
  apply partition_split in Ep as (-> & _). by exists [h].
Qed.

Lemma shared_suffix f ps :
  exists pre, split SLASH f = pre ++ split SLASH (_shared_filter_to_actual f ps).
Proof.
  unfold _shared_filter_to_actual. destruct (startswith f (py "$share/")) eqn:E;
    [|apply strip_prefixes_suffix].
  unfold removeprefix. rewrite E. apply startswith_app in E as [r ->]. rewrite drop_app_length.
  destruct (partition_at SLASH r) as [[h t]|] eqn:Ep; [|apply strip_prefixes_suffix].
  apply partition_split in Ep as (E & _).
  change (py "$share/" ++ r) with (py "$share" ++ SLASH :: r).
  rewrite split_cat, E. by exists (split SLASH (py "$share") ++ [h]); rewrite <-app_assoc.
Qed.

Lemma actual_hash_last f ps :
  validate_subscribe_topic f = Ok tt -> hash_last (split SLASH (_shared_filter_to_actual f ps)).
Proof.
  intros (_ & _ & H%levels_valid_hash_last)%validate_subscribe_topic_valid.
  destruct (shared_suffix f ps) as [pre E]. rewrite E in H. by apply hash_last_suffix in H.
Qed.

Lemma topic_matches_Matches f t :
  hash_last (split SLASH f) ->
  _topic_matches f t = true <->
  startswith t (py "$") = startswith f (py "$") /\ Matches (split SLASH f) (split SLASH t).
Proof.
  intros Hh. unfold _topic_matches. rewrite <-match_parts_Matches by done.
  destruct (startswith t (py "$")), (startswith f (py "$")); cbn; naive_solver.
Qed.

(** A filter without wildcards matches one topic only. *)
Lemma Matches_literal fs ts :
  (forall l, l ∈ fs -> l <> py "#" /\ l <> py "+") -> Matches fs ts <-> ts = fs.
Proof.
  intros Hl. split.
  - intros H. induction H as [|ts|fs t ts H IH|l fs ts _ _ H IH]; [done|..].
    + by destruct (Hl (py "#") ltac:(by left)).
    + by destruct (Hl (py "+") ltac:(by left)).
    + f_equal. apply IH. intros m Hm. apply Hl. by right.
  - intros ->. induction fs as [|f fs IH]; [constructor|].
    destruct (Hl f ltac:(by left)). constructor; [done..|]. apply IH. intros m Hm. apply Hl. by right.
Qed.

Lemma publish_levels_literal t l :
  validate_publish t = Ok tt -> l ∈ split SLASH t -> l <> py "#" /\ l <> py "+".
Proof.
  intros H Hl. unfold validate_publish in H. destruct t as [|x t]; [done|].
  destruct (contains_char HASH _ || _) eqn:E; [done|]. zbool.
  split; intros ->.
  - assert (HASH ∈ x :: t) as Hin by (eapply split_level; [exact Hl|by left]).
    apply contains_char_In in Hin. congruence.
  - assert (PLUS ∈ x :: t) as Hin by (eapply split_level; [exact Hl|by left]).
    apply contains_char_In in Hin. congruence.
Qed.

(** ** The contract of topics and filters *)

(** C38: [validate_subscribe_topic], which scans characters and indices, accepts exactly the
    filters that are well formed level by level: not empty, ['$'] nowhere but in first place,
    ['+'] only as a whole level and ['#'] only as the whole last level; every other string is
    refused with [MQTTInvalidTopicError]. *)
Theorem validate_subscribe_topic_spec f :
  match validate_subscribe_topic f with
  | Ok _ => valid_filter f
  | Err e => ~ valid_filter f /\ exists msg, e = MQTTInvalidTopicError msg
  end.
Proof.
  destruct (validate_subscribe_topic f) as [[]|e] eqn:E; [by apply validate_subscribe_topic_valid|].
  split; [rewrite <-validate_subscribe_topic_valid; congruence|].
  unfold validate_subscribe_topic in E. destruct f as [|x f]; [simplify_eq; eauto|].
  case_if; [simplify_eq; eauto|]. apply bind_Err in E as [E|([] & _ & E)].
  - unfold check_hash in E. repeat case_if; simplify_eq; eauto.
  - revert E. generalize (split SLASH (x :: f)). intros ls.
    induction ls as [|l ls IH]; cbn [check_plus_levels]; [done|]. case_if; [|done].
    intros; simplify_eq; eauto.
Qed.

(** C36: for every filter the validator accepts and every set of stripped prefixes, the
    executable matching of [topic_matches] is the matching relation of the MQTT specification
    on the levels of the filter without its decorator: ['+'] stands for one level, a final ['#']
    for any number of levels including none, other levels for themselves, and topics starting
    with ['$'] are matched only by filters that start with it. *)
Theorem topic_matches_spec f t ps :
  validate_subscribe_topic f = Ok tt ->
  let actual := _shared_filter_to_actual f ps in
  topic_matches f t ps = true <->
  startswith t (py "$") = startswith actual (py "$") /\ Matches (split SLASH actual) (split SLASH t).
Proof. intros Hv. apply topic_matches_Matches. by apply actual_hash_last. Qed.

Lemma topic_matches_spec_witness :
  Matches [py "sport"; py "+"; py "#"] [py "sport"; py "tennis"].
Proof.
  refine (proj2 (proj1 (topic_matches_spec (py "$share/g/sport/+/#") (py "sport/tennis")
    DEFAULT_STRIPPED_PREFIXES _) _)); vm_compute; reflexivity.
Defined.

(** A topic that may be published is matched, used as a filter, by itself alone: response
    topics and other exact subscriptions never catch a message of another topic. *)
Theorem publish_topic_matches_itself_only t t' :
  validate_publish t = Ok tt -> _topic_matches t t' = true <-> t' = t.
Proof.
  intros Hv.
  assert (forall l, l ∈ split SLASH t -> l <> py "#" /\ l <> py "+") as Hl
    by (intros l; by apply publish_levels_literal).
  assert (hash_last (split SLASH t)) as Hh.
  { intros a b E. destruct (Hl (py "#")) as [? _]; [rewrite E; set_solver|done]. }
  rewrite topic_matches_Matches, Matches_literal by done.
  split; [intros [_ E]; by apply split_inj in E|by intros ->].
Qed.

Lemma publish_topic_matches_itself_only_witness :
  _topic_matches (py "reply/42") (py "reply/42") = true.
Proof. refine (proj2 (publish_topic_matches_itself_only (py "reply/42") (py "reply/42") _) _); reflexivity. Defined.

(** decorators.  A shared subscription [$share/<group>/<filter>] of any group, and
    [$queue/<filter>] and [$exclusive/<filter>] under the default prefixes, match exactly what
    [<filter>] matches; a filter that does not start with ['$'] is left alone under any list of
    prefixes that all do, and so is [$SYS/...] under the default ones. *)
Theorem decorators_stripped f t ps g :
  (SLASH ∉ g ->
   topic_matches (py "$share/" ++ g ++ SLASH :: f) t ps = _topic_matches f t) /\
  topic_matches (py "$queue/" ++ f) t DEFAULT_STRIPPED_PREFIXES = _topic_matches f t /\
  topic_matches (py "$exclusive/" ++ f) t DEFAULT_STRIPPED_PREFIXES = _topic_matches f t /\
  topic_matches (py "$SYS/" ++ f) t DEFAULT_STRIPPED_PREFIXES = _topic_matches (py "$SYS/" ++ f) t /\
  (startswith f (py "$") = false -> (forall p, p ∈ ps -> startswith p (py "$") = true) ->
   topic_matches f t ps = _topic_matches f t).
Proof.
  split; [|split; [done|split; [done|split; [done|]]]].
  - intros Hg. unfold topic_matches, _shared_filter_to_actual, removeprefix.
    rewrite (proj2 (startswith_app _ _)) by eauto. rewrite drop_app_length.
    by rewrite partition_app.
  - intros Hf Hps. unfold topic_matches, _shared_filter_to_actual.
    assert (forall q, startswith q (py "$") = true -> startswith f q = false) as Hno.
    { intros q Hq. destruct (startswith f q) eqn:E; [|done].
      apply startswith_app in Hq as [q' ->]. apply startswith_app in E as [f' ->].
      rewrite <-app_assoc in Hf. assert (startswith (py "$" ++ q' ++ f') (py "$") = true)
        by (apply startswith_app; eauto). congruence. }
    rewrite Hno by done. f_equal. induction ps as [|p ps IH]; [done|]. cbn [strip_prefixes].
    rewrite Hno; [apply IH; intros q Hq; apply Hps; by right|].
    specialize (Hps p ltac:(by left)). apply startswith_app in Hps as [p' ->].
    apply startswith_app. exists (p' ++ [SLASH]). by rewrite <-app_assoc.
Qed.

Lemma decorators_stripped_witness :
  topic_matches (py "$share/workers/jobs/+") (py "jobs/7") [] = true.
Proof.
  refine (eq_trans (proj1 (decorators_stripped (py "jobs/+") (py "jobs/7") [] (py "workers")) _) _).
  2: reflexivity.
  apply (bool_decide_unpack _). vm_compute. exact I.
Defined.

(** A stripped prefix of several levels is not removed whole: whatever such a prefix
    [a/b], a filter [a/b/f] loses its first level [a] only, so it does not match the topics
    [f] matches (here [$a/b/x] is matched against [b/x], and misses [x]). *)
Theorem multi_level_prefix_not_stripped a b f :
  (SLASH ∉ a ->
   startswith (a ++ SLASH :: b ++ SLASH :: f) (py "$share/") = false ->
   _shared_filter_to_actual (a ++ SLASH :: b ++ SLASH :: f) [a ++ SLASH :: b] = b ++ SLASH :: f) /\
  topic_matches (py "$a/b/x") (py "x") [py "$a/b"] = false.
Proof.
  split; [|done]. intros Ha Hs. unfold _shared_filter_to_actual. rewrite Hs. cbn [strip_prefixes].
  rewrite (proj2 (startswith_app _ _)).
  - by rewrite partition_app.
  - exists f. by rewrite <-!app_assoc.
Qed.

Lemma multi_level_prefix_not_stripped_witness :
  _shared_filter_to_actual (py "$a/b/x") [py "$a/b"] = py "b/x".
Proof.
  apply (proj1 (multi_level_prefix_not_stripped (py "$a") (py "b") (py "x"))).
  - apply (bool_decide_unpack _). vm_compute. exact I.
  - reflexivity.
Defined.
