(* ===== verification/SubscriptionIndex.v ===== *)
(** * The subscription index ([_internal/subscription_index.py])

    The trie of subscriptions, its two side tables and the set of response observers, with
    every operation of the class.  The abstract state is the list of registrations in order:
    [Rep] relates an index to it, every operation is shown to simulate the one on the list, and
    routing ([match_], [select], [select_by_identifier]) to compute what the list says. *)

From S2P Require Import Prelude Topic.

(** ** Data

    An entry is a Python object: [se_ref] is its identity ([is]), [se_queue] the identity of
    its queue.  The other fields are never assigned after construction; [detached] is, and is
    read by the protocol only, so it is kept there. *)
Record SubscriptionEntry : Type := mkSubscriptionEntry {
  se_ref : nat;
  se_queue : nat;
  se_auto_ack : bool;
  se_actual_filter : pystr;
  se_subscription_identifier : option Z
}.

Abbreviation item := (pystr * SubscriptionEntry)%type.

#[export] Instance SubscriptionEntry_eq_dec : EqDecision SubscriptionEntry.
Proof. solve_decision. Defined.

Inductive Node : Type := mkNode {
  children : dict pystr Node;
  wildcard_children : dict pystr Node;
  entries : list item
}.

Definition empty_node : Node := mkNode [] [] [].

Record SubscriptionSelection : Type := mkSelection {
  recipient : option item;
  identifier_missing : bool;
  tied_filters : list pystr
}.

Record SubscriptionIndex : Type := mkIndex {
  si_root : Node;
  si_entries : dict pystr SubscriptionEntry;
  si_by_identifier : dict Z (dict pystr SubscriptionEntry);
  si_response_observers : gset pystr
}.

Definition index_new : SubscriptionIndex := mkIndex empty_node [] [] ∅.

(** ** The trie *)

Definition _actual_filter (filter_ : pystr) (entry : SubscriptionEntry) : pystr :=
  match se_actual_filter entry with [] => filter_ | a => a end.

Definition item_filter (it : item) : pystr := _actual_filter it.1 it.2.

(** [part in {"+", "#"}] *)
Definition is_wildcard (part : pystr) : bool := str_eqb part (py "+") || str_eqb part (py "#").

Definition mapping (node : Node) (part : pystr) : dict pystr Node :=
  if is_wildcard part then wildcard_children node else children node.

Definition set_mapping (node : Node) (part : pystr) (m : dict pystr Node) : Node :=
  if is_wildcard part then mkNode (children node) m (entries node)
  else mkNode m (wildcard_children node) (entries node).

Definition child (node : Node) (part : pystr) : Node :=
  match dict_get (mapping node part) part with Some c => c | None => empty_node end.

(** The descent of [add]: [setdefault] a child per part, then append the item. *)
Fixpoint insert_item (parts : list pystr) (it : item) (node : Node) : Node :=
  match parts with
  | [] => mkNode (children node) (wildcard_children node) (entries node ++ [it])
  | part :: parts' =>
    set_mapping node part (dict_set (mapping node part) part (insert_item parts' it (child node part)))
  end.

Definition is_item (filter_ : pystr) (entry : SubscriptionEntry) (it : item) : bool :=
  str_eqb it.1 filter_ && (se_ref it.2 =? se_ref entry)%nat.

Definition is_nil {A} (l : list A) : bool := match l with [] => true | _ => false end.

Fixpoint _remove_entry (parts : list pystr) (filter_ : pystr) (entry : SubscriptionEntry)
    (node : Node) : Node :=
  match parts with
  | [] =>
    mkNode (children node) (wildcard_children node)
      (List.filter (fun it => negb (is_item filter_ entry it)) (entries node))
  | part :: parts' =>
    match dict_get (mapping node part) part with
    | None => node
    | Some c =>
      let c' := _remove_entry parts' filter_ entry c in
      if is_nil (children c') && is_nil (wildcard_children c') && is_nil (entries c')
      then set_mapping node part (dict_del (mapping node part) part)
      else set_mapping node part (dict_set (mapping node part) part c')
    end
  end.

(** [_collect], with the parts that remain in place of the index into them. *)
Fixpoint _collect (node : Node) (parts : list pystr) : list item :=
  match dict_get (wildcard_children node) (py "#") with
  | Some h => entries h
  | None => []
  end ++
  match parts with
  | [] => entries node
  | part :: parts' =>
    match dict_get (children node) part with
    | Some c => _collect c parts'
    | None => []
    end ++
    match dict_get (wildcard_children node) (py "+") with
    | Some c => _collect c parts'
    | None => []
    end
  end.

(** ** Sorting by specificity *)

(** Python's [<=] on tuples of integers. *)
Fixpoint lex_leb (a b : list Z) : bool :=
  match a, b with
  | [], _ => true
  | _ :: _, [] => false
  | x :: a', y :: b' => if x =? y then lex_leb a' b' else x <? y
  end.

Definition _specificity (filter_ : pystr) : list Z := map _segment_rank (split SLASH filter_).

Definition item_key (it : item) : list Z := _specificity (item_filter it).

(** [sorted], which is stable. *)
Fixpoint insert_sorted (x : item) (l : list item) : list item :=
  match l with
  | [] => [x]
  | y :: l' => if lex_leb (item_key x) (item_key y) then x :: y :: l' else y :: insert_sorted x l'
  end.

Fixpoint sorted (l : list item) : list item :=
  match l with [] => [] | x :: l' => insert_sorted x (sorted l') end.

(** [min] of the keys of a non-empty list. *)
Fixpoint min_key (k : list Z) (l : list item) : list Z :=
  match l with
  | [] => k
  | x :: l' => min_key (if lex_leb k (item_key x) then k else item_key x) l'
  end.

(** ** The operations *)

Definition contains (idx : SubscriptionIndex) (filter_ : pystr) : bool :=
  match dict_get (si_entries idx) filter_ with Some _ => true | None => false end.

Definition get (idx : SubscriptionIndex) (filter_ : pystr) : option SubscriptionEntry :=
  dict_get (si_entries idx) filter_.

(** The part of [remove] that updates [_by_identifier]. *)
Definition remove_identifier (m : dict Z (dict pystr SubscriptionEntry)) (filter_ : pystr)
    (identifier : option Z) : dict Z (dict pystr SubscriptionEntry) :=
  match identifier with
  | None => m
  | Some i =>
    match dict_get m i with
    | None => m
    | Some identified =>
      match dict_del identified filter_ with
      | [] => dict_del m i
      | identified' => dict_set m i identified'
      end
    end
  end.

Definition remove (idx : SubscriptionIndex) (filter_ : pystr)
    : option SubscriptionEntry * SubscriptionIndex :=
  match dict_get (si_entries idx) filter_ with
  | None => (None, idx)
  | Some entry =>
    (Some entry,
     mkIndex (_remove_entry (split SLASH (_actual_filter filter_ entry)) filter_ entry (si_root idx))
       (dict_del (si_entries idx) filter_)
       (remove_identifier (si_by_identifier idx) filter_ (se_subscription_identifier entry))
       (si_response_observers idx))
  end.

(** The part of [add] that updates [_by_identifier]. *)
Definition add_identifier (m : dict Z (dict pystr SubscriptionEntry)) (filter_ : pystr)
    (entry : SubscriptionEntry) : dict Z (dict pystr SubscriptionEntry) :=
  match se_subscription_identifier entry with
  | None => m
  | Some i =>
    let identified := match dict_get m i with Some d => d | None => [] end in
    dict_set m i (dict_set identified filter_ entry)
  end.

Definition add (idx : SubscriptionIndex) (filter_ : pystr) (entry : SubscriptionEntry)
    : SubscriptionIndex :=
  let idx := if contains idx filter_ then (remove idx filter_).2 else idx in
  mkIndex (insert_item (split SLASH (_actual_filter filter_ entry)) (filter_, entry) (si_root idx))
    (dict_set (si_entries idx) filter_ entry)
    (add_identifier (si_by_identifier idx) filter_ entry)
    (si_response_observers idx).

Definition add_many (idx : SubscriptionIndex) (l : list item) : SubscriptionIndex :=
  fold_left (fun idx it => add idx it.1 it.2) l idx.

Definition clear (idx : SubscriptionIndex) : SubscriptionIndex := mkIndex empty_node [] [] ∅.

Definition add_response_observer (idx : SubscriptionIndex) (topic : pystr) : bool * SubscriptionIndex :=
  if decide (topic ∈ si_response_observers idx) then (false, idx)
  else (true, mkIndex (si_root idx) (si_entries idx) (si_by_identifier idx)
                ({[ topic ]} ∪ si_response_observers idx)).

Definition remove_response_observer (idx : SubscriptionIndex) (topic : pystr)
    : bool * SubscriptionIndex :=
  if decide (topic ∈ si_response_observers idx) then
    (true, mkIndex (si_root idx) (si_entries idx) (si_by_identifier idx)
             (si_response_observers idx ∖ {[ topic ]}))
  else (false, idx).

Definition has_response_observer (idx : SubscriptionIndex) (topic : pystr) : bool :=
  bool_decide (topic ∈ si_response_observers idx).

Definition match_ (idx : SubscriptionIndex) (topic : pystr) : list item :=
  let matches := _collect (si_root idx) (split SLASH topic) in
  sorted (List.filter (fun it => _topic_matches (item_filter it) topic) matches).

Definition by_identifier (idx : SubscriptionIndex) (identifier : Z) : list item :=
  match dict_get (si_by_identifier idx) identifier with Some d => d | None => [] end.

Definition _select_from (candidates : list item) : SubscriptionSelection :=
  match candidates with
  | [] => mkSelection None false []
  | c :: cs =>
    let best_key := min_key (item_key c) cs in
    let winners := List.filter (fun it => bool_decide (item_key it = best_key)) candidates in
    let tied := if (1 <? zlen winners) then map fst winners else [] in
    mkSelection (head winners) false tied
  end.

Definition select (idx : SubscriptionIndex) (topic : pystr) : SubscriptionSelection :=
  _select_from (match_ idx topic).

Definition best (idx : SubscriptionIndex) (topic : pystr) : option item := recipient (select idx topic).

Definition select_by_identifier (idx : SubscriptionIndex) (topic : pystr) (identifier : Z)
    : SubscriptionSelection :=
  match by_identifier idx identifier with
  | [] =>
    let fallback := select idx topic in
    mkSelection (recipient fallback) true (tied_filters fallback)
  | identified =>
    let matching := List.filter (fun it => _topic_matches (item_filter it) topic) identified in
    _select_from (match matching with [] => identified | _ => matching end)
  end.

(** ** Lists *)

Section filter.
Context {A : Type}.
Implicit Types (f g : A -> bool) (l : list A).

Lemma filter_andb f g l : List.filter f (List.filter g l) = List.filter (fun x => g x && f x) l.
Proof.
  induction l as [|x l IH]; cbn; [done|]. destruct (g x); cbn; [|done].
  destruct (f x); by rewrite IH.
Qed.

Lemma filter_nil f l : (forall x, x ∈ l -> f x = false) -> List.filter f l = [].
Proof.
  induction l as [|x l IH]; cbn; intros H; [done|]. rewrite H by by left.
  apply IH. intros y Hy. apply H. by right.
Qed.

Lemma filter_same f g l : (forall x, x ∈ l -> f x = g x) -> List.filter f l = List.filter g l.
Proof. intros H. apply filter_ext_in. intros x Hx. apply H. by apply list_elem_of_In. Qed.

Lemma elem_of_filter_b f l x : x ∈ List.filter f l <-> x ∈ l /\ f x = true.
Proof. rewrite !list_elem_of_In. apply filter_In. Qed.

(** Only one block of a concatenation has elements that pass the filter. *)
Lemma filter_concat_one {B} f (h : B -> list A) (bs : list B) (b : B) :
  NoDup bs -> b ∈ bs -> (forall c x, c ∈ bs -> c <> b -> x ∈ h c -> f x = false) ->
  List.filter f (concat (map h bs)) = List.filter f (h b).
Proof.
  induction bs as [|c bs IH]; [by intros _ ?%elem_of_nil|].
  intros [Hc Hnd]%NoDup_cons Hb Hf. cbn [map concat]. rewrite List.filter_app.
  apply elem_of_cons in Hb as [->|Hb].
  - rewrite (filter_nil f (concat _)); [by rewrite app_nil_r|].
    intros x Hx. apply list_elem_of_In, in_concat in Hx as (l & Hl & Hx).
    apply in_map_iff in Hl as (d & <- & Hd). apply list_elem_of_In in Hd, Hx.
    apply (Hf d); [by right| |done]. congruence.
  - rewrite (filter_nil f (h c)), IH; [done..| |].
    + intros d x Hd. apply Hf. by right.
    + intros x. apply Hf; [by left|congruence].
Qed.
End filter.

Lemma dict_del_bfilter {V} (d : dict pystr V) k :
  NoDup (keys d) -> dict_del d k = List.filter (fun kv => negb (str_eqb kv.1 k)) d.
Proof.
  intros Hnd. rewrite dict_del_filter by done. clear Hnd. induction d as [|[k' v] d IH]; [done|].
  rewrite filter_cons. cbn [List.filter fst]. destruct (decide (k' = k)) as [->|Hk].
  - case_decide as E; [by destruct E|]. unfold str_eqb at 1. by rewrite bool_decide_true.
  - case_decide as E; [|done]. unfold str_eqb at 1. rewrite bool_decide_false by done.
    cbn [negb]. by rewrite IH.
Qed.

Lemma dict_get_del {K} `{EqDecision K} {V} (d : dict K V) k k' :
  NoDup (keys d) -> dict_get (dict_del d k) k' = if decide (k' = k) then None else dict_get d k'.
Proof.
  induction d as [|[k'' v] d IH]; cbn; intros Hnd; [by case_decide|].
  apply NoDup_cons in Hnd as [Hk Hnd]. destruct (decide (k = k'')) as [->|Hne]; cbn.
  - case_decide; [subst; by apply dict_get_None|done].
  - rewrite IH by done. repeat case_decide; congruence.
Qed.

Lemma keys_dict_del {K} `{EqDecision K} {V} (d : dict K V) k x : x ∈ keys (dict_del d k) -> x ∈ keys d.
Proof. induction d as [|[k' v] d IH]; cbn; [done|]. case_decide; cbn; set_solver. Qed.

Lemma NoDup_dict_del {K} `{EqDecision K} {V} (d : dict K V) k : NoDup (keys d) -> NoDup (keys (dict_del d k)).
Proof.
  induction d as [|[k' v] d IH]; cbn; [done|]. intros [Hk Hnd]%NoDup_cons. case_decide; cbn; [done|].
  constructor; [|auto]. intros Hin. apply Hk. by eapply keys_dict_del.
Qed.

(** ** The trie, path by path *)

Fixpoint node_at (n : Node) (p : list pystr) : option Node :=
  match p with
  | [] => Some n
  | part :: p' => match dict_get (mapping n part) part with Some c => node_at c p' | None => None end
  end.

Definition entries_at (n : Node) (p : list pystr) : list item :=
  match node_at n p with Some m => entries m | None => [] end.

Definition live (n : Node) : Prop := exists q, entries_at n q <> [].

(** Keys are distinct and in the dictionary of their kind. *)
Definition local_ok (n : Node) : Prop :=
  NoDup (keys (children n)) /\ NoDup (keys (wildcard_children n)) /\
  (forall k, k ∈ keys (children n) -> is_wildcard k = false) /\
  (forall k, k ∈ keys (wildcard_children n) -> is_wildcard k = true).

(** Every node but the root has an entry at or below it. *)
Inductive wf : Node -> Prop :=
| wf_node n :
    local_ok n -> (forall k c, dict_get (mapping n k) k = Some c -> live c /\ wf c) -> wf n.

Lemma mapping_set n a m b :
  mapping (set_mapping n a m) b =
    if bool_decide (is_wildcard a = is_wildcard b) then m else mapping n b.
Proof. unfold mapping, set_mapping. destruct (is_wildcard a), (is_wildcard b); done. Qed.

Lemma entries_set_mapping n a m : entries (set_mapping n a m) = entries n.
Proof. unfold set_mapping. by case_if. Qed.

Lemma get_set_mapping n a c k :
  dict_get (mapping (set_mapping n a (dict_set (mapping n a) a c)) k) k =
    if decide (k = a) then Some c else dict_get (mapping n k) k.
Proof.
  rewrite mapping_set. case_bool_decide as E.
  - rewrite dict_get_set. case_decide; [done|]. unfold mapping. by rewrite E.
  - rewrite decide_False; [done|]. congruence.
Qed.

Lemma NoDup_mapping n k : local_ok n -> NoDup (keys (mapping n k)).
Proof. intros (? & ? & _). unfold mapping. by case_if. Qed.

Lemma get_del_mapping n a k :
  local_ok n ->
  dict_get (mapping (set_mapping n a (dict_del (mapping n a) a)) k) k =
    if decide (k = a) then None else dict_get (mapping n k) k.
Proof.
  intros Hl. rewrite mapping_set. case_bool_decide as E.
  - rewrite dict_get_del by by apply NoDup_mapping. case_decide; [done|]. unfold mapping. by rewrite E.
  - rewrite decide_False; [done|]. congruence.
Qed.

Lemma local_ok_set n a m :
  local_ok n -> NoDup (keys m) -> (forall k, k ∈ keys m -> k = a \/ k ∈ keys (mapping n a)) ->
  local_ok (set_mapping n a m).
Proof.
  intros (H1 & H2 & H3 & H4) Hm Hk. unfold set_mapping, mapping, local_ok in *.
  destruct (is_wildcard a) eqn:Ea; cbn; repeat split; try done;
    intros k [->|?]%Hk; auto.
Qed.

Lemma entries_at_empty p : entries_at empty_node p = [].
Proof. destruct p as [|k p]; [done|]. unfold entries_at. cbn. unfold mapping. by destruct (is_wildcard k). Qed.

Lemma wf_empty : wf empty_node.
Proof.
  constructor.
  - repeat split; try constructor; by intros ? ?%elem_of_nil.
  - intros k c. unfold mapping. by destruct (is_wildcard k).
Qed.

Lemma entries_at_cons n k p :
  entries_at n (k :: p) = match dict_get (mapping n k) k with Some c => entries_at c p | None => [] end.
Proof. unfold entries_at. cbn [node_at]. by destruct (dict_get _ _). Qed.

Lemma entries_at_child n k p : entries_at n (k :: p) = entries_at (child n k) p.
Proof.
  rewrite entries_at_cons. unfold child. destruct (dict_get _ _); [done|]. by rewrite entries_at_empty.
Qed.

Lemma wf_child n k : wf n -> wf (child n k).
Proof.
  inversion 1 as [? _ Hc]; subst. unfold child. destruct (dict_get _ _) eqn:E; [by eapply Hc|].
  apply wf_empty.
Qed.

Lemma entries_at_insert parts it n p :
  entries_at (insert_item parts it n) p =
    if decide (p = parts) then entries_at n p ++ [it] else entries_at n p.
Proof.
  revert n p; induction parts as [|part parts IH]; intros n p; cbn [insert_item].
  - destruct p as [|k p]; [done|]. rewrite decide_False, !entries_at_cons by done. done.
  - destruct p as [|k p].
    { rewrite decide_False by done. apply entries_set_mapping. }
    rewrite entries_at_cons, get_set_mapping. destruct (decide (k = part)) as [->|Hk].
    + rewrite IH, <-entries_at_child. by repeat case_decide; simplify_eq.
    + rewrite decide_False by congruence. by rewrite entries_at_cons.
Qed.

Lemma wf_insert parts it n : wf n -> wf (insert_item parts it n).
Proof.
  revert n; induction parts as [|part parts IH]; intros n Hn; cbn [insert_item].
  - inversion Hn as [? Hl Hc]; subst. by constructor.
  - pose proof (IH _ (wf_child _ part Hn)) as Hi. inversion Hn as [? Hl Hc]; subst. constructor.
    + apply local_ok_set; [done|by apply NoDup_dict_set, NoDup_mapping|].
      intros k. rewrite keys_dict_set. case_decide; set_solver.
    + intros k c. rewrite get_set_mapping. case_decide; [|apply Hc]. intros [= <-]. split; [|done].
      exists parts. rewrite entries_at_insert, decide_True by done. by destruct (entries_at _ _).
Qed.

Lemma is_nil_true {A} (l : list A) : is_nil l = true <-> l = [].
Proof. by destruct l. Qed.

Lemma wf_live n : wf n ->
  is_nil (children n) && is_nil (wildcard_children n) && is_nil (entries n) = false -> live n.
Proof.
  inversion 1 as [? (H1 & H2 & H3 & H4) Hc]; subst. intros He.
  assert (forall k c, dict_get (mapping n k) k = Some c -> live n) as Hlive.
  { intros k c E. destruct (Hc k c E) as [[q Hq] _]. exists (k :: q). by rewrite entries_at_cons, E. }
  destruct (children n) as [|[k c] d] eqn:Ed; cbn in He;
    [destruct (wildcard_children n) as [|[k c] d'] eqn:Ew; cbn in He|].
  - exists []. unfold entries_at. cbn. by destruct (entries n).
  - apply (Hlive k c). unfold mapping. rewrite H4 by by left. rewrite Ew. cbn. by rewrite decide_True.
  - apply (Hlive k c). unfold mapping. rewrite H3 by by left. rewrite Ed. cbn. by rewrite decide_True.
Qed.

Lemma entries_at_dead n p :
  is_nil (children n) && is_nil (wildcard_children n) && is_nil (entries n) = true ->
  entries_at n p = [].
Proof.
  rewrite !andb_true_iff, !is_nil_true. intros [[Hc Hw] He]. destruct n; cbn in *; subst.
  apply entries_at_empty.
Qed.

Lemma remove_entry_spec parts f e n :
  wf n ->
  wf (_remove_entry parts f e n) /\
  forall p, entries_at (_remove_entry parts f e n) p =
    if decide (p = parts) then List.filter (fun it => negb (is_item f e it)) (entries_at n p)
    else entries_at n p.
Proof.
  revert n; induction parts as [|part parts IH]; intros n Hn; cbn [_remove_entry].
  - split; [inversion Hn as [? Hl Hc]; subst; by constructor|].
    intros [|k p]; [done|]. rewrite decide_False, !entries_at_cons by done. done.
  - inversion Hn as [? Hl Hc]; subst. destruct (dict_get (mapping n part) part) as [c|] eqn:E.
    2:{ split; [done|]. intros p. case_decide; [|done]. subst. by rewrite entries_at_cons, E. }
    destruct (IH c (proj2 (Hc _ _ E))) as [Hw He]. set (c' := _remove_entry parts f e c) in *.
    destruct (is_nil (children c') && is_nil (wildcard_children c') && is_nil (entries c')) eqn:Ed.
    + split.
      * constructor.
        -- apply local_ok_set; [done|by apply NoDup_dict_del, NoDup_mapping|].
           intros k Hk%keys_dict_del. by right.
        -- intros k d. rewrite get_del_mapping by done. case_decide; [done|]. apply Hc.
      * intros [|k p]; [rewrite decide_False by done; apply entries_set_mapping|].
        rewrite !entries_at_cons, get_del_mapping by done.
        destruct (decide (k = part)) as [->|Hk]; [|by rewrite decide_False by congruence].
        rewrite E. specialize (He p). rewrite (entries_at_dead _ p Ed) in He.
        repeat case_decide; simplify_eq; done.
    + split.
      * constructor.
        -- apply local_ok_set; [done|by apply NoDup_dict_set, NoDup_mapping|].
           intros k. rewrite keys_dict_set. case_decide; set_solver.
        -- intros k d. rewrite get_set_mapping. case_decide; [|apply Hc]. intros [= <-].
           split; [by apply wf_live|done].
      * intros [|k p]; [rewrite decide_False by done; apply entries_set_mapping|].
        rewrite !entries_at_cons, get_set_mapping.
        destruct (decide (k = part)) as [->|Hk]; [|by rewrite decide_False by congruence].
        rewrite E, He. repeat case_decide; simplify_eq; done.
Qed.

(** ** Collecting: the paths a topic visits *)

Fixpoint visit (parts : list pystr) : list (list pystr) :=
  match parts with
  | [] => [[py "#"]; []]
  | t :: parts' =>
    [py "#"] :: (if is_wildcard t then [] else map (cons t) (visit parts'))
      ++ map (cons (py "+")) (visit parts')
  end.

Lemma is_wildcard_true k : is_wildcard k = true <-> k = py "+" \/ k = py "#".
Proof. unfold is_wildcard. by rewrite orb_true_iff, !str_eqb_eq. Qed.

Lemma is_wildcard_false k : is_wildcard k = false <-> k <> py "+" /\ k <> py "#".
Proof. unfold is_wildcard. by rewrite orb_false_iff, !str_eqb_neq. Qed.

(** The topics a filter matches are those that visit its path. *)
Lemma elem_of_visit p ts : p ∈ visit ts <-> Matches p ts.
Proof.
  revert p; induction ts as [|t ts IH]; intros p; cbn [visit].
  - rewrite !elem_of_cons, elem_of_nil. split.
    + intros [->|[->|[]]]; constructor.
    + inversion 1; subst; auto.
  - rewrite elem_of_cons, elem_of_app.
    assert (forall k, p ∈ map (cons k) (visit ts) <-> exists q, p = k :: q /\ Matches q ts) as Hmap.
    { intros k. rewrite list_elem_of_In, in_map_iff. setoid_rewrite <-IH. setoid_rewrite list_elem_of_In.
      naive_solver. }
    split.
    + intros [->|[Hp|Hp]].
      * constructor.
      * destruct (is_wildcard t) eqn:Et; [by apply elem_of_nil in Hp|].
        apply Hmap in Hp as (q & -> & Hq). apply is_wildcard_false in Et as [? ?]. by constructor.
      * apply Hmap in Hp as (q & -> & Hq). by constructor.
    + inversion 1; subst; [by left| |].
      * right. right. apply Hmap. eauto.
      * right. left. rewrite (proj2 (is_wildcard_false _)) by done. apply Hmap. eauto.
Qed.

Lemma NoDup_map_cons {A} (k : A) (ps : list (list A)) : NoDup ps -> NoDup (map (cons k) ps).
Proof. intros H. exact (NoDup_fmap_2 (cons k) ps H). Qed.

Lemma in_map_cons {A} (k : A) ps (p : list A) : p ∈ map (cons k) ps -> exists q, p = k :: q.
Proof. rewrite list_elem_of_In, in_map_iff. intros (q & <- & _). eauto. Qed.

Lemma NoDup_visit ts : NoDup (visit ts).
Proof.
  induction ts as [|t ts IH]; cbn [visit].
  - apply (bool_decide_unpack _). vm_compute. exact I.
  - pose proof (NoDup_map_cons (py "+") _ IH). pose proof (NoDup_map_cons t _ IH).
    constructor.
    + intros [Hin|Hin]%elem_of_app.
      * destruct (is_wildcard t) eqn:Et; [by apply elem_of_nil in Hin|].
        apply in_map_cons in Hin as [q [= <- _]]. done.
      * by apply in_map_cons in Hin as [q ?].
    + apply NoDup_app. split; [case_if; [constructor|done]|]. split; [|done].
      intros p Hp Hp'. apply in_map_cons in Hp' as [q ->].
      destruct (is_wildcard t) eqn:Et; [by apply elem_of_nil in Hp|].
      apply in_map_cons in Hp as [q' [= <- _]]. done.
Qed.

Lemma entries_at_keyed n k ps :
  concat (map (entries_at n) (map (cons k) ps)) =
    match dict_get (mapping n k) k with Some c => concat (map (entries_at c) ps) | None => [] end.
Proof.
  rewrite map_map. destruct (dict_get (mapping n k) k) as [c|] eqn:E.
  - f_equal. apply map_ext. intros p. by rewrite entries_at_cons, E.
  - induction ps as [|p ps IH]; [done|]. cbn [map concat]. by rewrite IH, entries_at_cons, E.
Qed.

Lemma collect_visit n parts : wf n -> _collect n parts = concat (map (entries_at n) (visit parts)).
Proof.
  revert n; induction parts as [|t parts IH]; intros n Hn; inversion Hn as [? (_ & _ & H3 & _) Hc]; subst.
  - cbn [visit map concat _collect]. rewrite entries_at_cons. cbn [app].
    change (mapping n (py "#")) with (wildcard_children n). by rewrite app_nil_r.
  - cbn [visit map concat _collect]. rewrite entries_at_cons.
    change (mapping n (py "#")) with (wildcard_children n). f_equal.
    rewrite map_app, concat_app. f_equal; [|].
    + destruct (is_wildcard t) eqn:Et.
      * rewrite (proj2 (dict_get_None _ _)); [done|]. intros Hin%H3. congruence.
      * rewrite entries_at_keyed. unfold mapping at 1. rewrite Et.
        destruct (dict_get (children n) t) as [c|] eqn:E; [|done]. apply IH.
        apply (Hc t). unfold mapping. by rewrite Et.
    + rewrite entries_at_keyed. change (mapping n (py "+")) with (wildcard_children n).
      destruct (dict_get (wildcard_children n) (py "+")) as [c|] eqn:E; [|done]. apply IH.
      by apply (Hc (py "+")).
Qed.

(** A topic and a key of specificity leave room for one path. *)
Lemma ranks_path ts p p' :
  Matches p ts -> Matches p' ts -> map _segment_rank p = map _segment_rank p' -> p = p'.
Proof.
  assert (forall l, l <> py "#" -> l <> py "+" -> _segment_rank l = 0) as Hr.
  { intros l H1 H2. unfold _segment_rank. by rewrite !(proj2 (str_eqb_neq _ _)). }
  assert (_segment_rank (py "#") = 2) as Hh by done.
  assert (_segment_rank (py "+") = 1) as Hp by done.
  intros H; revert p'; induction H as [|ts|fs t ts H IH|l fs ts H1 H2 H IH];
    intros p' H' E; inversion H'; subst; cbn [map] in E;
    rewrite ?Hh, ?Hp, ?(Hr l H1 H2) in E; try done;
    try (rewrite Hr in E by done; done); injection E as E; f_equal; auto.
Qed.

(** ** Stable sorting *)

Lemma lex_leb_refl a : lex_leb a a = true.
Proof. induction a as [|x a IH]; cbn; [done|]. by rewrite Z.eqb_refl. Qed.

Lemma lex_leb_total a b : lex_leb a b = false -> lex_leb b a = true.
Proof.
  revert b; induction a as [|x a IH]; intros [|y b]; cbn; try done.
  rewrite (Z.eqb_sym y x). destruct (x =? y) eqn:E; [apply IH|]. intros. zbool.
  apply Z.ltb_lt. lia.
Qed.

Lemma lex_leb_antisym a b : lex_leb a b = true -> lex_leb b a = true -> a = b.
Proof.
  revert b; induction a as [|x a IH]; intros [|y b]; cbn; try done.
  rewrite (Z.eqb_sym y x). destruct (x =? y) eqn:E; zbool; [subst; intros; f_equal; auto|].
  intros. zbool. lia.
Qed.

Lemma lex_leb_trans a b c : lex_leb a b = true -> lex_leb b c = true -> lex_leb a c = true.
Proof.
  revert b c; induction a as [|x a IH]; intros [|y b] [|z c]; cbn; try done.
  destruct (x =? y) eqn:E1; zbool; [subst; destruct (y =? z); [apply IH|done]|].
  destruct (y =? z) eqn:E2; zbool; [subst; rewrite (proj2 (Z.eqb_neq _ _) E1); done|].
  intros. zbool. rewrite (proj2 (Z.eqb_neq _ _)) by lia. apply Z.ltb_lt. lia.
Qed.

Definition key_is (k : list Z) (it : item) : bool := bool_decide (item_key it = k).

Lemma filter_insert_sorted k x l :
  List.filter (key_is k) (insert_sorted x l) =
    if key_is k x then x :: List.filter (key_is k) l else List.filter (key_is k) l.
Proof.
  induction l as [|y l IH]; cbn [insert_sorted]; [done|].
  destruct (lex_leb (item_key x) (item_key y)) eqn:E; [done|]. cbn [List.filter]. rewrite IH.
  destruct (key_is k x) eqn:Ex, (key_is k y) eqn:Ey; try done.
  apply bool_decide_eq_true in Ex, Ey. rewrite Ex, Ey, lex_leb_refl in E. done.
Qed.

Lemma filter_sorted k l : List.filter (key_is k) (sorted l) = List.filter (key_is k) l.
Proof. induction l as [|x l IH]; cbn; [done|]. by rewrite filter_insert_sorted, IH. Qed.

Definition key_le (x y : item) : Prop := lex_leb (item_key x) (item_key y) = true.

Lemma elem_of_insert_sorted x l y : y ∈ insert_sorted x l <-> y = x \/ y ∈ l.
Proof. induction l as [|z l IH]; cbn; [set_solver|]. case_if; set_solver. Qed.

Lemma elem_of_sorted l y : y ∈ sorted l <-> y ∈ l.
Proof. induction l as [|z l IH]; cbn; [done|]. rewrite elem_of_insert_sorted. set_solver. Qed.

Inductive ordered : list item -> Prop :=
| ordered_nil : ordered []
| ordered_cons x l : (forall y, y ∈ l -> key_le x y) -> ordered l -> ordered (x :: l).

Lemma ordered_insert x l : ordered l -> ordered (insert_sorted x l).
Proof.
  induction 1 as [|y l Hy Hl IH]; cbn; [constructor; [set_solver|constructor]|].
  destruct (lex_leb (item_key x) (item_key y)) eqn:E.
  - constructor; [|by constructor]. intros z [->|Hz]%elem_of_cons; [done|].
    eapply lex_leb_trans; [exact E|]. by apply Hy.
  - constructor; [|done]. intros z [->|Hz]%elem_of_insert_sorted; [by apply lex_leb_total|auto].
Qed.

Lemma ordered_sorted l : ordered (sorted l).
Proof. induction l; cbn; [constructor|by apply ordered_insert]. Qed.

(** An ordered list is determined by its blocks of equal keys. *)
Lemma ordered_unique l1 l2 :
  ordered l1 -> ordered l2 ->
  (forall k, List.filter (key_is k) l1 = List.filter (key_is k) l2) -> l1 = l2.
Proof.
  assert (forall x, key_is (item_key x) x = true) as Hk by (intros; by apply bool_decide_eq_true).
  assert (forall (l : list item) x l', List.filter (key_is (item_key x)) l = x :: l' -> x ∈ l) as Hin.
  { intros l x l' E. apply (elem_of_filter_b (key_is (item_key x))). rewrite E. by left. }
  intros H1; revert l2; induction H1 as [|x l1 Hx H1 IH]; intros l2 H2 E.
  - destruct l2 as [|y l2]; [done|]. specialize (E (item_key y)). cbn in E. by rewrite Hk in E.
  - destruct H2 as [|y l2 Hy H2].
    { specialize (E (item_key x)). cbn in E. by rewrite Hk in E. }
    assert (x = y) as <-.
    { pose proof (E (item_key x)) as Ex. pose proof (E (item_key y)) as Ey.
      cbn [List.filter] in Ex, Ey. rewrite Hk in Ex, Ey.
      assert (item_key x = item_key y) as Exy.
      { apply lex_leb_antisym.
        - symmetry in Ey. destruct (key_is (item_key y) x) eqn:Eyx;
            [apply bool_decide_eq_true in Eyx; rewrite Eyx; apply lex_leb_refl|].
          apply Hx. symmetry in Ey. by apply Hin in Ey.
        - destruct (key_is (item_key x) y) eqn:Exy;
            [apply bool_decide_eq_true in Exy; rewrite Exy; apply lex_leb_refl|].
          apply Hy. symmetry in Ex. by apply Hin in Ex. }
      rewrite <-Exy, Hk in Ey. congruence. }
    f_equal. apply IH; [done|]. intros k. specialize (E k). cbn [List.filter] in E.
    destruct (key_is k x); [congruence|done].
Qed.

Lemma sorted_blocks l1 l2 :
  (forall k, List.filter (key_is k) l1 = List.filter (key_is k) l2) -> sorted l1 = sorted l2.
Proof.
  intros H. apply ordered_unique; [apply ordered_sorted..|]. intros k. by rewrite !filter_sorted.
Qed.

(** ** The abstract state: the registrations, in order *)

Definition item_path (it : item) : list pystr := split SLASH (item_filter it).

Definition on_path (p : list pystr) (it : item) : bool := bool_decide (item_path it = p).

Definition has_identifier (i : Z) (it : item) : bool :=
  bool_decide (se_subscription_identifier it.2 = Some i).

Definition spec_remove (regs : list item) (f : pystr) : list item :=
  List.filter (fun it => negb (str_eqb it.1 f)) regs.

Definition spec_add (regs : list item) (f : pystr) (e : SubscriptionEntry) : list item :=
  spec_remove regs f ++ [(f, e)].

Definition spec_match (regs : list item) (topic : pystr) : list item :=
  sorted (List.filter (fun it => _topic_matches (item_filter it) topic) regs).

(** The trie and the side table hold the registrations of [_entries], each in its place and in
    order, and nothing else: no empty node, no empty table. *)
Record index_ok (idx : SubscriptionIndex) : Prop := {
  ok_keys : NoDup (keys (si_entries idx));
  ok_wf : wf (si_root idx);
  ok_paths : forall p, entries_at (si_root idx) p = List.filter (on_path p) (si_entries idx);
  ok_id_keys : NoDup (keys (si_by_identifier idx));
  ok_ids : forall i, by_identifier idx i = List.filter (has_identifier i) (si_entries idx);
  ok_id_nonempty : forall i, dict_get (si_by_identifier idx) i <> Some []
}.

Lemma index_new_ok : index_ok index_new.
Proof.
  split; cbn.
  - constructor.
  - apply wf_empty.
  - apply entries_at_empty.
  - constructor.
  - done.
  - done.
Qed.

Lemma NoDup_filter_keys {V} (f : pystr * V -> bool) (d : dict pystr V) :
  NoDup (keys d) -> NoDup (keys (List.filter f d)).
Proof.
  induction d as [|x d IH]; [done|]. cbn. intros [Hx Hd]%NoDup_cons. case_if; [|auto].
  constructor; [|auto]. intros Hin. apply Hx. apply elem_of_keys in Hin as [v Hv].
  apply elem_of_filter_b in Hv as [Hv _]. apply elem_of_keys. eauto.
Qed.

(** Removing the entry registered under [f], from any block of the registrations. *)
Lemma filter_without (g : item -> bool) (regs : list item) f e :
  NoDup (keys regs) -> dict_get regs f = Some e ->
  List.filter g (spec_remove regs f) =
    if g (f, e) then List.filter (fun it => negb (str_eqb it.1 f)) (List.filter g regs)
    else List.filter g regs.
Proof.
  intros Hnd He. unfold spec_remove. rewrite !filter_andb.
  assert (forall it, it ∈ regs -> it.1 = f -> it = (f, e)) as Hit.
  { intros [f' e'] Hin Hf. cbn in Hf. subst. apply dict_get_elem in Hin; [|done]. congruence. }
  destruct (g (f, e)) eqn:Eg; apply filter_same; intros it Hin.
  - by rewrite andb_comm.
  - destruct (str_eqb it.1 f) eqn:Ef; [|done]. apply str_eqb_eq in Ef.
    rewrite (Hit it Hin Ef). by rewrite Eg.
Qed.

Lemma remove_identifier_ok regs m f e :
  NoDup (keys regs) -> dict_get regs f = Some e -> NoDup (keys m) ->
  (forall i, match dict_get m i with Some d => d | None => [] end = List.filter (has_identifier i) regs) ->
  (forall i, dict_get m i <> Some []) ->
  let m' := remove_identifier m f (se_subscription_identifier e) in
  NoDup (keys m') /\
  (forall i, match dict_get m' i with Some d => d | None => [] end
             = List.filter (has_identifier i) (spec_remove regs f)) /\
  (forall i, dict_get m' i <> Some []).
Proof.
  intros Hnd He Hm Hids Hne. cbn zeta. unfold remove_identifier.
  assert (forall i, List.filter (has_identifier i) (spec_remove regs f) =
    if bool_decide (se_subscription_identifier e = Some i)
    then List.filter (fun it => negb (str_eqb it.1 f)) (List.filter (has_identifier i) regs)
    else List.filter (has_identifier i) regs) as Hf.
  { intros i. by rewrite (filter_without _ _ _ _ Hnd He). }
  destruct (se_subscription_identifier e) as [i|] eqn:Ei.
  2:{ split; [done|]. split; [|done]. intros i. by rewrite Hf, bool_decide_false. }
  assert ((f, e) ∈ List.filter (has_identifier i) regs) as Hin.
  { apply elem_of_filter_b. split; [by apply dict_get_Some_elem|]. by apply bool_decide_eq_true. }
  pose proof (Hids i) as Hi. destruct (dict_get m i) as [d|] eqn:Ed; [|by rewrite <-Hi in Hin; apply elem_of_nil in Hin].
  assert (dict_del d f = List.filter (fun it => negb (str_eqb it.1 f)) d) as Hdel.
  { apply dict_del_bfilter. rewrite Hi. by apply NoDup_filter_keys. }
  assert (forall j, j <> i -> bool_decide (Some i = Some j) = false) as Hj
    by (intros j Hj; apply bool_decide_eq_false; congruence).
  destruct (dict_del d f) as [|x d'] eqn:Edd.
  - split; [by apply NoDup_dict_del|].
    split; intros j; rewrite dict_get_del by done; [rewrite Hf|]; destruct (decide (j = i)) as [->|Ej].
    + rewrite bool_decide_true by done. by rewrite <-Hi, <-Hdel.
    + rewrite Hj by done. apply Hids.
    + done.
    + apply Hne.
  - split; [by apply NoDup_dict_set|].
    split; intros j; rewrite dict_get_set; [rewrite Hf|]; destruct (decide (j = i)) as [->|Ej].
    + rewrite bool_decide_true by done. by rewrite <-Hi, <-Hdel.
    + rewrite Hj by done. apply Hids.
    + done.
    + apply Hne.
Qed.

Lemma remove_ok idx f :
  index_ok idx ->
  index_ok (remove idx f).2 /\ (remove idx f).1 = dict_get (si_entries idx) f /\
  si_entries (remove idx f).2 = spec_remove (si_entries idx) f /\
  si_response_observers (remove idx f).2 = si_response_observers idx.
Proof.
  intros [Hk Hw Hp Hik Hi Hne]. unfold remove. destruct (dict_get (si_entries idx) f) as [e|] eqn:E.
  - cbn [fst snd si_entries si_response_observers].
    destruct (remove_entry_spec (split SLASH (_actual_filter f e)) f e (si_root idx) Hw) as [Hw' Hp'].
    destruct (remove_identifier_ok _ _ _ _ Hk E Hik Hi Hne) as (Hik' & Hi' & Hne').
    split; [|split; [done|split; [by apply dict_del_bfilter|done]]].
    split; cbn [si_entries si_root si_by_identifier]; try done.
    + by apply NoDup_dict_del.
    + intros p. rewrite Hp', Hp. rewrite dict_del_bfilter by done.
      fold (spec_remove (si_entries idx) f). rewrite (filter_without _ _ _ _ Hk E). unfold on_path at 3. cbn.
      case_decide as Ep.
      * subst p. rewrite bool_decide_true by done. apply filter_same. intros it Hit. f_equal.
        apply elem_of_filter_b in Hit as [Hit _]. unfold is_item.
        destruct (str_eqb it.1 f) eqn:Ef; [|done]. apply str_eqb_eq in Ef. destruct it as [f' e'].
        cbn in Ef. subst. apply dict_get_elem in Hit; [|done]. cbn. apply Nat.eqb_eq. congruence.
      * rewrite bool_decide_false; [done|]. unfold item_path, item_filter. cbn. congruence.
    + intros i. rewrite dict_del_bfilter by done. apply Hi'.
  - cbn. split; [done|]. split; [done|]. split; [|done]. unfold spec_remove.
    symmetry. apply forallb_filter_id. apply forallb_forall. intros it Hit%list_elem_of_In.
    apply negb_true_iff, str_eqb_neq. intros <-. apply dict_get_None in E. apply E, elem_of_keys.
    exists it.2. by destruct it.
Qed.

Lemma spec_remove_fresh regs f : f ∉ keys (spec_remove regs f).
Proof.
  intros Hin. apply elem_of_keys in Hin as [e He]. apply elem_of_filter_b in He as [_ He].
  cbn in He. apply negb_true_iff, str_eqb_neq in He. done.
Qed.

Lemma contains_spec idx f : contains idx f = false -> spec_remove (si_entries idx) f = si_entries idx.
Proof.
  unfold contains. destruct (dict_get (si_entries idx) f) eqn:E; [done|]. intros _.
  apply forallb_filter_id, forallb_forall. intros it Hit%list_elem_of_In.
  apply negb_true_iff, str_eqb_neq. intros <-. apply dict_get_None in E. apply E, elem_of_keys.
  exists it.2. by destruct it.
Qed.

(** Adding under a fresh filter. *)
Lemma add_fresh_ok idx f e :
  index_ok idx -> f ∉ keys (si_entries idx) ->
  index_ok (mkIndex (insert_item (split SLASH (_actual_filter f e)) (f, e) (si_root idx))
    (dict_set (si_entries idx) f e) (add_identifier (si_by_identifier idx) f e)
    (si_response_observers idx)).
Proof.
  intros [Hk Hw Hp Hik Hi Hne] Hf.
  split; cbn [si_entries si_root si_by_identifier].
  - by apply NoDup_dict_set.
  - by apply wf_insert.
  - intros p. rewrite entries_at_insert, Hp, keys_set_new, List.filter_app by done. cbn [List.filter].
    unfold on_path at 4. unfold item_path, item_filter. cbn [fst snd].
    case_decide as Ep.
    + subst. by rewrite bool_decide_true.
    + rewrite bool_decide_false by congruence. by rewrite app_nil_r.
  - unfold add_identifier. destruct (se_subscription_identifier e); [|done]. by apply NoDup_dict_set.
  - intros i. rewrite keys_set_new, List.filter_app by done. cbn [List.filter].
    unfold has_identifier at 2. cbn [snd]. specialize (Hi i). unfold by_identifier in *.
    cbn [si_by_identifier]. unfold add_identifier.
    destruct (se_subscription_identifier e) as [j|];
      [|rewrite bool_decide_false by done; by rewrite app_nil_r].
    rewrite dict_get_set. case_decide as Ej; subst.
    + rewrite bool_decide_true by done. rewrite Hi. apply keys_set_new.
      intros Hin. apply Hf. apply elem_of_keys in Hin as [v Hv].
      apply elem_of_filter_b in Hv as [Hv _]. apply elem_of_keys. eauto.
    + rewrite bool_decide_false by congruence. by rewrite app_nil_r.
  - intros i. unfold add_identifier. destruct (se_subscription_identifier e) as [j|]; [|done].
    rewrite dict_get_set. case_decide; [|done]. intros [= E].
    destruct (match dict_get (si_by_identifier idx) j with Some d => d | None => [] end) as [|[? ?] ?];
      cbn in E; [done|]. by case_decide.
Qed.

Lemma add_ok idx f e :
  index_ok idx ->
  index_ok (add idx f e) /\ si_entries (add idx f e) = spec_add (si_entries idx) f e /\
  si_response_observers (add idx f e) = si_response_observers idx.
Proof.
  intros Hok. unfold add.
  set (idx' := if contains idx f then (remove idx f).2 else idx).
  assert (index_ok idx' /\ si_entries idx' = spec_remove (si_entries idx) f /\
          si_response_observers idx' = si_response_observers idx) as (Hok' & He & Ho).
  { subst idx'. destruct (contains idx f) eqn:E.
    - by destruct (remove_ok idx f Hok) as (? & _ & ? & ?).
    - split; [done|]. by rewrite contains_spec. }
  assert (f ∉ keys (si_entries idx')) as Hf by (rewrite He; apply spec_remove_fresh).
  split; [by apply add_fresh_ok|]. cbn [si_entries si_response_observers]. split; [|done].
  rewrite keys_set_new by done. by rewrite He.
Qed.

(** ** Routing *)

Definition valid_item (it : item) : Prop := hash_last (item_path it).

(** What the protocol registers is valid: a validated filter, with its decorators stripped. *)
Lemma registered_valid f e ps :
  validate_subscribe_topic f = Ok tt -> se_actual_filter e = _shared_filter_to_actual f ps ->
  valid_item (f, e).
Proof.
  intros Hv He. unfold valid_item, item_path, item_filter, _actual_filter. cbn [fst snd]. rewrite He.
  pose proof (actual_hash_last f ps Hv) as Ha.
  destruct (_shared_filter_to_actual f ps); [|done].
  apply validate_subscribe_topic_valid in Hv as (_ & _ & Hv). by apply levels_valid_hash_last.
Qed.

Definition routes (topic : pystr) (it : item) : bool := _topic_matches (item_filter it) topic.

Lemma routes_visit topic it :
  valid_item it -> routes topic it = true -> item_path it ∈ visit (split SLASH topic).
Proof. intros Hv H. apply topic_matches_Matches in H as [_ H]; [|done]. by apply elem_of_visit. Qed.

(** Two registrations for one topic with the same key have the same filter. *)
Lemma routes_same_key topic it it' :
  valid_item it -> valid_item it' -> routes topic it = true -> routes topic it' = true ->
  item_key it = item_key it' -> item_filter it = item_filter it'.
Proof.
  intros Hv Hv' H H' E. apply (split_inj SLASH).
  apply (ranks_path (split SLASH topic)); [..|exact E]; by apply elem_of_visit, routes_visit.
Qed.

Lemma match_refines idx topic :
  index_ok idx -> Forall valid_item (si_entries idx) -> match_ idx topic = spec_match (si_entries idx) topic.
Proof.
  intros [Hk Hw Hp _ _ _] Hv. unfold match_, spec_match. rewrite collect_visit by done.
  apply sorted_blocks. intros k. fold (routes topic). rewrite !filter_andb.
  set (g := fun it => routes topic it && key_is k it).
  assert (forall p it, it ∈ entries_at (si_root idx) p -> valid_item it /\ item_path it = p) as Hat.
  { intros p it Hin. rewrite Hp in Hin. apply elem_of_filter_b in Hin as [Hin E%bool_decide_eq_true].
    rewrite Forall_forall in Hv. auto. }
  rewrite Forall_forall in Hv.
  assert (forall it p, valid_item it -> g it = true -> p ∈ visit (split SLASH topic) ->
    map _segment_rank p = k -> item_path it = p) as Huniq.
  { intros it p Hvi Hg Hin Hpk. apply andb_true_iff in Hg as [Hr Hkk%bool_decide_eq_true].
    apply (ranks_path (split SLASH topic)); [by apply elem_of_visit, routes_visit|by apply elem_of_visit|].
    rewrite Hpk. exact Hkk. }
  destruct (List.find (fun p => bool_decide (map _segment_rank p = k)) (visit (split SLASH topic)))
    as [p|] eqn:Ef.
  - apply List.find_some in Ef as [Hin%list_elem_of_In Hpk%bool_decide_eq_true].
    rewrite (filter_concat_one g (entries_at (si_root idx)) _ p (NoDup_visit _) Hin).
    + rewrite Hp, filter_andb. apply filter_same. intros it Hit. unfold on_path.
      destruct (g it) eqn:Eg; [|by rewrite andb_false_r].
      by rewrite bool_decide_true by (apply Huniq; auto).
    + intros q it _ Hq Hit. destruct (g it) eqn:Eg; [|done]. destruct (Hat _ _ Hit) as [Hvi <-].
      destruct Hq. by apply Huniq.
  - assert (forall it, valid_item it -> g it = false) as Hno.
    { intros it Hvi. destruct (g it) eqn:Eg; [|done].
      apply andb_true_iff in Eg as [Hr%routes_visit Hkk]; [|done].
      apply list_elem_of_In in Hr. apply (List.find_none _ _ Ef) in Hr.
      unfold key_is, item_key, _specificity in Hkk. unfold item_path in Hr. congruence. }
    rewrite !filter_nil; [done|..].
    + intros it Hit. auto.
    + intros it Hit. apply list_elem_of_In, in_concat in Hit as (l & Hl & Hit).
      apply in_map_iff in Hl as (q & <- & _). apply list_elem_of_In in Hit.
      by apply Hno, (Hat q).
Qed.

(** ** Selection *)

Lemma min_key_spec k l :
  (min_key k l = k \/ exists it, it ∈ l /\ min_key k l = item_key it) /\
  lex_leb (min_key k l) k = true /\ (forall it, it ∈ l -> lex_leb (min_key k l) (item_key it) = true).
Proof.
  revert k; induction l as [|x l IH]; intros k; cbn [min_key].
  - split; [by left|]. split; [apply lex_leb_refl|]. by intros it ?%elem_of_nil.
  - set (k' := if lex_leb k (item_key x) then k else item_key x).
    assert (lex_leb k' k = true /\ lex_leb k' (item_key x) = true) as [H1 H2].
    { subst k'. destruct (lex_leb k (item_key x)) eqn:E; split; try done; try apply lex_leb_refl.
      by apply lex_leb_total. }
    destruct (IH k') as (Hin & Hle & Hall). split; [|split].
    + destruct Hin as [->|(it & Hit & ->)]; [|right; exists it; split; [by right|done]].
      subst k'. case_if; [by left|]. right. exists x. split; [by left|done].
    + by eapply lex_leb_trans.
    + intros it [->|Hit]%elem_of_cons; [by eapply lex_leb_trans|auto].
Qed.

(** The best of a list of candidates: the least key, the first among equals, and the tie. *)
Lemma select_from_spec l :
  match _select_from l with
  | mkSelection None missing tied => l = [] /\ missing = false /\ tied = []
  | mkSelection (Some it) missing tied =>
      let same := List.filter (key_is (item_key it)) l in
      it ∈ l /\ missing = false /\ (forall it', it' ∈ l -> key_le it it') /\ head same = Some it /\
      tied = if 1 <? zlen same then map fst same else []
  end.
Proof.
  destruct l as [|c cs]; [done|]. cbn [_select_from].
  destruct (min_key_spec (item_key c) cs) as (Hin & Hle & Hall).
  set (k := min_key (item_key c) cs) in *.
  change (fun it : item => bool_decide (item_key it = k)) with (key_is k).
  assert (exists w, w ∈ List.filter (key_is k) (c :: cs)) as [w Hw].
  { destruct Hin as [E|(w & Hw & E)].
    - exists c. apply elem_of_filter_b. split; [by left|]. by apply bool_decide_eq_true.
    - exists w. apply elem_of_filter_b. split; [by right|]. by apply bool_decide_eq_true. }
  destruct (List.filter (key_is k) (c :: cs)) as [|it its] eqn:Ef; [by apply elem_of_nil in Hw|].
  assert (it ∈ List.filter (key_is k) (c :: cs)) as Hit by (rewrite Ef; by left).
  apply elem_of_filter_b in Hit as [Hit Hk%bool_decide_eq_true]. cbn [head].
  rewrite Hk, Ef. repeat split; [done|].
  intros it' [->|Hin']%elem_of_cons; unfold key_le; rewrite Hk; [done|auto].
Qed.

Lemma filter_head {A} (f : A -> bool) (l : list A) : head (List.filter f l) = List.find f l.
Proof. induction l as [|x l IH]; cbn; [done|]. by case_if. Qed.

(** Selection on the registrations: the most specific matching filter, and among the
    registrations of that same filter the earliest. *)
Lemma select_spec regs topic :
  Forall valid_item regs ->
  match _select_from (spec_match regs topic) with
  | mkSelection None missing tied =>
      (forall it, it ∈ regs -> routes topic it = false) /\ missing = false /\ tied = []
  | mkSelection (Some it) missing tied =>
      let same := List.filter (fun it' => str_eqb (item_filter it') (item_filter it)) regs in
      it ∈ regs /\ routes topic it = true /\ missing = false /\
      (forall it', it' ∈ regs -> routes topic it' = true -> key_le it it') /\
      head same = Some it /\ tied = if 1 <? zlen same then map fst same else []
  end.
Proof.
  intros Hv. rewrite Forall_forall in Hv. pose proof (select_from_spec (spec_match regs topic)) as Hs.
  destruct (_select_from (spec_match regs topic)) as [[it|] missing tied]; cbn in Hs |- *.
  - destruct Hs as (Hin & -> & Hle & Hh & ->). unfold spec_match in *. fold (routes topic) in *.
    apply elem_of_sorted, elem_of_filter_b in Hin as [Hin Hr].
    assert (List.filter (key_is (item_key it)) (sorted (List.filter (routes topic) regs)) =
            List.filter (fun it' => str_eqb (item_filter it') (item_filter it)) regs) as Hsame.
    { rewrite filter_sorted, filter_andb. apply filter_same. intros it' Hin'.
      destruct (str_eqb (item_filter it') (item_filter it)) eqn:E.
      - apply str_eqb_eq in E. unfold routes, key_is, item_key. rewrite E.
        fold (item_key it) (routes topic it). by rewrite Hr, bool_decide_true.
      - destruct (routes topic it') eqn:Er; [|done]. cbn. apply bool_decide_eq_false. intros Ek.
        apply str_eqb_neq in E. apply E. by apply (routes_same_key topic); auto. }
    rewrite Hsame in *. repeat split; try done.
    intros it' Hin' Hr'. apply Hle. apply elem_of_sorted, elem_of_filter_b. done.
  - destruct Hs as (He & -> & ->). split; [|done]. intros it Hin.
    destruct (routes topic it) eqn:Er; [|done]. exfalso.
    assert (it ∈ spec_match regs topic) as Hit by (apply elem_of_sorted, elem_of_filter_b; done).
    rewrite He in Hit. by apply elem_of_nil in Hit.
Qed.

(** ** The index as an abstract data type

    Sequences of operations, run on the index and on the abstract state (the registrations in
    order and the set of observed response topics). *)

Inductive index_op : Type :=
| OpAdd (f : pystr) (e : SubscriptionEntry)
| OpAddMany (l : list item)
| OpRemove (f : pystr)
| OpClear
| OpObserve (topic : pystr)
| OpUnobserve (topic : pystr)
| OpObserved (topic : pystr)
| OpGet (f : pystr)
| OpContains (f : pystr)
| OpByIdentifier (i : Z)
| OpMatch (topic : pystr)
| OpSelect (topic : pystr)
| OpSelectByIdentifier (topic : pystr) (i : Z).

Inductive index_out : Type :=
| OutUnit
| OutBool (b : bool)
| OutEntry (o : option SubscriptionEntry)
| OutItems (l : list item)
| OutSelection (s : SubscriptionSelection).

Definition index_step (idx : SubscriptionIndex) (op : index_op) : index_out * SubscriptionIndex :=
  match op with
  | OpAdd f e => (OutUnit, add idx f e)
  | OpAddMany l => (OutUnit, add_many idx l)
  | OpRemove f => let '(o, idx') := remove idx f in (OutEntry o, idx')
  | OpClear => (OutUnit, clear idx)
  | OpObserve t => let '(b, idx') := add_response_observer idx t in (OutBool b, idx')
  | OpUnobserve t => let '(b, idx') := remove_response_observer idx t in (OutBool b, idx')
  | OpObserved t => (OutBool (has_response_observer idx t), idx)
  | OpGet f => (OutEntry (get idx f), idx)
  | OpContains f => (OutBool (contains idx f), idx)
  | OpByIdentifier i => (OutItems (by_identifier idx i), idx)
  | OpMatch t => (OutItems (match_ idx t), idx)
  | OpSelect t => (OutSelection (select idx t), idx)
  | OpSelectByIdentifier t i => (OutSelection (select_by_identifier idx t i), idx)
  end.

Record registry : Type := mkRegistry { regs : list item; observed : gset pystr }.

Definition spec_select_by_identifier (l : list item) (topic : pystr) (i : Z) : SubscriptionSelection :=
  match List.filter (has_identifier i) l with
  | [] =>
    let fallback := _select_from (spec_match l topic) in
    mkSelection (recipient fallback) true (tied_filters fallback)
  | identified =>
    let matching := List.filter (routes topic) identified in
    _select_from (match matching with [] => identified | _ => matching end)
  end.

Definition spec_step (s : registry) (op : index_op) : index_out * registry :=
  let 'mkRegistry l obs := s in
  match op with
  | OpAdd f e => (OutUnit, mkRegistry (spec_add l f e) obs)
  | OpAddMany items => (OutUnit, mkRegistry (fold_left (fun l it => spec_add l it.1 it.2) items l) obs)
  | OpRemove f => (OutEntry (dict_get l f), mkRegistry (spec_remove l f) obs)
  | OpClear => (OutUnit, mkRegistry [] ∅)
  | OpObserve t => (OutBool (bool_decide (t ∉ obs)), mkRegistry l ({[ t ]} ∪ obs))
  | OpUnobserve t => (OutBool (bool_decide (t ∈ obs)), mkRegistry l (obs ∖ {[ t ]}))
  | OpObserved t => (OutBool (bool_decide (t ∈ obs)), s)
  | OpGet f => (OutEntry (dict_get l f), s)
  | OpContains f => (OutBool (bool_decide (f ∈ keys l)), s)
  | OpByIdentifier i => (OutItems (List.filter (has_identifier i) l), s)
  | OpMatch t => (OutItems (spec_match l t), s)
  | OpSelect t => (OutSelection (_select_from (spec_match l t)), s)
  | OpSelectByIdentifier t i => (OutSelection (spec_select_by_identifier l t i), s)
  end.

Fixpoint run_ops {S} (step : S -> index_op -> index_out * S) (s : S) (ops : list index_op)
    : list index_out * S :=
  match ops with
  | [] => ([], s)
  | op :: ops' =>
    let '(o, s') := step s op in
    let '(os, s'') := run_ops step s' ops' in (o :: os, s'')
  end.

(** What the protocol registers ([registered_valid]). *)
Definition valid_op (op : index_op) : Prop :=
  match op with
  | OpAdd f e => valid_item (f, e)
  | OpAddMany l => Forall valid_item l
  | _ => True
  end.

(** The simulation relation. *)
Definition Rep (idx : SubscriptionIndex) (s : registry) : Prop :=
  index_ok idx /\ si_entries idx = regs s /\ si_response_observers idx = observed s /\
  Forall valid_item (regs s).

Lemma valid_spec_remove l f : Forall valid_item l -> Forall valid_item (spec_remove l f).
Proof.
  rewrite !Forall_forall. intros H it [Hin _]%elem_of_filter_b. auto.
Qed.

Lemma valid_spec_add l f e : Forall valid_item l -> valid_item (f, e) -> Forall valid_item (spec_add l f e).
Proof. intros H He. apply Forall_app. split; [by apply valid_spec_remove|by constructor]. Qed.

Lemma Rep_add idx l obs f e :
  Rep idx (mkRegistry l obs) -> valid_item (f, e) ->
  Rep (add idx f e) (mkRegistry (spec_add l f e) obs).
Proof.
  intros (Hok & He & Ho & Hv) Hf. cbn in *. destruct (add_ok idx f e Hok) as (? & E & E').
  split; [done|]. cbn [regs observed]. rewrite E, E', He. split; [done|]. split; [done|]. by apply valid_spec_add.
Qed.

Lemma Rep_add_many items idx l obs :
  Rep idx (mkRegistry l obs) -> Forall valid_item items ->
  Rep (add_many idx items) (mkRegistry (fold_left (fun l it => spec_add l it.1 it.2) items l) obs).
Proof.
  revert idx l. unfold add_many. induction items as [|[f e] items IH]; intros idx l HR Hi; [done|].
  apply Forall_cons in Hi as [Hfe Hi]. cbn [fold_left fst snd]. apply IH; [|done]. by apply Rep_add.
Qed.

Lemma index_ok_observers idx obs :
  index_ok idx -> index_ok (mkIndex (si_root idx) (si_entries idx) (si_by_identifier idx) obs).
Proof. intros [Hk Hw Hp Hik Hi Hne]. by split. Qed.

Lemma contains_keys idx f : contains idx f = bool_decide (f ∈ keys (si_entries idx)).
Proof.
  unfold contains. destruct (dict_get (si_entries idx) f) eqn:E.
  - symmetry. apply bool_decide_eq_true, elem_of_keys. apply dict_get_Some_elem in E. eauto.
  - symmetry. apply bool_decide_eq_false. by apply dict_get_None.
Qed.

Lemma select_by_identifier_refines idx t i :
  index_ok idx -> Forall valid_item (si_entries idx) ->
  select_by_identifier idx t i = spec_select_by_identifier (si_entries idx) t i.
Proof.
  intros Hok Hv. unfold select_by_identifier, spec_select_by_identifier.
  rewrite (ok_ids idx Hok). unfold select. by rewrite match_refines.
Qed.

(** One step of the simulation. *)
Lemma index_simulates idx s op :
  Rep idx s -> valid_op op ->
  (index_step idx op).1 = (spec_step s op).1 /\ Rep (index_step idx op).2 (spec_step s op).2.
Proof.
  destruct s as [l obs]. intros HR Hop. pose proof HR as (Hok & He & Ho & Hv). cbn in He, Ho, Hv.
  destruct op as [f e|items|f| |t|t|t|f|f|i|t|t|t i]; cbn [index_step spec_step valid_op] in *.
  - split; [done|]. by apply Rep_add.
  - split; [done|]. by apply Rep_add_many.
  - destruct (remove_ok idx f Hok) as (? & E1 & E2 & E3). destruct (remove idx f) as [o idx'].
    cbn [fst snd] in *. rewrite E1, He. split; [done|]. split; [done|]. cbn. rewrite E2, E3, He.
    split; [done|]. split; [done|]. by apply valid_spec_remove.
  - split; [done|]. split; [apply index_new_ok|]. split; [done|]. split; [done|constructor].
  - unfold add_response_observer. rewrite Ho. case_decide as Ht; cbn [fst snd].
    + rewrite bool_decide_false by naive_solver. split; [done|]. split; [done|].
      split; [done|]. split; [|done]. cbn. rewrite Ho. set_solver.
    + rewrite bool_decide_true by done. split; [done|]. split; [by apply index_ok_observers|]. done.
  - unfold remove_response_observer. rewrite Ho. case_decide as Ht; cbn [fst snd].
    + rewrite bool_decide_true by done. split; [done|]. split; [by apply index_ok_observers|]. done.
    + rewrite bool_decide_false by done. split; [done|]. split; [done|]. split; [done|].
      split; [|done]. cbn. rewrite Ho. set_solver.
  - unfold has_response_observer. by rewrite Ho.
  - unfold get. by rewrite He.
  - rewrite contains_keys. by rewrite He.
  - rewrite (ok_ids idx Hok), He. done.
  - rewrite match_refines, He by (done || by rewrite He). done.
  - unfold select. rewrite match_refines, He by (done || by rewrite He). done.
  - rewrite select_by_identifier_refines, He by (done || by rewrite He). done.
Qed.

Lemma run_simulates ops idx s :
  Rep idx s -> Forall valid_op ops ->
  (run_ops index_step idx ops).1 = (run_ops spec_step s ops).1 /\
  Rep (run_ops index_step idx ops).2 (run_ops spec_step s ops).2.
Proof.
  revert idx s; induction ops as [|op ops IH]; intros idx s HR Hv; [done|].
  apply Forall_cons in Hv as [Hop Hv]. destruct (index_simulates _ _ _ HR Hop) as [E HR'].
  cbn [run_ops]. destruct (index_step idx op) as [o idx'], (spec_step s op) as [o' s']. cbn in E, HR'.
  destruct (IH _ _ HR' Hv) as [E' HR'']. rewrite <-E.
  destruct (run_ops index_step idx' ops), (run_ops spec_step s' ops). cbn in *. by rewrite E'.
Qed.

Lemma Rep_new : Rep index_new (mkRegistry [] ∅).
Proof. split; [apply index_new_ok|]. split; [done|]. split; [done|constructor]. Qed.

(** ** The contract of the index *)

(** C19: the trie index implements an ordered registry.  Every sequence of operations (adding,
    re-adding, removing, clearing, observers, lookups, routing with and without a subscription
    identifier) on a new index, with filters as the protocol registers them, returns what the
    same operations return on the plain list of registrations in order of registration, where
    routing is a scan of the whole list sorted stably by specificity. *)
Theorem index_refines_registry ops :
  Forall valid_op ops ->
  (run_ops index_step index_new ops).1 = (run_ops spec_step (mkRegistry [] ∅) ops).1.
Proof. intros Hv. by destruct (run_simulates ops _ _ Rep_new Hv). Qed.

Definition sample_entry (ref : nat) (f : pystr) (i : option Z) : SubscriptionEntry :=
  mkSubscriptionEntry ref 0 true (_shared_filter_to_actual f DEFAULT_STRIPPED_PREFIXES) i.

Definition sample_ops : list index_op :=
  [OpAdd (py "#") (sample_entry 1 (py "#") None);
   OpAdd (py "a/+") (sample_entry 2 (py "a/+") (Some 7));
   OpAdd (py "$share/g/a/b") (sample_entry 3 (py "$share/g/a/b") (Some 7));
   OpAdd (py "a/b") (sample_entry 4 (py "a/b") None)].

Lemma valid_item_decide it :
  forallb (fun i => negb (bool_decide (nth i (item_path it) [] = py "#")) ||
                    (S i =? length (item_path it))%nat) (seq 0 (length (item_path it))) = true ->
  valid_item it.
Proof.
  rewrite forallb_forall. intros H a b E. rewrite E in H. specialize (H (length a)).
  rewrite nth_middle in H. rewrite bool_decide_true in H by done. cbn [negb orb] in H.
  rewrite length_app in H. cbn [length] in H.
  assert (S (length a) =? length a + S (length b) = true)%nat as Hl by (apply H, in_seq; lia).
  apply Nat.eqb_eq in Hl. destruct b; [done|cbn in Hl; lia].
Qed.

Lemma index_refines_registry_witness :
  (run_ops index_step index_new (sample_ops ++ [OpSelect (py "a/b"); OpRemove (py "#"); OpMatch (py "a/c")])).1 =
  (run_ops spec_step (mkRegistry [] ∅) (sample_ops ++ [OpSelect (py "a/b"); OpRemove (py "#"); OpMatch (py "a/c")])).1.
Proof.
  apply index_refines_registry. unfold sample_ops. cbn [app].
  repeat constructor; apply valid_item_decide; vm_compute; reflexivity.
Defined.

(** The invariant behind it: after any such sequence the trie holds at the path of each
    filter exactly the registrations of that filter in order, has no empty branch left from
    removed subscriptions, and the table of identifiers holds exactly the registrations that
    carry each identifier.  In particular, when the last registration is gone the trie is the
    empty one again: subscribing and unsubscribing leaks nothing. *)
Theorem index_invariant ops :
  Forall valid_op ops ->
  let idx := (run_ops index_step index_new ops).2 in
  index_ok idx /\
  (si_entries idx = [] -> si_root idx = empty_node /\ si_by_identifier idx = []).
Proof.
  intros Hv idx. destruct (run_simulates ops _ _ Rep_new Hv) as [_ (Hok & _)]. fold idx in Hok.
  split; [done|]. intros He. destruct Hok as [_ Hw Hp _ Hi Hne]. rewrite He in Hp, Hi. split.
  - destruct (is_nil (children (si_root idx)) && is_nil (wildcard_children (si_root idx)) &&
              is_nil (entries (si_root idx))) eqn:E.
    + rewrite !andb_true_iff, !is_nil_true in E. destruct E as [[E1 E2] E3].
      destruct (si_root idx). cbn in *. by subst.
    + apply wf_live in E as [q Hq]; [|done]. by rewrite Hp in Hq.
  - destruct (si_by_identifier idx) as [|[i d] m] eqn:E; [done|]. specialize (Hi i). specialize (Hne i).
    unfold by_identifier in Hi. rewrite E in Hi. cbn in Hi, Hne. rewrite decide_True in Hi, Hne by done.
    by subst.
Qed.

Lemma index_invariant_witness :
  si_root (run_ops index_step index_new (sample_ops ++
    [OpRemove (py "a/b"); OpRemove (py "#"); OpRemove (py "$share/g/a/b"); OpRemove (py "a/+")])).2
  = empty_node.
Proof.
  refine (proj1 (proj2 (index_invariant (sample_ops ++
    [OpRemove (py "a/b"); OpRemove (py "#"); OpRemove (py "$share/g/a/b"); OpRemove (py "a/+")]) _) _)).
  - unfold sample_ops. cbn [app]. repeat constructor; apply valid_item_decide; vm_compute; reflexivity.
  - vm_compute. reflexivity.
Defined.

(** C35: routing picks one recipient, the right one.  After any such sequence, [select] answers
    [None] exactly when no registered filter matches the topic; otherwise the recipient is a
    registration whose filter matches, no other matching filter is more specific (comparing
    level by level, a literal before ['+'] before ['#']), among the registrations of the same
    broker filter it is the earliest, and [tied_filters] lists those registrations in order
    when there are several and is empty when there is one. *)
Theorem select_most_specific ops topic :
  Forall valid_op ops ->
  let idx := (run_ops index_step index_new ops).2 in
  match select idx topic with
  | mkSelection None missing tied =>
      (forall it, it ∈ si_entries idx -> routes topic it = false) /\ missing = false /\ tied = []
  | mkSelection (Some it) missing tied =>
      let same := List.filter (fun it' => str_eqb (item_filter it') (item_filter it)) (si_entries idx) in
      it ∈ si_entries idx /\ routes topic it = true /\ missing = false /\
      (forall it', it' ∈ si_entries idx -> routes topic it' = true -> key_le it it') /\
      head same = Some it /\ tied = if 1 <? zlen same then map fst same else []
  end.
Proof.
  intros Hv idx. destruct (run_simulates ops _ _ Rep_new Hv) as [_ (Hok & He & _ & Hr)].
  fold idx in Hok, He. rewrite <-He in Hr. unfold select. rewrite match_refines by done.
  by apply select_spec.
Qed.

Lemma select_most_specific_witness :
  let idx := (run_ops index_step index_new sample_ops).2 in
  exists it, select idx (py "a/b") = mkSelection (Some it) false [py "$share/g/a/b"; py "a/b"] /\
    (forall it', it' ∈ si_entries idx -> routes (py "a/b") it' = true -> key_le it it').
Proof.
  assert (Forall valid_op sample_ops) as Hv
    by (unfold sample_ops; repeat constructor; apply valid_item_decide; vm_compute; reflexivity).
  intros idx. pose proof (select_most_specific sample_ops (py "a/b") Hv) as H. fold idx in H. cbv zeta in H.
  assert (select idx (py "a/b") = mkSelection
    (Some (py "$share/g/a/b", sample_entry 3 (py "$share/g/a/b") (Some 7))) false
    [py "$share/g/a/b"; py "a/b"]) as E by (vm_compute; reflexivity).
  rewrite E in H. destruct H as (_ & _ & _ & H & _). eexists. split; [exact E|exact H].
Defined.

(** A PUBLISH that carries a subscription identifier goes to the subscriptions of that
    identifier: when some exist, the recipient is one of them, one whose filter matches the
    topic if any does, and nothing is flagged; when none exists (the subscription is gone), the
    choice is the one made without an identifier, flagged [identifier_missing]. *)
Theorem select_by_identifier_spec ops topic i :
  Forall valid_op ops ->
  let idx := (run_ops index_step index_new ops).2 in
  let s := select_by_identifier idx topic i in
  let mine := List.filter (has_identifier i) (si_entries idx) in
  match mine with
  | [] => s = mkSelection (best idx topic) true (tied_filters (select idx topic))
  | _ => exists it, recipient s = Some it /\ it ∈ mine /\ identifier_missing s = false /\
      (existsb (routes topic) mine = true -> routes topic it = true) /\
      (forall it', it' ∈ mine -> routes topic it' = routes topic it -> key_le it it')
  end.
Proof.
  intros Hv idx s mine. destruct (run_simulates ops _ _ Rep_new Hv) as [_ (Hok & He & _ & Hr)].
  fold idx in Hok, He. subst s. unfold select_by_identifier. rewrite (ok_ids idx Hok). fold mine.
  destruct mine as [|c cs] eqn:Em; [done|]. fold (routes topic).
  set (l := match List.filter (routes topic) (c :: cs) with [] => c :: cs | _ => _ end).
  assert (l <> [] /\ (forall it, it ∈ l -> it ∈ c :: cs) /\
    (existsb (routes topic) (c :: cs) = true -> forall it, it ∈ l -> routes topic it = true) /\
    (forall it it', it ∈ l -> it' ∈ c :: cs -> routes topic it' = routes topic it -> it' ∈ l))
    as (Hne & Hsub & Hm & Hcl).
  { subst l. destruct (List.filter (routes topic) (c :: cs)) as [|d ds] eqn:Ef.
    - split; [done|]. split; [done|]. split; [|done]. intros (x & Hx & Hrx)%existsb_exists.
      assert (x ∈ List.filter (routes topic) (c :: cs)) as Hin
        by (apply elem_of_filter_b; split; [by apply list_elem_of_In|done]).
      rewrite Ef in Hin. by apply elem_of_nil in Hin.
    - rewrite <-Ef. split; [by rewrite Ef|]. repeat split.
      + intros it Hin. by apply elem_of_filter_b in Hin as [? _].
      + intros _ it Hin. by apply elem_of_filter_b in Hin as [_ ?].
      + intros it it' Hin Hin' E. apply elem_of_filter_b in Hin as [_ Hrt].
        apply elem_of_filter_b. split; [done|congruence]. }
  pose proof (select_from_spec l) as Hs. clearbody l.
  destruct (_select_from l) as [[it|] missing tied]; cbn in Hs |- *; [|by destruct Hs as [? _]].
  destruct Hs as (Hin & -> & Hle & _). exists it. repeat split; try done; eauto.
Qed.

Lemma select_by_identifier_spec_witness :
  exists it, recipient (select_by_identifier (run_ops index_step index_new sample_ops).2 (py "a/c") 7)
    = Some it /\ routes (py "a/c") it = true.
Proof.
  assert (Forall valid_op sample_ops) as Hv
    by (unfold sample_ops; repeat constructor; apply valid_item_decide; vm_compute; reflexivity).
  pose proof (select_by_identifier_spec sample_ops (py "a/c") 7 Hv) as (it & Hr & _ & _ & Hm & _).
  exists it. split; [exact Hr|]. apply Hm. vm_compute. reflexivity.
Defined.
