(* ===== verification/Guards.v ===== *)
(** * The subscription guards ([_SubscriptionGuards] of [_internal/protocol.py])

    Every change of the ownership of a topic filter is done while a lock for that filter is held:
    [hold] takes the locks of all its filters in sorted order, and a guard lives in the table
    exactly as long as somebody uses it.  A call of [hold] is a coroutine: it waits for one lock
    after the other ([HWaiting]), runs its body ([HBody]) and leaves.  The locks are those of
    asyncio: a queue of futures, the first of which is woken when the lock is released and takes
    the lock when it runs.

    Theorems: two bodies never share a filter, [release] never fails, there is no deadlock and no
    lost wake-up, and when all calls have left no guard is kept. *)

From S2P Require Import Prelude Topic SubscriptionIndex.

(** ** [asyncio.Lock] and the guards *)

(** The future of a waiter: not done, [set_result] was called, or cancelled. *)
Inductive waiter_state : Type := WPending | WWoken | WCancelled.

#[export] Instance waiter_state_eq_dec : EqDecision waiter_state.
Proof. solve_decision. Defined.

(** [_SubscriptionGuard]: the lock, with its waiters in order (the call and its future), and the
    number of users. *)
Record Guard : Type := mkGuard {
  g_locked : bool;
  g_waiters : list (nat * waiter_state);
  g_users : Z
}.

Definition guard_new : Guard := mkGuard false [] 0.

Definition is_cancelled (w : nat * waiter_state) : bool := bool_decide (w.2 = WCancelled).

(** The test of [Lock.acquire] for taking the lock at once. *)
Definition lock_free (g : Guard) : bool := negb (g_locked g) && forallb is_cancelled (g_waiters g).

(** [Lock._wake_up_first]: nothing when the first future is already done. *)
Definition wake_up_first (g : Guard) : Guard :=
  match g_waiters g with
  | (n, WPending) :: l => mkGuard (g_locked g) ((n, WWoken) :: l) (g_users g)
  | _ => g
  end.

Definition lock_take (g : Guard) : Guard := mkGuard true (g_waiters g) (g_users g).
Definition lock_wait (n : nat) (g : Guard) : Guard :=
  mkGuard (g_locked g) (g_waiters g ++ [(n, WPending)]) (g_users g).

(** [Lock.release] *)
Definition lock_release (g : Guard) : res Guard :=
  if g_locked g then Ok (wake_up_first (mkGuard false (g_waiters g) (g_users g)))
  else Err (RuntimeError "Lock is not acquired.").

(** [self._waiters.remove(fut)] *)
Definition drop_waiter (n : nat) (g : Guard) : Guard :=
  mkGuard (g_locked g) (List.filter (fun w => negb (w.1 =? n)%nat) (g_waiters g)) (g_users g).

(** A woken waiter runs on; one that is cancelled passes the wake-up on. *)
Definition lock_resume (n : nat) (g : Guard) : Guard := lock_take (drop_waiter n g).
Definition lock_cancelled (n : nat) (g : Guard) : Guard :=
  let g := drop_waiter n g in if g_locked g then g else wake_up_first g.

Definition waiter (n : nat) (g : Guard) : option waiter_state :=
  snd <$> List.find (fun w => (w.1 =? n)%nat) (g_waiters g).

(** [fut.cancel()]: nothing when it is done. *)
Definition cancel_waiter (n : nat) (g : Guard) : Guard :=
  mkGuard (g_locked g)
    (map (fun w => if (w.1 =? n)%nat && bool_decide (w.2 = WPending) then (n, WCancelled) else w) (g_waiters g))
    (g_users g).

Definition add_users (k : Z) (g : Guard) : Guard := mkGuard (g_locked g) (g_waiters g) (g_users g + k).

(** ** Calls of [hold] *)

Inductive phase : Type := HWaiting | HBody.

#[export] Instance phase_eq_dec : EqDecision phase.
Proof. solve_decision. Defined.

(** The local variables of [hold]: [entries] and [acquired]. *)
Record Hold : Type := mkHold {
  h_entries : list (pystr * nat);
  h_acquired : nat;
  h_phase : phase
}.

(** [gs_table] is the dictionary [_guards]; [gs_store] holds the guard objects. *)
Record Guards : Type := mkGuards {
  gs_table : gmap pystr nat;
  gs_store : gmap nat Guard;
  gs_next : nat;
  gs_holds : gmap nat Hold
}.

Definition guards_new : Guards := mkGuards ∅ ∅ 0 ∅.

Definition guard_at (gs : Guards) (r : nat) : Guard :=
  match gs_store gs !! r with Some g => g | None => guard_new end.
Definition set_guard (r : nat) (g : Guard) (gs : Guards) : Guards :=
  mkGuards (gs_table gs) (<[r := g]> (gs_store gs)) (gs_next gs) (gs_holds gs).
Definition set_hold (n : nat) (h : Hold) (gs : Guards) : Guards :=
  mkGuards (gs_table gs) (gs_store gs) (gs_next gs) (<[n := h]> (gs_holds gs)).
Definition end_hold (n : nat) (gs : Guards) : Guards :=
  mkGuards (gs_table gs) (gs_store gs) (gs_next gs) (delete n (gs_holds gs)).

(** [sorted(set(filters))] *)
Fixpoint insert_str (f : pystr) (l : list pystr) : list pystr :=
  match l with
  | [] => [f]
  | f' :: l' => if lex_leb f f' then f :: l else f' :: insert_str f l'
  end.
Definition sorted_set (filters : list pystr) : list pystr := foldr insert_str [] (remove_dups filters).

(** [self._guards.setdefault(filter_, _SubscriptionGuard())] and [guard.users += 1] *)
Definition use_guard (f : pystr) (gs : Guards) : nat * Guards :=
  match gs_table gs !! f with
  | Some r => (r, set_guard r (add_users 1 (guard_at gs r)) gs)
  | None =>
    let r := gs_next gs in
    (r, mkGuards (<[f := r]> (gs_table gs)) (<[r := add_users 1 guard_new]> (gs_store gs)) (S r) (gs_holds gs))
  end.

Fixpoint use_guards (fs : list pystr) (entries : list (pystr * nat)) (gs : Guards) : list (pystr * nat) * Guards :=
  match fs with
  | [] => (entries, gs)
  | f :: fs' => let '(r, gs') := use_guard f gs in use_guards fs' (entries ++ [(f, r)]) gs'
  end.

(** The loop over [guard.lock.acquire()], from the first lock that is not held: it stops at a lock
    it has to wait for. *)
Fixpoint acquire_locks (n : nat) (entries : list (pystr * nat)) (todo : list (pystr * nat)) (acquired : nat)
    (gs : Guards) : Guards :=
  match todo with
  | [] => set_hold n (mkHold entries acquired HBody) gs
  | (_, r) :: todo' =>
    let g := guard_at gs r in
    if lock_free g then acquire_locks n entries todo' (S acquired) (set_guard r (lock_take g) gs)
    else set_hold n (mkHold entries acquired HWaiting) (set_guard r (lock_wait n g) gs)
  end.

(** The [finally] clause: release in reverse order, then drop the guards nobody uses. *)
Fixpoint release_locks (held : list (pystr * nat)) (gs : Guards) : res Guards :=
  match held with
  | [] => Ok gs
  | (_, r) :: held' => g ← lock_release (guard_at gs r); release_locks held' (set_guard r g gs)
  end.

Definition leave_guard (e : pystr * nat) (gs : Guards) : Guards :=
  let g := add_users (-1) (guard_at gs e.2) in
  let gs := set_guard e.2 g gs in
  if g_users g =? 0 then mkGuards (delete e.1 (gs_table gs)) (gs_store gs) (gs_next gs) (gs_holds gs) else gs.

Definition hold_finally (n : nat) (h : Hold) (gs : Guards) : res Guards :=
  gs ← release_locks (rev (take (h_acquired h) (h_entries h))) gs;
  Ok (end_hold n (foldl (fun gs e => leave_guard e gs) gs (h_entries h))).

Definition hold_enter (n : nat) (filters : list pystr) (gs : Guards) : Guards :=
  let '(entries, gs) := use_guards (sorted_set filters) [] gs in
  acquire_locks n entries entries 0 gs.

(** The future of the lock a call waits for. *)
Definition hold_waiter (n : nat) (gs : Guards) : option (Hold * nat * waiter_state) :=
  match gs_holds gs !! n with
  | Some h =>
    match h_phase h, h_entries h !! h_acquired h with
    | HWaiting, Some (_, r) => st ← waiter n (guard_at gs r); Some (h, r, st)
    | _, _ => None
    end
  | None => None
  end.

(** ** Steps *)

Inductive guard_event : Type :=
| GEnter (n : nat) (filters : list pystr) (** call [n] enters [hold] *)
| GCancel (n : nat)                       (** [task.cancel()] while it waits for a lock *)
| GResume (n : nat) (thrown : bool)       (** its future is done: it runs on, or CancelledError is thrown in *)
| GLeave (n : nat).                       (** the body ends, normally or not *)

(** An event that is not possible changes nothing. *)
Definition guard_step (gs : Guards) (ev : guard_event) : res Guards :=
  match ev with
  | GEnter n filters => match gs_holds gs !! n with Some _ => Ok gs | None => Ok (hold_enter n filters gs) end
  | GCancel n =>
    match hold_waiter n gs with
    | Some (_, r, _) => Ok (set_guard r (cancel_waiter n (guard_at gs r)) gs)
    | None => Ok gs
    end
  | GResume n thrown =>
    match hold_waiter n gs with
    | Some (_, _, WPending) | None => Ok gs
    | Some (h, r, st) =>
      if thrown || bool_decide (st = WCancelled) then
        hold_finally n h (set_guard r (lock_cancelled n (guard_at gs r)) gs)
      else
        Ok (acquire_locks n (h_entries h) (drop (S (h_acquired h)) (h_entries h)) (S (h_acquired h))
              (set_guard r (lock_resume n (guard_at gs r)) gs))
    end
  | GLeave n =>
    match gs_holds gs !! n with
    | Some h => if decide (h_phase h = HBody) then hold_finally n h gs else Ok gs
    | None => Ok gs
    end
  end.

Fixpoint guard_steps (gs : Guards) (evs : list guard_event) : res Guards :=
  match evs with
  | [] => Ok gs
  | ev :: evs' => gs' ← guard_step gs ev; guard_steps gs' evs'
  end.

(** ** Sorted entries *)

Definition str_lt (a b : pystr) : Prop := lex_leb a b = true /\ a <> b.

#[export] Instance str_lt_trans : Transitive str_lt.
Proof.
  intros a b c [H1 N1] [H2 N2]. split; [by eapply lex_leb_trans|]. intros ->. apply N1.
  by apply lex_leb_antisym.
Qed.

#[export] Instance str_lt_dec a b : Decision (str_lt a b).
Proof. unfold str_lt. apply _. Defined.

Lemma str_lt_irrefl a : ~ str_lt a a.
Proof. by intros [_ []]. Qed.

Inductive increasing : list pystr -> Prop :=
| increasing_nil : increasing []
| increasing_cons f l : (forall f', f' ∈ l -> str_lt f f') -> increasing l -> increasing (f :: l).

Lemma elem_of_insert_str f l x : x ∈ insert_str f l <-> x = f \/ x ∈ l.
Proof.
  induction l as [|f' l IH]; cbn; [set_solver|]. destruct (lex_leb f f'); [set_solver|].
  rewrite !elem_of_cons, IH. tauto.
Qed.

Lemma increasing_insert f l : f ∉ l -> increasing l -> increasing (insert_str f l).
Proof.
  intros H Hl. induction Hl as [|f' l Hf' Hl IH]; cbn.
  { constructor; [by intros ? ?%elem_of_nil|constructor]. }
  apply not_elem_of_cons in H as [Hne Hni].
  destruct (lex_leb f f') eqn:E.
  - constructor; [|by constructor]. intros x [->|Hx]%elem_of_cons; [done|].
    transitivity f'; [done|auto].
  - constructor; [|auto]. intros x [->|Hx]%elem_of_insert_str; [|auto].
    split; [by apply lex_leb_total|done].
Qed.

Lemma elem_of_sorted_set fs x : x ∈ sorted_set fs <-> x ∈ fs.
Proof.
  unfold sorted_set. rewrite <-(elem_of_remove_dups fs x). induction (remove_dups fs) as [|f l IH]; cbn; [done|].
  rewrite elem_of_insert_str, elem_of_cons, IH. done.
Qed.

Lemma increasing_sorted_set fs : increasing (sorted_set fs).
Proof.
  unfold sorted_set. pose proof (NoDup_remove_dups fs) as Hn.
  induction Hn as [|f l Hf Hl IH]; cbn; [constructor|]. apply increasing_insert; [|done].
  clear -Hf. induction l as [|f' l IH]; cbn; [done|]. rewrite elem_of_insert_str. set_solver.
Qed.

Lemma increasing_lookup l i j f f' : increasing l -> (i < j)%nat -> l !! i = Some f -> l !! j = Some f' -> str_lt f f'.
Proof.
  intros Hl. revert i j. induction Hl as [|g l Hg Hl IH]; intros [|i] [|j] Hij Hi Hj; try done; try lia; cbn in *.
  - simplify_eq. by eapply Hg, list_elem_of_lookup_2.
  - eapply IH; [|done..]. lia.
Qed.

(** ** The invariant of a guard *)

(** The first waiter of a lock that is free has been woken or cancelled; nobody else has. *)
Definition queue_ok (g : Guard) : Prop :=
  match g_waiters g with
  | [] => True
  | w :: l => (if g_locked g then w.2 <> WWoken else w.2 <> WPending) /\ Forall (fun w => w.2 <> WWoken) l
  end.

(** Who uses, holds and waits for the guard of an entry. *)
Definition uses (e : pystr * nat) (h : Hold) : bool := bool_decide (e ∈ h_entries h).
Definition has_lock (e : pystr * nat) (h : Hold) : bool := bool_decide (e ∈ take (h_acquired h) (h_entries h)).
Definition waits (e : pystr * nat) (h : Hold) : bool :=
  bool_decide (h_phase h = HWaiting /\ h_entries h !! h_acquired h = Some e).

Record guard_ok (e : pystr * nat) (g : Guard) (holds : gmap nat Hold) : Prop := {
  gk_queue : queue_ok g;
  gk_nodup : NoDup (map fst (g_waiters g));
  gk_users : g_users g = Z.of_nat (count (uses e) holds);
  gk_used : 0 < g_users g;
  gk_locked : count (has_lock e) holds = Nat.b2n (g_locked g);
  gk_waiters : forall n, n ∈ map fst (g_waiters g) <-> exists h, holds !! n = Some h /\ waits e h = true
}.

(** The guards fit the calls. *)
Record guards_ok (gs : Guards) : Prop := {
  go_holds : forall n h, gs_holds gs !! n = Some h ->
    increasing (map fst (h_entries h)) /\ (h_acquired h <= length (h_entries h))%nat;
  go_entries : forall n h f r, gs_holds gs !! n = Some h -> (f, r) ∈ h_entries h -> gs_table gs !! f = Some r;
  go_table : forall f r, gs_table gs !! f = Some r ->
    (r < gs_next gs)%nat /\ exists g, gs_store gs !! r = Some g /\ guard_ok (f, r) g (gs_holds gs);
  go_inj : forall f f' r, gs_table gs !! f = Some r -> gs_table gs !! f' = Some r -> f = f'
}.

Lemma guards_new_ok : guards_ok guards_new.
Proof. split; cbn; intros *; by rewrite lookup_empty. Qed.

(** A step of call [n] that concerns one guard. *)
Lemma guard_ok_update e g g' holds n h h' :
  guard_ok e g holds -> holds !! n = Some h -> queue_ok g' -> NoDup (map fst (g_waiters g')) -> 0 < g_users g' ->
  g_users g' + Z.b2z (uses e h) = g_users g + Z.b2z (uses e h') ->
  (Nat.b2n (g_locked g') + Nat.b2n (has_lock e h) = Nat.b2n (g_locked g) + Nat.b2n (has_lock e h'))%nat ->
  (forall m, m ∈ map fst (g_waiters g') <-> if decide (m = n) then waits e h' = true else m ∈ map fst (g_waiters g)) ->
  guard_ok e g' (<[n := h']> holds).
Proof.
  intros [H1 H2 H3 H4 H5 H6] Hn Hq Hd Hp Hu Hl Hw. split; try done.
  - pose proof (count_update (uses e) holds n h h' Hn). destruct (uses e h), (uses e h'); cbn in *; lia.
  - pose proof (count_update (has_lock e) holds n h h' Hn). lia.
  - intros m. rewrite Hw. case_decide as E.
    + subst. rewrite lookup_insert_eq. naive_solver.
    + rewrite lookup_insert_ne by done. apply H6.
Qed.

Lemma guard_ok_frame e g holds n h h' :
  guard_ok e g holds -> holds !! n = Some h -> uses e h' = uses e h -> has_lock e h' = has_lock e h ->
  waits e h' = waits e h -> guard_ok e g (<[n := h']> holds).
Proof.
  intros Hg Hn Eu Eh Ew. apply (guard_ok_update e g g holds n h h'); try done; try apply Hg; [by rewrite Eu|by rewrite Eh|].
  intros m. case_decide as E; [|done]. subst m. rewrite (gk_waiters _ _ _ Hg), Ew. naive_solver.
Qed.

(** One guard and one call change; nothing else does. *)
Lemma guards_ok_update gs n h h' f r g g' :
  guards_ok gs -> gs_holds gs !! n = Some h -> gs_table gs !! f = Some r -> gs_store gs !! r = Some g ->
  increasing (map fst (h_entries h')) -> (h_acquired h' <= length (h_entries h'))%nat ->
  (forall e, e ∈ h_entries h' -> e = (f, r) \/ e ∈ h_entries h) ->
  (forall e, e <> (f, r) -> uses e h' = uses e h /\ has_lock e h' = has_lock e h /\ waits e h' = waits e h) ->
  guard_ok (f, r) g' (<[n := h']> (gs_holds gs)) ->
  guards_ok (set_hold n h' (set_guard r g' gs)).
Proof.
  intros [H1 H2 H3 H4] Hn Hf Hr Hi Hl He Hne Hg. split; cbn.
  - intros m k [[<- <-]|[_ Hm]]%lookup_insert_Some; [done|by eapply H1].
  - intros m k f' r' [[<- <-]|[_ Hm]]%lookup_insert_Some Hin; [|by eapply H2].
    destruct (He _ Hin) as [[= -> ->]|Hin']; [done|by eapply H2].
  - intros f' r' Hf'. destruct (H3 f' r' Hf') as (Hlt & k & Hk & Hok). split; [done|].
    destruct (decide (r' = r)) as [->|Hr'].
    + assert (f' = f) as -> by (by eapply H4). exists g'. by rewrite lookup_insert_eq.
    + exists k. rewrite lookup_insert_ne by done. split; [done|].
      destruct (Hne (f', r')) as (E1 & E2 & E3); [congruence|]. by apply (guard_ok_frame _ _ _ n h h').
  - done.
Qed.

(** ** What the operations do to the queue of a lock *)

Lemma queue_take g : lock_free g = true -> queue_ok g -> queue_ok (lock_take g).
Proof.
  unfold lock_free, queue_ok, lock_take. cbn. intros [Hl Hc]%andb_true_iff. apply negb_true_iff in Hl. rewrite Hl.
  destruct (g_waiters g) as [|w l]; [done|]. intros [_ Hf]. split; [|done].
  cbn in Hc. apply andb_true_iff in Hc as [Hc _]. unfold is_cancelled in Hc. rewrite bool_decide_eq_true in Hc. congruence.
Qed.

Lemma queue_wait n g : lock_free g = false -> queue_ok g -> queue_ok (lock_wait n g).
Proof.
  unfold lock_free, queue_ok, lock_wait. cbn. destruct (g_waiters g) as [|w l]; cbn.
  - destruct (g_locked g); cbn; [intros _ _; by split|done].
  - intros _ [H1 H2]. split; [done|]. apply Forall_app. by repeat constructor.
Qed.

Lemma queue_wake l u : Forall (fun w : nat * waiter_state => w.2 <> WWoken) l -> queue_ok (wake_up_first (mkGuard false l u)).
Proof.
  unfold queue_ok, wake_up_first. cbn. destruct l as [|[m []] l]; cbn; [done|..]; intros [H1 H2]%Forall_cons; cbn in *; done.
Qed.

Lemma queue_release g : g_locked g = true -> queue_ok g ->
  exists g', lock_release g = Ok g' /\ queue_ok g' /\ g_locked g' = false /\
    map fst (g_waiters g') = map fst (g_waiters g) /\ g_users g' = g_users g.
Proof.
  intros Hl Hq. unfold lock_release. rewrite Hl. eexists. split; [reflexivity|]. unfold queue_ok in Hq. rewrite Hl in Hq.
  split; [|unfold wake_up_first; cbn; by destruct (g_waiters g) as [|[m []] l]].
  apply queue_wake. by destruct (g_waiters g); [|constructor; naive_solver].
Qed.

(** [drop_waiter] removes one name. *)
Lemma drop_waiter_names n g m : m ∈ map fst (g_waiters (drop_waiter n g)) <-> m <> n /\ m ∈ map fst (g_waiters g).
Proof.
  unfold drop_waiter. cbn. induction (g_waiters g) as [|[k st] l IH]; cbn; [set_solver|].
  destruct (Nat.eqb_spec k n) as [->|Hk]; cbn; rewrite ?elem_of_cons, IH; naive_solver.
Qed.

Lemma drop_waiter_nodup n g : NoDup (map fst (g_waiters g)) -> NoDup (map fst (g_waiters (drop_waiter n g))).
Proof.
  unfold drop_waiter. cbn. induction (g_waiters g) as [|[k st] l IH]; cbn; [done|]. intros [Hk Hl]%NoDup_cons.
  destruct (Nat.eqb_spec k n) as [->|Hne]; cbn; [auto|]. constructor; [|auto].
  intros Hin. apply Hk. rewrite list_elem_of_fmap in *. destruct Hin as (w & E & Hw). exists w. split; [done|].
  apply list_elem_of_In, filter_In in Hw as [Hw _]. by apply list_elem_of_In.
Qed.

Lemma filter_Forall {A} (P : A -> Prop) f l : Forall P l -> Forall P (List.filter f l).
Proof. induction 1 as [|x l Hx Hl IH]; cbn; [constructor|]. destruct (f x); [by constructor|done]. Qed.

(** Only the first waiter can have been woken, and it then runs with the lock free. *)
Lemma waiter_woken n g : queue_ok g -> waiter n g = Some WWoken -> g_locked g = false /\ Forall (fun w => w.2 <> WWoken) (g_waiters (drop_waiter n g)).
Proof.
  unfold queue_ok, waiter, drop_waiter. cbn. destruct (g_waiters g) as [|[k st] l]; [done|]. cbn. intros [H1 H2].
  destruct (Nat.eqb_spec k n) as [->|Hne]; cbn.
  - intros [= ->]. destruct (g_locked g); [done|]. split; [done|by apply filter_Forall].
  - intros Hf. destruct (List.find _ l) as [w|] eqn:E; [|done]. apply find_some in E as [Hin _].
    rewrite Forall_forall in H2. apply list_elem_of_In, H2 in Hin. cbn in Hf. congruence.
Qed.

Lemma queue_resume n g : queue_ok g -> waiter n g = Some WWoken -> queue_ok (lock_resume n g).
Proof.
  intros Hq Hw. destruct (waiter_woken n g Hq Hw) as [_ Hf]. unfold queue_ok, lock_resume, lock_take. cbn in *.
  destruct (List.filter _ _) as [|w l]; [done|]. by apply Forall_cons in Hf.
Qed.

Lemma queue_cancelled n g st : queue_ok g -> NoDup (map fst (g_waiters g)) -> waiter n g = Some st -> st <> WPending ->
  queue_ok (lock_cancelled n g).
Proof.
  intros Hq Hd Hw Hst. unfold lock_cancelled. cbn. unfold queue_ok in Hq.
  destruct (g_waiters g) as [|[k st'] l] eqn:E; [by unfold waiter in Hw; rewrite E in Hw|]. destruct Hq as [H1 H2].
  destruct (Nat.eqb_spec k n) as [->|Hne].
  - assert (drop_waiter n g = mkGuard (g_locked g) (List.filter (fun w => negb (w.1 =? n)%nat) l) (g_users g)) as ->.
    { unfold drop_waiter. rewrite E. cbn. by rewrite Nat.eqb_refl. }
    apply (filter_Forall _ (fun w => negb (w.1 =? n)%nat)) in H2. destruct (g_locked g); [|by apply queue_wake].
    unfold queue_ok. cbn. destruct (List.filter _ l); [done|]. by apply Forall_cons in H2.
  - assert (drop_waiter n g = mkGuard (g_locked g) ((k, st') :: List.filter (fun w => negb (w.1 =? n)%nat) l) (g_users g)) as ->.
    { unfold drop_waiter. rewrite E. cbn. by rewrite (proj2 (Nat.eqb_neq _ _) Hne). }
    assert (queue_ok (mkGuard (g_locked g) ((k, st') :: List.filter (fun w => negb (w.1 =? n)%nat) l) (g_users g))) as Hok.
    { split; [done|by apply filter_Forall]. }
    destruct (g_locked g) eqn:El; [done|]. unfold wake_up_first. cbn in *. by destruct st'.
Qed.

Lemma wake_names g : map fst (g_waiters (wake_up_first g)) = map fst (g_waiters g) /\
  g_locked (wake_up_first g) = g_locked g /\ g_users (wake_up_first g) = g_users g.
Proof. unfold wake_up_first. by destruct (g_waiters g) as [|[m []] l] eqn:E; cbn; rewrite ?E. Qed.

Lemma cancelled_names n g : map fst (g_waiters (lock_cancelled n g)) = map fst (g_waiters (drop_waiter n g)) /\
  g_locked (lock_cancelled n g) = g_locked g /\ g_users (lock_cancelled n g) = g_users g.
Proof.
  unfold lock_cancelled. destruct (g_locked (drop_waiter n g)) eqn:E; [done|].
  destruct (wake_names (drop_waiter n g)) as (-> & -> & ->). done.
Qed.

Lemma cancel_names n g : map fst (g_waiters (cancel_waiter n g)) = map fst (g_waiters g).
Proof.
  unfold cancel_waiter. cbn. rewrite map_map. apply map_ext. intros [k st]. cbn.
  destruct (Nat.eqb_spec k n) as [->|]; cbn; [by destruct (bool_decide _)|done].
Qed.

Lemma queue_cancel n g : queue_ok g -> queue_ok (cancel_waiter n g).
Proof.
  unfold queue_ok, cancel_waiter. cbn. destruct (g_waiters g) as [|[k st] l]; cbn; [done|]. intros [H1 H2]. split.
  - destruct ((k =? n)%nat && bool_decide (st = WPending)); [|done]. by destruct (g_locked g).
  - induction H2 as [|[k' st'] l Hx Hl IH]; cbn; [constructor|]. constructor; [|done].
    by destruct ((k' =? n)%nat && bool_decide (st' = WPending)).
Qed.

(** ** What the steps of a call do to the guards *)

Lemma increasing_nodup l : increasing l -> NoDup l.
Proof.
  induction 1 as [|f l Hf Hl IH]; constructor; [|done]. intros Hin. by apply (str_lt_irrefl f), Hf.
Qed.

Lemma entries_nodup (es : list (pystr * nat)) : increasing (map fst es) -> NoDup es.
Proof. intros H%increasing_nodup. by eapply NoDup_fmap_1. Qed.

Lemma not_in_take {A} (es : list A) k e : NoDup es -> es !! k = Some e -> e ∉ take k es.
Proof.
  intros Hn He Hin. apply list_elem_of_lookup in Hin as [i Hi]. apply lookup_take_Some in Hi as [Hi Hlt].
  pose proof (NoDup_lookup _ _ _ _ Hn Hi He). lia.
Qed.

Section call_step.
Context (gs : Guards) (n : nat) (es : list (pystr * nat)) (k : nat) (ph : phase) (f : pystr) (r : nat).
Context (Hok : guards_ok gs) (Hn : gs_holds gs !! n = Some (mkHold es k ph)) (Hk : es !! k = Some (f, r)).

Lemma call_inc : increasing (map fst es).
Proof. by destruct (go_holds _ Hok _ _ Hn). Qed.

Lemma call_guard : gs_table gs !! f = Some r /\ gs_store gs !! r = Some (guard_at gs r) /\
  guard_ok (f, r) (guard_at gs r) (gs_holds gs).
Proof.
  assert (gs_table gs !! f = Some r) as Hf.
  { eapply (go_entries _ Hok n); [exact Hn|]. by eapply list_elem_of_lookup_2. }
  destruct (go_table _ Hok f r Hf) as (_ & g & Hg & Hgk). unfold guard_at. rewrite Hg. done.
Qed.

Lemma call_uses k' ph' : uses (f, r) (mkHold es k' ph') = true.
Proof. apply bool_decide_eq_true. cbn. by eapply list_elem_of_lookup_2. Qed.

Lemma call_lock k' ph' : (k' <= k)%nat -> has_lock (f, r) (mkHold es k' ph') = false.
Proof.
  intros Hle. apply bool_decide_eq_false. cbn. intros Hin. apply (not_in_take es k (f, r)); [apply entries_nodup, call_inc|done|].
  rewrite <-(take_drop k' (take k es)), take_take, Nat.min_l by done. apply elem_of_app. by left.
Qed.

Lemma call_locked ph' : has_lock (f, r) (mkHold es (S k) ph') = true.
Proof. apply bool_decide_eq_true. cbn. rewrite (take_S_r _ _ _ Hk). set_solver. Qed.

Lemma call_lock_other ph' ph'' e : e <> (f, r) -> has_lock e (mkHold es (S k) ph') = has_lock e (mkHold es k ph'').
Proof. intros He. apply bool_decide_ext. cbn. rewrite (take_S_r _ _ _ Hk). set_solver. Qed.

Lemma call_waits_other k' ph' e : e <> (f, r) -> waits e (mkHold es k' HBody) = false /\ waits e (mkHold es k ph') = false.
Proof.
  intros He. split; apply bool_decide_eq_false; cbn; intros [? ?]; [done|congruence].
Qed.

Lemma call_waits ph' : waits (f, r) (mkHold es k ph') = bool_decide (ph' = HWaiting).
Proof. apply bool_decide_ext. cbn. naive_solver. Qed.

Lemma call_waits_body e k' : waits e (mkHold es k' HBody) = false.
Proof. apply bool_decide_eq_false. cbn. by intros []. Qed.

Lemma call_bound : (S k <= length es)%nat.
Proof. apply lookup_lt_Some in Hk. lia. Qed.

(** The call gets the lock, goes to wait for it, or gives up waiting. *)
Lemma call_step_ok g' k' ph' :
  (k' = S k /\ ph' = HBody \/ k' = k) ->
  queue_ok g' -> NoDup (map fst (g_waiters g')) -> g_users g' = g_users (guard_at gs r) ->
  (Nat.b2n (g_locked g') = Nat.b2n (g_locked (guard_at gs r)) + (k' - k))%nat ->
  (forall m, m ∈ map fst (g_waiters g') <-> if decide (m = n) then ph' = HWaiting
                                            else m ∈ map fst (g_waiters (guard_at gs r))) ->
  guards_ok (set_hold n (mkHold es k' ph') (set_guard r g' gs)).
Proof.
  intros Hk' Hq Hd Hu Hl Hw. destruct call_guard as (Hf & Hs & Hg). pose proof call_bound.
  assert (forall e, e <> (f, r) -> waits e (mkHold es k' ph') = false) as Hwo.
  { intros e He. destruct Hk' as [[-> ->]| ->]; by apply call_waits_other. }
  apply (guards_ok_update gs n (mkHold es k ph) _ f r (guard_at gs r)); try done.
  - apply call_inc.
  - cbn. destruct Hk' as [[-> _]| ->]; lia.
  - intros e. by right.
  - intros e He. split; [done|]. split.
    + destruct Hk' as [[-> _]| ->]; [by apply call_lock_other|done].
    + rewrite (Hwo e He). by destruct (call_waits_other k ph e He).
  - eapply guard_ok_update; [exact Hg|exact Hn|done|done|rewrite Hu; apply Hg|..].
    + rewrite !call_uses. lia.
    + rewrite (call_lock k) by lia. destruct Hk' as [[-> ->]| ->]; [rewrite call_locked|rewrite call_lock by lia]; cbn; lia.
    + intros m. rewrite Hw. case_decide; [|done]. destruct Hk' as [[-> ->]| ->].
      * by rewrite call_waits_body.
      * by rewrite call_waits, bool_decide_eq_true.
Qed.
End call_step.

Section call_steps.
Context (gs : Guards) (n : nat) (es : list (pystr * nat)) (k : nat) (f : pystr) (r : nat).
Context (Hok : guards_ok gs) (Hk : es !! k = Some (f, r)).

Lemma body_not_waiting : gs_holds gs !! n = Some (mkHold es k HBody) -> n ∉ map fst (g_waiters (guard_at gs r)).
Proof.
  intros Hn. destruct (call_guard gs n es k HBody f r Hok Hn Hk) as (_ & _ & Hg). rewrite (gk_waiters _ _ _ Hg).
  intros (h & Hh & Hw). by simplify_eq.
Qed.

Lemma take_ok : gs_holds gs !! n = Some (mkHold es k HBody) -> lock_free (guard_at gs r) = true ->
  guards_ok (set_hold n (mkHold es (S k) HBody) (set_guard r (lock_take (guard_at gs r)) gs)).
Proof.
  intros Hn Hf. destruct (call_guard gs n es k HBody f r Hok Hn Hk) as (_ & _ & Hg).
  pose proof (body_not_waiting Hn) as Hnw.
  eapply (call_step_ok gs n es k HBody f r Hok Hn Hk); [by left|apply queue_take; [done|apply Hg]|apply Hg|done|..].
  - unfold lock_free in Hf. apply andb_true_iff in Hf as [Hf%negb_true_iff _]. rewrite Hf. cbn [lock_take g_locked Nat.b2n]. lia.
  - intros m. cbn. case_decide as E; [|done]. subst m. naive_solver.
Qed.

Lemma wait_ok : gs_holds gs !! n = Some (mkHold es k HBody) -> lock_free (guard_at gs r) = false ->
  guards_ok (set_hold n (mkHold es k HWaiting) (set_guard r (lock_wait n (guard_at gs r)) gs)).
Proof.
  intros Hn Hf. destruct (call_guard gs n es k HBody f r Hok Hn Hk) as (_ & _ & Hg).
  pose proof (body_not_waiting Hn) as Hnw.
  eapply (call_step_ok gs n es k HBody f r Hok Hn Hk); [by right|apply queue_wait; [done|apply Hg]|..].
  - cbn. rewrite map_app. cbn. apply NoDup_app. split; [apply Hg|]. split; [|apply NoDup_singleton].
    intros m Hm ->%list_elem_of_singleton. done.
  - done.
  - cbn. lia.
  - intros m. cbn. rewrite map_app, elem_of_app. cbn. rewrite list_elem_of_singleton. case_decide; naive_solver.
Qed.

Lemma resume_ok : gs_holds gs !! n = Some (mkHold es k HWaiting) -> waiter n (guard_at gs r) = Some WWoken ->
  guards_ok (set_hold n (mkHold es (S k) HBody) (set_guard r (lock_resume n (guard_at gs r)) gs)).
Proof.
  intros Hn Hw. destruct (call_guard gs n es k HWaiting f r Hok Hn Hk) as (_ & _ & Hg).
  destruct (waiter_woken n (guard_at gs r)) as [Hl _]; [apply Hg|done|].
  eapply (call_step_ok gs n es k HWaiting f r Hok Hn Hk); [by left|apply queue_resume; [apply Hg|done]|..].
  - apply drop_waiter_nodup, Hg.
  - done.
  - rewrite Hl. cbn [lock_resume lock_take g_locked Nat.b2n]. lia.
  - intros m. change (g_waiters (lock_resume n (guard_at gs r))) with (g_waiters (drop_waiter n (guard_at gs r))).
    rewrite drop_waiter_names. case_decide; naive_solver.
Qed.

Lemma cancelled_ok st : gs_holds gs !! n = Some (mkHold es k HWaiting) -> waiter n (guard_at gs r) = Some st -> st <> WPending ->
  guards_ok (set_hold n (mkHold es k HBody) (set_guard r (lock_cancelled n (guard_at gs r)) gs)).
Proof.
  intros Hn Hw Hst. destruct (call_guard gs n es k HWaiting f r Hok Hn Hk) as (_ & _ & Hg).
  destruct (cancelled_names n (guard_at gs r)) as (En & El & Eu).
  eapply (call_step_ok gs n es k HWaiting f r Hok Hn Hk); [by right|eapply queue_cancelled; try apply Hg; done|..].
  - rewrite En. apply drop_waiter_nodup, Hg.
  - done.
  - rewrite El. lia.
  - intros m. rewrite En, drop_waiter_names. case_decide; naive_solver.
Qed.

Lemma cancel_ok : gs_holds gs !! n = Some (mkHold es k HWaiting) -> guards_ok (set_guard r (cancel_waiter n (guard_at gs r)) gs).
Proof.
  intros Hn. destruct (call_guard gs n es k HWaiting f r Hok Hn Hk) as (_ & _ & Hg).
  replace (set_guard r (cancel_waiter n (guard_at gs r)) gs)
    with (set_hold n (mkHold es k HWaiting) (set_guard r (cancel_waiter n (guard_at gs r)) gs)).
  2: { unfold set_hold, set_guard. cbn. by rewrite (insert_id (gs_holds gs) n). }
  eapply (call_step_ok gs n es k HWaiting f r Hok Hn Hk); [by right|by apply queue_cancel, Hg|..].
  - rewrite cancel_names. apply Hg.
  - done.
  - cbn. lia.
  - intros m. rewrite cancel_names. case_decide as E; [|done]. subst m. rewrite (gk_waiters _ _ _ Hg).
    split; [done|]. intros _. exists (mkHold es k HWaiting). split; [done|]. by apply bool_decide_eq_true.
Qed.
End call_steps.

(** The last lock taken is released first. *)
Lemma guard_release_ok gs n es k f r :
  guards_ok gs -> gs_holds gs !! n = Some (mkHold es (S k) HBody) -> es !! k = Some (f, r) ->
  exists g', lock_release (guard_at gs r) = Ok g' /\
    guards_ok (set_hold n (mkHold es k HBody) (set_guard r g' gs)).
Proof.
  intros Hok Hn Hk.
  assert (increasing (map fst es)) as Hinc by (by destruct (go_holds _ Hok _ _ Hn)).
  assert (gs_table gs !! f = Some r) as Hf.
  { eapply (go_entries _ Hok n); [exact Hn|]. by eapply list_elem_of_lookup_2. }
  destruct (go_table _ Hok f r Hf) as (_ & g & Hg & Hgk). unfold guard_at. rewrite Hg.
  assert (has_lock (f, r) (mkHold es (S k) HBody) = true) as Hh.
  { apply bool_decide_eq_true. cbn. rewrite (take_S_r _ _ _ Hk). set_solver. }
  assert (has_lock (f, r) (mkHold es k HBody) = false) as Hh'.
  { apply bool_decide_eq_false. cbn. apply not_in_take; [by apply entries_nodup|done]. }
  assert (g_locked g = true) as Hl.
  { pose proof (count_pos (has_lock (f, r)) _ _ _ Hn Hh) as Hc. rewrite (gk_locked _ _ _ Hgk) in Hc.
    destruct (g_locked g); cbn in Hc; [done|lia]. }
  destruct (queue_release g Hl (gk_queue _ _ _ Hgk)) as (g' & -> & Hq & Hl' & En & Eu). exists g'. split; [done|].
  apply (guards_ok_update gs n (mkHold es (S k) HBody) _ f r g); try done.
  - apply lookup_lt_Some in Hk. cbn. lia.
  - intros e. by right.
  - intros e He. split; [done|]. split; [|done]. apply bool_decide_ext. cbn. rewrite (take_S_r _ _ _ Hk). set_solver.
  - eapply guard_ok_update; [exact Hgk|exact Hn|done|rewrite En; apply Hgk|rewrite Eu; apply Hgk|..].
    + rewrite Eu. done.
    + rewrite Hh, Hh', Hl, Hl'. done.
    + intros m. rewrite En. case_decide as E; [|done]. subst m. rewrite (gk_waiters _ _ _ Hgk).
      unfold waits. rewrite bool_decide_eq_true. naive_solver.
Qed.

(** The first user of a filter brings the guard. *)
Lemma use_new_ok gs n es f :
  guards_ok gs -> gs_holds gs !! n = Some (mkHold es 0 HBody) -> increasing (map fst (es ++ [(f, gs_next gs)])) ->
  gs_table gs !! f = None ->
  guards_ok (mkGuards (<[f := gs_next gs]> (gs_table gs)) (<[gs_next gs := add_users 1 guard_new]> (gs_store gs))
    (S (gs_next gs)) (<[n := mkHold (es ++ [(f, gs_next gs)]) 0 HBody]> (gs_holds gs))).
Proof.
  set (r := gs_next gs). intros Hok Hn Hinc Hf.
  assert (forall m h, gs_holds gs !! m = Some h -> (f, r) ∉ h_entries h) as Hnew.
  { intros m h Hm Hin. pose proof (go_entries _ Hok _ _ _ _ Hm Hin). congruence. }
  assert (uses (f, r) (mkHold (es ++ [(f, r)]) 0 HBody) = true) as Hu by (apply bool_decide_eq_true; cbn; set_solver).
  split; cbn.
  - intros m h [[<- <-]|[_ Hm]]%lookup_insert_Some; [split; [done|cbn; lia]|by eapply go_holds].
  - intros m h f' r' [[<- <-]|[_ Hm]]%lookup_insert_Some Hin.
    + cbn in Hin. apply elem_of_app in Hin as [Hin|[= -> ->]%list_elem_of_singleton]; [|by rewrite lookup_insert_eq].
      pose proof (go_entries _ Hok _ _ _ _ Hn Hin). rewrite lookup_insert_ne; [done|congruence].
    + pose proof (go_entries _ Hok _ _ _ _ Hm Hin). rewrite lookup_insert_ne; [done|congruence].
  - intros f' r' [[<- <-]|[Hne Hf']]%lookup_insert_Some.
    + split; [lia|]. eexists. rewrite lookup_insert_eq. split; [done|]. split; cbn; try done; [constructor|..].
      * pose proof (count_update (uses (f, r)) (gs_holds gs) n _ (mkHold (es ++ [(f, r)]) 0 HBody) Hn) as E.
        rewrite Hu in E. unfold uses at 2 in E. rewrite bool_decide_eq_false_2 in E by (by eapply Hnew).
        rewrite (count_none (uses (f, r)) (gs_holds gs)) in E; [cbn in E; lia|].
        intros m h Hm. apply bool_decide_eq_false. exact (Hnew m h Hm).
      * apply count_none. intros m h [[<- <-]|[_ Hm]]%lookup_insert_Some; apply bool_decide_eq_false.
        -- cbn. by intros ?%elem_of_nil.
        -- intros Hin%subseteq_take. by apply (Hnew m h).
      * intros m. split; [by intros ?%elem_of_nil|]. intros (h & [[<- <-]|[_ Hm]]%lookup_insert_Some & Hw); apply bool_decide_eq_true in Hw as [? Hw]; [done|].
        apply list_elem_of_lookup_2 in Hw. by destruct (Hnew m h).
    + destruct (go_table _ Hok f' r' Hf') as (Hlt & g & Hg & Hgk). split; [lia|]. exists g.
      rewrite lookup_insert_ne by lia. split; [done|].
      apply (guard_ok_frame _ _ _ n (mkHold es 0 HBody)); try done.
      * apply bool_decide_ext. cbn. rewrite elem_of_app, list_elem_of_singleton. naive_solver.
  - intros f1 f2 r' [[<- <-]|[Hne Hf1]]%lookup_insert_Some [[<- E]|[Hne' Hf2]]%lookup_insert_Some; try done.
    + destruct (go_table _ Hok _ _ Hf2). lia.
    + subst r'. destruct (go_table _ Hok _ _ Hf1). lia.
    + by eapply go_inj.
Qed.

(** A call that has not taken a lock yet: the guards it registers with. *)
Lemma use_ok gs n es f r gs' :
  guards_ok gs -> gs_holds gs !! n = Some (mkHold es 0 HBody) -> increasing (map fst (es ++ [(f, r)])) ->
  use_guard f gs = (r, gs') -> guards_ok (set_hold n (mkHold (es ++ [(f, r)]) 0 HBody) gs').
Proof.
  intros Hok Hn Hinc Hu. unfold use_guard in Hu.
  assert ((f, r) ∉ es) as Hnew.
  { apply entries_nodup in Hinc. intros Hin. apply NoDup_app in Hinc as (_ & Hd & _). apply (Hd _ Hin). set_solver. }
  assert (forall e, uses e (mkHold (es ++ [(f, r)]) 0 HBody) = bool_decide (e = (f, r)) || uses e (mkHold es 0 HBody)) as Hus.
  { intros e. unfold uses. cbn. apply Bool.eq_iff_eq_true. rewrite orb_true_iff, !bool_decide_eq_true. set_solver. }
  destruct (gs_table gs !! f) as [r'|] eqn:Ef; injection Hu as <- <-.
  - destruct (go_table _ Hok f r' Ef) as (_ & g & Hg & Hgk). unfold guard_at. rewrite Hg.
    apply (guards_ok_update gs n (mkHold es 0 HBody) _ f r' g); try done.
    + cbn. lia.
    + intros e. cbn. set_solver.
    + intros e He. rewrite Hus, bool_decide_eq_false_2 by done. done.
    + eapply guard_ok_update; [exact Hgk|exact Hn|apply Hgk|apply Hgk|..].
      * cbn. pose proof (gk_used _ _ _ Hgk). lia.
      * rewrite Hus, bool_decide_eq_true_2 by done. unfold uses at 1. rewrite bool_decide_eq_false_2 by done. cbn. lia.
      * done.
      * intros m. cbn. case_decide as E; [|done]. subst m. rewrite (gk_waiters _ _ _ Hgk).
        unfold waits. rewrite bool_decide_eq_true. naive_solver.
  - by apply (use_new_ok gs n es f).
Qed.

(** A call that has released its locks gives up its guards one by one. *)
Lemma leave_ok gs n es e :
  guards_ok gs -> gs_holds gs !! n = Some (mkHold (e :: es) 0 HBody) ->
  guards_ok (set_hold n (mkHold es 0 HBody) (leave_guard e gs)).
Proof.
  destruct e as [f r]. intros Hok Hn. unfold leave_guard. cbn [fst snd].
  destruct (go_holds _ Hok _ _ Hn) as [Hinc _]. cbn [h_entries] in Hinc.
  assert ((f, r) ∉ es) as Hnew by (apply entries_nodup in Hinc; by apply NoDup_cons in Hinc as [? _]).
  assert (increasing (map fst es)) as Hinc' by (by inversion Hinc).
  assert (gs_table gs !! f = Some r) as Hf by (eapply (go_entries _ Hok n); [exact Hn|cbn; set_solver]).
  destruct (go_table _ Hok f r Hf) as (_ & g & Hg & Hgk). unfold guard_at. rewrite Hg.
  assert (forall e', e' <> (f, r) -> uses e' (mkHold es 0 HBody) = uses e' (mkHold ((f, r) :: es) 0 HBody)) as Hus.
  { intros e' He'. apply bool_decide_ext. cbn. set_solver. }
  assert (uses (f, r) (mkHold es 0 HBody) = false) as Hu by (by apply bool_decide_eq_false).
  assert (uses (f, r) (mkHold ((f, r) :: es) 0 HBody) = true) as Hu' by (apply bool_decide_eq_true; cbn; set_solver).
  destruct (g_users (add_users (-1) g) =? 0) eqn:E; zbool; cbn in E.
  2: { apply (guards_ok_update gs n (mkHold ((f, r) :: es) 0 HBody) _ f r g); try done.
    - cbn. lia.
    - intros e. cbn. set_solver.
    - intros e' He'. rewrite Hus by done. done.
    - eapply guard_ok_update; [exact Hgk|exact Hn|apply Hgk|apply Hgk|..].
      + cbn. pose proof (gk_used _ _ _ Hgk). lia.
      + rewrite Hu, Hu'. cbn. lia.
      + done.
      + intros m. cbn. case_decide as Em; [|done]. subst m. rewrite (gk_waiters _ _ _ Hgk).
        unfold waits. rewrite bool_decide_eq_true. naive_solver. }
  assert (forall m h, <[n := mkHold es 0 HBody]> (gs_holds gs) !! m = Some h -> (f, r) ∉ h_entries h) as Hno.
  { intros m h Hm Hin. pose proof (count_update (uses (f, r)) _ n _ (mkHold es 0 HBody) Hn) as Ec. rewrite Hu, Hu' in Ec.
    pose proof (gk_users _ _ _ Hgk).
    assert (0 < count (uses (f, r)) (<[n := mkHold es 0 HBody]> (gs_holds gs)))%nat by (apply (count_pos _ _ m h); [done|by apply bool_decide_eq_true]).
    cbn in Ec. lia. }
  split; cbn.
  - intros m h [[<- <-]|[_ Hm]]%lookup_insert_Some; [split; [done|cbn; lia]|by eapply go_holds].
  - intros m h f' r' Hm Hin. rewrite lookup_delete_ne.
    + apply lookup_insert_Some in Hm as [[<- <-]|[_ Hm]]; [|by eapply go_entries].
      eapply (go_entries _ Hok n); [exact Hn|]. cbn in *. set_solver.
    + intros <-. apply (Hno m h Hm). assert (gs_table gs !! f = Some r') as Hf'; [|congruence].
      apply lookup_insert_Some in Hm as [[<- <-]|[_ Hm]]; [|by eapply go_entries].
      eapply (go_entries _ Hok n); [exact Hn|]. cbn in *. set_solver.
  - intros f' r' [Hne Hf']%lookup_delete_Some. destruct (go_table _ Hok f' r' Hf') as (Hlt & k & Hk & Hkk).
    split; [done|]. exists k. rewrite lookup_insert_ne; [|intros <-; apply Hne; by eapply go_inj].
    split; [done|]. apply (guard_ok_frame _ _ _ n (mkHold ((f, r) :: es) 0 HBody)); try done. apply Hus. congruence.
  - intros f1 f2 r' [_ H1]%lookup_delete_Some [_ H2]%lookup_delete_Some. by eapply go_inj.
Qed.

(** A call that uses no guard may come and go. *)
Lemma guard_ok_idle e g holds n :
  (holds !! n = None -> guard_ok e g holds -> guard_ok e g (<[n := mkHold [] 0 HBody]> holds)) /\
  (holds !! n = Some (mkHold [] 0 HBody) -> guard_ok e g holds -> guard_ok e g (delete n holds)).
Proof.
  assert (uses e (mkHold [] 0 HBody) = false) as Eu by (apply bool_decide_eq_false; by intros ?%elem_of_nil).
  assert (has_lock e (mkHold [] 0 HBody) = false) as El by (apply bool_decide_eq_false; by intros ?%elem_of_nil).
  split; intros Hn [H1 H2 H3 H4 H5 H6]; split; try done.
  - rewrite count_insert, Eu by done. cbn. lia.
  - rewrite count_insert, El by done. cbn. lia.
  - intros m. rewrite H6. split; intros (h & Hh & Hw); exists h; (split; [|done]).
    + rewrite lookup_insert_ne; [done|congruence].
    + apply lookup_insert_Some in Hh as [[<- <-]|[_ Hh]]; [done|done].
  - pose proof (count_delete (uses e) holds n _ Hn) as E. rewrite Eu in E. cbn in E. lia.
  - pose proof (count_delete (has_lock e) holds n _ Hn) as E. rewrite El in E. cbn in E. lia.
  - intros m. rewrite H6. split; intros (h & Hh & Hw); exists h; (split; [|done]).
    + rewrite lookup_delete_ne; [done|]. intros <-. simplify_eq.
    + by apply lookup_delete_Some in Hh as [_ ?].
Qed.

Lemma begin_ok gs n : guards_ok gs -> gs_holds gs !! n = None -> guards_ok (set_hold n (mkHold [] 0 HBody) gs).
Proof.
  intros [H1 H2 H3 H4] Hn. split; cbn.
  - intros m h [[<- <-]|[_ Hm]]%lookup_insert_Some; [split; [constructor|done]|by eapply H1].
  - intros m h f r [[<- <-]|[_ Hm]]%lookup_insert_Some; [by intros ?%elem_of_nil|by eapply H2].
  - intros f r Hf. destruct (H3 f r Hf) as (Hlt & g & Hg & Hgk). split; [done|]. exists g. split; [done|].
    by apply guard_ok_idle.
  - done.
Qed.

Lemma end_ok gs n : guards_ok gs -> gs_holds gs !! n = Some (mkHold [] 0 HBody) -> guards_ok (end_hold n gs).
Proof.
  intros [H1 H2 H3 H4] Hn. split; cbn.
  - intros m h [_ Hm]%lookup_delete_Some. by eapply H1.
  - intros m h f r [_ Hm]%lookup_delete_Some. by eapply H2.
  - intros f r Hf. destruct (H3 f r Hf) as (Hlt & g & Hg & Hgk). split; [done|]. exists g. split; [done|].
    by apply guard_ok_idle.
  - done.
Qed.

(** ** The loops *)

Lemma set_hold_twice n h h' gs : set_hold n h' (set_hold n h gs) = set_hold n h' gs.
Proof. unfold set_hold. cbn. by rewrite insert_insert_eq. Qed.

Lemma set_hold_id n h gs : gs_holds gs !! n = Some h -> set_hold n h gs = gs.
Proof. intros Hn. unfold set_hold. rewrite insert_id by done. by destruct gs. Qed.

Lemma acquire_locks_hold n es todo k h gs : acquire_locks n es todo k (set_hold n h gs) = acquire_locks n es todo k gs.
Proof.
  revert k gs; induction todo as [|[f r] todo IH]; intros k gs; cbn; [apply set_hold_twice|].
  change (guard_at (set_hold n h gs) r) with (guard_at gs r). destruct (lock_free _).
  - apply (IH (S k) (set_guard r (lock_take (guard_at gs r)) gs)).
  - apply (set_hold_twice n h _ (set_guard r (lock_wait n (guard_at gs r)) gs)).
Qed.

(** Where a call of [hold] can be between two steps. *)
Definition parked (h : Hold) : Prop :=
  match h_phase h with
  | HBody => h_acquired h = length (h_entries h)
  | HWaiting => (h_acquired h < length (h_entries h))%nat
  end.

Lemma acquire_locks_ok n es todo k gs :
  guards_ok gs -> gs_holds gs !! n = Some (mkHold es k HBody) -> todo = drop k es ->
  guards_ok (acquire_locks n es todo k gs) /\
  exists h, gs_holds (acquire_locks n es todo k gs) = <[n := h]> (gs_holds gs) /\ parked h /\
    h_entries h = es /\ (k <= h_acquired h)%nat.
Proof.
  revert k gs; induction todo as [|[f r] todo IH]; intros k gs Hok Hn Hd; cbn [acquire_locks].
  - destruct (go_holds _ Hok _ _ Hn) as [_ Hle]. cbn in Hle.
    assert (k = length es) as -> by (apply (f_equal length) in Hd; rewrite length_drop in Hd; cbn in Hd; lia).
    rewrite set_hold_id by done. split; [done|]. exists (mkHold es (length es) HBody). rewrite insert_id by done. done.
  - assert (es !! k = Some (f, r)) as Hk by (rewrite <-(Nat.add_0_r k), <-lookup_drop, <-Hd; done).
    destruct (lock_free (guard_at gs r)) eqn:Ef.
    + rewrite <-(acquire_locks_hold n es todo (S k) (mkHold es (S k) HBody)).
      destruct (IH (S k) (set_hold n (mkHold es (S k) HBody) (set_guard r (lock_take (guard_at gs r)) gs))) as (Hg & h & Hh & Hp & He & Hle).
      * by apply (take_ok _ _ _ _ f).
      * cbn. by rewrite lookup_insert_eq.
      * replace (S k) with (k + 1)%nat by lia. by rewrite <-drop_drop, <-Hd.
      * split; [done|]. exists h. rewrite Hh. cbn. rewrite insert_insert_eq. split_and!; try done. lia.
    + split; [by apply (wait_ok _ _ _ _ f)|]. exists (mkHold es k HWaiting). split_and!; try done.
      apply lookup_lt_Some in Hk. unfold parked. cbn. lia.
Qed.

Lemma release_locks_hold n h held gs : release_locks held (set_hold n h gs) = set_hold n h <$> release_locks held gs.
Proof.
  revert gs; induction held as [|[f r] held IH]; intros gs; cbn; [done|].
  change (guard_at (set_hold n h gs) r) with (guard_at gs r). destruct (lock_release _) as [g|]; cbn; [|done].
  apply (IH (set_guard r g gs)).
Qed.

Lemma release_locks_holds held gs gs' : release_locks held gs = Ok gs' -> gs_holds gs' = gs_holds gs.
Proof.
  revert gs; induction held as [|[f r] held IH]; intros gs; cbn; [by intros [= ->]|].
  destruct (lock_release _) as [g|]; cbn; [|done]. intros H%IH. done.
Qed.

Lemma release_locks_ok n es k gs :
  guards_ok gs -> gs_holds gs !! n = Some (mkHold es k HBody) ->
  exists gs', release_locks (rev (take k es)) gs = Ok gs' /\ guards_ok (set_hold n (mkHold es 0 HBody) gs').
Proof.
  revert gs; induction k as [|k IH]; intros gs Hok Hn.
  - exists gs. split; [done|]. by rewrite set_hold_id.
  - destruct (go_holds _ Hok _ _ Hn) as [_ Hle]. cbn in Hle.
    destruct (lookup_lt_is_Some_2 es k Hle) as [[f r] Hk]. rewrite (take_S_r _ _ _ Hk), rev_app_distr. cbn.
    destruct (guard_release_ok gs n es k f r Hok Hn Hk) as (g' & -> & Hok'). cbn.
    destruct (IH _ Hok') as (gs' & Hr & Hgs'); [cbn; by rewrite lookup_insert_eq|].
    rewrite release_locks_hold in Hr. destruct (release_locks _ _) as [gs''|] eqn:E in Hr; [|done]. injection Hr as <-.
    rewrite set_hold_twice in Hgs'. exists gs''. done.
Qed.

Lemma leave_guard_hold n h e gs : leave_guard e (set_hold n h gs) = set_hold n h (leave_guard e gs).
Proof.
  unfold leave_guard. change (guard_at (set_hold n h gs) e.2) with (guard_at gs e.2). by destruct (_ =? 0).
Qed.

Lemma leave_guards_ok n es gs :
  guards_ok (set_hold n (mkHold es 0 HBody) gs) ->
  guards_ok (set_hold n (mkHold [] 0 HBody) (foldl (fun gs e => leave_guard e gs) gs es)).
Proof.
  revert gs; induction es as [|e es IH]; intros gs Hok; cbn; [done|]. apply IH.
  rewrite <-(set_hold_twice n (mkHold (e :: es) 0 HBody)), <-leave_guard_hold.
  apply leave_ok; [done|]. cbn. by rewrite lookup_insert_eq.
Qed.

Lemma leave_guards_holds es gs : gs_holds (foldl (fun gs e => leave_guard e gs) gs es) = gs_holds gs.
Proof.
  revert gs; induction es as [|e es IH]; intros gs; cbn; [done|]. rewrite IH. unfold leave_guard. by destruct (_ =? 0).
Qed.

(** A call leaves from whatever point it has reached, and its locks are all its own. *)
Lemma hold_finally_ok n h gs :
  guards_ok gs -> gs_holds gs !! n = Some h -> h_phase h = HBody ->
  exists gs', hold_finally n h gs = Ok gs' /\ guards_ok gs' /\ gs_holds gs' = delete n (gs_holds gs).
Proof.
  destruct h as [es k ph]. cbn. intros Hok Hn ->. unfold hold_finally. cbn.
  destruct (release_locks_ok n es k gs Hok Hn) as (gs' & Hr & Hgs'). rewrite Hr. cbn. eexists. split; [done|].
  apply leave_guards_ok in Hgs'. apply (end_ok _ n) in Hgs'; [|cbn; by rewrite lookup_insert_eq].
  unfold end_hold, set_hold in Hgs'. cbn in Hgs'. rewrite delete_insert_eq in Hgs'. split; [done|].
  cbn. by rewrite leave_guards_holds, (release_locks_holds _ _ _ Hr).
Qed.

Lemma use_guard_hold f n h gs : use_guard f (set_hold n h gs) = ((use_guard f gs).1, set_hold n h (use_guard f gs).2).
Proof. unfold use_guard. cbn. by destruct (gs_table gs !! f). Qed.

Lemma use_guards_ok n fs es gs es' gs' :
  guards_ok (set_hold n (mkHold es 0 HBody) gs) -> increasing (map fst es ++ fs) -> use_guards fs es gs = (es', gs') ->
  guards_ok (set_hold n (mkHold es' 0 HBody) gs') /\ map fst es' = map fst es ++ fs /\ gs_holds gs' = gs_holds gs.
Proof.
  revert es gs; induction fs as [|f fs IH]; intros es gs Hok Hinc Hu; cbn in Hu.
  - injection Hu as <- <-. by rewrite app_nil_r.
  - destruct (use_guard f gs) as [r gs1] eqn:E1. pose proof (use_guard_hold f n (mkHold es 0 HBody) gs) as E2.
    rewrite E1 in E2. cbn in E2.
    assert (map fst (es ++ [(f, r)]) = map fst es ++ [f]) as Em by (by rewrite map_app).
    apply (use_ok _ n es f r _ Hok) in E2; [|cbn; by rewrite lookup_insert_eq|].
    + rewrite set_hold_twice in E2. destruct (IH _ _ E2) as (H1 & H2 & H3); [by rewrite Em, <-app_assoc|done|].
      split; [done|]. split; [by rewrite H2, Em, <-app_assoc|]. rewrite H3.
      unfold use_guard in E1. by destruct (gs_table gs !! f); injection E1 as <- <-.
    + rewrite Em. clear -Hinc. revert Hinc. induction (map fst es) as [|x l IHl]; cbn.
      * intros H. inversion H. constructor; [by intros ? ?%elem_of_nil|constructor].
      * intros H. inversion H as [|? ? Hx Hl]. constructor; [|auto]. intros y Hy. apply Hx. set_solver.
Qed.

(** ** Every step keeps the invariant *)

Definition guards_inv (gs : Guards) : Prop :=
  guards_ok gs /\ forall n h, gs_holds gs !! n = Some h -> parked h.

Lemma guards_new_inv : guards_inv guards_new.
Proof. split; [apply guards_new_ok|]. intros n h. cbn. by rewrite lookup_empty. Qed.

(** A call that runs on with its locks, from a state of its own. *)
Lemma run_on n es k gs :
  (forall m h, gs_holds gs !! m = Some h -> m <> n -> parked h) ->
  guards_ok (set_hold n (mkHold es k HBody) gs) ->
  guards_inv (acquire_locks n es (drop k es) k gs) /\
  exists h, gs_holds (acquire_locks n es (drop k es) k gs) = <[n := h]> (gs_holds gs) /\ parked h /\
    h_entries h = es /\ (k <= h_acquired h)%nat.
Proof.
  intros Hp Hok. rewrite <-(acquire_locks_hold n es _ k (mkHold es k HBody)).
  destruct (acquire_locks_ok n es (drop k es) k _ Hok) as (Hg & h & Hh & Hk & He & Hle); [cbn; by rewrite lookup_insert_eq|done|].
  cbn in Hh. rewrite insert_insert_eq in Hh. split; [|by exists h]. split; [done|]. rewrite Hh.
  intros m h' [[<- <-]|[Hne Hm]]%lookup_insert_Some; [done|]. eapply Hp; [exact Hm|congruence].
Qed.

(** What a waiting call waits for. *)
Lemma hold_waiter_inv n gs h r st :
  hold_waiter n gs = Some (h, r, st) -> gs_holds gs !! n = Some h /\ h_phase h = HWaiting /\
  waiter n (guard_at gs r) = Some st /\ exists f, h_entries h !! h_acquired h = Some (f, r).
Proof.
  unfold hold_waiter. destruct (gs_holds gs !! n) as [h'|]; [|done]. destruct (h_phase h') eqn:Ep; [|done].
  destruct (h_entries h' !! h_acquired h') as [[f r']|] eqn:Ek; [|done].
  destruct (waiter n (guard_at gs r')) as [st'|] eqn:Ew; cbn; [|done]. intros [= <- <- <-]. split_and!; try done. by exists f.
Qed.

Lemma parked_delete n gs gs' :
  guards_inv gs -> guards_ok gs' -> gs_holds gs' = delete n (gs_holds gs) -> guards_inv gs'.
Proof. intros [_ Hp] Hok Hh. split; [done|]. rewrite Hh. intros m h [_ Hm]%lookup_delete_Some. by eapply Hp. Qed.

Lemma hold_finally_set n es k g r gs :
  hold_finally n (mkHold es k HWaiting) (set_guard r g gs) =
  hold_finally n (mkHold es k HBody) (set_hold n (mkHold es k HBody) (set_guard r g gs)).
Proof.
  unfold hold_finally. cbn [h_acquired h_entries]. rewrite release_locks_hold.
  destruct (release_locks _ _) as [gs'|]; cbn; [|done]. f_equal.
  generalize (mkHold es k HBody) as h. intros h. revert gs'. induction es as [|e es IH]; intros gs'; cbn.
  - unfold end_hold, set_hold. cbn. by rewrite delete_insert_eq.
  - rewrite leave_guard_hold. apply IH.
Qed.

Lemma resume_inv gs n thrown h r st :
  guards_inv gs -> hold_waiter n gs = Some (h, r, st) -> st <> WPending ->
  exists gs', guard_step gs (GResume n thrown) = Ok gs' /\ guards_inv gs' /\
    (gs_holds gs' = delete n (gs_holds gs) \/
     exists h', gs_holds gs' = <[n := h']> (gs_holds gs) /\ h_entries h' = h_entries h /\ parked h' /\ (h_acquired h < h_acquired h')%nat).
Proof.
  intros [Hok Hp] Hw Hst. destruct (hold_waiter_inv _ _ _ _ _ Hw) as (Hn & Hph & Hwt & f & Hk).
  destruct h as [es k ph]. cbn in Hph, Hk. subst ph. cbn [guard_step]. rewrite Hw.
  assert (exists gs', hold_finally n (mkHold es k HWaiting) (set_guard r (lock_cancelled n (guard_at gs r)) gs) = Ok gs' /\
    guards_inv gs' /\ gs_holds gs' = delete n (gs_holds gs)) as (gs' & Hc & Hi & Hh).
  { rewrite hold_finally_set. destruct (hold_finally_ok n (mkHold es k HBody) _ (cancelled_ok gs n es k f r Hok Hk st Hn Hwt Hst)) as (gs' & Hc & Hg & Hh).
    - cbn. by rewrite lookup_insert_eq.
    - done.
    - cbn in Hh. rewrite delete_insert_eq in Hh. exists gs'. split; [done|]. split; [eapply (parked_delete n gs); [by split|done|done]|done]. }
  destruct (thrown || bool_decide (st = WCancelled)) eqn:Et.
  - exists gs'. destruct st; [done|..]; (split; [exact Hc|]; split; [done|by left]).
  - apply orb_false_iff in Et as [_ Et]. apply bool_decide_eq_false in Et. destruct st; [done| |done].
    cbn [h_entries h_acquired]. destruct (run_on n es (S k) (set_guard r (lock_resume n (guard_at gs r)) gs)) as (Hi' & h & Hh' & Hp' & He & Hle).
    + intros m h Hm _. by eapply Hp.
    + by apply (resume_ok gs n es k f r).
    + eexists. split; [reflexivity|]. split; [done|]. right. exists h. split_and!; try done.
Qed.

Lemma leave_inv gs n h :
  guards_inv gs -> gs_holds gs !! n = Some h -> h_phase h = HBody ->
  exists gs', guard_step gs (GLeave n) = Ok gs' /\ guards_inv gs' /\ gs_holds gs' = delete n (gs_holds gs).
Proof.
  intros Hi Hn Hb. cbn. rewrite Hn, decide_True by done.
  destruct (hold_finally_ok n h gs (proj1 Hi) Hn Hb) as (gs' & Hf & Hok & Hh). exists gs'. split; [done|].
  split; [by eapply parked_delete|done].
Qed.

Lemma enter_inv gs n fs :
  guards_inv gs -> gs_holds gs !! n = None ->
  guards_inv (hold_enter n fs gs) /\
  exists h, gs_holds (hold_enter n fs gs) = <[n := h]> (gs_holds gs) /\ map fst (h_entries h) = sorted_set fs.
Proof.
  intros [Hok Hp] Hn. unfold hold_enter. destruct (use_guards (sorted_set fs) [] gs) as [es gs'] eqn:E.
  destruct (use_guards_ok n _ _ _ _ _ (begin_ok gs n Hok Hn) (increasing_sorted_set fs) E) as (Hok' & He & Hh).
  change (acquire_locks n es es 0 gs') with (acquire_locks n es (drop 0 es) 0 gs'). destruct (run_on n es 0 gs') as [Hi (h & Hh' & _ & Hes & _)]; [|done|].
  { rewrite Hh. intros m h Hm _. by eapply Hp. }
  split; [done|]. exists h. by rewrite Hh', Hh, Hes.
Qed.

Lemma guard_step_inv gs ev : guards_inv gs -> exists gs', guard_step gs ev = Ok gs' /\ guards_inv gs'.
Proof.
  intros Hi. destruct ev as [n fs|n|n thrown|n].
  - cbn. destruct (gs_holds gs !! n) eqn:Hn; eexists; (split; [reflexivity|]); [done|by apply (enter_inv gs n fs)].
  - cbn. destruct (hold_waiter n gs) as [[[h r] st]|] eqn:Hw; eexists; (split; [reflexivity|]); [|done].
    destruct Hi as [Hok Hp]. destruct (hold_waiter_inv _ _ _ _ _ Hw) as (Hn & Hph & _ & f & Hk).
    destruct h as [es k ph]. cbn in Hph, Hk. subst ph. split; [by apply (cancel_ok gs n es k f r)|]. apply Hp.
  - destruct (hold_waiter n gs) as [[[h r] st]|] eqn:Hw.
    + destruct (decide (st = WPending)) as [->|Hst].
      * exists gs. cbn. by rewrite Hw.
      * destruct (resume_inv gs n thrown h r st Hi Hw Hst) as (gs' & H1 & H2 & _). by exists gs'.
    + exists gs. cbn. by rewrite Hw.
  - cbn. destruct (gs_holds gs !! n) as [h|] eqn:Hn; [|by exists gs]. case_decide as Hb; [|by exists gs].
    destruct (leave_inv gs n h Hi Hn Hb) as (gs' & Hs & Hi' & _). cbn in Hs. rewrite Hn, decide_True in Hs by done. by exists gs'.
Qed.

Lemma guard_steps_inv evs gs : guards_inv gs -> exists gs', guard_steps gs evs = Ok gs' /\ guards_inv gs'.
Proof.
  revert gs; induction evs as [|ev evs IH]; intros gs Hi; cbn; [by exists gs|].
  destruct (guard_step_inv gs ev Hi) as (gs' & -> & Hi'). cbn. by apply IH.
Qed.

(** ** Exclusion *)

Lemma entry_held h f r : h_phase h = HBody -> parked h -> (f, r) ∈ h_entries h -> has_lock (f, r) h = true.
Proof.
  intros Hb Hp Hin. unfold parked in Hp. rewrite Hb in Hp. apply bool_decide_eq_true. by rewrite Hp, firstn_all.
Qed.

Lemma elem_of_fst (f : pystr) (es : list (pystr * nat)) : f ∈ map fst es <-> exists r, (f, r) ∈ es.
Proof.
  rewrite list_elem_of_fmap. split; [intros ([f' r] & -> & H); by exists r|intros [r H]; by exists (f, r)].
Qed.

(** Two bodies exclude each other. *)
Lemma bodies_exclude gs n m h k f :
  guards_inv gs -> gs_holds gs !! n = Some h -> gs_holds gs !! m = Some k -> h_phase h = HBody -> h_phase k = HBody ->
  f ∈ map fst (h_entries h) -> f ∈ map fst (h_entries k) -> n = m.
Proof.
  intros [Hok Hp] Hn Hm Hb Hb' [r Hr]%elem_of_fst [r' Hr']%elem_of_fst.
  pose proof (go_entries _ Hok _ _ _ _ Hn Hr) as Hf. pose proof (go_entries _ Hok _ _ _ _ Hm Hr') as Hf'.
  simplify_eq. destruct (go_table _ Hok f r Hf) as (_ & g & _ & Hg).
  apply (count_one (has_lock (f, r)) (gs_holds gs) n m h k); try done.
  - rewrite (gk_locked _ _ _ Hg). by destruct (g_locked g); cbn; lia.
  - apply entry_held; [done|by eapply Hp|done].
  - apply entry_held; [done|by eapply Hp|done].
Qed.

(** Whatever calls enter [hold], are cancelled, wake up and leave, in any order, releasing a
    lock never fails; two calls that run their bodies at the same time share no filter; and the
    table has a guard for exactly the filters some call is using, so that none is left when
    all calls are gone. *)
Theorem guards_exclusive evs :
  exists gs, guard_steps guards_new evs = Ok gs /\
    (forall n m h k f, gs_holds gs !! n = Some h -> gs_holds gs !! m = Some k ->
       h_phase h = HBody -> h_phase k = HBody -> f ∈ map fst (h_entries h) -> f ∈ map fst (h_entries k) -> n = m) /\
    (forall f, is_Some (gs_table gs !! f) <-> exists n h, gs_holds gs !! n = Some h /\ f ∈ map fst (h_entries h)).
Proof.
  destruct (guard_steps_inv evs guards_new guards_new_inv) as (gs & He & Hi). exists gs. split; [done|].
  split; [intros n m h k f; by apply bodies_exclude|]. destruct Hi as [Hok Hp]. intros f. split.
  - intros [r Hf]. destruct (go_table _ Hok f r Hf) as (_ & g & _ & Hg).
    pose proof (gk_used _ _ _ Hg) as Hu. rewrite (gk_users _ _ _ Hg) in Hu.
    destruct (count_some (uses (f, r)) (gs_holds gs)) as (n & h & Hn & Hh); [lia|].
    apply bool_decide_eq_true in Hh. exists n, h. split; [done|]. apply elem_of_fst. by exists r.
  - intros (n & h & Hn & [r Hr]%elem_of_fst). exists r. by eapply go_entries.
Qed.

(** ** Progress *)

(** A call that can run: its body can end, or the future it waits for is done. *)
Definition runnable (gs : Guards) (n : nat) : bool :=
  match gs_holds gs !! n with
  | Some h => bool_decide (h_phase h = HBody) ||
              match hold_waiter n gs with Some (_, _, st) => negb (bool_decide (st = WPending)) | None => false end
  | None => false
  end.

Definition run_call (n : nat) (thrown : bool) (gs : Guards) : res Guards :=
  match gs_holds gs !! n with
  | Some h => guard_step gs (if decide (h_phase h = HBody) then GLeave n else GResume n thrown)
  | None => Ok gs
  end.

(** A bound on the steps the calls can still make. *)
Definition remaining (gs : Guards) : nat :=
  map_fold (fun _ h a => (S (length (h_entries h) - h_acquired h) + a)%nat) 0%nat (gs_holds gs).

(** Let some call that can run do so, as long as there is one. *)
Fixpoint drain_holds (fuel : nat) (gs : Guards) : res Guards :=
  match fuel with
  | O => Ok gs
  | S fuel' =>
    match List.find (runnable gs) (map fst (map_to_list (gs_holds gs))) with
    | Some n => gs' ← run_call n false gs; drain_holds fuel' gs'
    | None => Ok gs
    end
  end.

Lemma remaining_delete n h gs gs' :
  gs_holds gs !! n = Some h -> gs_holds gs' = delete n (gs_holds gs) ->
  remaining gs = (S (length (h_entries h) - h_acquired h) + remaining gs')%nat.
Proof.
  intros Hn Hh. unfold remaining. rewrite Hh.
  apply (map_fold_delete_L (fun _ h a => (S (length (h_entries h) - h_acquired h) + a)%nat)); [intros; lia|done].
Qed.

Lemma remaining_update n h h' gs gs' :
  gs_holds gs !! n = Some h -> gs_holds gs' = <[n := h']> (gs_holds gs) ->
  (remaining gs' + S (length (h_entries h) - h_acquired h) = remaining gs + S (length (h_entries h') - h_acquired h'))%nat.
Proof.
  intros Hn Hh. rewrite (remaining_delete n h gs (end_hold n gs) Hn eq_refl).
  rewrite (remaining_delete n h' gs' (end_hold n gs)); [lia|by rewrite Hh, lookup_insert_eq|].
  rewrite Hh, delete_insert_eq. done.
Qed.

(** A call that can run makes progress. *)
Lemma run_call_progress gs n thrown :
  guards_inv gs -> runnable gs n = true ->
  exists gs', run_call n thrown gs = Ok gs' /\ guards_inv gs' /\ (remaining gs' < remaining gs)%nat.
Proof.
  intros Hi Hr. unfold runnable, run_call in *. destruct (gs_holds gs !! n) as [h|] eqn:Hn; [|done].
  case_decide as Hb.
  - destruct (leave_inv gs n h Hi Hn Hb) as (gs' & Hs & Hi' & Hh). exists gs'. split_and!; try done.
    rewrite (remaining_delete n h gs gs' Hn Hh). lia.
  - rewrite bool_decide_eq_false_2 in Hr by done. cbn in Hr.
    destruct (hold_waiter n gs) as [[[h' r] st]|] eqn:Hw; [|done]. apply negb_true_iff, bool_decide_eq_false in Hr.
    destruct (hold_waiter_inv _ _ _ _ _ Hw) as (Hn' & _). simplify_eq.
    destruct (resume_inv gs n thrown h r st Hi Hw Hr) as (gs' & Hs & Hi' & Hh). exists gs'. split_and!; try done.
    destruct Hh as [Hh|(h' & Hh & He & Hp & Hlt)]; [rewrite (remaining_delete n h gs gs' Hn Hh); lia|].
    pose proof (remaining_update n h h' gs gs' Hn Hh) as E. rewrite He in E.
    assert (h_acquired h' <= length (h_entries h))%nat.
    { rewrite <-He. unfold parked in Hp. destruct (h_phase h'); lia. }
    lia.
Qed.

(** The filter a call waits for. *)
Definition awaited (gs : Guards) (n : nat) : pystr :=
  match gs_holds gs !! n with
  | Some h => match h_entries h !! h_acquired h with Some (f, _) => f | None => [] end
  | None => []
  end.

Lemma waiter_some n g : n ∈ map fst (g_waiters g) -> exists st, waiter n g = Some st.
Proof.
  unfold waiter. induction (g_waiters g) as [|[k st] l IH]; cbn; [by intros ?%elem_of_nil|].
  intros [->|Hin]%elem_of_cons; [rewrite Nat.eqb_refl; by exists st|].
  destruct (k =? n)%nat; [by exists st|auto].
Qed.

(** If nobody can run, the call that waits for the greatest filter waits for a lock whose owner
    waits for a greater one. *)
Lemma some_runnable gs : guards_inv gs -> gs_holds gs <> ∅ -> exists n, runnable gs n = true.
Proof.
  intros [Hok Hp] Hne.
  assert (Transitive (fun n m => str_lt (awaited gs m) (awaited gs n))) by (intros a b c H1 H2; by transitivity (awaited gs b)).
  destruct (minimal_exists_elem_of_L (fun n m => str_lt (awaited gs m) (awaited gs n)) (dom (gs_holds gs))) as (n & Hn & Hmin).
  { intros E. apply Hne. by apply dom_empty_inv_L in E. }
  apply elem_of_dom in Hn as [h Hn].
  assert (forall m k, gs_holds gs !! m = Some k -> ~ str_lt (awaited gs n) (awaited gs m)) as Hmax.
  { intros m k Hm Hlt. pose proof (Hmin m (elem_of_dom_2 _ _ _ Hm) Hlt) as Hgt. cbn in Hgt.
    exact (str_lt_irrefl _ (str_lt_trans _ _ _ Hlt Hgt)). }
  destruct (h_phase h) eqn:Hph; [|exists n; unfold runnable; by rewrite Hn, Hph].
  pose proof (Hp n h Hn) as Hlt. unfold parked in Hlt. rewrite Hph in Hlt.
  destruct (lookup_lt_is_Some_2 _ _ Hlt) as [[f r] Hk].
  assert (awaited gs n = f) as Haw by (unfold awaited; by rewrite Hn, Hk).
  assert (gs_table gs !! f = Some r) as Hf by (eapply (go_entries _ Hok n); [done|by eapply list_elem_of_lookup_2]).
  destruct (go_table _ Hok f r Hf) as (_ & g & Hg & Hgk).
  assert (forall m, m ∈ map fst (g_waiters g) -> waiter m g <> Some WPending -> runnable gs m = true) as Hrun.
  { intros m Hm Hst. destruct (waiter_some m g Hm) as [st Hw]. apply (gk_waiters _ _ _ Hgk) in Hm as (k & Hmk & Hwk).
    apply bool_decide_eq_true in Hwk as [Hk1 Hk2]. unfold runnable, hold_waiter, guard_at. rewrite Hmk, Hk1, Hk2, Hg, Hw. cbn.
    apply negb_true_iff, bool_decide_eq_false. congruence. }
  destruct (g_locked g) eqn:El.
  - destruct (count_some (has_lock (f, r)) (gs_holds gs)) as (m & k & Hm & Hh); [rewrite (gk_locked _ _ _ Hgk), El; cbn; lia|].
    apply bool_decide_eq_true, list_elem_of_lookup in Hh as [i Hi]. apply lookup_take_Some in Hi as [Hi Hlt'].
    destruct (h_phase k) eqn:Hpk; [|exists m; unfold runnable; by rewrite Hm, Hpk].
    pose proof (Hp m k Hm) as Hlk. unfold parked in Hlk. rewrite Hpk in Hlk.
    destruct (lookup_lt_is_Some_2 _ _ Hlk) as [[f' r'] Hk']. exfalso. apply (Hmax m k Hm).
    rewrite Haw. unfold awaited. rewrite Hm, Hk'. destruct (go_holds _ Hok _ _ Hm) as [Hinc _].
    apply (increasing_lookup _ i (h_acquired k) f f' Hinc Hlt'); by rewrite list_lookup_fmap, ?Hi, ?Hk'.
  - pose proof (gk_queue _ _ _ Hgk) as Hq. unfold queue_ok in Hq. rewrite El in Hq.
    assert (n ∈ map fst (g_waiters g)) as Hin.
    { apply (gk_waiters _ _ _ Hgk). exists h. split; [done|]. by apply bool_decide_eq_true. }
    destruct (g_waiters g) as [|[m st] l] eqn:Ew; [by apply elem_of_nil in Hin|]. exists m. apply Hrun.
    + cbn. set_solver.
    + destruct Hq as [Hq _]. cbn in Hq. unfold waiter. rewrite Ew. cbn. rewrite Nat.eqb_refl. cbn. congruence.
Qed.

Lemma drain_holds_ok fuel gs :
  guards_inv gs -> (remaining gs <= fuel)%nat ->
  exists gs', drain_holds fuel gs = Ok gs' /\ gs_holds gs' = ∅ /\ guards_inv gs'.
Proof.
  revert gs; induction fuel as [|fuel IH]; intros gs Hi Hle; cbn.
  - exists gs. split_and!; try done. apply map_empty. intros n. destruct (gs_holds gs !! n) as [h|] eqn:Hn; [|done].
    rewrite (remaining_delete n h gs (end_hold n gs) Hn eq_refl) in Hle. lia.
  - destruct (List.find _ _) as [n|] eqn:Ef.
    + apply find_some in Ef as [_ Hr]. destruct (run_call_progress gs n false Hi Hr) as (gs' & -> & Hi' & Hlt).
      cbn. apply IH; [done|lia].
    + exists gs. split_and!; try done. destruct (decide (gs_holds gs = ∅)) as [|Hne]; [done|].
      destruct (some_runnable gs Hi Hne) as [n Hr]. exfalso.
      assert (n ∈ map fst (map_to_list (gs_holds gs))) as Hin.
      { unfold runnable in Hr. destruct (gs_holds gs !! n) as [h|] eqn:Hn; [|done].
        apply list_elem_of_fmap. exists (n, h). split; [done|]. by apply elem_of_map_to_list. }
      pose proof (find_none _ _ Ef n (proj1 (list_elem_of_In _ _) Hin)). congruence.
Qed.

(** C20: there is no deadlock and no lost wake-up.  In every reachable state with calls in [hold]
    some call can run: its body can end, or the lock it waits for was handed to it.  Whichever
    runs, and whether CancelledError is thrown into it or not, the steps that remain get fewer;
    so once the bodies end, however they are scheduled, all calls get through and the table of
    guards is empty. *)
Theorem guards_progress evs gs :
  guard_steps guards_new evs = Ok gs ->
  (gs_holds gs <> ∅ -> exists n, runnable gs n = true) /\
  (forall n thrown, runnable gs n = true ->
     exists gs', run_call n thrown gs = Ok gs' /\ (remaining gs' < remaining gs)%nat) /\
  exists gs', drain_holds (remaining gs) gs = Ok gs' /\ gs_holds gs' = ∅ /\ gs_table gs' = ∅.
Proof.
  intros He. destruct (guard_steps_inv evs guards_new guards_new_inv) as (gs0 & He' & Hi).
  rewrite He in He'. injection He' as <-. split; [by apply some_runnable|]. split.
  - intros n thrown Hr. destruct (run_call_progress gs n thrown Hi Hr) as (gs' & H1 & _ & H2). by exists gs'.
  - destruct (drain_holds_ok (remaining gs) gs Hi (Nat.le_refl _)) as (gs' & Hd & Hh & Hok & _). exists gs'. split_and!; try done.
    apply map_empty. intros f. destruct (gs_table gs' !! f) as [r|] eqn:Hf; [|done].
    destruct (go_table _ Hok f r Hf) as (_ & g & _ & Hg). pose proof (gk_used _ _ _ Hg) as Hu.
    rewrite (gk_users _ _ _ Hg), Hh, count_empty in Hu. lia.
Qed.

(** Four calls on overlapping filters: the second waits for the first; the fourth, which waits for the
    third, is cancelled. *)
Definition guard_sample : list guard_event :=
  [GEnter 0 [py "b"; py "a"]; GEnter 1 [py "c"; py "b"]; GEnter 2 [py "c"; py "d"; py "c"];
   GEnter 3 [py "c"]; GCancel 3; GResume 3 false].

Lemma guards_progress_witness : exists gs, guard_steps guards_new guard_sample = Ok gs /\
  size (gs_holds gs) = 3%nat /\ gs_holds gs <> ∅ /\ exists n, runnable gs n = true.
Proof.
  eexists. split; [vm_compute; reflexivity|]. split; [vm_compute; reflexivity|]. split; [vm_compute; discriminate|].
  apply (guards_progress guard_sample); [vm_compute; reflexivity|vm_compute; discriminate].
Defined.
