(* ===== verification/State.v ===== *)
(** * Session state ([_internal/state.py], [_internal/routing.py], [_internal/types/message.py])

    The pool of packet identifiers, the in-flight records and [SessionState].  An identifier
    handed out is never one that is in use, it is the least free one, and the search for it
    terminates. *)

From S2P Require Import Prelude Properties Packets SubscriptionIndex.

Definition MAX_PACKET_ID : Z := 65535.

Record PacketIdPool : Type := mkPool {
  pool_next : Z;
  pool_in_use : gset Z
}.

Definition pool_new : PacketIdPool := mkPool 1 ∅.

(** The [while self._next in self._in_use] loop. *)
Fixpoint find_free (fuel : nat) (next : Z) (in_use : gset Z) : res Z :=
  match fuel with
  | O => Err OutOfFuel
  | S fuel' =>
    if decide (next ∈ in_use) then find_free fuel' (next mod MAX_PACKET_ID + 1) in_use
    else Ok next
  end.

(** Every turn of the loop passes one identifier in use, so their number bounds the turns
    ([acquire_ok]). *)
Definition acquire (pool : PacketIdPool) : res (Z * PacketIdPool) :=
  if MAX_PACKET_ID <=? Z.of_nat (size (pool_in_use pool))
  then Err (RuntimeError "All 65535 packet IDs are in use")
  else
    pid ← find_free (S (size (pool_in_use pool))) (pool_next pool) (pool_in_use pool);
    Ok (pid, mkPool (pid mod MAX_PACKET_ID + 1) ({[ pid ]} ∪ pool_in_use pool)).

Definition release (pool : PacketIdPool) (pid : Z) : PacketIdPool :=
  mkPool (Z.min (pool_next pool) pid) (pool_in_use pool ∖ {[ pid ]}).

(** ** Messages, recipients and flights

    Python objects with an identity are records with a reference: [msg_ref] of a message,
    [cr_pending] of the pending request a response was claimed for, [q1_future] and [q2_future]
    of the futures a caller waits on.  The mutable fields of a message ([_ack_callback],
    [_resolved]) and the state of a future live in the stores of the engine. *)

Record Message : Type := mkMessage {
  msg_ref : nat;
  msg_topic : pystr;
  msg_payload : bytes;
  msg_qos : QoS;
  msg_retain : bool;
  msg_properties : option PublishProperties
}.

(** [tuple[str, bytes]]: response topic and correlation data *)
Abbreviation RequestKey := (pystr * bytes)%type.

Record ClaimedResponse : Type := mkClaimed {
  cr_pending : nat;
  cr_key : RequestKey;
  cr_message : Message;
  cr_generation : Z
}.

Record InboundRecipient : Type := mkRecipient {
  ir_message : Message;
  ir_request : option ClaimedResponse;
  ir_subscription : option item
}.

Definition auto_ack (r : InboundRecipient) : bool :=
  match ir_request r, ir_subscription r with
  | Some _, _ => true
  | None, None => true
  | None, Some (_, entry) => se_auto_ack entry
  end.

Record QoS1Flight : Type := mkQoS1Flight {
  q1_packet_id : Z;
  q1_publish : Publish;
  q1_future : nat
}.

Inductive OutboundQoS2State : Type := PENDING_PUBREC | PENDING_PUBCOMP.

#[export] Instance OutboundQoS2State_eq_dec : EqDecision OutboundQoS2State.
Proof. solve_decision. Defined.

Record OutboundQoS2Flight : Type := mkQoS2Flight {
  q2_packet_id : Z;
  q2_publish : Publish;
  q2_state : OutboundQoS2State;
  q2_future : nat
}.

(** [InboundQoS2State] has one member, [PENDING_PUBREL]. *)
Record InboundQoS2Flight : Type := mkInboundFlight {
  i2_packet_id : Z;
  i2_recipient : InboundRecipient;
  i2_delivered : bool
}.

Record SessionState : Type := mkSession {
  packet_ids : PacketIdPool;
  inflight_qos1 : gmap Z QoS1Flight;
  inflight_qos2_out : gmap Z OutboundQoS2Flight;
  inflight_qos2_in : gmap Z InboundQoS2Flight;
  pending_ack_qos2_in : gset Z;
  subscriptions : SubscriptionIndex;
  pending_subs : gmap Z nat;
  pending_unsubs : gmap Z nat
}.

Definition session_new : SessionState := mkSession pool_new ∅ ∅ ∅ ∅ index_new ∅ ∅.

(** [SessionState.clear] *)
Definition session_clear (s : SessionState) : SessionState :=
  mkSession pool_new ∅ ∅ ∅ ∅ (SubscriptionIndex.clear (subscriptions s)) ∅ ∅.

(** ** Futures *)

(** What [set_result] stores: a packet, a response message or [None]. *)
Inductive fut_value : Type :=
| VPacket (p : AnyPacket)
| VMessage (m : Message)
| VNone.

Inductive FutState : Type :=
| FPending
| FResult (v : fut_value)
| FException (e : exn)
| FCancelled.

(** [future.done()] *)
Definition fut_done (f : FutState) : bool := match f with FPending => false | _ => true end.

(** ** The invariant *)

(** Identifiers in use are in range, and so is the next candidate, below which all are in use. *)
Record pool_ok (pool : PacketIdPool) : Prop := {
  pool_range : forall i, i ∈ pool_in_use pool -> 1 <= i <= MAX_PACKET_ID;
  pool_next_range : 1 <= pool_next pool <= MAX_PACKET_ID;
  pool_below : forall i, 1 <= i < pool_next pool -> i ∈ pool_in_use pool
}.

Lemma pool_new_ok : pool_ok pool_new.
Proof.
  split; cbn; [|unfold MAX_PACKET_ID; lia|intros; lia].
  intros i Hi. by apply not_elem_of_empty in Hi.
Qed.

Definition interval (a : Z) (n : nat) : gset Z := list_to_set (seqZ a (Z.of_nat n)).

Lemma elem_of_interval a n i : i ∈ interval a n <-> a <= i < a + Z.of_nat n.
Proof. unfold interval. rewrite elem_of_list_to_set, elem_of_seqZ. lia. Qed.

Lemma size_interval a n : size (interval a n) = n.
Proof.
  unfold interval. rewrite size_list_to_set by apply NoDup_seqZ.
  rewrite length_seqZ. lia.
Qed.

(** The search finds the first free identifier at or after [next]. *)
Lemma find_free_spec fuel next in_use d :
  (forall i, next <= i < next + Z.of_nat d -> i ∈ in_use) -> next + Z.of_nat d ∉ in_use ->
  1 <= next -> next + Z.of_nat d <= MAX_PACKET_ID -> (d < fuel)%nat ->
  find_free fuel next in_use = Ok (next + Z.of_nat d).
Proof.
  revert fuel next; induction d as [|d IH]; intros [|fuel] next Hin Hfree H1 H2 Hf; try lia;
    cbn [find_free].
  - rewrite Z.add_0_r in *. by rewrite decide_False.
  - rewrite decide_True by (apply Hin; lia). rewrite Z.mod_small by lia.
    rewrite (IH fuel (next + 1)).
    + f_equal. lia.
    + intros i Hi. apply Hin. lia.
    + replace (next + 1 + Z.of_nat d) with (next + Z.of_nat (S d)) by lia. done.
    + lia.
    + lia.
    + lia.
Qed.

(** If not all identifiers are in use, the least free one exists; everything below is in use. *)
Lemma least_free (in_use : gset Z) :
  Z.of_nat (size in_use) < MAX_PACKET_ID ->
  exists pid, 1 <= pid <= MAX_PACKET_ID /\ pid ∉ in_use /\ forall i, 1 <= i < pid -> i ∈ in_use.
Proof.
  intros Hs.
  assert (forall n, (forall i, 1 <= i < 1 + Z.of_nat n -> i ∈ in_use) \/
    exists pid, 1 <= pid <= Z.of_nat n /\ pid ∉ in_use /\ forall i, 1 <= i < pid -> i ∈ in_use) as H.
  { induction n as [|n [IH|(pid & ? & ?)]]; [left; lia| |right; exists pid; split; [lia|done]].
    destruct (decide (1 + Z.of_nat n ∈ in_use)) as [Hin|Hin].
    - left. intros i Hi. destruct (decide (i = 1 + Z.of_nat n)) as [->|]; [done|]. apply IH. lia.
    - right. exists (1 + Z.of_nat n). split; [lia|]. split; [done|]. intros i Hi. apply IH. lia. }
  destruct (H (Z.to_nat MAX_PACKET_ID)) as [Hall|(pid & ? & ? & ?)].
  - exfalso. assert (interval 1 (Z.to_nat MAX_PACKET_ID) ⊆ in_use) as Hsub.
    { intros i Hi%elem_of_interval. by apply Hall. }
    apply subseteq_size in Hsub. rewrite size_interval in Hsub. lia.
  - exists pid. split; [lia|]. done.
Qed.

(** [acquire] under the invariant. *)
Lemma acquire_ok pool :
  pool_ok pool ->
  (Z.of_nat (size (pool_in_use pool)) < MAX_PACKET_ID ->
   exists pid, acquire pool = Ok (pid, mkPool (pid mod MAX_PACKET_ID + 1) ({[ pid ]} ∪ pool_in_use pool)) /\
     1 <= pid <= MAX_PACKET_ID /\ pid ∉ pool_in_use pool /\
     (forall i, 1 <= i < pid -> i ∈ pool_in_use pool)) /\
  (MAX_PACKET_ID <= Z.of_nat (size (pool_in_use pool)) ->
   acquire pool = Err (RuntimeError "All 65535 packet IDs are in use")).
Proof.
  intros [Hr Hn Hb]. unfold acquire. split; intros Hs.
  - rewrite (proj2 (Z.leb_gt _ _)) by lia. destruct (least_free _ Hs) as (pid & Hp & Hfree & Hall).
    assert (pool_next pool <= pid) as Hle.
    { destruct (Z.le_gt_cases (pool_next pool) pid) as [|Hlt]; [done|]. destruct Hfree. apply Hb. lia. }
    set (d := Z.to_nat (pid - pool_next pool)).
    assert (pid = pool_next pool + Z.of_nat d) as Hd by (subst d; lia).
    rewrite (find_free_spec _ _ _ d).
    + exists pid. cbn [mbind res_bind]. rewrite <-Hd. done.
    + intros i Hi. apply Hall. lia.
    + by rewrite <-Hd.
    + lia.
    + lia.
    + assert (interval (pool_next pool) d ⊆ pool_in_use pool) as Hsub.
      { intros i Hi%elem_of_interval. apply Hall. lia. }
      apply subseteq_size in Hsub. rewrite size_interval in Hsub. lia.
  - by rewrite (proj2 (Z.leb_le _ _)) by lia.
Qed.

(** What a caller relies on. *)
Lemma acquire_inv pool pid pool' :
  pool_ok pool -> acquire pool = Ok (pid, pool') ->
  pool_ok pool' /\ 1 <= pid <= MAX_PACKET_ID /\ pid ∉ pool_in_use pool /\
  pool_in_use pool' = {[ pid ]} ∪ pool_in_use pool /\ (forall i, 1 <= i < pid -> i ∈ pool_in_use pool).
Proof.
  intros Hok H. destruct (acquire_ok pool Hok) as [Hlt Hge].
  destruct (Z.lt_ge_cases (Z.of_nat (size (pool_in_use pool))) MAX_PACKET_ID) as [Hs|Hs].
  - destruct (Hlt Hs) as (pid' & E & Hp & Hfree & Hall). rewrite E in H. injection H as -> <-.
    split; [|done]. destruct Hok as [Hr Hn Hb]. split; cbn [pool_in_use pool_next].
    + intros i [->%elem_of_singleton|Hi]%elem_of_union; [done|auto].
    + pose proof (Z.mod_pos_bound pid MAX_PACKET_ID ltac:(done)). unfold MAX_PACKET_ID in *. lia.
    + intros i Hi. apply elem_of_union. destruct (decide (i = pid)) as [->|]; [left; set_solver|].
      right. apply Hall. destruct (decide (pid = MAX_PACKET_ID)) as [->|].
      * rewrite Z.mod_same in Hi by done. lia.
      * rewrite Z.mod_small in Hi by lia. lia.
  - rewrite (Hge Hs) in H. done.
Qed.

Lemma acquire_no_fuel pool : pool_ok pool -> acquire pool <> Err OutOfFuel.
Proof.
  intros Hok H. destruct (acquire_ok pool Hok) as [Hlt Hge].
  destruct (Z.lt_ge_cases (Z.of_nat (size (pool_in_use pool))) MAX_PACKET_ID) as [Hs|Hs].
  - destruct (Hlt Hs) as (pid' & E & _). congruence.
  - rewrite (Hge Hs) in H. done.
Qed.

Lemma release_ok pool pid : pool_ok pool -> 1 <= pid -> pool_ok (release pool pid).
Proof.
  intros [Hr Hn Hb] Hpid. split; cbn.
  - intros i [Hi _]%elem_of_difference. auto.
  - lia.
  - intros i Hi. apply elem_of_difference. split; [apply Hb; lia|]. rewrite elem_of_singleton. lia.
Qed.

(** ** The contract of the pool *)

Inductive pool_op : Type := Acquire | Release (pid : Z).

(** A refused [acquire] changes nothing. *)
Definition pool_step (pool : PacketIdPool) (op : pool_op) : PacketIdPool :=
  match op with
  | Acquire => match acquire pool with Ok (_, pool') => pool' | Err _ => pool end
  | Release pid => release pool pid
  end.

Definition release_positive (op : pool_op) : Prop :=
  match op with Acquire => True | Release pid => 1 <= pid end.

Lemma pool_run_ok ops pool :
  pool_ok pool -> Forall release_positive ops -> pool_ok (fold_left pool_step ops pool).
Proof.
  revert pool; induction ops as [|op ops IH]; intros pool Hok Hv; [done|].
  apply Forall_cons in Hv as [Hop Hv]. cbn [fold_left]. apply IH; [|done].
  destruct op as [|pid]; cbn [pool_step]; [|by apply release_ok].
  destruct (acquire pool) as [[pid pool']|e] eqn:E; [|done]. by apply (acquire_inv pool pid).
Qed.

(** C29: packet identifiers.  After any sequence of acquisitions and releases, [acquire] returns
    the least identifier of 1..65535 that is not in use, marks exactly it, and thereby never
    hands out one that is still owned; it raises RuntimeError exactly when all 65535 are in use,
    and its search loop always terminates. *)
Theorem acquire_least_free ops :
  Forall release_positive ops ->
  let pool := fold_left pool_step ops pool_new in
  match acquire pool with
  | Ok (pid, pool') =>
      1 <= pid <= MAX_PACKET_ID /\ pid ∉ pool_in_use pool /\
      (forall i, 1 <= i < pid -> i ∈ pool_in_use pool) /\
      pool_in_use pool' = {[ pid ]} ∪ pool_in_use pool
  | Err e =>
      e = RuntimeError "All 65535 packet IDs are in use" /\
      forall i, i ∈ pool_in_use pool <-> 1 <= i <= MAX_PACKET_ID
  end.
Proof.
  intros Hv pool. assert (pool_ok pool) as Hok by (apply pool_run_ok; [apply pool_new_ok|done]).
  destruct (acquire pool) as [[pid pool']|e] eqn:E.
  - destruct (acquire_inv _ _ _ Hok E) as (_ & ? & ? & ? & ?). done.
  - destruct (acquire_ok pool Hok) as [Hlt Hge].
    destruct (Z.lt_ge_cases (Z.of_nat (size (pool_in_use pool))) MAX_PACKET_ID) as [Hs|Hs].
    { destruct (Hlt Hs) as (pid' & E' & _). congruence. }
    rewrite (Hge Hs) in E. split; [congruence|]. intros i. split; [apply (pool_range _ Hok)|].
    intros Hi. set (all := interval 1 (Z.to_nat MAX_PACKET_ID)).
    assert (pool_in_use pool ⊆ all) as Hsub.
    { intros j Hj%(pool_range _ Hok). apply elem_of_interval. lia. }
    assert (size all = Z.to_nat MAX_PACKET_ID) as Hsz by apply size_interval.
    assert (pool_in_use pool = all) as -> by (apply set_subseteq_size_eq; [done|lia]).
    apply elem_of_interval. lia.
Qed.

Lemma acquire_least_free_witness :
  let pool := fold_left pool_step [Acquire; Acquire; Acquire; Release 2; Acquire; Release 1] pool_new in
  exists pool', acquire pool = Ok (1, pool') /\ 1 ∉ pool_in_use pool.
Proof.
  intros pool.
  assert (Forall release_positive [Acquire; Acquire; Acquire; Release 2; Acquire; Release 1]) as Hv
    by (repeat constructor; cbn; lia).
  pose proof (acquire_least_free _ Hv) as H. fold pool in H. cbv zeta in H.
  destruct (acquire pool) as [[pid pool']|e] eqn:E.
  - exists pool'. assert (pid = 1) as -> by (vm_compute in E; congruence). split; [done|apply H].
  - exfalso. vm_compute in E. discriminate E.
Defined.
