(* ===== verification/Engine.v ===== *)
(** * The state of one connection

    [Engine] gathers what the objects of one connection share: the fields of [MQTTProtocol]
    ([_internal/protocol.py]), of [InboundPublishFlow] ([_internal/inbound.py]), the session
    state, and the asyncio objects they refer to (futures, queues, messages) in stores indexed by
    reference.  Code runs in the monad [M]: an exception keeps the state changes made before it.

    Code between two suspension points of asyncio is atomic and is one function here.  Writing to
    the transport is such a point only above the writer's high-water mark; it is modelled as not
    yielding.  [e_sent] is the list of everything handed to the transport, in order. *)

From S2P Require Import Prelude Properties Packets Codec Topic SubscriptionIndex State.

(** ** The request dispatcher, as the router of responses ([_internal/request_response.py]) *)

Record PendingRequest : Type := mkPending {
  pr_ref : nat;
  pr_future : nat;
  pr_claimed : bool
}.

Record Dispatcher : Type := mkDispatcher {
  d_pending : gmap RequestKey PendingRequest;
  d_generation : Z
}.

(** ** Persistent-session replay ([_NoSessionReplay], [_PersistentReplayIdle],
    [_PersistentReplayBuffered])

    [rb_ref] is the identity of a buffered state; [rb_expiration] says that its expiration task
    is running. *)

Record ReplayBuffer : Type := mkReplayBuffer {
  rb_ref : nat;
  rb_publishes : list Publish;
  rb_packet_ids : gset Z;
  rb_topics : gmap pystr Z;
  rb_message_count : Z;
  rb_expiration : bool
}.

Inductive ReplayState : Type :=
| NoSessionReplay
| PersistentReplayIdle
| PersistentReplayBuffered (b : ReplayBuffer).

(** ** asyncio objects *)

(** The closures stored in [Message._ack_callback]: [_puback] of the packet identifier (with its
    [acked] flag) and [_pubrec] of the packet identifier and the recipient. *)
Inductive AckCallback : Type :=
| AckPuback (packet_id : Z) (acked : bool)
| AckPubrec (packet_id : Z) (recipient : InboundRecipient).

Record MessageState : Type := mkMessageState {
  ms_callback : option AckCallback;
  ms_resolved : bool
}.

(** [asyncio.Queue(maxsize)]: not bounded when [maxsize] is 0. *)
Record Queue : Type := mkQueue {
  q_maxsize : Z;
  q_items : list Message
}.

Definition queue_full (q : Queue) : bool := (0 <? q_maxsize q) && (q_maxsize q <=? zlen (q_items q)).

(** What the handler of an incoming packet does after [_deliver]: nothing, or PUBACK when the
    message was delivered. *)
Inductive deliver_cont : Type := AfterNothing | AfterPubAck (packet_id : Z).

(** [e_putting]: the read loop is suspended in [queue.put] of a full queue, delivering to this
    recipient. *)
Record Engine : Type := mkEngine {
  e_version : version;
  e_stripped_prefixes : list pystr;
  e_keepalive : Z;
  e_effective_keepalive : Z;
  e_state : SessionState;
  e_ping_waiters : list nat;
  e_disconnecting : bool;
  e_dead : bool;
  e_max_publish_qos : QoS;
  e_retain_available : bool;
  e_receive_maximum : option Z;
  e_unacknowledged : gset Z;
  e_replay : ReplayState;
  e_replay_buffer_size : Z;
  e_dispatcher : option Dispatcher;
  e_futures : gmap nat FutState;
  e_messages : gmap nat MessageState;
  e_queues : gmap nat Queue;
  e_detached : gset nat;
  e_putting : option (InboundRecipient * deliver_cont);
  e_next_ref : nat;
  e_sent : list bytes;
  e_lost : bool;
  e_closed : bool
}.

Definition set_e_effective_keepalive (v : Z) (s : Engine) : Engine :=
  mkEngine (e_version s) (e_stripped_prefixes s) (e_keepalive s) v (e_state s) (e_ping_waiters s)
    (e_disconnecting s) (e_dead s) (e_max_publish_qos s) (e_retain_available s)
    (e_receive_maximum s) (e_unacknowledged s) (e_replay s) (e_replay_buffer_size s) (e_dispatcher s) (e_futures s)
    (e_messages s) (e_queues s) (e_detached s) (e_putting s) (e_next_ref s) (e_sent s) (e_lost s) (e_closed s).
Definition set_e_state (v : SessionState) (s : Engine) : Engine :=
  mkEngine (e_version s) (e_stripped_prefixes s) (e_keepalive s) (e_effective_keepalive s) v
    (e_ping_waiters s) (e_disconnecting s) (e_dead s) (e_max_publish_qos s) (e_retain_available s)
    (e_receive_maximum s) (e_unacknowledged s) (e_replay s) (e_replay_buffer_size s)
    (e_dispatcher s) (e_futures s) (e_messages s) (e_queues s) (e_detached s) (e_putting s) (e_next_ref s) (e_sent s)
    (e_lost s) (e_closed s).
Definition set_e_ping_waiters (v : list nat) (s : Engine) : Engine :=
  mkEngine (e_version s) (e_stripped_prefixes s) (e_keepalive s) (e_effective_keepalive s)
    (e_state s) v (e_disconnecting s) (e_dead s) (e_max_publish_qos s) (e_retain_available s)
    (e_receive_maximum s) (e_unacknowledged s) (e_replay s) (e_replay_buffer_size s)
    (e_dispatcher s) (e_futures s) (e_messages s) (e_queues s) (e_detached s) (e_putting s) (e_next_ref s) (e_sent s)
    (e_lost s) (e_closed s).
Definition set_e_disconnecting (v : bool) (s : Engine) : Engine :=
  mkEngine (e_version s) (e_stripped_prefixes s) (e_keepalive s) (e_effective_keepalive s)
    (e_state s) (e_ping_waiters s) v (e_dead s) (e_max_publish_qos s) (e_retain_available s)
    (e_receive_maximum s) (e_unacknowledged s) (e_replay s) (e_replay_buffer_size s)
    (e_dispatcher s) (e_futures s) (e_messages s) (e_queues s) (e_detached s) (e_putting s) (e_next_ref s) (e_sent s)
    (e_lost s) (e_closed s).
Definition set_e_dead (v : bool) (s : Engine) : Engine :=
  mkEngine (e_version s) (e_stripped_prefixes s) (e_keepalive s) (e_effective_keepalive s)
    (e_state s) (e_ping_waiters s) (e_disconnecting s) v (e_max_publish_qos s)
    (e_retain_available s) (e_receive_maximum s) (e_unacknowledged s) (e_replay s) (e_replay_buffer_size s)
    (e_dispatcher s) (e_futures s) (e_messages s) (e_queues s) (e_detached s) (e_putting s) (e_next_ref s)
    (e_sent s) (e_lost s) (e_closed s).
Definition set_e_max_publish_qos (v : QoS) (s : Engine) : Engine :=
  mkEngine (e_version s) (e_stripped_prefixes s) (e_keepalive s) (e_effective_keepalive s)
    (e_state s) (e_ping_waiters s) (e_disconnecting s) (e_dead s) v (e_retain_available s)
    (e_receive_maximum s) (e_unacknowledged s) (e_replay s) (e_replay_buffer_size s)
    (e_dispatcher s) (e_futures s) (e_messages s) (e_queues s) (e_detached s) (e_putting s) (e_next_ref s) (e_sent s)
    (e_lost s) (e_closed s).
Definition set_e_retain_available (v : bool) (s : Engine) : Engine :=
  mkEngine (e_version s) (e_stripped_prefixes s) (e_keepalive s) (e_effective_keepalive s)
    (e_state s) (e_ping_waiters s) (e_disconnecting s) (e_dead s) (e_max_publish_qos s) v
    (e_receive_maximum s) (e_unacknowledged s) (e_replay s) (e_replay_buffer_size s)
    (e_dispatcher s) (e_futures s) (e_messages s) (e_queues s) (e_detached s) (e_putting s) (e_next_ref s) (e_sent s)
    (e_lost s) (e_closed s).
Definition set_e_unacknowledged (v : gset Z) (s : Engine) : Engine :=
  mkEngine (e_version s) (e_stripped_prefixes s) (e_keepalive s) (e_effective_keepalive s)
    (e_state s) (e_ping_waiters s) (e_disconnecting s) (e_dead s) (e_max_publish_qos s)
    (e_retain_available s) (e_receive_maximum s) v (e_replay s) (e_replay_buffer_size s)
    (e_dispatcher s) (e_futures s) (e_messages s) (e_queues s) (e_detached s) (e_putting s) (e_next_ref s)
    (e_sent s) (e_lost s) (e_closed s).
Definition set_e_replay (v : ReplayState) (s : Engine) : Engine :=
  mkEngine (e_version s) (e_stripped_prefixes s) (e_keepalive s) (e_effective_keepalive s)
    (e_state s) (e_ping_waiters s) (e_disconnecting s) (e_dead s) (e_max_publish_qos s)
    (e_retain_available s) (e_receive_maximum s) (e_unacknowledged s) v (e_replay_buffer_size s)
    (e_dispatcher s) (e_futures s) (e_messages s) (e_queues s) (e_detached s) (e_putting s) (e_next_ref s)
    (e_sent s) (e_lost s) (e_closed s).
Definition set_e_dispatcher (v : option Dispatcher) (s : Engine) : Engine :=
  mkEngine (e_version s) (e_stripped_prefixes s) (e_keepalive s) (e_effective_keepalive s)
    (e_state s) (e_ping_waiters s) (e_disconnecting s) (e_dead s) (e_max_publish_qos s)
    (e_retain_available s) (e_receive_maximum s) (e_unacknowledged s) (e_replay s)
    (e_replay_buffer_size s) v (e_futures s) (e_messages s) (e_queues s) (e_detached s)
    (e_putting s) (e_next_ref s) (e_sent s) (e_lost s) (e_closed s).
Definition set_e_futures (v : gmap nat FutState) (s : Engine) : Engine :=
  mkEngine (e_version s) (e_stripped_prefixes s) (e_keepalive s) (e_effective_keepalive s)
    (e_state s) (e_ping_waiters s) (e_disconnecting s) (e_dead s) (e_max_publish_qos s)
    (e_retain_available s) (e_receive_maximum s) (e_unacknowledged s) (e_replay s)
    (e_replay_buffer_size s) (e_dispatcher s) v (e_messages s) (e_queues s) (e_detached s)
    (e_putting s) (e_next_ref s) (e_sent s) (e_lost s) (e_closed s).
Definition set_e_messages (v : gmap nat MessageState) (s : Engine) : Engine :=
  mkEngine (e_version s) (e_stripped_prefixes s) (e_keepalive s) (e_effective_keepalive s)
    (e_state s) (e_ping_waiters s) (e_disconnecting s) (e_dead s) (e_max_publish_qos s)
    (e_retain_available s) (e_receive_maximum s) (e_unacknowledged s) (e_replay s)
    (e_replay_buffer_size s) (e_dispatcher s) (e_futures s) v (e_queues s) (e_detached s)
    (e_putting s) (e_next_ref s) (e_sent s) (e_lost s) (e_closed s).
Definition set_e_queues (v : gmap nat Queue) (s : Engine) : Engine :=
  mkEngine (e_version s) (e_stripped_prefixes s) (e_keepalive s) (e_effective_keepalive s)
    (e_state s) (e_ping_waiters s) (e_disconnecting s) (e_dead s) (e_max_publish_qos s)
    (e_retain_available s) (e_receive_maximum s) (e_unacknowledged s) (e_replay s)
    (e_replay_buffer_size s) (e_dispatcher s) (e_futures s) (e_messages s) v (e_detached s)
    (e_putting s) (e_next_ref s) (e_sent s) (e_lost s) (e_closed s).
Definition set_e_detached (v : gset nat) (s : Engine) : Engine :=
  mkEngine (e_version s) (e_stripped_prefixes s) (e_keepalive s) (e_effective_keepalive s)
    (e_state s) (e_ping_waiters s) (e_disconnecting s) (e_dead s) (e_max_publish_qos s)
    (e_retain_available s) (e_receive_maximum s) (e_unacknowledged s) (e_replay s)
    (e_replay_buffer_size s) (e_dispatcher s) (e_futures s) (e_messages s) (e_queues s) v (e_putting s) (e_next_ref s) (e_sent s) (e_lost s) (e_closed s).
Definition set_e_putting (v : option (InboundRecipient * deliver_cont)) (s : Engine) : Engine :=
  mkEngine (e_version s) (e_stripped_prefixes s) (e_keepalive s) (e_effective_keepalive s)
    (e_state s) (e_ping_waiters s) (e_disconnecting s) (e_dead s) (e_max_publish_qos s)
    (e_retain_available s) (e_receive_maximum s) (e_unacknowledged s) (e_replay s)
    (e_replay_buffer_size s) (e_dispatcher s) (e_futures s) (e_messages s) (e_queues s)
    (e_detached s) v (e_next_ref s) (e_sent s) (e_lost s) (e_closed s).
Definition set_e_next_ref (v : nat) (s : Engine) : Engine :=
  mkEngine (e_version s) (e_stripped_prefixes s) (e_keepalive s) (e_effective_keepalive s)
    (e_state s) (e_ping_waiters s) (e_disconnecting s) (e_dead s) (e_max_publish_qos s)
    (e_retain_available s) (e_receive_maximum s) (e_unacknowledged s) (e_replay s)
    (e_replay_buffer_size s) (e_dispatcher s) (e_futures s) (e_messages s) (e_queues s)
    (e_detached s) (e_putting s) v (e_sent s) (e_lost s) (e_closed s).
Definition set_e_sent (v : list bytes) (s : Engine) : Engine :=
  mkEngine (e_version s) (e_stripped_prefixes s) (e_keepalive s) (e_effective_keepalive s)
    (e_state s) (e_ping_waiters s) (e_disconnecting s) (e_dead s) (e_max_publish_qos s)
    (e_retain_available s) (e_receive_maximum s) (e_unacknowledged s) (e_replay s)
    (e_replay_buffer_size s) (e_dispatcher s) (e_futures s) (e_messages s) (e_queues s)
    (e_detached s) (e_putting s) (e_next_ref s) v (e_lost s) (e_closed s).
Definition set_e_lost (v : bool) (s : Engine) : Engine :=
  mkEngine (e_version s) (e_stripped_prefixes s) (e_keepalive s) (e_effective_keepalive s)
    (e_state s) (e_ping_waiters s) (e_disconnecting s) (e_dead s) (e_max_publish_qos s)
    (e_retain_available s) (e_receive_maximum s) (e_unacknowledged s) (e_replay s)
    (e_replay_buffer_size s) (e_dispatcher s) (e_futures s) (e_messages s) (e_queues s)
    (e_detached s) (e_putting s) (e_next_ref s) (e_sent s) v (e_closed s).
Definition set_e_closed (v : bool) (s : Engine) : Engine :=
  mkEngine (e_version s) (e_stripped_prefixes s) (e_keepalive s) (e_effective_keepalive s)
    (e_state s) (e_ping_waiters s) (e_disconnecting s) (e_dead s) (e_max_publish_qos s)
    (e_retain_available s) (e_receive_maximum s) (e_unacknowledged s) (e_replay s)
    (e_replay_buffer_size s) (e_dispatcher s) (e_futures s) (e_messages s) (e_queues s)
    (e_detached s) (e_putting s) (e_next_ref s) (e_sent s) (e_lost s) v.

(** Updates of the session state. *)
Definition set_packet_ids (v : PacketIdPool) (s : SessionState) : SessionState :=
  mkSession v (inflight_qos1 s) (inflight_qos2_out s) (inflight_qos2_in s) (pending_ack_qos2_in s)
    (subscriptions s) (pending_subs s) (pending_unsubs s).
Definition set_inflight_qos1 (v : gmap Z QoS1Flight) (s : SessionState) : SessionState :=
  mkSession (packet_ids s) v (inflight_qos2_out s) (inflight_qos2_in s) (pending_ack_qos2_in s)
    (subscriptions s) (pending_subs s) (pending_unsubs s).
Definition set_inflight_qos2_out (v : gmap Z OutboundQoS2Flight) (s : SessionState) : SessionState
    :=
  mkSession (packet_ids s) (inflight_qos1 s) v (inflight_qos2_in s) (pending_ack_qos2_in s)
    (subscriptions s) (pending_subs s) (pending_unsubs s).
Definition set_inflight_qos2_in (v : gmap Z InboundQoS2Flight) (s : SessionState) : SessionState :=
  mkSession (packet_ids s) (inflight_qos1 s) (inflight_qos2_out s) v (pending_ack_qos2_in s)
    (subscriptions s) (pending_subs s) (pending_unsubs s).
Definition set_pending_ack_qos2_in (v : gset Z) (s : SessionState) : SessionState :=
  mkSession (packet_ids s) (inflight_qos1 s) (inflight_qos2_out s) (inflight_qos2_in s) v
    (subscriptions s) (pending_subs s) (pending_unsubs s).
Definition set_subscriptions (v : SubscriptionIndex) (s : SessionState) : SessionState :=
  mkSession (packet_ids s) (inflight_qos1 s) (inflight_qos2_out s) (inflight_qos2_in s)
    (pending_ack_qos2_in s) v (pending_subs s) (pending_unsubs s).
Definition set_pending_subs (v : gmap Z nat) (s : SessionState) : SessionState :=
  mkSession (packet_ids s) (inflight_qos1 s) (inflight_qos2_out s) (inflight_qos2_in s)
    (pending_ack_qos2_in s) (subscriptions s) v (pending_unsubs s).
Definition set_pending_unsubs (v : gmap Z nat) (s : SessionState) : SessionState :=
  mkSession (packet_ids s) (inflight_qos1 s) (inflight_qos2_out s) (inflight_qos2_in s)
    (pending_ack_qos2_in s) (subscriptions s) (pending_subs s) v.

(** ** The monad of the connection *)

Definition M (A : Type) : Type := Engine -> res A * Engine.

#[export] Instance M_ret : MRet M := fun A a s => (Ok a, s).
#[export] Instance M_bind : MBind M := fun A B f m s =>
  match m s with
  | (Ok a, s') => f a s'
  | (Err e, s') => (Err e, s')
  end.

Definition throw {A} (e : exn) : M A := fun s => (Err e, s).
Definition lift {A} (r : res A) : M A := fun s => (r, s).
Definition asks {A} (f : Engine -> A) : M A := fun s => (Ok (f s), s).
Definition modify (f : Engine -> Engine) : M unit := fun s => (Ok tt, f s).
Definition modify_state (f : SessionState -> SessionState) : M unit :=
  modify (fun s => set_e_state (f (e_state s)) s).
Definition ask_state {A} (f : SessionState -> A) : M A := asks (fun s => f (e_state s)).

(** [try: m finally: fin] *)
Definition try_finally {A} (m : M A) (fin : M unit) : M A := fun s =>
  let '(r, s') := m s in
  match fin s' with
  | (Ok _, s'') => (r, s'')
  | (Err e, s'') => (Err e, s'')
  end.

(** [with contextlib.suppress(Exception): m] *)
Definition suppress (m : M unit) : M unit := fun s => (Ok tt, (m s).2).

(** ** Futures *)

Definition new_ref : M nat := fun s => (Ok (e_next_ref s), set_e_next_ref (S (e_next_ref s)) s).

Definition create_future : M nat :=
  f ← new_ref;
  _ ← modify (fun s => set_e_futures (<[f := FPending]> (e_futures s)) s);
  mret f.

Definition fut_state (s : Engine) (f : nat) : FutState :=
  match e_futures s !! f with Some st => st | None => FPending end.

Definition is_done (f : nat) : M bool := asks (fun s => fut_done (fut_state s f)).

Definition resolve (f : nat) (st : FutState) : M unit := fun s =>
  if fut_done (fut_state s f) then (Err InvalidStateError, s)
  else (Ok tt, set_e_futures (<[f := st]> (e_futures s)) s).

(** [f.set_result(v)] and [f.set_exception(e)] raise InvalidStateError on a future that is done. *)
Definition set_result (f : nat) (v : fut_value) : M unit := resolve f (FResult v).
Definition set_exception (f : nat) (e : exn) : M unit := resolve f (FException e).

(** [if not f.done(): m] *)
Definition unless_done (f : nat) (m : M unit) : M unit :=
  d ← is_done f; if d : bool then mret tt else m.

(** ** The transport *)

(** A write to a transport that is closed or whose peer is gone raises.  What it does when it returns at once; in the
    source [StreamTransport.write] awaits [drain], and may suspend there with its data written ([Transport]; what that
    means for the theorems is in the conventions of the header). *)
Definition _send (data : bytes) : M unit := fun s =>
  if e_lost s || e_closed s then (Err (MQTTDisconnectedError "Connection lost"), s)
  else (Ok tt, set_e_sent (e_sent s ++ [data]) s).

Definition _encode (packet : AnyPacket) : M bytes :=
  v ← asks e_version; lift (encode packet v).

(** [await self._send(self._encode(packet))] *)
Definition send_packet (packet : AnyPacket) : M unit :=
  data ← _encode packet; _send data.

Definition transport_close : M unit := modify (set_e_closed true).

Definition abort (reason_code : option Z) : M unit :=
  v ← asks e_version;
  _ ← match reason_code, v with
      | Some rc, V50 => suppress (send_packet (PDisconnect (mkDisconnect rc None)))
      | _, _ => mret tt
      end;
  transport_close.

(** ** Claiming and completing responses *)

Definition claim (message : Message) : M (option ClaimedResponse) :=
  d ← asks e_dispatcher;
  match d, msg_properties message with
  | Some d, Some props =>
    match pp_correlation_data props with
    | None => mret None
    | Some data =>
      let key := (msg_topic message, data) in
      match d_pending d !! key with
      | None => mret None
      | Some pending =>
        done ← is_done (pr_future pending);
        if pr_claimed pending || done then mret None
        else
          let pending' := mkPending (pr_ref pending) (pr_future pending) true in
          _ ← modify (set_e_dispatcher
                (Some (mkDispatcher (<[key := pending']> (d_pending d)) (d_generation d))));
          mret (Some (mkClaimed (pr_ref pending) key message (d_generation d)))
      end
    end
  | _, _ => mret None
  end.

(** [_ClaimedResponse.deliver] and [_RequestDispatcher.complete] *)
Definition complete (response : ClaimedResponse) : M unit :=
  d ← asks e_dispatcher;
  match d with
  | None => mret tt
  | Some d =>
    match d_pending d !! cr_key response with
    | None => mret tt
    | Some pending =>
      if (d_generation d =? cr_generation response) && (pr_ref pending =? cr_pending response)%nat
      then unless_done (pr_future pending) (set_result (pr_future pending) (VMessage (cr_message response)))
      else mret tt
    end
  end.

(** [_RequestDispatcher.bind], on the part of the dispatcher the engine shares. *)
Definition bind_core (d : Dispatcher) : Dispatcher :=
  mkDispatcher ((fun p => mkPending (pr_ref p) (pr_future p) false) <$> d_pending d) (d_generation d + 1).

Definition bind_router : M unit := modify (fun s => set_e_dispatcher (bind_core <$> e_dispatcher s) s).

(** ** What a computation leaves alone

    [preserves R m]: whatever [m] does, returning or raising, relates the states before and
    after it by [R].  For a preorder [R] this is compositional. *)

Definition preserves {A} (R : Engine -> Engine -> Prop) (m : M A) : Prop := forall s, R s (m s).2.

Create HintDb frame discriminated.

Section preserves.
Context (R : Engine -> Engine -> Prop) `{!PreOrder R}.

Lemma preserves_ret {A} (a : A) : preserves R (mret a).
Proof. intros s. cbn. reflexivity. Qed.

Lemma preserves_throw {A} e : preserves R (throw (A := A) e).
Proof. intros s. cbn. reflexivity. Qed.

Lemma preserves_lift {A} (r : res A) : preserves R (lift r).
Proof. intros s. cbn. reflexivity. Qed.

Lemma preserves_asks {A} (f : Engine -> A) : preserves R (asks f).
Proof. intros s. cbn. reflexivity. Qed.

Lemma preserves_ask_state {A} (f : SessionState -> A) : preserves R (ask_state f).
Proof. intros s. cbn. reflexivity. Qed.

Lemma preserves_bind {A B} (m : M A) (f : A -> M B) :
  preserves R m -> (forall a, preserves R (f a)) -> preserves R (x ← m; f x).
Proof.
  intros Hm Hf s. specialize (Hm s). unfold mbind, M_bind.
  destruct (m s) as [[a|e] s']; cbn in *; [|exact Hm].
  etransitivity; [exact Hm|apply Hf].
Qed.

Lemma preserves_modify f : (forall s, R s (f s)) -> preserves R (modify f).
Proof. intros H s. apply H. Qed.

Lemma preserves_suppress m : preserves R m -> preserves R (suppress m).
Proof. intros H s. apply H. Qed.

Lemma preserves_try_finally {A} (m : M A) fin :
  preserves R m -> preserves R fin -> preserves R (try_finally m fin).
Proof.
  intros Hm Hf s. unfold try_finally. specialize (Hm s). destruct (m s) as [r s']. cbn in Hm.
  specialize (Hf s'). destruct (fin s') as [[|] s'']; cbn in *; (etransitivity; [exact Hm|exact Hf]).
Qed.

Lemma preserves_if {A} (b : bool) (m m' : M A) :
  preserves R m -> preserves R m' -> preserves R (if b then m else m').
Proof. by destruct b. Qed.
End preserves.

#[export] Hint Resolve preserves_ret preserves_throw preserves_lift preserves_asks preserves_ask_state : frame.

(** Walk through a computation, leaving the state changes. *)
Ltac preserve_step :=
  first
  [ solve [auto with frame typeclass_instances]
  | lazymatch goal with
    | |- forall _, _ => intro
    | |- preserves _ (mbind _ _) => apply preserves_bind; [tc_solve| |]
    | |- preserves _ (suppress _) => apply preserves_suppress
    | |- preserves _ (try_finally _ _) => apply preserves_try_finally; [tc_solve| |]
    | |- preserves _ (let '(_, _) := ?p in _) => destruct p
    | |- preserves _ (if decide ?b then _ else _) => destruct (decide b)
    | |- preserves _ (if ?b then _ else _) => destruct b
    | |- preserves _ (match ?x with _ => _ end) => destruct x
    end ].
Ltac preserve := repeat preserve_step.

(** ** Sending *)

Lemma send_packet_err packet e s : encode packet (e_version s) = Err e -> send_packet packet s = (Err e, s).
Proof. intros He. unfold send_packet, _encode, mbind, M_bind. cbn [asks lift]. by rewrite He. Qed.

Lemma send_packet_ok packet data s :
  encode packet (e_version s) = Ok data -> e_lost s = false -> e_closed s = false ->
  send_packet packet s = (Ok tt, set_e_sent (e_sent s ++ [data]) s).
Proof.
  intros He Hl Hc. unfold send_packet, _encode, _send, mbind, M_bind. cbn [asks lift]. by rewrite He, Hl, Hc.
Qed.
