(* ===== verification/Requests.v ===== *)
(** * The request dispatcher ([_internal/request_response.py])

    [_RequestDispatcher] owns the waiters of MQTT 5.0 requests: a bounded number of them, the
    broker subscriptions of their response topics (shared by the waiters of one topic), and the
    reservation of a response for one waiter.  It outlives the connections: [bind] gives it a new
    protocol engine, [restore] subscribes again.

    [_pending] and [_generation] are the [Dispatcher] of the inbound flow ([Engine]).  The engine
    is seen through [_ResponseSubscriptionManager]: [add_response_observer] runs as a task that
    ends in some way at some time, [remove_response_observer] is awaited.  The capacity is a
    counting semaphore; which of the calls that wait for it goes first is left open. *)

From S2P Require Import Prelude Properties Packets Codec Topic SubscriptionIndex State Engine.

(** ** State *)

(** [_TopicInterest] *)
Record TopicInterest : Type := mkInterest {
  ti_refcount : Z;
  ti_ready : option nat
}.

(** The task that runs [add_response_observer]. *)
Inductive ready_state : Type := TRunning | TDone | TFailed (e : exn).

(** A suspended call: waiting for capacity, in [register] for the readiness of its topic, in
    [unregister] for the same (with the exception [register] will raise) or for the protocol to
    drop the observer (with what is being raised), in [restore] for one of the topics. *)
Inductive request_call : Type :=
| RAcquire (key : RequestKey)
| RRegister (key : RequestKey) (request task : nat)
| RLeaving (key : RequestKey) (interest task : nat) (raising : option exn)
| RRemoving (raising : option exn)
| RRestore (todo : list (pystr * nat)) (task : nat).

(** What the dispatcher asks of the protocol. *)
Inductive observer_request_log : Type := LAdd (topic : pystr) | LRemove (topic : pystr).

(** [rq_interests], [rq_tasks] and [rq_futures] are the objects behind the references;
    [rq_requests] gives the key and the future of every [_PendingRequest] there has been, and
    [rq_closed] its flag [_closed].  [rq_results], [rq_claims] and [rq_log] record what calls
    returned, the responses claimed and the calls of the protocol. *)
Record Requests : Type := mkRequests {
  rq_core : Dispatcher;
  rq_capacity : Z;
  rq_topics : gmap pystr nat;
  rq_interests : gmap nat TopicInterest;
  rq_tasks : gmap nat ready_state;
  rq_protocol : bool;
  rq_futures : gmap nat FutState;
  rq_requests : gmap nat (RequestKey * nat);
  rq_closed : gset nat;
  rq_calls : gmap nat request_call;
  rq_next : nat;
  rq_results : list (nat * res (option nat));
  rq_claims : list ClaimedResponse;
  rq_log : list observer_request_log
}.

(** [__init__] *)
Definition requests_new (max_pending_requests : Z) : res Requests :=
  if max_pending_requests <=? 0 then Err (ValueError "max_pending_requests must be positive")
  else Ok (mkRequests (mkDispatcher ∅ 0) max_pending_requests ∅ ∅ ∅ false ∅ ∅ ∅ ∅ 0 [] [] []).

Definition pending_count (rq : Requests) : Z := Z.of_nat (size (d_pending (rq_core rq))).
Abbreviation pending_of rq := (d_pending (rq_core rq)).

(** Updates. *)
Definition set_pending (v : gmap RequestKey PendingRequest) (rq : Requests) : Requests :=
  mkRequests (mkDispatcher v (d_generation (rq_core rq))) (rq_capacity rq) (rq_topics rq) (rq_interests rq)
    (rq_tasks rq) (rq_protocol rq) (rq_futures rq) (rq_requests rq) (rq_closed rq) (rq_calls rq) (rq_next rq)
    (rq_results rq) (rq_claims rq) (rq_log rq).
Definition add_capacity (k : Z) (rq : Requests) : Requests :=
  mkRequests (rq_core rq) (rq_capacity rq + k) (rq_topics rq) (rq_interests rq) (rq_tasks rq) (rq_protocol rq)
    (rq_futures rq) (rq_requests rq) (rq_closed rq) (rq_calls rq) (rq_next rq) (rq_results rq) (rq_claims rq) (rq_log rq).
Definition set_topics (v : gmap pystr nat) (rq : Requests) : Requests :=
  mkRequests (rq_core rq) (rq_capacity rq) v (rq_interests rq) (rq_tasks rq) (rq_protocol rq)
    (rq_futures rq) (rq_requests rq) (rq_closed rq) (rq_calls rq) (rq_next rq) (rq_results rq) (rq_claims rq) (rq_log rq).
Definition set_interest (i : nat) (v : TopicInterest) (rq : Requests) : Requests :=
  mkRequests (rq_core rq) (rq_capacity rq) (rq_topics rq) (<[i := v]> (rq_interests rq)) (rq_tasks rq) (rq_protocol rq)
    (rq_futures rq) (rq_requests rq) (rq_closed rq) (rq_calls rq) (rq_next rq) (rq_results rq) (rq_claims rq) (rq_log rq).
Definition set_task (t : nat) (v : ready_state) (rq : Requests) : Requests :=
  mkRequests (rq_core rq) (rq_capacity rq) (rq_topics rq) (rq_interests rq) (<[t := v]> (rq_tasks rq)) (rq_protocol rq)
    (rq_futures rq) (rq_requests rq) (rq_closed rq) (rq_calls rq) (rq_next rq) (rq_results rq) (rq_claims rq) (rq_log rq).
Definition set_futures (v : gmap nat FutState) (rq : Requests) : Requests :=
  mkRequests (rq_core rq) (rq_capacity rq) (rq_topics rq) (rq_interests rq) (rq_tasks rq) (rq_protocol rq)
    v (rq_requests rq) (rq_closed rq) (rq_calls rq) (rq_next rq) (rq_results rq) (rq_claims rq) (rq_log rq).
Definition set_call (n : nat) (v : request_call) (rq : Requests) : Requests :=
  mkRequests (rq_core rq) (rq_capacity rq) (rq_topics rq) (rq_interests rq) (rq_tasks rq) (rq_protocol rq)
    (rq_futures rq) (rq_requests rq) (rq_closed rq) (<[n := v]> (rq_calls rq)) (rq_next rq) (rq_results rq)
    (rq_claims rq) (rq_log rq).
Definition add_log (l : observer_request_log) (rq : Requests) : Requests :=
  mkRequests (rq_core rq) (rq_capacity rq) (rq_topics rq) (rq_interests rq) (rq_tasks rq) (rq_protocol rq)
    (rq_futures rq) (rq_requests rq) (rq_closed rq) (rq_calls rq) (rq_next rq) (rq_results rq)
    (rq_claims rq) (rq_log rq ++ [l]).
Definition close_request (r : nat) (rq : Requests) : Requests :=
  mkRequests (rq_core rq) (rq_capacity rq) (rq_topics rq) (rq_interests rq) (rq_tasks rq) (rq_protocol rq)
    (rq_futures rq) (rq_requests rq) ({[ r ]} ∪ rq_closed rq) (rq_calls rq) (rq_next rq) (rq_results rq)
    (rq_claims rq) (rq_log rq).

(** A call returns or raises. *)
Definition finish (n : nat) (r : res (option nat)) (rq : Requests) : Requests :=
  mkRequests (rq_core rq) (rq_capacity rq) (rq_topics rq) (rq_interests rq) (rq_tasks rq) (rq_protocol rq)
    (rq_futures rq) (rq_requests rq) (rq_closed rq) (delete n (rq_calls rq)) (rq_next rq) (rq_results rq ++ [(n, r)])
    (rq_claims rq) (rq_log rq).

Definition interest_at (rq : Requests) (i : nat) : TopicInterest :=
  match rq_interests rq !! i with Some v => v | None => mkInterest 0 None end.
Definition task_at (rq : Requests) (t : nat) : ready_state :=
  match rq_tasks rq !! t with Some v => v | None => TRunning end.
Definition future_at (rq : Requests) (f : nat) : FutState :=
  match rq_futures rq !! f with Some v => v | None => FPending end.

(** [if not future.done(): ...] *)
Definition settle_future (f : nat) (v : FutState) (rq : Requests) : Requests :=
  if fut_done (future_at rq f) then rq else set_futures (<[f := v]> (rq_futures rq)) rq.

(** What a coroutine ends with when [raising] is the exception in flight. *)
Definition ending (raising : option exn) : res (option nat) :=
  match raising with Some e => Err e | None => Ok None end.

(** ** Topics *)

(** [_ensure_topic_ready] *)
Definition _ensure_topic_ready (topic : pystr) (i : nat) (rq : Requests) : res nat * Requests :=
  match ti_ready (interest_at rq i) with
  | Some t => (Ok t, rq)
  | None =>
    if negb (rq_protocol rq) then (Err (MQTTDisconnectedError "Not connected"), rq)
    else
      let t := rq_next rq in
      let rq := add_log (LAdd topic) (set_task t TRunning rq) in
      let rq := set_interest i (mkInterest (ti_refcount (interest_at rq i)) (Some t)) rq in
      (Ok t, mkRequests (rq_core rq) (rq_capacity rq) (rq_topics rq) (rq_interests rq) (rq_tasks rq) (rq_protocol rq)
               (rq_futures rq) (rq_requests rq) (rq_closed rq) (rq_calls rq) (S t) (rq_results rq) (rq_claims rq) (rq_log rq))
  end.

(** ** [unregister] *)

(** The inner [finally] clause and the outer one: the last user of a topic drops it. *)
Definition leave_topic (n : nat) (key : RequestKey) (i : nat) (observer_active : bool) (raising : option exn)
    (rq : Requests) : Requests :=
  if (ti_refcount (interest_at rq i) =? 0) && bool_decide (rq_topics rq !! key.1 = Some i) then
    let rq := set_topics (delete key.1 (rq_topics rq)) rq in
    if observer_active && rq_protocol rq then set_call n (RRemoving raising) (add_log (LRemove key.1) rq)
    else finish n (ending raising) (add_capacity 1 rq)
  else finish n (ending raising) (add_capacity 1 rq).

(** [await asyncio.shield(ready)] in [unregister]: now if the task is done. *)
Definition await_leaving (n : nat) (key : RequestKey) (i t : nat) (raising : option exn) (rq : Requests) : Requests :=
  match task_at rq t with
  | TRunning => set_call n (RLeaving key i t raising) rq
  | TDone => leave_topic n key i true raising rq
  | TFailed e => leave_topic n key i false (Some e) rq
  end.

Definition unregister (n : nat) (key : RequestKey) (request : nat) (raising : option exn) (rq : Requests) : Requests :=
  match pending_of rq !! key with
  | Some p =>
    if (pr_ref p =? request)%nat then
      let rq := set_pending (delete key (pending_of rq)) rq in
      let rq := settle_future (pr_future p) FCancelled rq in
      match rq_topics rq !! key.1 with
      | None => finish n (Err KeyError) (add_capacity 1 rq)
      | Some i =>
        let interest := mkInterest (ti_refcount (interest_at rq i) - 1) (ti_ready (interest_at rq i)) in
        let rq := set_interest i interest rq in
        if 0 <? ti_refcount interest then finish n (ending raising) (add_capacity 1 rq)
        else
          match ti_ready interest with
          | None => leave_topic n key i false raising rq
          | Some t => await_leaving n key i t raising rq
          end
      end
    else finish n (ending raising) rq
  | None => finish n (ending raising) rq
  end.

(** ** [register] *)

(** [await asyncio.shield(...)] in [register]: now if the task is done. *)
Definition await_ready (n : nat) (key : RequestKey) (request t : nat) (rq : Requests) : Requests :=
  match task_at rq t with
  | TRunning => set_call n (RRegister key request t) rq
  | TDone => finish n (Ok (Some request)) rq
  | TFailed e => unregister n key request (Some e) rq
  end.

(** A new [_PendingRequest] with its future, and the interest of its topic. *)
Definition add_pending (key : RequestKey) (rq : Requests) : nat * nat * Requests :=
  let request := rq_next rq in
  let future := S request in
  let '(i, interest, topics) := match rq_topics rq !! key.1 with
                                | Some i => (i, interest_at rq i, rq_topics rq)
                                | None => (S future, mkInterest 0 None, <[key.1 := S future]> (rq_topics rq))
                                end in
  (request, i,
   mkRequests (mkDispatcher (<[key := mkPending request future false]> (pending_of rq)) (d_generation (rq_core rq)))
     (rq_capacity rq) topics (<[i := mkInterest (ti_refcount interest + 1) (ti_ready interest)]> (rq_interests rq))
     (rq_tasks rq) (rq_protocol rq) (<[future := FPending]> (rq_futures rq))
     (<[request := (key, future)]> (rq_requests rq)) (rq_closed rq ∖ {[ request ]}) (rq_calls rq) (S (S future)) (rq_results rq)
     (rq_claims rq) (rq_log rq)).

(** The body of [register], with the capacity acquired. *)
Definition register (n : nat) (key : RequestKey) (rq : Requests) : Requests :=
  match pending_of rq !! key with
  | Some _ =>
    finish n (Err (ValueError "correlation_data is already in use for this response_topic")) (add_capacity 1 rq)
  | None =>
    if negb (rq_protocol rq) then finish n (Err (MQTTDisconnectedError "Not connected")) (add_capacity 1 rq)
    else
      let '(request, i, rq) := add_pending key rq in
      match _ensure_topic_ready key.1 i rq with
      | (Ok t, rq) => await_ready n key request t rq
      | (Err e, rq) => unregister n key request (Some e) rq
      end
  end.

(** ** Responses *)

(** [claim], on the part of the state it uses. *)
Definition claim_response (d : Dispatcher) (futures : gmap nat FutState) (message : Message)
    : option (ClaimedResponse * Dispatcher) :=
  match msg_properties message with
  | None => None
  | Some props =>
    match pp_correlation_data props with
    | None => None
    | Some data =>
      let key := (msg_topic message, data) in
      match d_pending d !! key with
      | None => None
      | Some p =>
        let state := match futures !! pr_future p with Some st => st | None => FPending end in
        if pr_claimed p || fut_done state then None
        else Some (mkClaimed (pr_ref p) key message (d_generation d),
                   mkDispatcher (<[key := mkPending (pr_ref p) (pr_future p) true]> (d_pending d)) (d_generation d))
      end
    end
  end.

Definition claim_message (message : Message) (rq : Requests) : Requests :=
  match claim_response (rq_core rq) (rq_futures rq) message with
  | None => rq
  | Some (c, d) =>
    mkRequests d (rq_capacity rq) (rq_topics rq) (rq_interests rq) (rq_tasks rq) (rq_protocol rq)
      (rq_futures rq) (rq_requests rq) (rq_closed rq) (rq_calls rq) (rq_next rq) (rq_results rq)
      (rq_claims rq ++ [c]) (rq_log rq)
  end.

(** The request [complete] resolves: still registered under its key, on the same connection. *)
Definition completes (d : Dispatcher) (response : ClaimedResponse) : option nat :=
  match d_pending d !! cr_key response with
  | Some p => if (d_generation d =? cr_generation response) && (pr_ref p =? cr_pending response)%nat
              then Some (pr_future p) else None
  | None => None
  end.

Definition complete_response (response : ClaimedResponse) (rq : Requests) : Requests :=
  match completes (rq_core rq) response with
  | Some f => settle_future f (FResult (VMessage (cr_message response))) rq
  | None => rq
  end.

(** ** Connections *)

(** [bind] *)
Definition bind (rq : Requests) : Requests :=
  mkRequests
    (mkDispatcher ((fun p => mkPending (pr_ref p) (pr_future p) false) <$> pending_of rq) (d_generation (rq_core rq) + 1))
    (rq_capacity rq) (rq_topics rq)
    (map_fold (fun _ i m => <[i := mkInterest (ti_refcount (interest_at rq i)) None]> m) (rq_interests rq) (rq_topics rq))
    (rq_tasks rq) true (rq_futures rq) (rq_requests rq) (rq_closed rq) (rq_calls rq) (rq_next rq) (rq_results rq)
    (rq_claims rq) (rq_log rq).

(** The loop of [restore]. *)
Fixpoint restore (n : nat) (todo : list (pystr * nat)) (rq : Requests) : Requests :=
  match todo with
  | [] => finish n (Ok None) rq
  | (topic, i) :: todo' =>
    if 0 <? ti_refcount (interest_at rq i) then
      match _ensure_topic_ready topic i rq with
      | (Err e, rq) => finish n (Err e) rq
      | (Ok t, rq) =>
        match task_at rq t with
        | TRunning => set_call n (RRestore todo' t) rq
        | TDone => restore n todo' rq
        | TFailed e => finish n (Err e) rq
        end
      end
    else restore n todo' rq
  end.

(** [cancel_pending]; the tasks it cancels end later. *)
Definition fail_requests (ps : list PendingRequest) (rq : Requests) : Requests :=
  foldl (fun rq p => add_capacity 1
           (settle_future (pr_future p) (FException (MQTTDisconnectedError "Client disconnected")) rq)) rq ps.

Definition cancel_pending (rq : Requests) : Requests :=
  let ps := map snd (map_to_list (pending_of rq)) in
  fail_requests ps
    (mkRequests (mkDispatcher ∅ (d_generation (rq_core rq) + 1)) (rq_capacity rq) ∅ (rq_interests rq) (rq_tasks rq) false
       (rq_futures rq) (rq_requests rq) (rq_closed rq) (rq_calls rq) (rq_next rq) (rq_results rq) (rq_claims rq) (rq_log rq)).

(** ** Steps *)

Inductive request_event : Type :=
| RqRegister (n : nat) (key : RequestKey)      (** call [n] of [register] begins *)
| RqPermit (n : nat)                           (** the semaphore lets it in *)
| RqTask (t : nat) (st : ready_state)          (** [add_response_observer] has ended *)
| RqResume (n : nat)                           (** the task a call waits for is done *)
| RqCancel (n : nat)                           (** CancelledError is thrown into a call *)
| RqRemoved (n : nat) (raised : option exn)    (** [remove_response_observer] has ended *)
| RqClose (n : nat) (request : nat)            (** [_PendingRequest.close] *)
| RqGiveUp (request : nat)                     (** the requester's [wait_for] cancels the future *)
| RqClaim (message : Message)
| RqComplete (response : nat)                  (** the flow delivers a response claimed before *)
| RqBind
| RqRestore (n : nat)
| RqCancelPending.

Definition drop_call (n : nat) (rq : Requests) : Requests :=
  mkRequests (rq_core rq) (rq_capacity rq) (rq_topics rq) (rq_interests rq) (rq_tasks rq) (rq_protocol rq)
    (rq_futures rq) (rq_requests rq) (rq_closed rq) (delete n (rq_calls rq)) (rq_next rq) (rq_results rq)
    (rq_claims rq) (rq_log rq).

Definition resume_call (n : nat) (call : request_call) (rq : Requests) : Requests :=
  match call with
  | RRegister key request t =>
    match task_at rq t with TRunning => rq | _ => await_ready n key request t (drop_call n rq) end
  | RLeaving key i t raising =>
    match task_at rq t with TRunning => rq | _ => await_leaving n key i t raising (drop_call n rq) end
  | RRestore todo t =>
    match task_at rq t with
    | TRunning => rq
    | TDone => restore n todo (drop_call n rq)
    | TFailed e => finish n (Err e) rq
    end
  | _ => rq
  end.

Definition cancel_call (n : nat) (call : request_call) (rq : Requests) : Requests :=
  match call with
  | RAcquire _ => finish n (Err CancelledError) rq
  | RRegister key request _ => unregister n key request (Some CancelledError) (drop_call n rq)
  | RLeaving key i _ _ => leave_topic n key i false (Some CancelledError) (drop_call n rq)
  | RRemoving _ => finish n (Err CancelledError) (add_capacity 1 rq)
  | RRestore _ _ => finish n (Err CancelledError) rq
  end.

(** One event; one that is not possible now changes nothing. *)
Definition request_step (rq : Requests) (ev : request_event) : Requests :=
  match ev with
  | RqRegister n key => match rq_calls rq !! n with Some _ => rq | None => set_call n (RAcquire key) rq end
  | RqPermit n =>
    match rq_calls rq !! n with
    | Some (RAcquire key) => if 0 <? rq_capacity rq then register n key (add_capacity (-1) (drop_call n rq)) else rq
    | _ => rq
    end
  | RqTask t st => match rq_tasks rq !! t with Some TRunning => set_task t st rq | _ => rq end
  | RqResume n => match rq_calls rq !! n with Some call => resume_call n call rq | None => rq end
  | RqCancel n => match rq_calls rq !! n with Some call => cancel_call n call rq | None => rq end
  | RqRemoved n raised =>
    match rq_calls rq !! n with
    | Some (RRemoving raising) =>
      finish n (ending (match raised with Some e => Some e | None => raising end)) (add_capacity 1 rq)
    | _ => rq
    end
  | RqClose n request =>
    match rq_calls rq !! n, rq_requests rq !! request with
    | None, Some (key, _) =>
      if bool_decide (request ∈ rq_closed rq) then finish n (Ok None) rq
      else unregister n key request None (close_request request rq)
    | _, _ => rq
    end
  | RqGiveUp request =>
    match rq_requests rq !! request with Some (_, f) => settle_future f FCancelled rq | None => rq end
  | RqClaim message => claim_message message rq
  | RqComplete c => match rq_claims rq !! c with Some response => complete_response response rq | None => rq end
  | RqBind => bind rq
  | RqRestore n =>
    match rq_calls rq !! n with Some _ => rq | None => restore n (map_to_list (rq_topics rq)) rq end
  | RqCancelPending => cancel_pending rq
  end.

Definition request_steps (rq : Requests) (evs : list request_event) : Requests := foldl request_step rq evs.


(** ** Claiming *)

(** The message is a response to the request registered under [key]. *)
Definition answers (message : Message) (key : RequestKey) : Prop :=
  exists props, msg_properties message = Some props /\ pp_correlation_data props = Some key.2 /\ msg_topic message = key.1.

Lemma claim_response_Some d futures m c d' :
  claim_response d futures m = Some (c, d') ->
  exists data p, let key := (msg_topic m, data) in
    answers m key /\ d_pending d !! key = Some p /\ pr_claimed p = false /\
    fut_done (match futures !! pr_future p with Some st => st | None => FPending end) = false /\
    c = mkClaimed (pr_ref p) key m (d_generation d) /\
    d' = mkDispatcher (<[key := mkPending (pr_ref p) (pr_future p) true]> (d_pending d)) (d_generation d).
Proof.
  unfold claim_response. destruct (msg_properties m) as [props|] eqn:Em; [|done].
  destruct (pp_correlation_data props) as [data|] eqn:Ed; [|done].
  destruct (d_pending d !! (msg_topic m, data)) as [p|] eqn:Hp; [|done].
  destruct (pr_claimed p || _) eqn:E; [done|]. apply orb_false_iff in E as [E1 E2]. intros [= <- <-].
  exists data, p. split_and!; try done. by exists props.
Qed.

(** The inbound flow's [claim] and [complete] are these, on the dispatcher and the futures of the
    connection's state. *)
Lemma claim_agrees m s d :
  e_dispatcher s = Some d ->
  claim m s = match claim_response d (e_futures s) m with
              | Some (c, d') => (Ok (Some c), set_e_dispatcher (Some d') s)
              | None => (Ok None, s)
              end.
Proof.
  intros Hd. unfold claim, mbind, M_bind, claim_response. cbn [asks]. rewrite Hd.
  destruct (msg_properties m) as [props|]; [|done]. destruct (pp_correlation_data props) as [data|]; [|done].
  cbn zeta. destruct (d_pending d !! _) as [p|]; [|done]. unfold is_done. cbn [asks]. unfold fut_state.
  by destruct (pr_claimed p || fut_done _).
Qed.

Lemma complete_agrees c s d :
  e_dispatcher s = Some d ->
  complete c s = match completes d c with
                 | Some f => (Ok tt, if fut_done (fut_state s f) then s
                                     else set_e_futures (<[f := FResult (VMessage (cr_message c))]> (e_futures s)) s)
                 | None => (Ok tt, s)
                 end.
Proof.
  intros Hd. unfold complete, mbind, M_bind, completes. cbn [asks]. rewrite Hd.
  destruct (d_pending d !! _) as [p|]; [|done]. destruct (_ && _); [|done].
  unfold unless_done, is_done, mbind, M_bind, set_result, resolve. cbn [asks].
  destruct (fut_done (fut_state s (pr_future p))) eqn:E; [done|]. by rewrite E.
Qed.

(** ** The capacity

    Every permit is free, held by a registered request, or held by a call that is leaving. *)

Definition is_leaving (call : request_call) : bool :=
  match call with RLeaving _ _ _ _ | RRemoving _ => true | _ => false end.

(** [held] permits are in the hands of the code that runs. *)
Record capacity_ok (held max : Z) (rq : Requests) : Prop := {
  cp_sum : rq_capacity rq + pending_count rq + Z.of_nat (count is_leaving (rq_calls rq)) + held = max;
  cp_nonneg : 0 <= rq_capacity rq
}.

(** The call runs: it is not among the suspended ones. *)
Definition running (n : nat) (rq : Requests) : Prop := rq_calls rq !! n = None.

Lemma running_drop n rq : running n (drop_call n rq).
Proof. apply lookup_delete_eq. Qed.

Lemma finish_drop n r rq : finish n r (drop_call n rq) = finish n r rq.
Proof. unfold finish, drop_call. cbn. by rewrite delete_delete_eq. Qed.

Section capacity.
Context (max : Z).

Lemma capacity_same held rq rq' :
  rq_capacity rq' = rq_capacity rq -> size (pending_of rq') = size (pending_of rq) -> rq_calls rq' = rq_calls rq ->
  capacity_ok held max rq -> capacity_ok held max rq'.
Proof. intros E1 E2 E3 [H1 H2]. unfold pending_count in *. split; unfold pending_count; rewrite ?E1, ?E2, ?E3; done. Qed.

Lemma capacity_release held rq : capacity_ok (held + 1) max rq -> capacity_ok held max (add_capacity 1 rq).
Proof. intros [H1 H2]. split; cbn in *; unfold pending_count in *; cbn in *; lia. Qed.

Lemma capacity_finish held n r rq : running n rq -> capacity_ok held max rq -> capacity_ok held max (finish n r rq).
Proof. intros Hn. unfold finish. rewrite delete_id by done. by apply capacity_same. Qed.

(** A suspended call becomes the one that runs, with its permit. *)
Lemma capacity_drop n call rq :
  rq_calls rq !! n = Some call -> capacity_ok 0 max rq -> capacity_ok (Z.b2z (is_leaving call)) max (drop_call n rq).
Proof.
  intros Hn [H1 H2]. split; [|done]. cbn. pose proof (count_delete is_leaving _ _ _ Hn). unfold pending_count in *. cbn.
  destruct (is_leaving call); cbn in *; lia.
Qed.

Lemma capacity_call n call rq :
  running n rq -> capacity_ok (Z.b2z (is_leaving call)) max rq -> capacity_ok 0 max (set_call n call rq).
Proof.
  intros Hn [H1 H2]. split; [|done]. cbn. rewrite count_insert by done. unfold pending_count in *. cbn.
  destruct (is_leaving call); cbn in *; lia.
Qed.

Lemma capacity_settle held f v rq : capacity_ok held max rq -> capacity_ok held max (settle_future f v rq).
Proof. unfold settle_future. destruct (fut_done _); [done|by apply capacity_same]. Qed.

Lemma capacity_leave_topic n key i active raising rq :
  running n rq -> capacity_ok 1 max rq -> capacity_ok 0 max (leave_topic n key i active raising rq).
Proof.
  intros Hn Hc. unfold leave_topic. destruct (_ && _).
  - destruct (active && _).
    + apply capacity_call; [done|]. revert Hc. by apply capacity_same.
    + apply capacity_finish; [done|]. apply capacity_release. revert Hc. by apply capacity_same.
  - apply capacity_finish; [done|]. by apply capacity_release.
Qed.

Lemma capacity_await_leaving n key i t raising rq :
  running n rq -> capacity_ok 1 max rq -> capacity_ok 0 max (await_leaving n key i t raising rq).
Proof.
  intros Hn Hc. unfold await_leaving. destruct (task_at rq t); [by apply capacity_call|..]; by apply capacity_leave_topic.
Qed.

Lemma running_settle n f v rq : running n rq -> running n (settle_future f v rq).
Proof. unfold settle_future. by destruct (fut_done _). Qed.

Lemma capacity_unregister n key request raising rq :
  running n rq -> capacity_ok 0 max rq -> capacity_ok 0 max (unregister n key request raising rq).
Proof.
  intros Hn Hc. unfold unregister. destruct (pending_of rq !! key) as [p|] eqn:Hp; [|by apply capacity_finish].
  destruct (pr_ref p =? request)%nat; [|by apply capacity_finish].
  set (rq1 := settle_future _ _ _).
  assert (running n rq1) as Hn1 by (by apply running_settle).
  assert (capacity_ok 1 max rq1) as Hc1.
  { apply capacity_settle. destruct Hc as [H1 H2]. split; [|done]. unfold pending_count in *. cbn.
    assert (size (pending_of rq) <> 0%nat) by (intros E%map_size_empty_inv; by rewrite E, lookup_empty in Hp).
    rewrite map_size_delete, Hp. lia. }
  destruct (rq_topics rq1 !! key.1) as [i|]; [|apply capacity_finish; [done|by apply capacity_release]].
  cbn zeta. set (rq2 := set_interest _ _ _).
  assert (capacity_ok 1 max rq2) by (revert Hc1; by apply capacity_same).
  destruct (0 <? _); [apply capacity_finish; [done|by apply capacity_release]|].
  destruct (ti_ready _); [by apply capacity_await_leaving|by apply capacity_leave_topic].
Qed.

Lemma capacity_await_ready n key request t rq :
  running n rq -> capacity_ok 0 max rq -> capacity_ok 0 max (await_ready n key request t rq).
Proof.
  intros Hn Hc. unfold await_ready. destruct (task_at rq t); [by apply capacity_call|by apply capacity_finish|].
  by apply capacity_unregister.
Qed.

Lemma ensure_same topic i rq r rq' :
  _ensure_topic_ready topic i rq = (r, rq') ->
  rq_core rq' = rq_core rq /\ rq_capacity rq' = rq_capacity rq /\ rq_calls rq' = rq_calls rq /\
  rq_topics rq' = rq_topics rq /\ rq_futures rq' = rq_futures rq /\ rq_requests rq' = rq_requests rq /\
  rq_claims rq' = rq_claims rq /\ (rq_next rq <= rq_next rq')%nat /\
  (forall j, ti_refcount (interest_at rq' j) = ti_refcount (interest_at rq j)).
Proof.
  unfold _ensure_topic_ready. destruct (ti_ready _) as [t|]; [intros [= <- <-]; split_and!; done|].
  destruct (negb _); [intros [= <- <-]; split_and!; done|]. intros [= <- <-]. cbn. split_and!; try done; [lia|].
  intros j. unfold interest_at at 1. cbn. destruct (decide (i = j)) as [->|]; [by rewrite lookup_insert_eq|].
  by rewrite lookup_insert_ne.
Qed.

Lemma capacity_ensure held topic i rq r rq' :
  _ensure_topic_ready topic i rq = (r, rq') -> capacity_ok held max rq -> capacity_ok held max rq'.
Proof. intros (E1 & E2 & E3 & _)%ensure_same. apply capacity_same; [done|by rewrite E1|done]. Qed.

Lemma running_ensure n topic i rq r rq' : _ensure_topic_ready topic i rq = (r, rq') -> running n rq -> running n rq'.
Proof. intros (_ & _ & E3 & _)%ensure_same. unfold running. by rewrite E3. Qed.

Lemma capacity_register n key rq : running n rq -> capacity_ok 1 max rq -> capacity_ok 0 max (register n key rq).
Proof.
  intros Hn Hc. unfold register. destruct (pending_of rq !! key) as [p|] eqn:Hp; [apply capacity_finish; [done|by apply capacity_release]|].
  destruct (negb _); [apply capacity_finish; [done|by apply capacity_release]|].
  destruct (add_pending key rq) as [[request i] rq1] eqn:Ea.
  assert (running n rq1 /\ capacity_ok 0 max rq1) as [Hn1 Hc1].
  { unfold add_pending in Ea. destruct Hc as [H1 H2].
    destruct (rq_topics rq !! key.1); injection Ea as <- <- <-; (split; [done|]); (split; [|done]);
      unfold pending_count in *; cbn; rewrite map_size_insert_None by done; lia. }
  destruct (_ensure_topic_ready key.1 i rq1) as [[t|e] rq2] eqn:Ee.
  - apply capacity_await_ready; [by eapply running_ensure|by eapply capacity_ensure].
  - apply capacity_unregister; [by eapply running_ensure|by eapply capacity_ensure].
Qed.

Lemma capacity_restore n todo rq : running n rq -> capacity_ok 0 max rq -> capacity_ok 0 max (restore n todo rq).
Proof.
  revert rq; induction todo as [|[topic i] todo IH]; intros rq Hn Hc; cbn; [by apply capacity_finish|].
  destruct (0 <? _); [|by apply IH].
  destruct (_ensure_topic_ready topic i rq) as [[t|e] rq2] eqn:Ee.
  - pose proof (running_ensure n _ _ _ _ _ Ee Hn). pose proof (capacity_ensure _ _ _ _ _ _ Ee Hc).
    destruct (task_at rq2 t); [by apply capacity_call|by apply IH|by apply capacity_finish].
  - apply capacity_finish; [by eapply running_ensure|by eapply capacity_ensure].
Qed.

Lemma capacity_fail held ps rq :
  capacity_ok (held + zlen ps) max rq -> capacity_ok held max (fail_requests ps rq).
Proof.
  revert rq; induction ps as [|p ps IH]; intros rq Hc; cbn; [by rewrite Z.add_0_r in Hc|].
  apply IH, capacity_release, capacity_settle. by replace (held + zlen ps + 1) with (held + zlen (p :: ps)) by zlen_lia.
Qed.

Lemma capacity_cancel_pending rq : capacity_ok 0 max rq -> capacity_ok 0 max (cancel_pending rq).
Proof.
  intros [H1 H2]. apply capacity_fail. split; [|done]. unfold pending_count in *. cbn.
  rewrite map_size_empty, zlen_map. unfold zlen. rewrite length_map_to_list. lia.
Qed.

Lemma capacity_step rq ev : capacity_ok 0 max rq -> capacity_ok 0 max (request_step rq ev).
Proof.
  intros Hc. destruct ev as [n key|n|t st|n|n|n raised|n request|request|message|c| |n|]; cbn [request_step].
  - destruct (rq_calls rq !! n) eqn:Hn; [done|by apply capacity_call].
  - destruct (rq_calls rq !! n) as [[key| | | |]|] eqn:Hn; try done. destruct (0 <? rq_capacity rq) eqn:E; [|done]. zbool.
    apply (capacity_drop _ _ _ Hn) in Hc. apply capacity_register; [apply running_drop|].
    destruct Hc as [H1 H2]. split; cbn in *; unfold pending_count in *; cbn in *; lia.
  - destruct (rq_tasks rq !! t) as [[]|]; try done. revert Hc. by apply capacity_same.
  - destruct (rq_calls rq !! n) as [call|] eqn:Hn; [|done]. pose proof (capacity_drop _ _ _ Hn Hc) as Hd.
    pose proof (running_drop n rq) as Hr. destruct call as [key|key request t|key i t raising|raising|todo t]; cbn; try done.
    + destruct (task_at rq t); try done; by apply capacity_await_ready.
    + destruct (task_at rq t); try done; by apply capacity_await_leaving.
    + destruct (task_at rq t); try done; [by apply capacity_restore|].
      rewrite <-finish_drop. by apply capacity_finish.
  - destruct (rq_calls rq !! n) as [call|] eqn:Hn; [|done]. pose proof (capacity_drop _ _ _ Hn Hc) as Hd.
    pose proof (running_drop n rq) as Hr. destruct call as [key|key request t|key i t raising|raising|todo t]; cbn.
    + rewrite <-finish_drop. by apply capacity_finish.
    + by apply capacity_unregister.
    + by apply capacity_leave_topic.
    + rewrite <-finish_drop. apply capacity_finish; [done|]. by apply (capacity_release 0) in Hd.
    + rewrite <-finish_drop. by apply capacity_finish.
  - destruct (rq_calls rq !! n) as [[| | |raising|]|] eqn:Hn; try done. pose proof (capacity_drop _ _ _ Hn Hc) as Hd.
    rewrite <-finish_drop. apply capacity_finish; [apply running_drop|]. by apply (capacity_release 0) in Hd.
  - destruct (rq_calls rq !! n) eqn:Hn; [done|]. destruct (rq_requests rq !! request) as [[key f]|]; [|done].
    case_bool_decide; [by apply capacity_finish|]. apply capacity_unregister; [done|]. revert Hc. by apply capacity_same.
  - destruct (rq_requests rq !! request) as [[key f]|]; [|done]. by apply capacity_settle.
  - unfold claim_message. destruct (claim_response _ _ message) as [[c d]|] eqn:E; [|done].
    apply claim_response_Some in E as (data & p & _ & Hp & _ & _ & _ & ->). revert Hc. apply capacity_same; try done.
    cbn. rewrite map_size_insert_Some; [done|]. by eexists.
  - destruct (rq_claims rq !! c) as [r|]; [|done]. unfold complete_response. destruct (completes _ _); [by apply capacity_settle|done].
  - revert Hc. apply capacity_same; try done. cbn. by rewrite map_size_fmap.
  - destruct (rq_calls rq !! n) eqn:Hn; [done|by apply capacity_restore].
  - by apply capacity_cancel_pending.
Qed.
End capacity.

(** ** The topics

    A topic is kept exactly as long as a request uses it or a call that gave up its last use is
    still waiting for it. *)

Definition topic_users (t : pystr) (pending : gmap RequestKey PendingRequest) : nat :=
  count_if (fun k _ => bool_decide (k.1 = t)) pending.

(** [leaving] is the interest of the call that runs, if it is leaving. *)
Record topics_ok (leaving : option nat) (rq : Requests) : Prop := {
  to_fresh : forall t i, rq_topics rq !! t = Some i -> (i < rq_next rq)%nat;
  to_inj : forall t t' i, rq_topics rq !! t = Some i -> rq_topics rq !! t' = Some i -> t = t';
  to_pending : forall key p, pending_of rq !! key = Some p -> is_Some (rq_topics rq !! key.1);
  to_refcount : forall t i, rq_topics rq !! t = Some i ->
    ti_refcount (interest_at rq i) = Z.of_nat (topic_users t (pending_of rq));
  to_used : forall t i, rq_topics rq !! t = Some i -> ti_refcount (interest_at rq i) = 0 ->
    leaving = Some i \/ exists n key task e, rq_calls rq !! n = Some (RLeaving key i task e);
  to_leaving : forall n key i task e, rq_calls rq !! n = Some (RLeaving key i task e) ->
    (i < rq_next rq)%nat /\ forall t, rq_topics rq !! t = Some i -> t = key.1
}.

Lemma topics_same x rq rq' :
  rq_topics rq' = rq_topics rq -> pending_of rq' = pending_of rq -> rq_calls rq' = rq_calls rq ->
  (rq_next rq <= rq_next rq')%nat -> (forall i, ti_refcount (interest_at rq' i) = ti_refcount (interest_at rq i)) ->
  topics_ok x rq -> topics_ok x rq'.
Proof.
  intros E1 E2 E3 E4 E5 [H1 H2 H3 H4 H5 H6]. split; rewrite ?E1, ?E2, ?E3; intros *; rewrite ?E5; eauto.
  - intros Ht%H1. lia.
  - intros Hn. destruct (H6 _ _ _ _ _ Hn). split; [lia|done].
Qed.

Lemma topics_settle x f v rq : topics_ok x rq -> topics_ok x (settle_future f v rq).
Proof. unfold settle_future. destruct (fut_done _); [done|by apply topics_same]. Qed.

Lemma topics_finish x n r rq : running n rq -> topics_ok x rq -> topics_ok x (finish n r rq).
Proof. intros Hn. unfold finish. rewrite delete_id by done. by apply topics_same. Qed.

Lemma topics_release x k rq : topics_ok x rq -> topics_ok x (add_capacity k rq).
Proof. by apply topics_same. Qed.

(** The interest of a call. *)
Definition call_interest (call : request_call) : option nat :=
  match call with RLeaving _ i _ _ => Some i | _ => None end.

Lemma topics_drop n call rq :
  rq_calls rq !! n = Some call -> topics_ok None rq -> topics_ok (call_interest call) (drop_call n rq).
Proof.
  intros Hn [H1 H2 H3 H4 H5 H6]. split; try done; cbn.
  - intros t i Ht Hz. destruct (H5 t i Ht Hz) as [|(m & key & task & e & Hm)]; [done|].
    destruct (decide (m = n)) as [->|Hne]; [left; by simplify_eq|].
    right. exists m, key, task, e. by rewrite lookup_delete_ne.
  - intros m key i task e [_ Hm]%lookup_delete_Some. by eapply H6.
Qed.

(** A call is suspended. *)
Lemma topics_call x n call rq :
  running n rq -> topics_ok x rq -> (x = call_interest call \/ x = None) ->
  (forall key i task e, call = RLeaving key i task e -> (i < rq_next rq)%nat /\ forall t, rq_topics rq !! t = Some i -> t = key.1) ->
  topics_ok None (set_call n call rq).
Proof.
  intros Hn [H1 H2 H3 H4 H5 H6] Hx Hc. split; try done; cbn.
  - intros t i Ht Hz. right. destruct (H5 t i Ht Hz) as [->|(m & key & task & e & Hm)].
    + destruct Hx as [Hx|]; [|done]. destruct call as [| |key i' task e| |]; try done. cbn in Hx. injection Hx as <-.
      exists n, key, task, e. by rewrite lookup_insert_eq.
    + exists m, key, task, e. rewrite lookup_insert_ne; [done|]. intros <-. unfold running in Hn. congruence.
  - intros m key i task e [[<- ->]|[_ Hm]]%lookup_insert_Some; [by eapply Hc|by eapply H6].
Qed.

Lemma no_users t pending key p : topic_users t pending = 0%nat -> pending !! key = Some p -> key.1 <> t.
Proof.
  intros Hz Hp E. assert (0 < topic_users t pending)%nat; [|lia].
  apply (count_if_pos _ _ key p); [done|by apply bool_decide_eq_true].
Qed.

Lemma topics_leave_topic n key i active raising rq :
  running n rq -> topics_ok (Some i) rq -> (forall t, rq_topics rq !! t = Some i -> t = key.1) ->
  topics_ok None (leave_topic n key i active raising rq).
Proof.
  intros Hn Hok Hi. unfold leave_topic.
  destruct ((ti_refcount (interest_at rq i) =? 0) && _) eqn:E.
  - apply andb_true_iff in E as [Ez Et]. zbool. apply bool_decide_eq_true in Et.
    assert (topics_ok None (set_topics (delete key.1 (rq_topics rq)) rq)) as Hok'.
    { destruct Hok as [H1 H2 H3 H4 H5 H6]. split; cbn.
      - intros t j [_ Ht]%lookup_delete_Some. by eapply H1.
      - intros t t' j [_ Ht]%lookup_delete_Some [_ Ht']%lookup_delete_Some. by eapply H2.
      - intros k p Hp. rewrite lookup_delete_ne; [by eapply H3|]. intros E.
        assert (topic_users key.1 (pending_of rq) = 0%nat) as Hz by (specialize (H4 _ _ Et); lia).
        by apply (no_users _ _ _ _ Hz Hp).
      - intros t j [_ Ht]%lookup_delete_Some. by apply H4.
      - intros t j [Hne Ht]%lookup_delete_Some Hz. destruct (H5 t j Ht Hz) as [[= <-]|?]; [|by right].
        destruct Hne. symmetry. by apply Hi.
      - intros m k j task e Hm. destruct (H6 _ _ _ _ _ Hm) as [? Hk]. split; [done|].
        intros t [_ Ht]%lookup_delete_Some. by apply Hk. }
    destruct (active && _).
    + apply (topics_call None); [done| |by left|done]. revert Hok'. by apply topics_same.
    + apply topics_finish; [done|]. by apply topics_release.
  - apply topics_finish; [done|]. apply topics_release. destruct Hok as [H1 H2 H3 H4 H5 H6]. split; try done.
    intros t j Ht Hz. destruct (H5 t j Ht Hz) as [[= <-]|?]; [|by right].
    rewrite <-(Hi t Ht) in E. rewrite Hz, bool_decide_eq_true_2 in E by done. done.
Qed.

Lemma topics_await_leaving n key i t raising rq :
  running n rq -> topics_ok (Some i) rq -> (i < rq_next rq)%nat -> (forall t, rq_topics rq !! t = Some i -> t = key.1) ->
  topics_ok None (await_leaving n key i t raising rq).
Proof.
  intros Hn Hok Hlt Hi. unfold await_leaving. destruct (task_at rq t); [|by apply topics_leave_topic..].
  apply (topics_call (Some i)); [done|done|by left|]. by intros ? ? ? ? [= <- <- <- <-].
Qed.

Lemma users_delete t key p pending :
  pending !! key = Some p ->
  (topic_users t (delete key pending) + Nat.b2n (bool_decide (key.1 = t)))%nat = topic_users t pending.
Proof. intros Hp. apply (count_if_delete (fun k _ => bool_decide (k.1 = t)) pending key p Hp). Qed.

Lemma interest_at_set rq i v j : interest_at (set_interest i v rq) j = if decide (i = j) then v else interest_at rq j.
Proof.
  unfold interest_at. cbn. case_decide as E; [subst; by rewrite lookup_insert_eq|by rewrite lookup_insert_ne].
Qed.

(** The waiter is gone, and its topic has one user less. *)
Lemma topics_forget key p i ready rq :
  topics_ok None rq -> pending_of rq !! key = Some p -> rq_topics rq !! key.1 = Some i ->
  topics_ok (Some i) (set_interest i (mkInterest (ti_refcount (interest_at rq i) - 1) ready)
                        (set_pending (delete key (pending_of rq)) rq)).
Proof.
  intros [H1 H2 H3 H4 H5 H6] Hp Hi. split; cbn; try done.
  - intros k q [_ Hq]%lookup_delete_Some. by eapply H3.
  - intros t j Ht. rewrite interest_at_set. pose proof (users_delete t key p _ Hp) as Hu. destruct (decide (i = j)) as [E|E].
    + subst j. assert (t = key.1) as -> by (by eapply H2). cbn. rewrite (H4 _ _ Ht).
      rewrite bool_decide_eq_true_2 in Hu by done. cbn in Hu. lia.
    + rewrite bool_decide_eq_false_2 in Hu by (intros <-; congruence). cbn in Hu.
      change (interest_at (set_pending _ rq) j) with (interest_at rq j). rewrite (H4 _ _ Ht). lia.
  - intros t j Ht. rewrite interest_at_set. case_decide as E; [subst; by left|]. intros Hz. right.
    by destruct (H5 t j Ht Hz).
Qed.

Lemma topics_unregister n key request raising rq :
  running n rq -> topics_ok None rq -> topics_ok None (unregister n key request raising rq).
Proof.
  intros Hn Hok. unfold unregister. destruct (pending_of rq !! key) as [p|] eqn:Hp; [|by apply topics_finish].
  destruct (pr_ref p =? request)%nat; [|by apply topics_finish].
  destruct (to_pending _ _ Hok _ _ Hp) as [i Hi].
  set (rq0 := set_pending _ rq). set (rq1 := settle_future _ _ rq0).
  assert (rq_topics rq1 = rq_topics rq /\ interest_at rq1 = interest_at rq /\ rq_next rq1 = rq_next rq /\ running n rq1) as (E1 & E2 & E3 & Hn1).
  { subst rq1. unfold settle_future. by destruct (fut_done _). }
  rewrite E1, Hi, E2. cbn zeta. set (interest := mkInterest _ _). set (rq2 := set_interest i interest rq1).
  assert (topics_ok (Some i) rq2) as Hok2.
  { subst rq2 rq1. pose proof (topics_forget key p i (ti_ready interest) rq Hok Hp Hi) as Hf. revert Hf.
    by apply topics_same; unfold settle_future; destruct (fut_done _). }
  assert (forall t, rq_topics rq2 !! t = Some i -> t = key.1) as Hi2.
  { intros t. change (rq_topics rq2) with (rq_topics rq1). rewrite E1. intros Ht. by apply (to_inj _ _ Hok t key.1 i). }
  destruct (0 <? ti_refcount interest) eqn:E; zbool.
  - apply topics_finish; [done|]. apply topics_release. destruct Hok2 as [H1 H2 H3 H4 H5 H6]. split; try done.
    intros t j Ht Hz. destruct (H5 t j Ht Hz) as [[= <-]|?]; [|by right].
    unfold rq2 in Hz. rewrite interest_at_set, decide_True in Hz by done. lia.
  - destruct (ti_ready interest) as [t|]; [|by apply topics_leave_topic].
    apply topics_await_leaving; try done. change (rq_next rq2) with (rq_next rq1). rewrite E3. by eapply to_fresh.
Qed.

Lemma topics_await_ready n key request t rq :
  running n rq -> topics_ok None rq -> topics_ok None (await_ready n key request t rq).
Proof.
  intros Hn Hok. unfold await_ready. destruct (task_at rq t); [|by apply topics_finish|by apply topics_unregister].
  apply (topics_call None); [done|done|by left|done].
Qed.

Lemma topics_ensure x topic i rq r rq' : _ensure_topic_ready topic i rq = (r, rq') -> topics_ok x rq -> topics_ok x rq'.
Proof. intros (E1 & E2 & E3 & E4 & E5 & E6 & E7 & E8 & E9)%ensure_same. apply topics_same; try done. by rewrite E1. Qed.

Lemma topics_add_pending key rq request i rq' :
  topics_ok None rq -> pending_of rq !! key = None -> add_pending key rq = (request, i, rq') ->
  topics_ok None rq' /\ rq_calls rq' = rq_calls rq.
Proof.
  intros [H1 H2 H3 H4 H5 H6] Hk Ha. unfold add_pending in Ha.
  assert (forall t p, (topic_users t (<[key := p]> (pending_of rq)) = topic_users t (pending_of rq) + Nat.b2n (bool_decide (key.1 = t)))%nat) as Hu.
  { intros t p. by apply (count_if_insert (fun k _ => bool_decide (k.1 = t))). }
  destruct (rq_topics rq !! key.1) as [j|] eqn:Ej; injection Ha as <- <- <-; (split; [|done]); split; cbn.
  - intros t i' Ht. specialize (H1 _ _ Ht). lia.
  - done.
  - intros k p [[<- <-]|[_ Hp]]%lookup_insert_Some; [by rewrite Ej|by eapply H3].
  - intros t i Ht. rewrite Hu. unfold interest_at at 1. cbn. destruct (decide (j = i)) as [->|Hne].
    + assert (t = key.1) as -> by (by eapply H2). rewrite lookup_insert_eq, (H4 _ _ Ht), bool_decide_eq_true_2 by done. cbn. lia.
    + rewrite lookup_insert_ne, bool_decide_eq_false_2 by (done || intros <-; congruence). fold (interest_at rq i).
      rewrite (H4 _ _ Ht). cbn. lia.
  - intros t i Ht. unfold interest_at at 1. cbn. destruct (decide (j = i)) as [->|Hne].
    + rewrite lookup_insert_eq. cbn. rewrite (H4 _ _ Ht). lia.
    + rewrite lookup_insert_ne by done. by apply (H5 t).
  - intros n k i task e Hn. destruct (H6 _ _ _ _ _ Hn). split; [lia|done].
  - intros t i [[<- <-]|[_ Ht]]%lookup_insert_Some; [lia|]. specialize (H1 _ _ Ht). lia.
  - intros t t' i [[<- <-]|[_ Ht]]%lookup_insert_Some [[<- E]|[_ Ht']]%lookup_insert_Some; try done.
    + specialize (H1 _ _ Ht'). lia.
    + specialize (H1 _ _ Ht). lia.
    + by eapply H2.
  - intros k p [[<- <-]|[_ Hp]]%lookup_insert_Some; [by rewrite lookup_insert_eq|].
    destruct (decide (k.1 = key.1)) as [->|]; [by rewrite lookup_insert_eq|]. rewrite lookup_insert_ne by done. by eapply H3.
  - intros t i [[<- <-]|[Hne Ht]]%lookup_insert_Some; rewrite Hu; unfold interest_at at 1; cbn.
    + rewrite lookup_insert_eq, bool_decide_eq_true_2 by done. cbn.
      assert (topic_users key.1 (pending_of rq) = 0%nat) as ->; [|done].
      apply count_if_none. intros k p Hp. apply bool_decide_eq_false. intros E. apply H3 in Hp as [i Hi]. rewrite E in Hi. congruence.
    + specialize (H1 _ _ Ht). rewrite lookup_insert_ne, bool_decide_eq_false_2 by (done || lia). fold (interest_at rq i).
      rewrite (H4 _ _ Ht). cbn. lia.
  - intros t i [[<- <-]|[Hne Ht]]%lookup_insert_Some; unfold interest_at at 1; cbn.
    + by rewrite lookup_insert_eq.
    + specialize (H1 _ _ Ht). rewrite lookup_insert_ne by lia. by apply (H5 t).
  - intros n k i task e Hn. destruct (H6 _ _ _ _ _ Hn) as [Hlt Hi]. split; [lia|].
    intros t [[<- <-]|[_ Ht]]%lookup_insert_Some; [lia|by apply Hi].
Qed.

Lemma topics_register n key rq : running n rq -> topics_ok None rq -> topics_ok None (register n key rq).
Proof.
  intros Hn Hok. unfold register. destruct (pending_of rq !! key) as [p|] eqn:Hp; [by apply topics_finish, topics_release|].
  destruct (negb _); [by apply topics_finish, topics_release|].
  destruct (add_pending key rq) as [[request i] rq1] eqn:Ea.
  destruct (topics_add_pending _ _ _ _ _ Hok Hp Ea) as [Hok1 E1].
  assert (running n rq1) as Hn1 by (unfold running; by rewrite E1).
  destruct (_ensure_topic_ready key.1 i rq1) as [[t|e] rq2] eqn:Ee.
  - apply topics_await_ready; [by eapply running_ensure|by eapply topics_ensure].
  - apply topics_unregister; [by eapply running_ensure|by eapply topics_ensure].
Qed.

Lemma topics_restore n todo rq : running n rq -> topics_ok None rq -> topics_ok None (restore n todo rq).
Proof.
  revert rq; induction todo as [|[topic i] todo IH]; intros rq Hn Hok; cbn; [by apply topics_finish|].
  destruct (0 <? _); [|by apply IH].
  destruct (_ensure_topic_ready topic i rq) as [[t|e] rq2] eqn:Ee.
  - pose proof (running_ensure n _ _ _ _ _ Ee Hn). pose proof (topics_ensure _ _ _ _ _ _ Ee Hok).
    destruct (task_at rq2 t); [|by apply IH|by apply topics_finish].
    apply (topics_call None); [done|done|by left|done].
  - apply topics_finish; [by eapply running_ensure|by eapply topics_ensure].
Qed.

(** [bind] keeps the reference counts. *)
Lemma bind_refcount rq i : ti_refcount (interest_at (bind rq) i) = ti_refcount (interest_at rq i).
Proof.
  unfold interest_at at 1. cbn.
  apply (map_fold_weak_ind (fun m _ => ti_refcount (match m !! i with Some v => v | None => mkInterest 0 None end) = ti_refcount (interest_at rq i))).
  - done.
  - intros t j topics m _ IH. destruct (decide (j = i)) as [->|]; [by rewrite lookup_insert_eq|by rewrite lookup_insert_ne].
Qed.

Lemma topic_users_fmap (t : pystr) (f : PendingRequest -> PendingRequest) (pending : gmap RequestKey PendingRequest) : topic_users t (f <$> pending) = topic_users t pending.
Proof.
  unfold topic_users. induction pending as [|k p m Hk IH] using map_ind; [by rewrite fmap_empty|].
  rewrite fmap_insert, !(count_if_insert (fun k _ => bool_decide (k.1 = t))), IH by (by rewrite ?lookup_fmap, ?Hk). done.
Qed.

Lemma fail_requests_same ps rq :
  rq_core (fail_requests ps rq) = rq_core rq /\ rq_topics (fail_requests ps rq) = rq_topics rq /\
  rq_calls (fail_requests ps rq) = rq_calls rq /\ rq_next (fail_requests ps rq) = rq_next rq /\
  rq_requests (fail_requests ps rq) = rq_requests rq /\ rq_claims (fail_requests ps rq) = rq_claims rq.
Proof.
  revert rq; induction ps as [|p ps IH]; intros rq; [done|].
  cbn [fail_requests foldl]. fold fail_requests. unfold fail_requests in IH.
  destruct (IH (add_capacity 1 (settle_future (pr_future p) (FException (MQTTDisconnectedError "Client disconnected")) rq)))
    as (E1 & E2 & E3 & E4 & E5 & E6). rewrite E1, E2, E3, E4, E5, E6. unfold settle_future. by destruct (fut_done _).
Qed.

Lemma topic_users_claim (t : pystr) (key : RequestKey) (p q : PendingRequest) (pending : gmap RequestKey PendingRequest) :
  pending !! key = Some p -> topic_users t pending = topic_users t (<[key := q]> pending).
Proof.
  intros Hp. unfold topic_users. rewrite <-insert_delete_eq, count_if_insert by apply lookup_delete_eq.
  by rewrite <-(count_if_delete _ pending key p Hp).
Qed.

Lemma topics_resume rq n : topics_ok None rq -> topics_ok None (request_step rq (RqResume n)).
Proof.
  intros Hok. cbn [request_step].
  destruct (rq_calls rq !! n) as [call|] eqn:Hn; [|done]. pose proof (topics_drop _ _ _ Hn Hok) as Hd.
  pose proof (running_drop n rq) as Hr. destruct call as [key|key request t|key i t raising|raising|todo t]; cbn; try done.
  - destruct (task_at rq t); try done; by apply topics_await_ready.
  - destruct (to_leaving _ _ Hok _ _ _ _ _ Hn). destruct (task_at rq t); try done; by apply topics_await_leaving.
  - destruct (task_at rq t); try done; [by apply topics_restore|].
    rewrite <-finish_drop. by apply topics_finish.
Qed.

Lemma topics_cancel rq n : topics_ok None rq -> topics_ok None (request_step rq (RqCancel n)).
Proof.
  intros Hok. cbn [request_step].
  destruct (rq_calls rq !! n) as [call|] eqn:Hn; [|done]. pose proof (topics_drop _ _ _ Hn Hok) as Hd.
  pose proof (running_drop n rq) as Hr. destruct call as [key|key request t|key i t raising|raising|todo t]; cbn.
  - rewrite <-finish_drop. by apply topics_finish.
  - by apply topics_unregister.
  - destruct (to_leaving _ _ Hok _ _ _ _ _ Hn). by apply topics_leave_topic.
  - rewrite <-finish_drop. apply topics_finish; [done|]. by apply (topics_release _ 1) in Hd.
  - rewrite <-finish_drop. by apply topics_finish.
Qed.

Lemma topics_claim_event rq message : topics_ok None rq -> topics_ok None (request_step rq (RqClaim message)).
Proof.
  intros Hok. cbn [request_step].
  unfold claim_message. destruct (claim_response _ _ message) as [[c d]|] eqn:E; [|done].
  apply claim_response_Some in E as (data & p & _ & Hp & _ & _ & _ & ->).
  destruct Hok as [H1 H2 H3 H4 H5 H6]. split; try done; cbn.
  - intros k q [[<- <-]|[_ Hq]]%lookup_insert_Some; [by eapply H3|by eapply H3].
  - intros t i Ht. rewrite <-(topic_users_claim t _ p (mkPending (pr_ref p) (pr_future p) true) _ Hp). by apply H4.
Qed.

Lemma topics_bind_event rq : topics_ok None rq -> topics_ok None (request_step rq RqBind).
Proof.
  intros Hok. cbn [request_step].
  destruct Hok as [H1 H2 H3 H4 H5 H6]. split; try done; cbn -[bind].
  - intros k p. cbn. rewrite lookup_fmap. destruct (pending_of rq !! k) as [q|] eqn:Hq; [|done]. intros _. by eapply H3.
  - intros t i Ht. rewrite bind_refcount. cbn. rewrite topic_users_fmap. by apply H4.
  - intros t i Ht. rewrite bind_refcount. by apply (H5 t).
Qed.

Lemma topics_cancel_event rq : topics_ok None rq -> topics_ok None (request_step rq RqCancelPending).
Proof.
  intros Hok. cbn [request_step].
  unfold cancel_pending. set (rq' := mkRequests _ _ _ _ _ _ _ _ _ _ _ _ _ _). set (ps := map _ _).
  destruct (fail_requests_same ps rq') as (E1 & E2 & E3 & E4 & _). destruct Hok as [H1 H2 H3 H4 H5 H6].
  split; rewrite ?E1, ?E2, ?E3, ?E4; cbn; try (intros *; rewrite lookup_empty; done).
  intros n key i task e Hn. destruct (H6 _ _ _ _ _ Hn). split; [done|]. intros t. by rewrite lookup_empty.
Qed.

Lemma topics_step rq ev : topics_ok None rq -> topics_ok None (request_step rq ev).
Proof.
  intros Hok. destruct ev as [n key|n|t st|n|n|n raised|n request|request|message|c| |n|];
    [..|by apply topics_cancel_event]; try solve [by apply topics_resume|by apply topics_cancel|by apply topics_claim_event|by apply topics_bind_event]; cbn [request_step].
  - destruct (rq_calls rq !! n) eqn:Hn; [done|]. apply (topics_call None); [done|done|by left|done].
  - destruct (rq_calls rq !! n) as [[key| | | |]|] eqn:Hn; try done. destruct (0 <? rq_capacity rq) eqn:E; [|done].
    apply topics_register; [apply running_drop|]. by apply topics_release, (topics_drop n (RAcquire key)).
  - destruct (rq_tasks rq !! t) as [[]|]; try done. revert Hok. by apply topics_same.
  - destruct (rq_calls rq !! n) as [[| | |raising|]|] eqn:Hn; try done. pose proof (topics_drop _ _ _ Hn Hok) as Hd.
    rewrite <-finish_drop. apply topics_finish; [apply running_drop|]. by apply (topics_release _ 1) in Hd.
  - destruct (rq_calls rq !! n) eqn:Hn; [done|]. destruct (rq_requests rq !! request) as [[key f]|]; [|done].
    case_bool_decide; [by apply topics_finish|]. apply topics_unregister; [done|]. revert Hok. by apply topics_same.
  - destruct (rq_requests rq !! request) as [[key f]|]; [|done]. by apply topics_settle.
  - destruct (rq_claims rq !! c) as [r|]; [|done]. unfold complete_response. destruct (completes _ _); [by apply topics_settle|done].
  - destruct (rq_calls rq !! n) eqn:Hn; [done|by apply topics_restore].
Qed.

(** ** The futures

    A request whose future is not done is registered, so that somebody will resolve it; a result
    is a response to the request; and a response is claimed for a request at most once on a
    connection. *)

Record futures_ok (rq : Requests) : Prop := {
  fo_fresh : forall r k f, rq_requests rq !! r = Some (k, f) -> (r < rq_next rq)%nat /\ (f < rq_next rq)%nat;
  fo_pending : forall k p, pending_of rq !! k = Some p -> rq_requests rq !! pr_ref p = Some (k, pr_future p);
  fo_inj : forall r r' k k' f, rq_requests rq !! r = Some (k, f) -> rq_requests rq !! r' = Some (k', f) -> r = r';
  fo_waiting : forall r k f, rq_requests rq !! r = Some (k, f) -> future_at rq f = FPending ->
    exists p, pending_of rq !! k = Some p /\ pr_ref p = r;
  fo_result : forall r k f v, rq_requests rq !! r = Some (k, f) -> future_at rq f = FResult v ->
    exists m, v = VMessage m /\ answers m k;
  fo_claims : forall c, c ∈ rq_claims rq ->
    answers (cr_message c) (cr_key c) /\ cr_generation c <= d_generation (rq_core rq) /\
    (exists f, rq_requests rq !! cr_pending c = Some (cr_key c, f)) /\
    (cr_generation c = d_generation (rq_core rq) -> forall p, pending_of rq !! cr_key c = Some p ->
       pr_ref p = cr_pending c -> pr_claimed p = true);
  fo_once : NoDup (map (fun c => (cr_generation c, cr_pending c)) (rq_claims rq))
}.

(** What most of the code leaves alone. *)
Record same_futures (rq rq' : Requests) : Prop := {
  sf_core : rq_core rq' = rq_core rq;
  sf_futures : rq_futures rq' = rq_futures rq;
  sf_requests : rq_requests rq' = rq_requests rq;
  sf_claims : rq_claims rq' = rq_claims rq;
  sf_next : (rq_next rq <= rq_next rq')%nat
}.

#[export] Instance same_futures_preorder : PreOrder same_futures.
Proof. split; [by split|]. intros x y z [] []. split; [congruence..|lia]. Qed.

Lemma futures_same rq rq' : same_futures rq rq' -> futures_ok rq -> futures_ok rq'.
Proof.
  intros [E1 E2 E3 E4 E5] [H1 H2 H3 H4 H5 H6 H7].
  split; rewrite ?E1, ?E3, ?E4; unfold future_at; rewrite ?E2; try done. intros r k f Hr%H1. lia.
Qed.

Lemma same_leave_topic n key i active raising rq : same_futures rq (leave_topic n key i active raising rq).
Proof. unfold leave_topic. destruct (_ && _); [destruct (active && _)|]; by split. Qed.

Lemma same_await_leaving n key i t raising rq : same_futures rq (await_leaving n key i t raising rq).
Proof. unfold await_leaving. destruct (task_at rq t); [by split|apply same_leave_topic..]. Qed.

Lemma same_ensure topic i rq r rq' : _ensure_topic_ready topic i rq = (r, rq') -> same_futures rq rq'.
Proof. intros (E1 & E2 & E3 & E4 & E5 & E6 & E7 & E8 & _)%ensure_same. by split. Qed.

Lemma same_restore n todo rq : same_futures rq (restore n todo rq).
Proof.
  revert rq; induction todo as [|[topic i] todo IH]; intros rq; cbn; [by split|].
  destruct (0 <? _); [|by apply IH].
  destruct (_ensure_topic_ready topic i rq) as [[t|e] rq2] eqn:Ee; (etransitivity; [by eapply same_ensure|]); [|by split].
  destruct (task_at rq2 t); [by split|apply IH|by split].
Qed.

Lemma future_at_settle f v g rq :
  future_at (settle_future f v rq) g = if decide (f = g) then if fut_done (future_at rq f) then future_at rq f else v else future_at rq g.
Proof.
  unfold settle_future. destruct (fut_done (future_at rq f)) eqn:E; [by case_decide; subst|].
  unfold future_at at 1. cbn. case_decide; [subst; by rewrite lookup_insert_eq|by rewrite lookup_insert_ne].
Qed.

Lemma settle_same f v rq :
  rq_core (settle_future f v rq) = rq_core rq /\ rq_requests (settle_future f v rq) = rq_requests rq /\
  rq_claims (settle_future f v rq) = rq_claims rq /\ rq_next (settle_future f v rq) = rq_next rq.
Proof. unfold settle_future. by destruct (fut_done _). Qed.

(** A future is resolved, with a response of its own or without one. *)
Lemma futures_settle f v rq :
  v <> FPending ->
  (forall r k w, rq_requests rq !! r = Some (k, f) -> v = FResult w -> exists m, w = VMessage m /\ answers m k) ->
  futures_ok rq -> futures_ok (settle_future f v rq).
Proof.
  intros Hv Hr [H1 H2 H3 H4 H5 H6 H7]. destruct (settle_same f v rq) as (E1 & E2 & E3 & E4).
  split; rewrite ?E1, ?E2, ?E3, ?E4; try done.
  - intros r k g Hg. rewrite future_at_settle. case_decide as E; [|by apply H4]. subst g.
    destruct (fut_done (future_at rq f)) eqn:Ed; [|done]. intros Hp. by rewrite Hp in Ed.
  - intros r k g w Hg. rewrite future_at_settle. case_decide as E; [|by apply (H5 r)]. subst g.
    destruct (fut_done (future_at rq f)) eqn:Ed; [by apply (H5 r)|]. by apply (Hr r).
Qed.

(** The waiter is removed, its future is done. *)
Lemma futures_forget key p rq :
  futures_ok rq -> pending_of rq !! key = Some p ->
  futures_ok (settle_future (pr_future p) FCancelled (set_pending (delete key (pending_of rq)) rq)).
Proof.
  intros [H1 H2 H3 H4 H5 H6 H7] Hp. set (rq' := set_pending _ rq).
  destruct (settle_same (pr_future p) FCancelled rq') as (E1 & E2 & E3 & E4).
  split; rewrite ?E1, ?E2, ?E3, ?E4; cbn; try done.
  - intros k q [_ Hq]%lookup_delete_Some. by apply H2.
  - intros r k g Hg. rewrite future_at_settle. case_decide as E.
    + intros Hw. destruct (fut_done (future_at rq' (pr_future p))) eqn:Ed; [|done]. by rewrite Hw in Ed.
    + intros Hw. destruct (H4 r k g Hg Hw) as (q & Hq & Hr). exists q. split; [|done].
      rewrite lookup_delete_ne; [done|]. intros <-. assert (q = p) as -> by congruence.
      apply H2 in Hp. congruence.
  - intros r k g w Hg. rewrite future_at_settle. case_decide as E; [|by apply (H5 r)]. subst g.
    destruct (fut_done _); [by apply (H5 r)|done].
  - intros c Hc. destruct (H6 c Hc) as (Ha & Hg & Hr & Hcl). split_and!; try done.
    intros Eg q [_ Hq]%lookup_delete_Some. by apply Hcl.
Qed.

Lemma futures_unregister n key request raising rq : futures_ok rq -> futures_ok (unregister n key request raising rq).
Proof.
  intros Hok. unfold unregister. destruct (pending_of rq !! key) as [p|] eqn:Hp; [|revert Hok; by apply futures_same].
  destruct (pr_ref p =? request)%nat; [|revert Hok; by apply futures_same].
  pose proof (futures_forget _ _ _ Hok Hp) as Hf. revert Hf. apply futures_same.
  set (rq1 := settle_future _ _ _). destruct (rq_topics rq1 !! key.1) as [i|]; [|by split].
  cbn zeta. set (rq2 := set_interest _ _ _).
  assert (same_futures rq1 rq2) as Hs by (by split).
  destruct (0 <? _); [etransitivity; [exact Hs|by split]|].
  etransitivity; [exact Hs|]. destruct (ti_ready _); [apply same_await_leaving|apply same_leave_topic].
Qed.

Lemma futures_await_ready n key request t rq : futures_ok rq -> futures_ok (await_ready n key request t rq).
Proof.
  intros Hok. unfold await_ready. destruct (task_at rq t); [revert Hok; by apply futures_same..|by apply futures_unregister].
Qed.

Lemma futures_add_pending key rq request i rq' :
  futures_ok rq -> pending_of rq !! key = None -> add_pending key rq = (request, i, rq') -> futures_ok rq'.
Proof.
  intros [H1 H2 H3 H4 H5 H6 H7] Hk Ha. unfold add_pending in Ha.
  set (b := match rq_topics rq !! key.1 with Some i => _ | None => _ end) in Ha. destruct b as [[j interest] topics].
  injection Ha as <- <- <-. set (r0 := rq_next rq) in *.
  assert (forall r k f, rq_requests rq !! r = Some (k, f) -> r <> r0 /\ f <> S r0) as Hne by (intros r k f Hr%H1; lia).
  split; cbn; try done.
  - intros r k f [[<- [= <- <-]]|[_ Hr]]%lookup_insert_Some; [lia|]. apply H1 in Hr. lia.
  - intros k p [[<- <-]|[_ Hp]]%lookup_insert_Some; [by rewrite lookup_insert_eq|].
    apply H2 in Hp. rewrite lookup_insert_ne; [done|]. destruct (Hne _ _ _ Hp). done.
  - intros r r' k k' f [[<- [= <- <-]]|[_ Hr]]%lookup_insert_Some [[<- E]|[_ Hr']]%lookup_insert_Some; try done.
    + by destruct (Hne _ _ _ Hr').
    + injection E as <- <-. by destruct (Hne _ _ _ Hr).
    + by eapply H3.
  - intros r k f. unfold future_at. cbn. intros [[<- [= <- <-]]|[_ Hr]]%lookup_insert_Some.
    + intros _. rewrite lookup_insert_eq. by eexists.
    + destruct (Hne _ _ _ Hr). rewrite lookup_insert_ne by done. intros Hw. destruct (H4 r k f Hr Hw) as (p & Hp & Ep).
      exists p. rewrite lookup_insert_ne; [done|congruence].
  - intros r k f v. unfold future_at. cbn. intros [[<- [= <- <-]]|[_ Hr]]%lookup_insert_Some; [by rewrite lookup_insert_eq|].
    destruct (Hne _ _ _ Hr). rewrite lookup_insert_ne by done. by apply (H5 r).
  - intros c Hc. destruct (H6 c Hc) as (Ha & Hg & [f Hr] & Hcl). destruct (Hne _ _ _ Hr). split_and!; try done.
    + exists f. by rewrite lookup_insert_ne.
    + intros Eg p [[_ <-]|[_ Hp]]%lookup_insert_Some; [cbn; congruence|by apply Hcl].
Qed.

Lemma futures_register n key rq : futures_ok rq -> futures_ok (register n key rq).
Proof.
  intros Hok. unfold register. destruct (pending_of rq !! key) as [p|] eqn:Hp; [revert Hok; by apply futures_same|].
  destruct (negb _); [revert Hok; by apply futures_same|].
  destruct (add_pending key rq) as [[request i] rq1] eqn:Ea.
  pose proof (futures_add_pending _ _ _ _ _ Hok Hp Ea) as Hok1.
  destruct (_ensure_topic_ready key.1 i rq1) as [[t|e] rq2] eqn:Ee; apply same_ensure in Ee.
  - apply futures_await_ready. by eapply futures_same.
  - apply futures_unregister. by eapply futures_same.
Qed.

Lemma futures_claim m rq : futures_ok rq -> futures_ok (claim_message m rq).
Proof.
  intros Hok. unfold claim_message. destruct (claim_response _ _ m) as [[c d]|] eqn:E; [|done].
  apply claim_response_Some in E as (data & p & Ha & Hp & Hcl & _ & -> & ->). destruct Hok as [H1 H2 H3 H4 H5 H6 H7].
  split; cbn; try done.
  - intros k q [[<- <-]|[_ Hq]]%lookup_insert_Some; cbn; [by apply H2|by apply H2].
  - intros r k f Hr Hw. destruct (H4 r k f Hr Hw) as (q & Hq & Er).
    destruct (decide (k = (msg_topic m, data))) as [->|]; [|exists q; by rewrite lookup_insert_ne].
    simplify_eq. eexists. by rewrite lookup_insert_eq.
  - intros c [Hc| ->%list_elem_of_singleton]%elem_of_app.
    + destruct (H6 c Hc) as (Ha' & Hg & Hr & Hc'). split_and!; try done.
      intros Eg q [[_ <-]|[_ Hq]]%lookup_insert_Some; [done|by apply Hc'].
    + cbn. split_and!; [done|lia|exists (pr_future p); by apply H2|].
      intros _ q. rewrite lookup_insert_eq. by intros [= <-].
  - rewrite map_app. apply NoDup_app. split; [done|]. split; [|apply NoDup_singleton].
    intros x (c & -> & Hc)%list_elem_of_fmap [= Eg Er]%list_elem_of_singleton.
    destruct (H6 c Hc) as (_ & _ & [f Hr] & Hc'). rewrite Er, (H2 _ _ Hp) in Hr. injection Hr as Ek _.
    rewrite <-Ek in Hc'. rewrite (Hc' Eg p Hp (eq_sym Er)) in Hcl. done.
Qed.

Lemma futures_complete c rq : c ∈ rq_claims rq -> futures_ok rq -> futures_ok (complete_response c rq).
Proof.
  intros Hc Hok. unfold complete_response, completes. destruct (pending_of rq !! cr_key c) as [p|] eqn:Hp; [|done].
  destruct ((d_generation (rq_core rq) =? cr_generation c) && (pr_ref p =? cr_pending c)%nat); [|done].
  apply futures_settle; [done| |done]. intros r k w Hr [= <-]. exists (cr_message c). split; [done|].
  pose proof (fo_pending _ Hok _ _ Hp) as Hp'. rewrite (fo_inj _ Hok _ _ _ _ _ Hr Hp') in Hr. rewrite Hr in Hp'.
  injection Hp' as ->. by destruct (fo_claims _ Hok c Hc).
Qed.

Lemma futures_bind rq : futures_ok rq -> futures_ok (bind rq).
Proof.
  intros [H1 H2 H3 H4 H5 H6 H7]. split; cbn; try done.
  - intros k p. rewrite lookup_fmap. destruct (pending_of rq !! k) as [q|] eqn:Hq; [|done]. intros [= <-]. exact (H2 k q Hq).
  - intros r k f Hr Hw. destruct (H4 r k f Hr Hw) as (q & Hq & Er). exists (mkPending (pr_ref q) (pr_future q) false).
    by rewrite lookup_fmap, Hq.
  - intros c Hc. destruct (H6 c Hc) as (Ha & Hg & Hr & _). split_and!; try done; intros; lia.
Qed.

Lemma future_at_fail f ps rq :
  future_at (fail_requests ps rq) f =
  if bool_decide (f ∈ map pr_future ps) && negb (fut_done (future_at rq f))
  then FException (MQTTDisconnectedError "Client disconnected") else future_at rq f.
Proof.
  revert rq; induction ps as [|p ps IH]; intros rq; cbn; [by rewrite bool_decide_eq_false_2 by (by intros ?%elem_of_nil)|].
  fold fail_requests. unfold fail_requests in IH. rewrite IH. clear IH. unfold future_at at 1 2. cbn.
  fold (future_at (settle_future (pr_future p) (FException (MQTTDisconnectedError "Client disconnected")) rq) f).
  rewrite future_at_settle. destruct (decide (pr_future p = f)) as [->|Hne].
  - rewrite (bool_decide_eq_true_2 (f ∈ f :: _)) by set_solver. destruct (fut_done (future_at rq f)) eqn:E; cbn; rewrite ?E; cbn; by rewrite andb_false_r.
  - assert (bool_decide (f ∈ pr_future p :: map pr_future ps) = bool_decide (f ∈ map pr_future ps)) as ->; [|done].
    apply bool_decide_ext. set_solver.
Qed.

(** After [cancel_pending] no future is pending. *)
Lemma cancel_pending_done rq r k f :
  futures_ok rq -> rq_requests rq !! r = Some (k, f) -> fut_done (future_at (cancel_pending rq) f) = true.
Proof.
  intros Hok Hr. unfold cancel_pending. rewrite future_at_fail.
  set (rq' := mkRequests _ _ _ _ _ _ _ _ _ _ _ _ _ _). change (future_at rq' f) with (future_at rq f).
  destruct (future_at rq f) eqn:Ef; cbn; rewrite ?andb_false_r; try done.
  destruct (fo_waiting _ Hok r k f Hr Ef) as (p & Hp & Ep). rewrite bool_decide_eq_true_2; [done|].
  rewrite map_map, list_elem_of_fmap. exists (k, p). split.
  - pose proof (fo_pending _ Hok _ _ Hp) as Hp'. rewrite Ep, Hr in Hp'. by injection Hp'.
  - by apply elem_of_map_to_list.
Qed.

Lemma futures_cancel_pending rq : futures_ok rq -> futures_ok (cancel_pending rq).
Proof.
  intros Hok. pose proof (cancel_pending_done rq) as Hd. unfold cancel_pending in *.
  set (rq' := mkRequests _ _ _ _ _ _ _ _ _ _ _ _ _ _) in *. set (ps := map snd _) in *.
  destruct (fail_requests_same ps rq') as (E1 & E2 & E3 & E4 & E5 & E6). destruct Hok as [H1 H2 H3 H4 H5 H6 H7].
  split; rewrite ?E1, ?E4, ?E5, ?E6; cbn; try done.
  - intros r k f Hr Hw. specialize (Hd r k f ltac:(by split) Hr). by rewrite Hw in Hd.
  - intros r k f v Hr. rewrite future_at_fail. destruct (_ && _); [done|by apply (H5 r)].
  - intros c Hc. destruct (H6 c Hc) as (Ha & Hg & Hr & _). split_and!; try done; intros; lia.
Qed.

Lemma futures_step rq ev : futures_ok rq -> futures_ok (request_step rq ev).
Proof.
  intros Hok. assert (forall rq', same_futures rq rq' -> futures_ok rq') as Hs by (intros rq' Hs; by eapply futures_same).
  destruct ev as [n key|n|t st|n|n|n raised|n request|request|message|c| |n|]; cbn [request_step].
  - destruct (rq_calls rq !! n); [done|by apply Hs].
  - destruct (rq_calls rq !! n) as [[key| | | |]|]; try done. destruct (0 <? rq_capacity rq); [|done].
    apply futures_register. by apply Hs.
  - destruct (rq_tasks rq !! t) as [[]|]; try done. by apply Hs.
  - destruct (rq_calls rq !! n) as [call|]; [|done]. assert (futures_ok (drop_call n rq)) as Hd by (by apply Hs).
    destruct call as [key|key request t|key i t raising|raising|todo t]; cbn; try done; destruct (task_at rq t); try done;
      try (by apply futures_await_ready); try (by apply Hs); (eapply futures_same; [|exact Hd]);
      [apply same_await_leaving..|apply same_restore].
  - destruct (rq_calls rq !! n) as [call|]; [|done]. assert (futures_ok (drop_call n rq)) as Hd by (by apply Hs).
    destruct call as [key|key request t|key i t raising|raising|todo t]; cbn; try (by apply Hs).
    + by apply futures_unregister.
    + eapply futures_same; [apply same_leave_topic|exact Hd].
  - destruct (rq_calls rq !! n) as [[| | |raising|]|]; try done. by apply Hs.
  - destruct (rq_calls rq !! n); [done|]. destruct (rq_requests rq !! request) as [[key f]|]; [|done].
    case_bool_decide; [by apply Hs|]. apply futures_unregister. by apply Hs.
  - destruct (rq_requests rq !! request) as [[key f]|]; [|done]. by apply futures_settle.
  - by apply futures_claim.
  - destruct (rq_claims rq !! c) as [r|] eqn:Hc; [|done]. apply futures_complete; [by eapply list_elem_of_lookup_2|done].
  - by apply futures_bind.
  - destruct (rq_calls rq !! n); [done|]. apply Hs, same_restore.
  - by apply futures_cancel_pending.
Qed.

(** ** What the dispatcher guarantees *)

Lemma steps_inv max evs rq :
  capacity_ok 0 max rq /\ topics_ok None rq /\ futures_ok rq ->
  capacity_ok 0 max (request_steps rq evs) /\ topics_ok None (request_steps rq evs) /\ futures_ok (request_steps rq evs).
Proof.
  revert rq; induction evs as [|ev evs IH]; intros rq (H1 & H2 & H3); [done|]. cbn. apply IH.
  split_and!; [by apply capacity_step|by apply topics_step|by apply futures_step].
Qed.

Lemma requests_new_inv max rq :
  requests_new max = Ok rq -> 0 < max /\ capacity_ok 0 max rq /\ topics_ok None rq /\ futures_ok rq.
Proof.
  unfold requests_new. destruct (max <=? 0) eqn:E; [done|]. zbool. intros [= <-]. split; [done|].
  split_and!; split; cbn; try (intros *; rewrite ?lookup_empty; done).
  - unfold pending_count. cbn. rewrite map_size_empty, count_empty. lia.
  - lia.
  - intros c Hc. by apply elem_of_nil in Hc.
  - constructor.
Qed.

(** C24: the dispatcher is bounded and keeps nothing behind.  Whatever calls do, in any order, and
    however tasks and the protocol end, every permit of the semaphore is free, held by a
    registered request or held by a call that is removing one, so that there are never more than
    [max_pending_requests] requests; the reference count of a topic is the number of its
    requests; and a topic is kept only for a request or for a call that is giving it up. *)
Theorem requests_bounded max rq0 evs :
  requests_new max = Ok rq0 ->
  let rq := request_steps rq0 evs in
  0 <= rq_capacity rq /\ pending_count rq <= max /\
  rq_capacity rq + pending_count rq + Z.of_nat (count is_leaving (rq_calls rq)) = max /\
  (forall key p, pending_of rq !! key = Some p -> is_Some (rq_topics rq !! key.1)) /\
  forall t i, rq_topics rq !! t = Some i ->
    ti_refcount (interest_at rq i) = Z.of_nat (topic_users t (pending_of rq)) /\
    ((exists key p, pending_of rq !! key = Some p /\ key.1 = t) \/
     exists n key task e, rq_calls rq !! n = Some (RLeaving key i task e)).
Proof.
  intros (Hm & Hi)%requests_new_inv. destruct (steps_inv max evs rq0 Hi) as (Hc & Ht & _). cbn zeta.
  destruct Hc as [Hs Hn]. split_and!; try done; try lia; [apply Ht|].
  intros t i Hti. split; [by apply Ht|]. pose proof (to_refcount _ _ Ht t i Hti) as Hr.
  destruct (topic_users t (pending_of (request_steps rq0 evs))) as [|k] eqn:Eu.
  - right. destruct (to_used _ _ Ht t i Hti) as [|Hx]; [lia|done|exact Hx].
  - left. destruct (count_if_some (fun k _ => bool_decide (k.1 = t)) (pending_of (request_steps rq0 evs))) as (key & p & Hp & Hk).
    { fold (topic_users t (pending_of (request_steps rq0 evs))). lia. }
    apply bool_decide_eq_true in Hk. by exists key, p.
Qed.

(** C25: a response reaches the request it answers, once.  The result of a request's future is
    always a message on its response topic with its correlation data; on one connection a
    response is claimed for a request at most once; and a response claimed on an earlier
    connection is dropped. *)
Theorem responses_exclusive max rq0 evs :
  requests_new max = Ok rq0 ->
  let rq := request_steps rq0 evs in
  (forall r key f v, rq_requests rq !! r = Some (key, f) -> future_at rq f = FResult v ->
     exists m, v = VMessage m /\ answers m key) /\
  NoDup (map (fun c => (cr_generation c, cr_pending c)) (rq_claims rq)) /\
  (forall c, cr_generation c <> d_generation (rq_core rq) -> complete_response c rq = rq).
Proof.
  intros (Hm & Hi)%requests_new_inv. destruct (steps_inv max evs rq0 Hi) as (_ & _ & Hf). cbn zeta.
  split_and!; [apply Hf|apply Hf|]. intros c Hg. unfold complete_response, completes.
  destruct (pending_of _ !! cr_key c); [|done]. by rewrite (proj2 (Z.eqb_neq _ _)) by congruence.
Qed.

(** C26: no request is forgotten.  A request whose future is not done is registered, so a response
    can still resolve it; and after [cancel_pending] nothing is registered, every future is done
    and the capacity is free but for the calls that are still leaving. *)
Theorem requests_shutdown max rq0 evs :
  requests_new max = Ok rq0 ->
  let rq := request_steps rq0 evs in
  let off := request_step rq RqCancelPending in
  (forall r key f, rq_requests rq !! r = Some (key, f) -> future_at rq f = FPending ->
     exists p, pending_of rq !! key = Some p /\ pr_ref p = r /\ pr_future p = f) /\
  pending_of off = ∅ /\ rq_topics off = ∅ /\
  (forall r key f, rq_requests off !! r = Some (key, f) -> fut_done (future_at off f) = true) /\
  rq_capacity off + Z.of_nat (count is_leaving (rq_calls off)) = max.
Proof.
  intros (Hm & Hi)%requests_new_inv. destruct (steps_inv max evs rq0 Hi) as (Hc & Ht & Hf). cbn zeta.
  set (rq := request_steps rq0 evs) in *. cbn [request_step].
  assert (pending_of (cancel_pending rq) = ∅ /\ rq_topics (cancel_pending rq) = ∅ /\
          rq_requests (cancel_pending rq) = rq_requests rq) as (Ep & Et & Er).
  { unfold cancel_pending. set (rq' := mkRequests _ _ _ _ _ _ _ _ _ _ _ _ _ _). set (ps := map _ _).
    destruct (fail_requests_same ps rq') as (E1 & E2 & _ & _ & E5 & _). by rewrite E1, E2, E5. }
  split_and!; try done.
  - intros r key f Hr Hw. destruct (fo_waiting _ Hf r key f Hr Hw) as (p & Hp & Hpr). exists p. split_and!; try done.
    pose proof (fo_pending _ Hf _ _ Hp) as Hp'. rewrite Hpr, Hr in Hp'. by injection Hp'.
  - rewrite Er. intros r key f. by apply cancel_pending_done.
  - destruct (capacity_cancel_pending max rq Hc) as [Hs _]. unfold pending_count in Hs. rewrite Ep, map_size_empty in Hs. lia.
Qed.

(** ** Samples *)

Definition request_message (ref : nat) (t : pystr) (data : bytes) : Message :=
  mkMessage ref t [] AT_MOST_ONCE false
    (Some (mkPublishProperties None None None None (Some data) None None [])).

Definition sample_key : RequestKey := (py "reply", [Byte.x01]).
Definition sample_reply : Message := request_message 100 (py "reply") [Byte.x01].

(** Two requests on one topic; the second is cancelled while it waits for the SUBACK. *)
Definition request_sample : list request_event :=
  [RqBind; RqRegister 0 sample_key; RqPermit 0; RqRegister 1 (py "reply", [Byte.x02]); RqPermit 1; RqCancel 1;
   RqTask 3 TDone; RqResume 0; RqClaim sample_reply; RqClaim sample_reply; RqComplete 0; RqComplete 0].

Definition requests_1000 : Requests :=
  mkRequests (mkDispatcher ∅ 0) 1000 ∅ ∅ ∅ false ∅ ∅ ∅ ∅ 0 [] [] [].

Lemma requests_bounded_witness :
  pending_count (request_steps requests_1000 request_sample) = 1 /\
  rq_capacity (request_steps requests_1000 request_sample) = 999.
Proof.
  split; [vm_compute; reflexivity|].
  destruct (requests_bounded 1000 requests_1000 request_sample eq_refl) as (_ & _ & Hs & _). revert Hs. vm_compute. intros Hs.
  reflexivity.
Defined.

Lemma responses_exclusive_witness :
  length (rq_claims (request_steps requests_1000 request_sample)) = 1%nat /\
  exists m, future_at (request_steps requests_1000 request_sample) 1 = FResult (VMessage m) /\ answers m sample_key.
Proof.
  split; [vm_compute; reflexivity|].
  destruct (responses_exclusive 1000 requests_1000 request_sample eq_refl) as (Hr & _).
  destruct (Hr 0%nat sample_key 1%nat (VMessage sample_reply)) as (m & E & Ha); [vm_compute; reflexivity|vm_compute; reflexivity|].
  exists m. injection E as <-. split; [vm_compute; reflexivity|exact Ha].
Defined.

Lemma requests_shutdown_witness :
  rq_capacity (request_step (request_steps requests_1000 (take 5 request_sample)) RqCancelPending) = 1000 /\
  fut_done (future_at (request_step (request_steps requests_1000 (take 5 request_sample)) RqCancelPending) 1) = true.
Proof.
  split; [vm_compute; reflexivity|].
  destruct (requests_shutdown 1000 requests_1000 (take 5 request_sample) eq_refl) as (_ & _ & _ & Hd & _).
  apply (Hd 0%nat sample_key). vm_compute. reflexivity.
Defined.

(** ** A request from registration to clean-up *)

Ltac look :=
  repeat first
    [ progress cbn
    | rewrite lookup_insert_eq
    | rewrite lookup_insert_ne by (done || lia)
    | rewrite lookup_delete_eq
    | rewrite Nat.eqb_refl
    | rewrite Z.eqb_refl
    | rewrite lookup_empty ].

Section request_life.
Context (pend : gmap RequestKey PendingRequest) (gen cap : Z) (topics : gmap pystr nat)
  (interests : gmap nat TopicInterest) (tasks : gmap nat ready_state) (futures : gmap nat FutState)
  (requests : gmap nat (RequestKey * nat)) (closed : gset nat) (calls : gmap nat request_call) (r : nat)
  (results : list (nat * res (option nat))) (claims : list ClaimedResponse) (log : list observer_request_log).
Context (n : nat) (key : RequestKey).
Context (Hn : calls !! n = None) (Hk : pend !! key = None) (Ht : topics !! key.1 = None) (Hc : 0 < cap).

Let interests1 : gmap nat TopicInterest :=
  <[S (S r) := mkInterest 1 (Some (S (S (S r))))]> (<[S (S r) := mkInterest 1 None]> interests).
Let tasks1 : gmap nat ready_state := <[S (S (S r)) := TDone]> (<[S (S (S r)) := TRunning]> tasks).

(** The state once the call of [register] has returned. *)
Definition registered (claimed : bool) (future : FutState) (claims : list ClaimedResponse) : Requests :=
  mkRequests (mkDispatcher (<[key := mkPending r (S r) claimed]> pend) gen) (cap - 1)
    (<[key.1 := S (S r)]> topics) interests1 tasks1 true (<[S r := future]> futures) (<[r := (key, S r)]> requests)
    (closed ∖ {[ r ]}) calls (S (S (S (S r)))) (results ++ [(n, Ok (Some r))]) claims (log ++ [LAdd key.1]).

Lemma request_registered :
  request_steps (mkRequests (mkDispatcher pend gen) cap topics interests tasks true futures requests closed calls r
                   results claims log)
    [RqRegister n key; RqPermit n; RqTask (S (S (S r))) TDone; RqResume n] = registered false FPending claims.
Proof.
  unfold request_steps. cbn [foldl request_step rq_calls]. rewrite Hn. look.
  rewrite (proj2 (Z.ltb_lt _ _) Hc). unfold register. look. rewrite Hk. unfold add_pending. look. rewrite Ht. 
  unfold _ensure_topic_ready, interest_at. look. unfold await_ready, task_at. look. unfold task_at. look. unfold await_ready, task_at. look. unfold finish, registered, set_task. cbn.
  rewrite !delete_insert_eq, !(delete_id calls) by done. reflexivity.
Qed.

Lemma request_answered (reply : Message) :
  answers reply key ->
  request_steps (registered false FPending claims) [RqClaim reply; RqComplete (length claims)] =
  registered true (FResult (VMessage reply)) (claims ++ [mkClaimed r key reply gen]).
Proof.
  intros (props & Em & Ed & Et). unfold request_steps. cbn [foldl request_step].
  unfold claim_message, claim_response. rewrite Em, Ed, Et. rewrite <-(surjective_pairing key). look.
  rewrite (list_lookup_middle claims [] _ (length claims) eq_refl). unfold complete_response, completes. look.
  unfold settle_future, future_at. look. unfold registered, set_futures. cbn. by rewrite !insert_insert_eq.
Qed.

Lemma request_closed m future (claims' : list ClaimedResponse) :
  calls !! m = None -> fut_done future = true ->
  exists interests', request_steps (registered true future claims') [RqClose m r; RqRemoved m None] =
  mkRequests (mkDispatcher pend gen) cap topics interests' tasks1 true (<[S r := future]> futures)
    (<[r := (key, S r)]> requests) ({[ r ]} ∪ closed ∖ {[ r ]}) calls (S (S (S (S r))))
    (results ++ [(n, Ok (Some r)); (m, Ok None)]) claims' (log ++ [LAdd key.1; LRemove key.1]).
Proof.
  intros Hm Hf. unfold request_steps, registered, interests1, tasks1. cbn [foldl request_step rq_calls]. rewrite Hm. look.
  rewrite bool_decide_eq_false_2 by set_solver. unfold unregister. look. unfold settle_future, future_at. look. rewrite Hf. look.
  unfold interest_at. look. change (0 <? 1 - 1) with false. look. unfold await_leaving, task_at. look.
  unfold leave_topic, interest_at. look. change (1 - 1 =? 0) with true.
  rewrite bool_decide_eq_true_2 by done. look. eexists. unfold finish, add_capacity. cbn.
  rewrite !delete_insert_eq, (delete_id calls) by done. rewrite <-!app_assoc. cbn.
  rewrite (delete_id pend), (delete_id topics) by done. rewrite Z.sub_add. reflexivity.
Qed.
End request_life.

(** The whole life of a request.  On a connected dispatcher with room, a request with an unused
    key on a topic nobody observes subscribes to the topic, is registered when the SUBACK has
    come, gets as its result the message that answers it, and [close] unsubscribes: the
    registered requests, the topics, the free capacity and the suspended calls are then what they
    were before. *)
Theorem request_lifecycle rq n m key reply :
  rq_calls rq !! n = None -> rq_calls rq !! m = None -> pending_of rq !! key = None ->
  rq_topics rq !! key.1 = None -> 0 < rq_capacity rq -> rq_protocol rq = true -> answers reply key ->
  let r := rq_next rq in
  let done := request_steps rq
    [RqRegister n key; RqPermit n; RqTask (S (S (S r))) TDone; RqResume n; RqClaim reply;
     RqComplete (length (rq_claims rq)); RqClose m r; RqRemoved m None] in
  rq_requests done !! r = Some (key, S r) /\ future_at done (S r) = FResult (VMessage reply) /\
  rq_results done = rq_results rq ++ [(n, Ok (Some r)); (m, Ok None)] /\
  rq_log done = rq_log rq ++ [LAdd key.1; LRemove key.1] /\
  rq_core done = rq_core rq /\ rq_topics done = rq_topics rq /\
  rq_capacity done = rq_capacity rq /\ rq_calls done = rq_calls rq.
Proof.
  destruct rq as [[pend gen] cap topics interests tasks [] futures requests closed calls r results claims log]; [|done].
  cbn [rq_calls rq_core d_pending rq_topics rq_capacity rq_protocol rq_next rq_claims].
  intros Hn Hm Hk Ht Hc _ Ha. set (done := request_steps _ _).
  assert (exists interests', done =
    mkRequests (mkDispatcher pend gen) cap topics interests' (<[S (S (S r)) := TDone]> (<[S (S (S r)) := TRunning]> tasks)) true
      (<[S r := FResult (VMessage reply)]> futures) (<[r := (key, S r)]> requests) ({[ r ]} ∪ closed ∖ {[ r ]}) calls
      (S (S (S (S r)))) (results ++ [(n, Ok (Some r)); (m, Ok None)]) (claims ++ [mkClaimed r key reply gen])
      (log ++ [LAdd key.1; LRemove key.1])) as [interests' ->].
  { subst done. set (start := mkRequests _ _ _ _ _ _ _ _ _ _ _ _ _ _).
    change [RqRegister n key; RqPermit n; RqTask (S (S (S r))) TDone; RqResume n; RqClaim reply; RqComplete (length claims);
            RqClose m r; RqRemoved m None]
      with ([RqRegister n key; RqPermit n; RqTask (S (S (S r))) TDone; RqResume n] ++
            [RqClaim reply; RqComplete (length claims)] ++ [RqClose m r; RqRemoved m None]).
    unfold request_steps. rewrite !foldl_app. fold (request_steps start [RqRegister n key; RqPermit n; RqTask (S (S (S r))) TDone; RqResume n]).
    subst start. rewrite request_registered by done. fold (request_steps (registered pend gen cap topics interests tasks futures requests closed calls r results log n key false FPending claims) [RqClaim reply; RqComplete (length claims)]).
    rewrite request_answered by done.
    by apply request_closed. }
  unfold future_at. look. split_and!; done.
Qed.

Lemma request_lifecycle_witness :
  let rq := request_step requests_1000 RqBind in
  answers sample_reply sample_key /\
  future_at (request_steps rq [RqRegister 0 sample_key; RqPermit 0; RqTask 3 TDone; RqResume 0; RqClaim sample_reply;
    RqComplete 0; RqClose 1 0; RqRemoved 1 None]) 1 = FResult (VMessage sample_reply).
Proof.
  intros rq. assert (answers sample_reply sample_key) as Ha by (eexists; split; [reflexivity|split; reflexivity]).
  split; [exact Ha|].
  destruct (request_lifecycle rq 0 1 sample_key sample_reply) as (_ & H & _); try exact H; try (vm_compute; reflexivity). exact Ha.
Defined.

(** A call of [request()] that is cancelled while it waits for the SUBACK of its topic, and
    cancelled again while it cleans up, leaves the topic observed: it was subscribed, and nobody
    will unsubscribe it. *)
Theorem second_cancel_leaves_observer :
  let rq := request_steps requests_1000
    [RqBind; RqRegister 0 sample_key; RqPermit 0; RqCancel 0; RqCancel 0; RqTask 3 TDone] in
  rq_topics rq = ∅ /\ pending_of rq = ∅ /\ rq_calls rq = ∅ /\ rq_tasks rq !! 3%nat = Some TDone /\
  rq_log rq = [LAdd (py "reply")] /\ rq_results rq = [(0%nat, Err CancelledError)].
Proof. vm_compute. split_and!; reflexivity. Qed.
