(* ===== verification/RequestCall.v ===== *)
(** * Request and response as a whole ([client.py], [MQTTClient.request])

    [request()] registers a waiter, publishes, waits for the response with a timeout, and closes
    the waiter whatever happens.  Here the dispatcher ([Requests]) and [wait_for] ([Waiting]) are put
    together as [request()] does it, for any number of callers at once: the stage of every caller,
    and the events that move it on.  How [publish] ends is an event ([Outbound] and [Calls] have
    the call itself); its arguments are computed in [Client]. *)

From S2P Require Import Prelude Properties Packets Codec Topic SubscriptionIndex State Engine Waiting Requests.

(** ** The stages of a call *)

(** Where [request()] is: in [register], in [publish], in [wait_for], in [pending.close()] with what it
    will end with, or at its end.  [r] is the [_PendingRequest]. *)
Inductive request_stage : Type :=
| QRegister (key : RequestKey)
| QPublish (key : RequestKey) (r : nat)
| QWait (key : RequestKey) (r : nat) (w : waiting (A := fut_value))
| QClose (key : RequestKey) (outcome : res fut_value)
| QDone (key : RequestKey) (outcome : res fut_value).

(** The callers; a call that caller [c] makes of the dispatcher is call [c] there. *)
Record Callers : Type := mkCallers {
  ca_requests : Requests;
  ca_stage : gmap nat request_stage
}.

Definition put_stage (c : nat) (st : request_stage) (rq : Requests) (cs : Callers) : Callers :=
  mkCallers rq (<[c := st]> (ca_stage cs)).

(** What call [n] has returned or raised last. *)
Definition result_of (rq : Requests) (n : nat) : option (res (option nat)) :=
  foldl (fun acc nr => if (nr.1 =? n)%nat then Some nr.2 else acc) None (rq_results rq).

(** The future, as [wait_for] sees its task. *)
Definition future_outcome (st : FutState) : option TaskOutcome :=
  match st with
  | FPending => None
  | FResult v => Some (Result v)
  | FException e => Some (Raised e)
  | FCancelled => Some Cancelled
  end.

Definition future_of (rq : Requests) (r : nat) : FutState :=
  match rq_requests rq !! r with Some (_, f) => future_at rq f | None => FPending end.

(** ** Moving on *)

(** [pending = await ...register(...)]: when it has returned, [publish] begins. *)
Definition after_register (c : nat) (key : RequestKey) (rq : Requests) : request_stage :=
  match rq_calls rq !! c, result_of rq c with
  | None, Some (Ok (Some r)) => QPublish key r
  | None, Some (Err e) => QDone key (Err e)
  | _, _ => QRegister key
  end.

(** [finally: await pending.close()]: what it raises replaces what the body ended with. *)
Definition after_close (c : nat) (key : RequestKey) (outcome : res fut_value) (rq : Requests) : request_stage :=
  match rq_calls rq !! c, result_of rq c with
  | None, Some (Ok _) => QDone key outcome
  | None, Some (Err e) => QDone key (Err e)
  | _, _ => QClose key outcome
  end.

Definition begin_close (c : nat) (key : RequestKey) (r : nat) (outcome : res fut_value) (cs : Callers) : Callers :=
  let rq := request_step (ca_requests cs) (RqClose c r) in
  put_stage c (after_close c key outcome rq) rq cs.

(** [wait_for] runs on: it looks at the future, may cancel it, and may end. *)
Definition resume_wait (c : nat) (key : RequestKey) (r : nat) (w : waiting) (cs : Callers) : Callers :=
  let rq := ca_requests cs in
  let seen := match future_outcome (future_of rq r) with Some o => wait_step w (WTaskEnds o) | None => w end in
  let w := wait_step seen WResume in
  let rq := if w_cancelled w && negb (w_cancelled seen) then request_step rq (RqGiveUp r) else rq in
  match w_phase w with
  | WEnded outcome => begin_close c key r outcome (mkCallers rq (ca_stage cs))
  | _ => put_stage c (QWait key r w) rq cs
  end.

(** An event of the call of the dispatcher that caller [c] has begun. *)
Definition caller_call (c : nat) (ev : request_event) (cs : Callers) : Callers :=
  let rq := request_step (ca_requests cs) ev in
  match ca_stage cs !! c with
  | Some (QRegister key) => put_stage c (after_register c key rq) rq cs
  | Some (QClose key outcome) => put_stage c (after_close c key outcome rq) rq cs
  | _ => cs
  end.

(** ** Steps *)

Inductive caller_event : Type :=
| CBegin (c : nat) (key : RequestKey)       (** [request()] is called *)
| CPermit (c : nat)                         (** the semaphore lets it in *)
| CResume (c : nat)                         (** the event loop runs the caller *)
| CCancel (c : nat)                         (** its task is cancelled *)
| CPublished (c : nat) (r : res unit)       (** [publish] has returned or raised *)
| CTimer (c : nat)                          (** the timeout of [wait_for] *)
| CRemoved (c : nat) (raised : option exn)  (** [remove_response_observer] has ended *)
| COther (ev : request_event).              (** what the client and the engine do *)

(** Events of the dispatcher that are not of a caller: the connection's, and the calls of [restore]. *)
Definition not_of_caller (cs : Callers) (ev : request_event) : bool :=
  match ev with
  | RqTask _ _ | RqClaim _ | RqComplete _ | RqBind | RqCancelPending => true
  | RqRestore n | RqResume n | RqCancel n => bool_decide (ca_stage cs !! n = None)
  | _ => false
  end.

Definition caller_step (cs : Callers) (ev : caller_event) : Callers :=
  match ev with
  | CBegin c key =>
    match ca_stage cs !! c, rq_calls (ca_requests cs) !! c with
    | None, None => put_stage c (QRegister key) (request_step (ca_requests cs) (RqRegister c key)) cs
    | _, _ => cs
    end
  | CPermit c => caller_call c (RqPermit c) cs
  | CResume c =>
    match ca_stage cs !! c with
    | Some (QWait key r w) => resume_wait c key r w cs
    | _ => caller_call c (RqResume c) cs
    end
  | CCancel c =>
    match ca_stage cs !! c with
    | Some (QWait key r w) => put_stage c (QWait key r (wait_step w WCancel)) (ca_requests cs) cs
    | _ => caller_call c (RqCancel c) cs
    end
  | CPublished c outcome =>
    match ca_stage cs !! c, outcome with
    | Some (QPublish key r), Ok _ => put_stage c (QWait key r (wait_for_begin true)) (ca_requests cs) cs
    | Some (QPublish key r), Err e => begin_close c key r (Err e) cs
    | _, _ => cs
    end
  | CTimer c =>
    match ca_stage cs !! c with
    | Some (QWait key r w) => put_stage c (QWait key r (wait_step w WTimer)) (ca_requests cs) cs
    | _ => cs
    end
  | CRemoved c raised => caller_call c (RqRemoved c raised) cs
  | COther ev => if not_of_caller cs ev then mkCallers (request_step (ca_requests cs) ev) (ca_stage cs) else cs
  end.

Definition caller_steps (cs : Callers) (evs : list caller_event) : Callers := foldl caller_step cs evs.

Definition callers_new (rq : Requests) : Callers := mkCallers rq ∅.

(** The call has not ended. *)
Definition in_progress (st : request_stage) : bool := match st with QDone _ _ => false | _ => true end.

(** ** Calls of the dispatcher *)

Lemma result_of_finish rq n r m : result_of (finish n r rq) m = if (n =? m)%nat then Some r else result_of rq m.
Proof. unfold result_of. cbn. by rewrite foldl_app. Qed.

(** Call [n] has run: it is suspended in [Q] or has ended with [R]; the other calls are where they were. *)
Record ran (n : nat) (Q : request_call -> Prop) (R : res (option nat) -> Prop) (rq rq' : Requests) : Prop := {
  ran_others : forall m, m <> n -> rq_calls rq' !! m = rq_calls rq !! m;
  ran_call : match rq_calls rq' !! n with
             | Some call => Q call
             | None => exists r, result_of rq' n = Some r /\ R r
             end
}.

Lemma ran_weaken n (Q Q' : request_call -> Prop) (R R' : res (option nat) -> Prop) rq rq' :
  (forall call, Q call -> Q' call) -> (forall r, R r -> R' r) -> ran n Q R rq rq' -> ran n Q' R' rq rq'.
Proof. intros HQ HR [H1 H2]. split; [done|]. destruct (rq_calls rq' !! n); [auto|]. destruct H2 as (r & ? & ?); eauto. Qed.

(** What comes before leaves the calls alone. *)
Lemma ran_after n Q R rq rq1 rq' :
  (forall m, m <> n -> rq_calls rq1 !! m = rq_calls rq !! m) -> ran n Q R rq1 rq' -> ran n Q R rq rq'.
Proof. intros E [H1 H2]. split; [|done]. intros m Hm. by rewrite H1, E. Qed.

Lemma ran_finish n (Q : request_call -> Prop) (R : res (option nat) -> Prop) r rq : R r -> ran n Q R rq (finish n r rq).
Proof.
  intros Hr. split; [intros m Hm; cbn; by rewrite lookup_delete_ne|].
  change (rq_calls (finish n r rq)) with (delete n (rq_calls rq)). rewrite lookup_delete_eq.
  exists r. by rewrite result_of_finish, Nat.eqb_refl.
Qed.

Lemma ran_suspend n (Q : request_call -> Prop) R call rq : Q call -> ran n Q R rq (set_call n call rq).
Proof. intros Hc. split; [intros m Hm; cbn; by rewrite lookup_insert_ne|]. cbn. by rewrite lookup_insert_eq. Qed.

#[local] Hint Resolve ran_finish ran_suspend : frame.

(** What [unregister] may end with. *)
Definition left_with (raising : option exn) (r : res (option nat)) : Prop :=
  match raising with Some _ => exists e, r = Err e | None => r = Ok None \/ exists e, r = Err e end.

Lemma left_with_ending raising : left_with raising (ending raising).
Proof. destruct raising; cbn; eauto. Qed.

Lemma left_with_err raising e : left_with raising (Err e).
Proof. destruct raising; cbn; eauto. Qed.

#[local] Hint Resolve left_with_ending left_with_err : frame.

(** Suspended while it leaves, with an exception if it began with one. *)
Definition leaves (raising : option exn) (call : request_call) : Prop :=
  match call with RLeaving _ _ _ r | RRemoving r => is_Some raising -> is_Some r | _ => False end.

#[local] Hint Extern 1 (leaves _ _) => (cbn; tauto) : frame.

(** A call that runs code which leaves the other calls alone, and then ends or is suspended. *)
Ltac runs := eapply ran_after; [|eauto with frame]; done.

Lemma ran_leave_topic n key i active raising rq :
  ran n (leaves raising) (left_with raising) rq (leave_topic n key i active raising rq).
Proof. unfold leave_topic. destruct (_ && _); [destruct (active && _)|]; runs. Qed.

Lemma ran_await_leaving n key i t raising rq :
  ran n (leaves raising) (left_with raising) rq (await_leaving n key i t raising rq).
Proof.
  unfold await_leaving. destruct (task_at rq t); [runs|apply ran_leave_topic|].
  eapply ran_weaken; [| |apply ran_leave_topic].
  - intros []; cbn; naive_solver eauto.
  - intros r (e' & ->). apply left_with_err.
Qed.

#[local] Hint Resolve ran_leave_topic ran_await_leaving : frame.

Lemma settle_calls f v rq : rq_calls (settle_future f v rq) = rq_calls rq.
Proof. unfold settle_future. by destruct (fut_done _). Qed.

Lemma ran_unregister n key r raising rq :
  ran n (leaves raising) (left_with raising) rq (unregister n key r raising rq).
Proof.
  unfold unregister. destruct (pending_of rq !! key) as [p|]; [|runs]. destruct (_ =? _)%nat; [|runs]. cbn zeta.
  set (rq1 := settle_future _ _ _). eapply (ran_after _ _ _ _ rq1); [intros m _; subst rq1; by rewrite settle_calls|].
  destruct (rq_topics rq1 !! key.1) as [i|]; [|runs]. destruct (0 <? _); [runs|]. destruct (ti_ready _); runs.
Qed.

(** What [register] may end with, and where it may be suspended. *)
Definition registering (key : RequestKey) (call : request_call) : Prop :=
  match call with RAcquire k | RRegister k _ _ => k = key | RLeaving _ _ _ r | RRemoving r => is_Some r | RRestore _ _ => False end.
Definition registered_with (r : res (option nat)) : Prop := r <> Ok None.

Lemma ran_unregister_raising n key r e rq :
  ran n (registering key) registered_with rq (unregister n key r (Some e) rq).
Proof.
  eapply ran_weaken; [| |apply ran_unregister]; [intros []; cbn; naive_solver eauto|]. by intros r' (e' & ->).
Qed.

Lemma ran_await_ready n key r t rq : ran n (registering key) registered_with rq (await_ready n key r t rq).
Proof.
  unfold await_ready. destruct (task_at rq t); [by apply ran_suspend|by apply ran_finish|apply ran_unregister_raising].
Qed.

Lemma ran_register n key rq : ran n (registering key) registered_with rq (register n key rq).
Proof.
  unfold register. destruct (pending_of rq !! key); [eapply ran_after; [|by apply ran_finish]; done|].
  destruct (negb _); [eapply ran_after; [|by apply ran_finish]; done|].
  destruct (add_pending key rq) as [[r i] rq1] eqn:Ea.
  destruct (_ensure_topic_ready key.1 i rq1) as [x rq2] eqn:Ee.
  apply (ran_after _ _ _ _ rq2).
  - intros m _. apply ensure_same in Ee as (_ & _ & -> & _). unfold add_pending in Ea.
    by destruct (rq_topics rq !! key.1); injection Ea as <- <- <-.
  - destruct x; [apply ran_await_ready|apply ran_unregister_raising].
Qed.

Lemma ran_restore n todo rq :
  ran n (fun call => exists todo t, call = RRestore todo t) (fun _ => True) rq (restore n todo rq).
Proof.
  revert rq; induction todo as [|[topic i] todo IH]; intros rq; cbn; [by apply ran_finish|].
  destruct (0 <? _); [|apply IH]. destruct (_ensure_topic_ready topic i rq) as [x rq2] eqn:Ee.
  apply (ran_after _ _ _ _ rq2); [intros m _; by apply ensure_same in Ee as (_ & _ & -> & _)|].
  destruct x as [t|e]; [|by apply ran_finish]. destruct (task_at rq2 t); [apply ran_suspend; eauto|apply IH|by apply ran_finish].
Qed.

(** ** What calls do to the registered requests *)

(** [unregister] without the rest. *)
Definition drop_pending (key : RequestKey) (r : nat) (pending : gmap RequestKey PendingRequest) : gmap RequestKey PendingRequest :=
  match pending !! key with
  | Some p => if (pr_ref p =? r)%nat then delete key pending else pending
  | None => pending
  end.

Lemma drop_pending_Some key r pending k p :
  drop_pending key r pending !! k = Some p -> pending !! k = Some p /\ (k = key -> pr_ref p <> r).
Proof.
  unfold drop_pending. destruct (pending !! key) as [q|] eqn:Hq; [|intros H; split; [done|]; by intros ->; simplify_eq].
  destruct (Nat.eqb_spec (pr_ref q) r) as [Hr|Hr].
  - intros [Hne Hp]%lookup_delete_Some. done.
  - intros Hp. split; [done|]. intros ->. by simplify_eq.
Qed.

(** The registry that [request] records are kept in, but for the pending requests. *)
Definition same_registry (rq rq' : Requests) : Prop :=
  rq_requests rq' = rq_requests rq /\ rq_closed rq' = rq_closed rq.

Lemma registry_leave_topic n key i active raising rq : same_registry rq (leave_topic n key i active raising rq).
Proof. unfold leave_topic. destruct (_ && _); [destruct (active && _)|]; done. Qed.

Lemma registry_await_leaving n key i t raising rq : same_registry rq (await_leaving n key i t raising rq).
Proof. unfold await_leaving. destruct (task_at rq t); [done|apply registry_leave_topic..]. Qed.

Lemma pending_await_leaving n key i t raising rq : pending_of (await_leaving n key i t raising rq) = pending_of rq.
Proof. by rewrite (sf_core _ _ (same_await_leaving n key i t raising rq)). Qed.

Lemma pending_leave_topic n key i active raising rq : pending_of (leave_topic n key i active raising rq) = pending_of rq.
Proof. by rewrite (sf_core _ _ (same_leave_topic n key i active raising rq)). Qed.

Lemma settle_stores f v rq :
  same_registry rq (settle_future f v rq) /\ pending_of (settle_future f v rq) = pending_of rq.
Proof. unfold settle_future. by destruct (fut_done _). Qed.

Lemma unregister_stores n key r raising rq :
  same_registry rq (unregister n key r raising rq) /\
  pending_of (unregister n key r raising rq) = drop_pending key r (pending_of rq).
Proof.
  unfold unregister, drop_pending. destruct (pending_of rq !! key) as [p|]; [|done]. destruct (_ =? _)%nat; [|done]. cbn zeta.
  set (rq1 := settle_future _ _ _).
  destruct (settle_stores (pr_future p) FCancelled (set_pending (delete key (pending_of rq)) rq)) as [[E1 E2] E3].
  fold rq1 in E1, E2, E3. cbn in E1, E2, E3.
  destruct (rq_topics rq1 !! key.1) as [i|]; [|by split; [split|]]. set (rq2 := set_interest _ _ _).
  assert (same_registry rq rq2 /\ pending_of rq2 = delete key (pending_of rq)) as [[E4 E5] E6] by done.
  destruct (0 <? _); [by split; [split|]|]. destruct (ti_ready _) as [t|].
  - destruct (registry_await_leaving n key i t raising rq2) as [E7 E8].
    rewrite pending_await_leaving. split; [|done]. split; congruence.
  - destruct (registry_leave_topic n key i false raising rq2) as [E7 E8].
    rewrite pending_leave_topic. split; [|done]. split; congruence.
Qed.

(** Call [n] of [register] responsible the request: it waits for its topic, or has just returned it. *)
Definition obtains (n : nat) (key : RequestKey) (r : nat) (rq : Requests) : Prop :=
  match rq_calls rq !! n with
  | Some call => exists t, call = RRegister key r t
  | None => result_of rq n = Some (Ok (Some r))
  end.

Lemma unregister_obtains_none n key k r r' e rq : ~ obtains n k r' (unregister n key r (Some e) rq).
Proof.
  unfold obtains. pose proof (ran_call _ _ _ _ _ (ran_unregister n key r (Some e) rq)) as H.
  destruct (rq_calls _ !! n) as [call|]; [intros [t ->]; done|]. destruct H as (x & Hx & e' & ->). congruence.
Qed.

(** The part of [register] from the shielded [await] on. *)
Lemma await_ready_stores n key r t rq :
  let rq' := await_ready n key r t rq in
  same_registry rq rq' /\
  (forall k p, pending_of rq' !! k = Some p -> pending_of rq !! k = Some p /\ (k = key -> pr_ref p = r -> obtains n key r rq')) /\
  (forall k r', obtains n k r' rq' -> r' = r).
Proof.
  cbn zeta. unfold await_ready. destruct (task_at rq t).
  - split; [done|]. split.
    + intros k p Hp. split; [done|]. intros _ _. unfold obtains. cbn. rewrite lookup_insert_eq. eauto.
    + intros k r'. unfold obtains. cbn. rewrite lookup_insert_eq. intros [t' [= -> -> ->]]. done.
  - split; [done|]. assert (forall k r', obtains n k r' (finish n (Ok (Some r)) rq) <-> r = r') as H.
    { intros k r'. unfold obtains. change (rq_calls (finish n (Ok (Some r)) rq)) with (delete n (rq_calls rq)).
      rewrite lookup_delete_eq, result_of_finish, Nat.eqb_refl. split; [by intros [= ->]|by intros ->]. }
    split; [|intros k r' Hr; symmetry; by eapply H]. intros k p Hp. split; [done|]. intros _ _. by apply H.
  - destruct (unregister_stores n key r (Some e) rq) as [Hs Hp]. split; [done|]. split.
    + intros k p. rewrite Hp. intros [H1 H2]%drop_pending_Some. split; [done|]. intros ? ?. by destruct H2.
    + intros k r' H. by apply unregister_obtains_none in H.
Qed.

(** No registered request is closed. *)
Definition all_open (rq : Requests) : Prop := forall k p, pending_of rq !! k = Some p -> pr_ref p ∉ rq_closed rq.

(** What a step of call [n] of [register] does, for [key]. *)
Record registers (n : nat) (key : RequestKey) (rq rq' : Requests) : Prop := {
  rg_ran : ran n (registering key) registered_with rq rq';
  rg_requests : rq_requests rq ⊆ rq_requests rq';
  rg_open : all_open rq -> all_open rq';
  rg_obtains : forall k r, obtains n k r rq' -> exists f, rq_requests rq' !! r = Some (key, f);
  rg_pending : forall k p, pending_of rq' !! k = Some p ->
    (k = key /\ obtains n key (pr_ref p) rq') \/
    (pending_of rq !! k = Some p /\ forall t, rq_calls rq !! n <> Some (RRegister k (pr_ref p) t))
}.

Lemma registers_unregister n key r t e rq :
  rq_calls rq !! n = Some (RRegister key r t) -> registers n key rq (unregister n key r (Some e) (drop_call n rq)).
Proof.
  intros Hn. destruct (unregister_stores n key r (Some e) (drop_call n rq)) as [[E1 E2] E3]. cbn in E1, E2, E3. split.
  - eapply ran_after; [|apply ran_unregister_raising]. intros m Hm. cbn. by rewrite lookup_delete_ne.
  - by rewrite E1.
  - intros Ho k p. rewrite E2, E3. intros [Hp _]%drop_pending_Some. by eapply Ho.
  - intros k r' H. by apply unregister_obtains_none in H.
  - intros k p. rewrite E3. intros [Hp Hr]%drop_pending_Some. right. split; [done|]. intros t'. rewrite Hn. intros [= <- E _]. by apply Hr.
Qed.

Lemma registers_await_ready n key r t rq f :
  rq_calls rq !! n = Some (RRegister key r t) -> rq_requests rq !! r = Some (key, f) ->
  registers n key rq (await_ready n key r t (drop_call n rq)).
Proof.
  intros Hn Hr. destruct (await_ready_stores n key r t (drop_call n rq)) as ([E1 E2] & Hp & Ho). cbn in E1, E2, Hp. split.
  - eapply ran_after; [|apply ran_await_ready]. intros m Hm. cbn. by rewrite lookup_delete_ne.
  - by rewrite E1.
  - intros Hc k p [H _]%Hp. rewrite E2. by eapply Hc.
  - intros k r' ->%Ho. exists f. by rewrite E1.
  - intros k p [H1 H2]%Hp. destruct (decide (k = key /\ pr_ref p = r)) as [[-> Hpr]|Hne].
    + left. split; [done|]. rewrite Hpr. by apply H2.
    + right. split; [done|]. intros t'. rewrite Hn. intros [= <- E _]. by apply Hne.
Qed.

Lemma add_pending_stores key rq r i rq' :
  futures_ok rq -> add_pending key rq = (r, i, rq') ->
  rq_calls rq' = rq_calls rq /\ rq_requests rq ⊆ rq_requests rq' /\ (all_open rq -> all_open rq') /\
  (exists f, rq_requests rq' !! r = Some (key, f)) /\
  (forall k p, pending_of rq' !! k = Some p -> (k = key /\ pr_ref p = r) \/ pending_of rq !! k = Some p).
Proof.
  intros Hf Ea. assert (rq_requests rq !! rq_next rq = None) as Hfresh.
  { destruct (rq_requests rq !! rq_next rq) as [[k f]|] eqn:E; [|done]. destruct (fo_fresh _ Hf _ _ _ E). lia. }
  assert (rq_calls rq' = rq_calls rq /\ rq_requests rq' = <[r := (key, S r)]> (rq_requests rq) /\
          rq_closed rq' = rq_closed rq ∖ {[ r ]} /\ r = rq_next rq /\
          pending_of rq' = <[key := mkPending r (S r) false]> (pending_of rq)) as (E1 & E2 & E3 & -> & E5).
  { unfold add_pending in Ea. by destruct (rq_topics rq !! key.1); injection Ea as <- <- <-. }
  rewrite E1, E2, E5. split_and!; [done|by apply insert_subseteq| |eexists; apply lookup_insert_eq|].
  - intros Ho k p. rewrite E3, E5. intros [[<- <-]|[_ Hp]]%lookup_insert_Some; [set_solver|]. apply Ho in Hp. set_solver.
  - intros k p [[<- <-]|[_ Hp]]%lookup_insert_Some; auto.
Qed.

Lemma registers_register n key rq :
  futures_ok rq -> rq_calls rq !! n = Some (RAcquire key) ->
  registers n key rq (register n key (add_capacity (-1) (drop_call n rq))).
Proof.
  intros Hf Hn. set (rq0 := add_capacity (-1) (drop_call n rq)).
  assert (ran n (registering key) registered_with rq (register n key rq0)) as Hran.
  { eapply ran_after; [|apply ran_register]. intros m Hm. subst rq0. cbn. by rewrite lookup_delete_ne. }
  assert (forall e, registers n key rq (finish n (Err e) (add_capacity 1 rq0))) as Hfail.
  { intros e. split; try done.
    - eapply ran_after; [|by apply ran_finish]. intros m Hm. cbn. by rewrite lookup_delete_ne.
    - intros k r. unfold obtains. change (rq_calls (finish n (Err e) (add_capacity 1 rq0))) with (delete n (delete n (rq_calls rq))).
      by rewrite lookup_delete_eq, result_of_finish, Nat.eqb_refl.
    - intros k p Hp. right. split; [done|]. intros t. by rewrite Hn. }
  revert Hran. unfold register. destruct (pending_of rq0 !! key) as [q|]; [intros _; apply Hfail|].
  destruct (negb _); [intros _; apply Hfail|]. destruct (add_pending key rq0) as [[r i] rq1] eqn:Ea.
  apply add_pending_stores in Ea as (E1 & E2 & E3 & (f & E4) & E5);
    [|subst rq0; revert Hf; by apply futures_same].
  destruct (_ensure_topic_ready key.1 i rq1) as [x rq2] eqn:Ee.
  assert (rq_closed rq2 = rq_closed rq1) as E7 by (unfold _ensure_topic_ready in Ee; by repeat case_match; simplify_eq).
  apply ensure_same in Ee as (Ec & _ & _ & _ & _ & Er & _). intros Hran. destruct x as [t|e].
  - destruct (await_ready_stores n key r t rq2) as ([E8 E9] & Hp & Ho). split; [done|..].
    + by rewrite E8, Er.
    + intros Hopen k p [H _]%Hp. rewrite E9, E7. rewrite Ec in H. revert H. by apply E3.
    + intros k r' ->%Ho. exists f. by rewrite E8, Er.
    + intros k p [H1 H2]%Hp. rewrite Ec in H1. destruct (E5 _ _ H1) as [[-> Hr]|H]; [left; split; [done|]; rewrite Hr; by apply H2|].
      right. split; [done|]. intros t'. by rewrite Hn.
  - destruct (unregister_stores n key r (Some e) rq2) as [[E8 E9] E10]. split; [done|..].
    + by rewrite E8, Er.
    + intros Hopen k p. rewrite E10, E9, E7, Ec. intros [H _]%drop_pending_Some. revert H. by apply E3.
    + intros k r' H. by apply unregister_obtains_none in H.
    + intros k p. rewrite E10, Ec. intros [H1 H2]%drop_pending_Some. destruct (E5 _ _ H1) as [[-> Hr]|H]; [by destruct H2|].
      right. split; [done|]. intros t'. by rewrite Hn.
Qed.

(** An event of call [n]. *)
Definition call_event (n : nat) (ev : request_event) : Prop :=
  match ev with RqPermit m | RqResume m | RqCancel m | RqRemoved m _ => m = n | _ => False end.

(** The call waits in [register] or in the [unregister] of a failed [register]. *)
Definition register_suspended (n : nat) (key : RequestKey) (rq : Requests) : Prop :=
  exists call, rq_calls rq !! n = Some call /\ registering key call /\
    forall k r t, call = RRegister k r t -> exists f, rq_requests rq !! r = Some (key, f).

Lemma registers_refl n key rq : register_suspended n key rq -> registers n key rq rq.
Proof.
  intros (call & Hn & Hc & Hr). split; [|done|done|..].
  - split; [done|]. by rewrite Hn.
  - intros k r. unfold obtains. rewrite Hn. intros [t ->]. by eapply Hr.
  - intros k p Hp. unfold obtains. rewrite Hn.
    destruct call as [|k' r t| | |]; try by (right; split; [done|]; intros t'; intros [=]). cbn in Hc. subst k'.
    destruct (decide (k = key /\ pr_ref p = r)) as [[-> <-]|Hne]; [left; eauto|]. right. split; [done|].
    intros t' [= <- E _]. by apply Hne.
Qed.

(** The rest of a failed call. *)
Lemma registers_failing n key rq rq' e :
  (forall k r t, rq_calls rq !! n <> Some (RRegister k r t)) ->
  ran n (leaves (Some e)) (left_with (Some e)) rq rq' -> same_registry rq rq' -> pending_of rq' = pending_of rq ->
  registers n key rq rq'.
Proof.
  intros Hn Hran [E1 E2] E3. split.
  - eapply ran_weaken; [| |exact Hran]; [intros []; cbn; naive_solver eauto|]. by intros r (e' & ->).
  - by rewrite E1.
  - intros Ho k p. rewrite E2, E3. apply Ho.
  - intros k r. unfold obtains. pose proof (ran_call _ _ _ _ _ Hran) as H. destruct (rq_calls rq' !! n).
    + intros [t ->]. done.
    + destruct H as (x & -> & e' & ->). done.
  - intros k p. rewrite E3. intros Hp. right. split; [done|]. intros t. apply Hn.
Qed.

Lemma ran_dropped n Q R rq rq' : ran n Q R (drop_call n rq) rq' -> ran n Q R rq rq'.
Proof. apply ran_after. intros m Hm. cbn. by rewrite lookup_delete_ne. Qed.

Lemma registers_step n key rq ev :
  futures_ok rq -> register_suspended n key rq -> call_event n ev -> registers n key rq (request_step rq ev).
Proof.
  intros Hf Hs Hev. pose proof (registers_refl _ _ _ Hs) as Hrefl. destruct Hs as (call & Hn & Hc & Hr).
  destruct ev as [|m| |m|m|m raised| | | | | | |]; try done; cbn in Hev; subst m; cbn [request_step]; rewrite Hn.
  - destruct call; try done. cbn in Hc. subst key0. destruct (0 <? _); [|done]. by apply registers_register.
  - destruct call as [|k r t|k i t raising| |]; try done; cbn [resume_call].
    + cbn in Hc. subst k. destruct (Hr _ _ _ eq_refl) as [f Hf']. destruct (task_at rq t); [done|..]; by eapply registers_await_ready.
    + destruct Hc as [e ->]. destruct (task_at rq t); [done|..];
        (eapply registers_failing; [by rewrite Hn|apply ran_dropped, ran_await_leaving|exact (registry_await_leaving n k i t _ (drop_call n rq))|by rewrite pending_await_leaving]).
  - destruct call as [k|k r t|k i t raising|raising|]; try done; cbn [cancel_call].
    + apply (registers_failing _ _ _ _ CancelledError); [by rewrite Hn|apply ran_finish; by eexists|done|done].
    + cbn in Hc. subst k. by eapply registers_unregister.
    + eapply registers_failing; [by rewrite Hn|apply ran_dropped, ran_leave_topic|exact (registry_leave_topic n k i _ _ (drop_call n rq))|by rewrite pending_leave_topic].
    + apply (registers_failing _ _ _ _ CancelledError); [by rewrite Hn| |done|done].
      eapply ran_after; [|apply ran_finish; by eexists]. done.
  - destruct call as [| | |raising|]; try done. destruct Hc as [e ->].
    apply (registers_failing _ _ _ _ e); [by rewrite Hn| |done|done].
    eapply ran_after; [|apply ran_finish]; [done|]. destruct raised; by eexists.
Qed.

(** What a step of [close] does: it forgets the request, if it has not before. *)
Record closes (n : nat) (rq rq' : Requests) : Prop := {
  cl_ran : ran n (leaves None) (fun _ => True) rq rq';
  cl_registry : same_registry rq rq';
  cl_pending : pending_of rq' = pending_of rq
}.

Lemma closes_step n rq ev call :
  rq_calls rq !! n = Some call -> leaves None call -> call_event n ev -> closes n rq (request_step rq ev).
Proof.
  intros Hn Hc Hev. assert (closes n rq rq) as Hrefl by (split; [split; [done|by rewrite Hn]|done|done]).
  assert (forall r, closes n rq (finish n r (add_capacity 1 rq))) as Hfin.
  { intros r. split; [|done|done]. eapply ran_after; [|by apply ran_finish]. done. }
  assert (forall rq' raising, ran n (leaves raising) (left_with raising) (drop_call n rq) rq' ->
            ran n (leaves None) (fun _ => True) rq rq') as Hweak.
  { intros rq' raising H%ran_dropped. eapply ran_weaken; [| |exact H]; [|done]. intros []; cbn; try done; by intros _ []. }
  destruct ev as [|m| |m|m|m raised| | | | | | |]; try done; cbn in Hev; subst m; cbn [request_step]; rewrite Hn;
    destruct call as [|k r t|k i t raising|raising|]; try done; cbn [resume_call cancel_call].
  - destruct (task_at rq t); [done|..];
      (split; [eapply Hweak, ran_await_leaving|exact (registry_await_leaving n k i t _ (drop_call n rq))|by rewrite pending_await_leaving]).
  - split; [eapply Hweak, ran_leave_topic|exact (registry_leave_topic n k i _ _ (drop_call n rq))|by rewrite pending_leave_topic].
  - apply Hfin.
Qed.

(** [close] of a request that is registered or not. *)
Lemma close_begins n key r f rq :
  rq_calls rq !! n = None -> rq_requests rq !! r = Some (key, f) ->
  let rq' := request_step rq (RqClose n r) in
  ran n (leaves None) (fun _ => True) rq rq' /\ rq_requests rq' = rq_requests rq /\
  rq_closed rq' = {[ r ]} ∪ rq_closed rq /\
  pending_of rq' = if bool_decide (r ∈ rq_closed rq) then pending_of rq else drop_pending key r (pending_of rq).
Proof.
  intros Hn Hr. cbn zeta. cbn [request_step]. rewrite Hn, Hr. case_bool_decide as Hc.
  - split_and!; [by apply ran_finish|done|cbn; set_solver|done].
  - destruct (unregister_stores n key r None (close_request r rq)) as [[E1 E2] E3]. split_and!; [|done|done|done].
    eapply ran_after; [|eapply ran_weaken; [..|apply ran_unregister]]; done.
Qed.

(** ** Futures are settled once *)

(** Every future there is keeps its result. *)
Definition kept (rq rq' : Requests) : Prop :=
  (rq_next rq <= rq_next rq')%nat /\
  forall f, (f < rq_next rq)%nat -> fut_done (future_at rq f) = true -> future_at rq' f = future_at rq f.

#[export] Instance kept_preorder : PreOrder kept.
Proof.
  split; [by split|]. intros x y z [H1 H2] [H3 H4]. split; [lia|]. intros f Hf Hd.
  rewrite H4; [by apply H2|lia|by rewrite H2].
Qed.

Lemma kept_same rq rq' : same_futures rq rq' -> kept rq rq'.
Proof. intros [_ E _ _ Hn]. split; [done|]. intros f _ _. unfold future_at. by rewrite E. Qed.

Lemma kept_settle f v rq : kept rq (settle_future f v rq).
Proof.
  destruct (settle_same f v rq) as (_ & _ & _ & E). split; [by rewrite E|]. intros g _ Hd. rewrite future_at_settle.
  case_decide; [subst; by rewrite Hd|done].
Qed.

Lemma kept_unregister n key r raising rq : kept rq (unregister n key r raising rq).
Proof.
  unfold unregister. destruct (pending_of rq !! key) as [p|]; [|by apply kept_same].
  destruct (_ =? _)%nat; [|by apply kept_same]. cbn zeta. set (rq1 := settle_future _ _ _).
  trans rq1; [exact (kept_settle _ _ (set_pending (delete key (pending_of rq)) rq))|]. apply kept_same.
  destruct (rq_topics rq1 !! key.1) as [i|]; [|by split]. set (rq2 := set_interest _ _ _).
  trans rq2; [by split|]. destruct (0 <? _); [by split|].
  destruct (ti_ready _); [apply same_await_leaving|apply same_leave_topic].
Qed.

Lemma kept_await_ready n key r t rq : kept rq (await_ready n key r t rq).
Proof. unfold await_ready. destruct (task_at rq t); [by apply kept_same..|apply kept_unregister]. Qed.

Lemma kept_register n key rq : kept rq (register n key rq).
Proof.
  unfold register. destruct (pending_of rq !! key); [by apply kept_same|]. destruct (negb _); [by apply kept_same|].
  destruct (add_pending key rq) as [[r i] rq1] eqn:Ea. destruct (_ensure_topic_ready key.1 i rq1) as [x rq2] eqn:Ee.
  trans rq1.
  - assert (rq_next rq1 = S (S (S (rq_next rq))) /\ rq_futures rq1 = <[S (rq_next rq) := FPending]> (rq_futures rq)) as [E1 E2].
    { unfold add_pending in Ea. by destruct (rq_topics rq !! key.1); injection Ea as <- <- <-. }
    split; [lia|]. intros f Hf _. unfold future_at. rewrite E2, lookup_insert_ne by lia. done.
  - trans rq2; [by eapply kept_same, same_ensure|]. destruct x; [apply kept_await_ready|apply kept_unregister].
Qed.

Lemma kept_cancel_pending rq : kept rq (cancel_pending rq).
Proof.
  unfold cancel_pending. set (rq' := mkRequests _ _ _ _ _ _ _ _ _ _ _ _ _ _). set (ps := map snd _).
  destruct (fail_requests_same ps rq') as (_ & _ & _ & E & _). split; [by rewrite E|].
  intros f _ Hd. rewrite future_at_fail. change (future_at rq' f) with (future_at rq f). by rewrite Hd, andb_false_r.
Qed.

Lemma kept_step rq ev : kept rq (request_step rq ev).
Proof.
  destruct ev as [n key|n|t st|n|n|n raised|n request|request|message|c| |n|]; cbn [request_step].
  - by destruct (rq_calls rq !! n).
  - destruct (rq_calls rq !! n) as [[key| | | |]|]; try done. destruct (0 <? rq_capacity rq); [|done].
    exact (kept_register n key (add_capacity (-1) (drop_call n rq))).
  - by destruct (rq_tasks rq !! t) as [[]|].
  - destruct (rq_calls rq !! n) as [[key|key r t|key i t raising|raising|todo t]|]; try done; cbn [resume_call].
    + destruct (task_at rq t); [done|exact (kept_await_ready n key r t (drop_call n rq))..].
    + destruct (task_at rq t); [done|exact (kept_same _ _ (same_await_leaving n key i t raising (drop_call n rq)))..].
    + destruct (task_at rq t); [done|exact (kept_same _ _ (same_restore n todo (drop_call n rq)))|done].
  - destruct (rq_calls rq !! n) as [[key|key r t|key i t raising|raising|todo t]|]; try done; cbn [cancel_call].
    + exact (kept_unregister n key r (Some CancelledError) (drop_call n rq)).
    + exact (kept_same _ _ (same_leave_topic n key i false (Some CancelledError) (drop_call n rq))).
  - by destruct (rq_calls rq !! n) as [[| | |raising|]|].
  - destruct (rq_calls rq !! n); [done|]. destruct (rq_requests rq !! request) as [[key f]|]; [|done].
    case_bool_decide; [done|]. exact (kept_unregister n key request None (close_request request rq)).
  - destruct (rq_requests rq !! request) as [[key f]|]; [|done]. apply kept_settle.
  - unfold claim_message. by destruct (claim_response _ _ _) as [[c d]|].
  - destruct (rq_claims rq !! c); [|done]. unfold complete_response. destruct (completes _ _); [apply kept_settle|done].
  - done.
  - destruct (rq_calls rq !! n); [done|]. apply kept_same, same_restore.
  - apply kept_cancel_pending.
Qed.

(** ** The invariant *)

Definition dispatcher_ok (max : Z) (rq : Requests) : Prop := capacity_ok 0 max rq /\ topics_ok None rq /\ futures_ok rq.

Lemma dispatcher_step max rq ev : dispatcher_ok max rq -> dispatcher_ok max (request_step rq ev).
Proof. apply (steps_inv max [ev]). Qed.

(** What the caller gets is an answer to its request. *)
Definition answer_given (key : RequestKey) (outcome : res fut_value) : Prop :=
  forall v, outcome = Ok v -> exists m, v = VMessage m /\ answers m key.

(** What a waiting caller knows of its future, and the future of its cancellation. *)
Record reply_wait_ok (rq : Requests) (key : RequestKey) (r : nat) (w : waiting (A := fut_value)) : Prop := {
  wk_running : wait_ended w = false;
  wk_timeout : w_phase w <> WDirect;
  wk_waiting : w_phase w = WWaiting -> w_cancelled w = false;
  wk_draining : forall y, w_phase w = WDraining y -> fut_done (future_of rq r) = true;
  wk_task : is_Some (w_task w) -> fut_done (future_of rq r) = true;
  wk_result : forall v, w_task w = Some (Result v) -> answer_given key (Ok v)
}.

(** The stage of caller [c] fits the dispatcher. *)
Definition request_stage_ok (rq : Requests) (c : nat) (st : option request_stage) : Prop :=
  match st with
  | None => forall call, rq_calls rq !! c = Some call -> exists todo t, call = RRestore todo t
  | Some (QRegister key) => register_suspended c key rq
  | Some (QPublish key r) => rq_calls rq !! c = None /\ exists f, rq_requests rq !! r = Some (key, f)
  | Some (QWait key r w) =>
    rq_calls rq !! c = None /\ (exists f, rq_requests rq !! r = Some (key, f)) /\ reply_wait_ok rq key r w
  | Some (QClose key outcome) => (exists call, rq_calls rq !! c = Some call /\ leaves None call) /\ answer_given key outcome
  | Some (QDone key outcome) => rq_calls rq !! c = None /\ answer_given key outcome
  end.

(** The caller is responsible for the registered request. *)
Definition responsible (rq : Requests) (c : nat) (st : option request_stage) (key : RequestKey) (r : nat) : Prop :=
  match st with
  | Some (QRegister k) => k = key /\ exists t, rq_calls rq !! c = Some (RRegister key r t)
  | Some (QPublish k q) | Some (QWait k q _) => k = key /\ q = r
  | _ => False
  end.

Record callers_ok (max : Z) (cs : Callers) : Prop := {
  co_dispatcher : dispatcher_ok max (ca_requests cs);
  co_stage : forall c, request_stage_ok (ca_requests cs) c (ca_stage cs !! c);
  co_open : all_open (ca_requests cs);
  co_holder : forall key p, pending_of (ca_requests cs) !! key = Some p ->
    exists c, responsible (ca_requests cs) c (ca_stage cs !! c) key (pr_ref p)
}.

(** A future that is done stays done. *)
Lemma future_of_done rq rq' r :
  futures_ok rq -> rq_requests rq ⊆ rq_requests rq' -> kept rq rq' ->
  fut_done (future_of rq r) = true -> future_of rq' r = future_of rq r.
Proof.
  intros Hf Hr [_ Hs]. unfold future_of. destruct (rq_requests rq !! r) as [[key f]|] eqn:E; [|done].
  rewrite (lookup_weaken _ _ _ _ E Hr). intros Hd. apply Hs; [|done]. by destruct (fo_fresh _ Hf _ _ _ E).
Qed.

Lemma request_stage_mono rq rq' c st :
  futures_ok rq -> kept rq rq' ->
  rq_calls rq' !! c = rq_calls rq !! c -> rq_requests rq ⊆ rq_requests rq' -> request_stage_ok rq c st -> request_stage_ok rq' c st.
Proof.
  intros Hf Hs E Hr. unfold request_stage_ok, register_suspended. rewrite E.
  assert (forall key r w, reply_wait_ok rq key r w -> reply_wait_ok rq' key r w) as Hw.
  { intros key r w [H1 H2 H3 H4 H5 H6]. split; try done; [intros y Hy%H4|intros Ht%H5]; by rewrite (future_of_done rq). }
  assert (forall r key, (exists f, rq_requests rq !! r = Some (key, f)) -> exists f, rq_requests rq' !! r = Some (key, f)) as Hm.
  { intros r key [f H]. exists f. by eapply lookup_weaken. }
  destruct st as [[| | | |]|]; naive_solver eauto.
Qed.

Lemma responsible_calls rq rq' c st key r : rq_calls rq' !! c = rq_calls rq !! c -> responsible rq c st key r -> responsible rq' c st key r.
Proof. intros E. unfold responsible. by rewrite E. Qed.

(** A step of caller [c]. *)
Lemma callers_put max cs c st rq' :
  callers_ok max cs -> dispatcher_ok max rq' -> kept (ca_requests cs) rq' ->
  (forall m, m <> c -> rq_calls rq' !! m = rq_calls (ca_requests cs) !! m) ->
  rq_requests (ca_requests cs) ⊆ rq_requests rq' -> all_open rq' -> request_stage_ok rq' c (Some st) ->
  (forall k p, pending_of rq' !! k = Some p -> responsible rq' c (Some st) k (pr_ref p) \/
     (exists p0, pending_of (ca_requests cs) !! k = Some p0 /\ pr_ref p0 = pr_ref p) /\
     ~ responsible (ca_requests cs) c (ca_stage cs !! c) k (pr_ref p)) ->
  callers_ok max (put_stage c st rq' cs).
Proof.
  intros [H1 H2 H3 H4] Hd Hs Hc Hr Ho Hst Hp. split; cbn; try done.
  - intros m. destruct (decide (m = c)) as [->|Hm]; [by rewrite lookup_insert_eq|]. rewrite lookup_insert_ne by done.
    eapply request_stage_mono; [apply H1|done|by apply Hc|done|apply H2].
  - intros k p Hk. destruct (Hp k p Hk) as [H|[(p0 & Hp0 & E) Hn]]; [exists c; by rewrite lookup_insert_eq|].
    destruct (H4 k p0 Hp0) as [m Hm]. exists m. rewrite E in Hm. rewrite lookup_insert_ne by (intros ->; done).
    eapply responsible_calls; [|exact Hm]. apply Hc. by intros ->.
Qed.

(** A step of something else. *)
Lemma callers_other max cs rq' :
  callers_ok max cs -> dispatcher_ok max rq' -> kept (ca_requests cs) rq' ->
  (forall c, is_Some (ca_stage cs !! c) -> rq_calls rq' !! c = rq_calls (ca_requests cs) !! c) ->
  (forall c, ca_stage cs !! c = None -> request_stage_ok rq' c None) ->
  same_registry (ca_requests cs) rq' ->
  (forall k p, pending_of rq' !! k = Some p ->
     exists p0, pending_of (ca_requests cs) !! k = Some p0 /\ pr_ref p0 = pr_ref p) ->
  callers_ok max (mkCallers rq' (ca_stage cs)).
Proof.
  intros [H1 H2 H3 H4] Hd Hs Hc Hn [E1 E2] Hp. split; cbn; try done.
  - intros c. destruct (ca_stage cs !! c) as [st|] eqn:Est; [|by apply Hn].
    eapply request_stage_mono; [apply H1|done|apply Hc; by rewrite Est|by rewrite E1|]. rewrite <-Est. apply H2.
  - intros k p (p0 & H & <-)%Hp. rewrite E2. by eapply H3.
  - intros k p (p0 & H & <-)%Hp. destruct (H4 _ _ H) as [c Hh]. exists c. eapply responsible_calls; [|exact Hh].
    apply Hc. destruct (ca_stage cs !! c); [by eexists|done].
Qed.

(** ** Every step keeps it *)

Lemma begin_close_ok max c key r f outcome cs :
  callers_ok max cs -> rq_calls (ca_requests cs) !! c = None -> rq_requests (ca_requests cs) !! r = Some (key, f) ->
  (forall k q, responsible (ca_requests cs) c (ca_stage cs !! c) k q -> q = r) -> answer_given key outcome ->
  callers_ok max (begin_close c key r outcome cs).
Proof.
  intros Hok Hc Hr Hh Ha. pose proof (co_dispatcher _ _ Hok) as Hd. pose proof (co_open _ _ Hok) as Ho. unfold begin_close.
  destruct (close_begins c key r f (ca_requests cs) Hc Hr) as ([Hran1 Hran2] & E1 & E2 & E3).
  set (rq' := request_step (ca_requests cs) (RqClose c r)) in *.
  assert (forall k p, pending_of rq' !! k = Some p ->
            pending_of (ca_requests cs) !! k = Some p /\ pr_ref p ∉ rq_closed (ca_requests cs) /\ pr_ref p <> r) as Hp.
  { intros k p. rewrite E3. case_bool_decide as Hcl.
    - intros H. pose proof (Ho _ _ H) as H'. split_and!; [done|done|]. intros E. by rewrite E in H'.
    - intros [H1 H2]%drop_pending_Some. split_and!; [done|by eapply Ho|]. intros E. apply H2; [|done].
      destruct Hd as (_ & _ & Hf). pose proof (fo_pending _ Hf _ _ H1) as H. rewrite E in H. congruence. }
  apply callers_put; [done|by apply dispatcher_step|apply kept_step|done|by rewrite E1| | |].
  - intros k p (_ & H1 & H2)%Hp. rewrite E2. set_solver.
  - unfold after_close. destruct (rq_calls rq' !! c) as [call|] eqn:Ec; [split; [by eexists|done]|].
    destruct Hran2 as (x & -> & _). destruct x; split; done.
  - intros k p (H1 & _ & H2)%Hp. right. split; [by exists p|]. by intros ?%Hh.
Qed.

(** What [wait_for] sees when it runs. *)
Definition wait_sees (rq : Requests) (r : nat) (w : waiting) : waiting :=
  match future_outcome (future_of rq r) with Some o => wait_step w (WTaskEnds o) | None => w end.

Lemma sees_ok rq key r f w :
  futures_ok rq -> rq_requests rq !! r = Some (key, f) -> reply_wait_ok rq key r w -> reply_wait_ok rq key r (wait_sees rq r w).
Proof.
  intros Hf Hr Hw. pose proof (fun v => fo_result _ Hf r key f v Hr) as Hv. unfold wait_sees.
  destruct (future_outcome (future_of rq r)) as [o|] eqn:Eo; [|done]. cbn [wait_step].
  destruct (w_task w) eqn:Et; [done|]. destruct Hw as [H1 H2 H3 H4 H5 H6]. split; try done; cbn.
  { intros _. by destruct (future_of rq r). }
  intros v [= ->] u [= <-]. apply Hv. unfold future_of in Eo. rewrite Hr in Eo. destruct (future_at rq f); try done. by injection Eo as <-.
Qed.

(** Seen from [wait_for], the task of a future that is done has ended. *)
Lemma sees_task rq r w : fut_done (future_of rq r) = true -> is_Some (w_task (wait_sees rq r w)).
Proof.
  unfold wait_sees. destruct (future_of rq r); [done|..]; intros _; cbn; destruct (w_task w) eqn:E; cbn; rewrite ?E; by eexists.
Qed.

(** A wait that goes on. *)
Lemma put_wait_ok max c key r w w' cs :
  callers_ok max cs -> ca_stage cs !! c = Some (QWait key r w) -> reply_wait_ok (ca_requests cs) key r w' ->
  callers_ok max (put_stage c (QWait key r w') (ca_requests cs) cs).
Proof.
  intros Hok Hc Hw. pose proof (co_stage _ _ Hok c) as Hst. rewrite Hc in Hst. destruct Hst as (Hn & Hr & _).
  apply callers_put; try done; try apply Hok.
  intros k p Hk. destruct (co_holder _ _ Hok k p Hk) as [m Hm]. destruct (decide (m = c)) as [->|Hne].
  - left. by rewrite Hc in Hm.
  - destruct (decide (k = key /\ pr_ref p = r)) as [[-> <-]|Hne']; [by left|]. right. split; [by exists p|].
    rewrite Hc. intros [E1 E2]. by apply Hne'.
Qed.

(** [future.cancel()] *)
Lemma give_up_stores r rq :
  let rq' := request_step rq (RqGiveUp r) in
  rq_calls rq' = rq_calls rq /\ same_registry rq rq' /\ pending_of rq' = pending_of rq.
Proof.
  cbn zeta. cbn [request_step]. destruct (rq_requests rq !! r) as [[key f]|]; [|done].
  split; [apply settle_calls|apply settle_stores].
Qed.

Lemma give_up_done r key f rq :
  rq_requests rq !! r = Some (key, f) -> fut_done (future_of (request_step rq (RqGiveUp r)) r) = true.
Proof.
  intros Hr. destruct (give_up_stores r rq) as (_ & [E _] & _). unfold future_of. rewrite E, Hr. cbn [request_step]. rewrite Hr.
  rewrite future_at_settle. case_decide; [|done]. by destruct (fut_done (future_at rq f)) eqn:Ed.
Qed.

Lemma give_up_ok max r cs :
  callers_ok max cs -> callers_ok max (mkCallers (request_step (ca_requests cs) (RqGiveUp r)) (ca_stage cs)).
Proof.
  intros Hok. destruct (give_up_stores r (ca_requests cs)) as (E1 & E2 & E3).
  apply callers_other; [done|by apply dispatcher_step, Hok|apply kept_step|by rewrite E1| |done|rewrite E3; eauto].
  intros c Hc. pose proof (co_stage _ _ Hok c) as H. rewrite Hc in H. unfold request_stage_ok. by rewrite E1.
Qed.

(** [wait_for] runs on: it goes on with the invariant, or it ends. *)
Lemma wait_runs w key r f rq :
  futures_ok rq -> rq_requests rq !! r = Some (key, f) -> reply_wait_ok rq key r w ->
  let seen := wait_sees rq r w in
  let w' := wait_step seen WResume in
  let rq' := if w_cancelled w' && negb (w_cancelled seen) then request_step rq (RqGiveUp r) else rq in
  match w_phase w' with
  | WEnded outcome => answer_given key outcome
  | _ => reply_wait_ok rq' key r w'
  end.
Proof.
  intros Hf Hr Hw. cbn zeta. pose proof (sees_task rq r w) as Ht. apply (sees_ok rq key r f) in Hw; [|done..].
  pose proof (give_up_done r key f rq Hr) as Hg. destruct Hw as [H1 H2 H3 H4 H5 H6].
  assert (forall o, w_task (wait_sees rq r w) = Some o -> answer_given key (task_result o)) as Ho.
  { intros [v|e|] E u; cbn; intros [= <-]. by apply (H6 _ E). }
  destruct (wait_sees rq r w) as [p t k fired thrown]. cbn in *. destruct p as [| |y|outcome]; [done| | |done].
  - rewrite H3 in * by done. destruct thrown; cbn.
    + destruct t as [o|]; cbn; split; cbn; try done; intros; auto.
    + destruct t as [o|]; cbn; [by apply Ho|]. destruct fired; cbn; split; cbn; try done; intros; auto.
  - destruct (Ht (H4 _ eq_refl)) as [o ->]. destruct thrown; cbn; [done|]. destruct y, o; cbn; try done; by apply (Ho _ eq_refl).
Qed.

Lemma resume_wait_ok max c key r w cs :
  callers_ok max cs -> ca_stage cs !! c = Some (QWait key r w) -> callers_ok max (resume_wait c key r w cs).
Proof.
  intros Hok Hc. pose proof (co_stage _ _ Hok c) as Hst. rewrite Hc in Hst. destruct Hst as (_ & [f Hr] & Hw).
  pose proof (wait_runs w key r f _ (proj2 (proj2 (co_dispatcher _ _ Hok))) Hr Hw) as Hrun. cbn zeta in Hrun.
  unfold resume_wait. fold (wait_sees (ca_requests cs) r w). set (seen := wait_sees (ca_requests cs) r w) in *.
  set (w' := wait_step seen WResume) in *. set (rq' := if _ && _ then _ else _) in *.
  assert (callers_ok max (mkCallers rq' (ca_stage cs))) as Hok'.
  { subst rq'. destruct (_ && _); [by apply give_up_ok|by destruct cs]. }
  destruct (w_phase w') as [| | |outcome]; try by apply (put_wait_ok max c key r w w' (mkCallers rq' (ca_stage cs))).
  pose proof (co_stage _ _ Hok' c) as Hst. cbn in Hst. rewrite Hc in Hst. destruct Hst as (Hn' & [f' Hr'] & _).
  eapply begin_close_ok; [done|done|done| |done]. cbn. rewrite Hc. by intros k q [_ ->].
Qed.

(** The caller's call of the dispatcher moves on. *)
Lemma caller_call_ok max c ev cs : callers_ok max cs -> call_event c ev -> callers_ok max (caller_call c ev cs).
Proof.
  intros Hok Hev. pose proof (co_stage _ _ Hok c) as Hst. pose proof (co_dispatcher _ _ Hok) as Hd. unfold caller_call.
  set (rq' := request_step (ca_requests cs) ev).
  destruct (ca_stage cs !! c) as [[key|key r|key r w|key outcome|key outcome]|] eqn:Hc; try done.
  - destruct (registers_step c key _ ev (proj2 (proj2 Hd)) Hst Hev) as [[Hr1 Hr2] H2 H3 H4 H5]. fold rq' in Hr1, Hr2, H2, H3, H4, H5.
    apply callers_put; [done|by apply dispatcher_step|apply kept_step|done|done|by apply H3, Hok|..]; unfold after_register, obtains in *.
    + destruct (rq_calls rq' !! c) as [call|] eqn:Ec.
      * exists call. split_and!; [done|done|]. intros k r t ->. cbn in Hr2. subst k. apply (H4 key r). by exists t.
      * destruct Hr2 as (x & Hx & Hne). rewrite Hx in *. destruct x as [[r|]|e]; [|done|by split].
        split; [done|]. by apply (H4 key r).
    + intros k p [[-> H]|[H Hn]]%H5; [left|right].
      * destruct (rq_calls rq' !! c) as [call|] eqn:Ec; [destruct H as [t ->]; split; [done|exists t; exact Ec]|]. by rewrite H.
      * split; [by exists p|]. rewrite Hc. intros [_ [t Ht]]. by apply (Hn t).
  - destruct Hst as ((call & Hn & Hl) & Ha). destruct (closes_step c _ ev call Hn Hl Hev) as [[Hr1 Hr2] [E1 E2] E3].
    fold rq' in Hr1, Hr2, E1, E2, E3. apply callers_put; [done|by apply dispatcher_step|apply kept_step|done|by rewrite E1|..].
    + intros k p. rewrite E2, E3. apply Hok.
    + unfold after_close. destruct (rq_calls rq' !! c) as [call'|] eqn:Ec; [split; [by exists call'|done]|].
      destruct Hr2 as (x & -> & _). by destruct x.
    + intros k p. rewrite E3. intros Hp. right. split; [by exists p|]. rewrite Hc. by intros [].
Qed.

Lemma registry_restore n todo rq : same_registry rq (restore n todo rq).
Proof.
  revert rq; induction todo as [|[topic i] todo IH]; intros rq; cbn; [done|]. destruct (0 <? _); [|apply IH].
  destruct (_ensure_topic_ready topic i rq) as [x rq2] eqn:Ee.
  assert (same_registry rq rq2) as [E1 E2] by (unfold _ensure_topic_ready in Ee; by repeat case_match; simplify_eq).
  destruct x as [t|e]; [|done]. destruct (task_at rq2 t); [done| |done].
  destruct (IH rq2) as [E3 E4]. split; congruence.
Qed.

(** A call of [restore] begins, goes on or is cancelled. *)
Lemma restore_call_ok max n ev cs :
  callers_ok max cs -> ca_stage cs !! n = None -> (ev = RqRestore n \/ ev = RqResume n \/ ev = RqCancel n) ->
  callers_ok max (mkCallers (request_step (ca_requests cs) ev) (ca_stage cs)).
Proof.
  intros Hok Hn Hev. pose proof (co_stage _ _ Hok n) as Hst. rewrite Hn in Hst. set (rq := ca_requests cs) in *.
  set (restoring := fun call => exists todo t, call = RRestore todo t).
  assert (request_step rq ev = rq \/
          ran n restoring (fun _ => True) rq (request_step rq ev) /\ same_registry rq (request_step rq ev) /\
          pending_of (request_step rq ev) = pending_of rq) as [E|(Hran & Hs & Hp)].
  { destruct Hev as [-> | [-> | ->]]; cbn [request_step].
    - destruct (rq_calls rq !! n); [by left|right].
      split_and!; [apply ran_restore|apply registry_restore|by rewrite (sf_core _ _ (same_restore _ _ _))].
    - destruct (rq_calls rq !! n) as [call|] eqn:Ec; [|by left]. destruct (Hst _ Ec) as (todo & t & ->). cbn [resume_call].
      destruct (task_at rq t); [by left|right..]; [|split_and!; [by apply ran_finish|done|done]].
      split_and!; [apply ran_dropped, ran_restore|exact (registry_restore n todo (drop_call n rq))|].
      by rewrite (sf_core _ _ (same_restore _ _ _)).
    - destruct (rq_calls rq !! n) as [call|] eqn:Ec; [|by left]. destruct (Hst _ Ec) as (todo & t & ->). right.
      split_and!; [by apply ran_finish|done|done]. }
  - rewrite E. by destruct cs.
  - apply callers_other; [done|by apply dispatcher_step, Hok|apply kept_step|..].
    + intros c [st Hc]. apply Hran. by intros ->; rewrite Hn in Hc.
    + intros c Hc. destruct (decide (c = n)) as [->|Hne].
      * pose proof (ran_call _ _ _ _ _ Hran) as H. intros call Hcall. by rewrite Hcall in H.
      * pose proof (co_stage _ _ Hok c) as H. rewrite Hc in H. cbn in *. by rewrite (ran_others _ _ _ _ _ Hran c Hne).
    + done.
    + intros k p. rewrite Hp. eauto.
Qed.

(** The timer, a cancellation. *)
Lemma reply_wait_event rq key r w ev : ev = WTimer \/ ev = WCancel -> reply_wait_ok rq key r w -> reply_wait_ok rq key r (wait_step w ev).
Proof.
  destruct w as [p t k fired thrown]. intros Hev [H1 H2 H3 H4 H5 H6]. cbn in *.
  destruct Hev as [-> | ->], p as [| |y|outcome]; done.
Qed.

Lemma fail_requests_registry ps rq : same_registry rq (fail_requests ps rq).
Proof.
  revert rq; induction ps as [|p ps IH]; intros rq; [done|]. cbn [fail_requests foldl]. fold fail_requests.
  destruct (IH (add_capacity 1 (settle_future (pr_future p) (FException (MQTTDisconnectedError "Client disconnected")) rq))) as [E1 E2].
  destruct (settle_stores (pr_future p) (FException (MQTTDisconnectedError "Client disconnected")) rq) as [[E3 E4] _].
  split; [by rewrite <-E3|by rewrite <-E4].
Qed.

(** The engine and the client. *)
Lemma other_ok max ev cs :
  callers_ok max cs -> not_of_caller cs ev = true ->
  callers_ok max (mkCallers (request_step (ca_requests cs) ev) (ca_stage cs)).
Proof.
  intros Hok Hev. set (rq := ca_requests cs).
  assert (rq_calls (request_step rq ev) = rq_calls rq -> same_registry rq (request_step rq ev) ->
          (forall k p, pending_of (request_step rq ev) !! k = Some p -> exists p0, pending_of rq !! k = Some p0 /\ pr_ref p0 = pr_ref p) ->
          callers_ok max (mkCallers (request_step rq ev) (ca_stage cs))) as Hsame.
  { intros E1 E2 E3. apply callers_other; [done|by apply dispatcher_step, Hok|apply kept_step|by rewrite E1| |done|done].
    intros c Hc. pose proof (co_stage _ _ Hok c) as H. rewrite Hc in H. unfold request_stage_ok. by rewrite E1. }
  destruct ev as [| |t st|n|n| | | |m|k| |n|]; try done; cbn in Hev;
    try (apply bool_decide_eq_true in Hev; eapply restore_call_ok; [done|exact Hev|tauto]); apply Hsame; cbn [request_step].
  - by destruct (rq_tasks rq !! t) as [[]|].
  - by destruct (rq_tasks rq !! t) as [[]|].
  - destruct (rq_tasks rq !! t) as [[]|]; eauto.
  - unfold claim_message. by destruct (claim_response _ _ _) as [[c d]|].
  - unfold claim_message. by destruct (claim_response _ _ _) as [[c d]|].
  - unfold claim_message. destruct (claim_response _ _ _) as [[c d]|] eqn:E; [|eauto].
    apply claim_response_Some in E as (data & q & _ & Hq & _ & _ & _ & ->). cbn. intros key p.
    intros [[<- <-]|[_ Hp]]%lookup_insert_Some; eauto.
  - destruct (rq_claims rq !! k); [|done]. unfold complete_response. destruct (completes _ _); [apply settle_calls|done].
  - destruct (rq_claims rq !! k); [|done]. unfold complete_response. destruct (completes _ _); [apply settle_stores|done].
  - destruct (rq_claims rq !! k); [|eauto]. unfold complete_response. destruct (completes _ _) as [f|]; [|eauto].
    destruct (settle_stores f (FResult (VMessage (cr_message c))) rq) as [_ ->]. eauto.
  - done.
  - done.
  - cbn. intros key p. rewrite lookup_fmap. destruct (pending_of rq !! key) as [q|]; [|done]. intros [= <-]. by exists q.
  - unfold cancel_pending. set (rq' := mkRequests _ _ _ _ _ _ _ _ _ _ _ _ _ _). by destruct (fail_requests_same (map snd (map_to_list (pending_of rq))) rq') as (_ & _ & -> & _).
  - unfold cancel_pending. apply (fail_requests_registry _ (mkRequests _ _ _ _ _ _ _ _ _ _ _ _ _ _)).
  - unfold cancel_pending. set (rq' := mkRequests _ _ _ _ _ _ _ _ _ _ _ _ _ _).
    destruct (fail_requests_same (map snd (map_to_list (pending_of rq))) rq') as (-> & _). cbn. intros key p. by rewrite lookup_empty.
Qed.

Lemma caller_step_ok max ev cs : callers_ok max cs -> callers_ok max (caller_step cs ev).
Proof.
  intros Hok. pose proof (fun c => co_stage _ _ Hok c) as Hst.
  destruct ev as [c key|c|c|c|c outcome|c|c raised|ev]; cbn [caller_step].
  - destruct (ca_stage cs !! c) eqn:Hc; [done|]. destruct (rq_calls (ca_requests cs) !! c) eqn:Hn; [done|].
    cbn [request_step]. rewrite Hn. pose proof (dispatcher_step max _ (RqRegister c key) (co_dispatcher _ _ Hok)) as Hd.
    cbn [request_step] in Hd. rewrite Hn in Hd.
    apply callers_put; [done|done|done| |done|apply Hok| |].
    + intros m Hm. cbn. by rewrite lookup_insert_ne.
    + exists (RAcquire key). split_and!; [apply lookup_insert_eq|done|done].
    + intros k p Hp. right. split; [by exists p|]. rewrite Hc. by intros [].
  - by apply caller_call_ok.
  - destruct (ca_stage cs !! c) as [[key|key r|key r w|key outcome|key outcome]|] eqn:Hc; try by apply caller_call_ok.
    by apply resume_wait_ok.
  - destruct (ca_stage cs !! c) as [[key|key r|key r w|key outcome|key outcome]|] eqn:Hc; try by apply caller_call_ok.
    apply (put_wait_ok max c key r w); [done|done|]. specialize (Hst c). rewrite Hc in Hst. apply reply_wait_event; [by right|apply Hst].
  - destruct (ca_stage cs !! c) as [[key|key r|key r w|key o|key o]|] eqn:Hc; try done. specialize (Hst c). rewrite Hc in Hst.
    destruct Hst as (Hn & f & Hr). destruct outcome as [u|e].
    + apply callers_put; try done; try apply Hok; [split_and!; [done|by exists f|]; split; try done; by intros []|].
      intros k p Hk. destruct (decide (k = key /\ pr_ref p = r)) as [[-> <-]|Hne]; [by left|]. right. split; [by exists p|].
      rewrite Hc. intros [E1 E2]. by apply Hne.
    + eapply begin_close_ok; [done|done|done| |done]. rewrite Hc. by intros k q [_ ->].
  - destruct (ca_stage cs !! c) as [[key|key r|key r w|key o|key o]|] eqn:Hc; try done.
    apply (put_wait_ok max c key r w); [done|done|]. specialize (Hst c). rewrite Hc in Hst. apply reply_wait_event; [by left|apply Hst].
  - by apply caller_call_ok.
  - destruct (not_of_caller cs ev) eqn:E; [by apply other_ok|done].
Qed.

Lemma caller_steps_ok max evs cs : callers_ok max cs -> callers_ok max (caller_steps cs evs).
Proof. revert cs; induction evs as [|ev evs IH]; intros cs Hok; [done|]. by apply IH, caller_step_ok. Qed.

Lemma callers_new_ok max rq : requests_new max = Ok rq -> callers_ok max (callers_new rq).
Proof.
  intros H. pose proof (requests_new_inv _ _ H) as (_ & Hd). unfold requests_new in H.
  destruct (max <=? 0); [done|]. injection H as <-. split; [done|..]; cbn.
  - intros c. rewrite lookup_empty. intros call. cbn. by rewrite lookup_empty.
  - intros k p. cbn. by rewrite lookup_empty.
  - intros k p. by rewrite lookup_empty.
Qed.

(** ** What [request()] guarantees *)

Lemma no_leaving max cs :
  callers_ok max cs -> (forall c st, ca_stage cs !! c = Some st -> in_progress st = false) ->
  forall n call, rq_calls (ca_requests cs) !! n = Some call -> exists todo t, call = RRestore todo t.
Proof.
  intros Hok Hdone n call Hn. pose proof (co_stage _ _ Hok n) as Hst.
  destruct (ca_stage cs !! n) as [st|] eqn:Hc; [|by apply Hst]. specialize (Hdone _ _ Hc).
  destruct st; try done. destruct Hst as [Hn' _]. congruence.
Qed.

(** [wait_for] is over. *)
Definition waited (st : option request_stage) : Prop :=
  match st with Some (QClose _ _) | Some (QDone _ _) => True | _ => False end.

Lemma waited_begin c key r outcome cs : waited (ca_stage (begin_close c key r outcome cs) !! c).
Proof.
  unfold begin_close. cbn. rewrite lookup_insert_eq. unfold after_close.
  destruct (rq_calls _ !! c); [done|]. by destruct (result_of _ c) as [[]|].
Qed.

Lemma waited_resume c cs : waited (ca_stage cs !! c) -> waited (ca_stage (caller_step cs (CResume c)) !! c).
Proof.
  cbn [caller_step]. unfold caller_call. destruct (ca_stage cs !! c) as [[| | |key o|key o]|] eqn:Hc; try done; intros _.
  - cbn. rewrite lookup_insert_eq. unfold after_close. destruct (rq_calls _ !! c); [done|]. by destruct (result_of _ c) as [[]|].
  - by rewrite Hc.
Qed.

(** The timer has fired: one turn, and [wait_for] has ended or has cancelled the future. *)
Lemma timeout_turn rq key r w :
  reply_wait_ok rq key r w -> (w_phase w = WWaiting -> w_fired w = true) ->
  let w' := wait_step (wait_sees rq r w) WResume in wait_ended w' = true \/ exists y, w_phase w' = WDraining y /\ w_thrown w' = false.
Proof.
  intros Hw Hfired. cbn zeta. pose proof (sees_task rq r w) as Ht. destruct Hw as [H1 H2 _ H4 _ _].
  assert (w_phase (wait_sees rq r w) = w_phase w /\ w_fired (wait_sees rq r w) = w_fired w) as [Ep Ef].
  { unfold wait_sees. destruct (future_outcome _); [|done]. cbn. by destruct (w_task w). }
  destruct (wait_sees rq r w) as [p t k fired thrown], w as [p0 t0 k0 fired0 thrown0]. cbn in *. subst p0 fired0.
  destruct p as [| |y|]; [done| | |done].
  - rewrite Hfired by done. destruct thrown; cbn; [right; by eexists|]. destruct t; cbn; [by left|right; by eexists].
  - destruct (Ht (H4 _ eq_refl)) as [o ->]. left. destruct thrown, y, o; done.
Qed.

Lemma drain_turn rq key r w y :
  reply_wait_ok rq key r w -> w_phase w = WDraining y -> wait_ended (wait_step (wait_sees rq r w) WResume) = true.
Proof.
  intros Hw Hy. destruct (sees_task rq r w (wk_draining _ _ _ _ Hw _ Hy)) as [o Ho].
  assert (w_phase (wait_sees rq r w) = WDraining y) as Ep.
  { unfold wait_sees. destruct (future_outcome _); [|done]. cbn. by destruct (w_task w). }
  destruct (wait_sees rq r w) as [p t k fired thrown]. cbn in *. subst. by destruct thrown, y, o.
Qed.

Lemma resume_over c key r w cs :
  wait_ended (wait_step (wait_sees (ca_requests cs) r w) WResume) = true ->
  waited (ca_stage (resume_wait c key r w cs) !! c).
Proof.
  intros H. unfold resume_wait. fold (wait_sees (ca_requests cs) r w). unfold wait_ended in H.
  destruct (w_phase _) as [| | |outcome]; try done. apply waited_begin.
Qed.

Lemma timeout_ends max c key r w cs :
  callers_ok max cs -> ca_stage cs !! c = Some (QWait key r w) ->
  waited (ca_stage (caller_steps cs [CTimer c; CResume c; CResume c]) !! c).
Proof.
  intros Hok Hc. unfold caller_steps. cbn [foldl]. set (cs1 := caller_step cs (CTimer c)).
  assert (callers_ok max cs1) as Hok1 by (by apply caller_step_ok).
  assert (ca_stage cs1 !! c = Some (QWait key r (wait_step w WTimer))) as Hc1.
  { subst cs1. cbn [caller_step]. rewrite Hc. apply lookup_insert_eq. }
  pose proof (co_stage _ _ Hok1 c) as Hst. rewrite Hc1 in Hst. destruct Hst as (_ & _ & Hw).
  set (w1 := wait_step w WTimer) in *.
  assert (w_phase w1 = WWaiting -> w_fired w1 = true) as Hfired by (subst w1; by destruct w as [[| | |] t k fired thrown]).
  pose proof (timeout_turn _ _ _ _ Hw Hfired) as [Hend|(y & Hy & _)].
  - apply waited_resume. cbn [caller_step]. rewrite Hc1. by apply resume_over.
  - set (cs2 := caller_step cs1 (CResume c)). assert (callers_ok max cs2) as Hok2 by (by apply caller_step_ok).
    assert (ca_stage cs2 !! c = Some (QWait key r (wait_step (wait_sees (ca_requests cs1) r w1) WResume))) as Hc2.
    { subst cs2. cbn [caller_step]. rewrite Hc1. unfold resume_wait. fold (wait_sees (ca_requests cs1) r w1).
      rewrite Hy. apply lookup_insert_eq. }
    pose proof (co_stage _ _ Hok2 c) as Hst. rewrite Hc2 in Hst. destruct Hst as (_ & _ & Hw2).
    cbn [caller_step]. rewrite Hc2. apply resume_over. by eapply drain_turn.
Qed.

(** C23: [request()] as a whole.  However many callers there are, and however their registrations,
    publishes, timers and cancellations interleave with responses, subscriptions that fail,
    reconnections and a disconnect: a call that returns gives a message that answers its own
    request; every registered request belongs to a call that is still in progress; so that when
    all calls have ended nothing is registered, no response topic is kept and the whole
    capacity is free again; and a call that waits for its response leaves [wait_for] within two
    turns of the event loop after the timeout. *)
Theorem request_calls max rq0 evs :
  requests_new max = Ok rq0 ->
  let cs := caller_steps (callers_new rq0) evs in
  let rq := ca_requests cs in
  (forall c key v, ca_stage cs !! c = Some (QDone key (Ok v)) -> exists m, v = VMessage m /\ answers m key) /\
  (forall key p, pending_of rq !! key = Some p ->
     exists c st, ca_stage cs !! c = Some st /\ in_progress st = true /\ responsible rq c (Some st) key (pr_ref p)) /\
  ((forall c st, ca_stage cs !! c = Some st -> in_progress st = false) ->
   pending_of rq = ∅ /\ rq_topics rq = ∅ /\ rq_capacity rq = max) /\
  (forall c key r w, ca_stage cs !! c = Some (QWait key r w) ->
   waited (ca_stage (caller_steps cs [CTimer c; CResume c; CResume c]) !! c)).
Proof.
  intros Hnew. cbn zeta. pose proof (caller_steps_ok max evs _ (callers_new_ok _ _ Hnew)) as Hok.
  set (cs := caller_steps (callers_new rq0) evs) in *.
  assert (forall key p, pending_of (ca_requests cs) !! key = Some p ->
    exists c st, ca_stage cs !! c = Some st /\ in_progress st = true /\ responsible (ca_requests cs) c (Some st) key (pr_ref p)) as Hheld.
  { intros key p [c Hc]%(co_holder _ _ Hok). destruct (ca_stage cs !! c) as [st|] eqn:E; [|done].
    exists c, st. split_and!; [done| |done]. by destruct st. }
  split_and!; [|exact Hheld| |by intros; eapply timeout_ends].
  - intros c key v Hc. pose proof (co_stage _ _ Hok c) as Hst. rewrite Hc in Hst. by apply Hst.
  - intros Hdone. assert (pending_of (ca_requests cs) = ∅) as Hp.
    { apply map_empty. intros key. destruct (pending_of _ !! key) as [p|] eqn:E; [|done].
      destruct (Hheld _ _ E) as (c & st & Hc & Hst & _). by rewrite (Hdone c st Hc) in Hst. }
    pose proof (no_leaving _ _ Hok Hdone) as Hcalls. destruct (co_dispatcher _ _ Hok) as ([Hsum _] & Ht & _).
    split_and!; [done| |].
    + apply map_empty. intros t. destruct (rq_topics _ !! t) as [i|] eqn:E; [exfalso|done].
      pose proof (to_refcount _ _ Ht t i E) as Hr. rewrite Hp in Hr.
      destruct (to_used _ _ Ht t i E) as [|(n & key & task & e & Hn)]; [|done|].
      { rewrite Hr. unfold topic_users. by rewrite count_if_none by (intros *; by rewrite lookup_empty). }
      by destruct (Hcalls _ _ Hn) as (? & ? & ?).
    + unfold pending_count in Hsum. rewrite Hp, map_size_empty in Hsum.
      assert (count is_leaving (rq_calls (ca_requests cs)) = 0%nat) as Hz; [|rewrite Hz in Hsum; lia].
      apply count_none. intros n call Hn. by destruct (Hcalls n call Hn) as (? & ? & ->).
Qed.

(** ** Samples *)

(** Three callers: the first is answer_given, the second is cancelled while it waits for the SUBACK, the
    third sees no response in time. *)
Definition callers_sample : list caller_event :=
  [COther RqBind; CBegin 0 sample_key; CPermit 0; CBegin 1 (py "reply", [Byte.x02]); CPermit 1;
   CBegin 2 (py "reply", [Byte.x03]); CPermit 2; CCancel 1; COther (RqTask 3 TDone); CResume 0; CResume 2;
   CPublished 0 (Ok tt); CPublished 2 (Ok tt); COther (RqClaim sample_reply); COther (RqComplete 0); CResume 0;
   CTimer 2; CResume 2; CResume 2; CRemoved 2 None].

Example callers_sample_ends :
  ca_stage (caller_steps (callers_new requests_1000) callers_sample) =
  {[ 0%nat := QDone sample_key (Ok (VMessage sample_reply)); 1%nat := QDone (py "reply", [Byte.x02]) (Err CancelledError);
     2%nat := QDone (py "reply", [Byte.x03]) (Err TimeoutError) ]}.
Proof. vm_compute. reflexivity. Qed.

Lemma request_calls_witness :
  let cs := caller_steps (callers_new requests_1000) callers_sample in
  rq_capacity (ca_requests cs) = 1000 /\ answers sample_reply sample_key /\
  waited (ca_stage (caller_steps (caller_steps (callers_new requests_1000) (take 13 callers_sample))
                       [CTimer 2; CResume 2; CResume 2]) !! 2%nat).
Proof.
  destruct (request_calls 1000 requests_1000 callers_sample eq_refl) as (Ha & _ & Hend & _).
  destruct (request_calls 1000 requests_1000 (take 13 callers_sample) eq_refl) as (_ & _ & _ & Ht).
  split; [|split].
  - apply Hend. rewrite callers_sample_ends. apply map_Forall_to_list. vm_compute. repeat constructor.
  - destruct (Ha 0%nat sample_key (VMessage sample_reply)) as (m & [= <-] & H); [vm_compute; reflexivity|exact H].
  - eapply Ht. vm_compute. reflexivity.
Defined.

(** The response is there, but the connection is lost while [close] unsubscribes from its topic: the
    exception of [close] replaces the response. *)
Example request_loses_response :
  let cs := caller_steps (callers_new requests_1000)
    [COther RqBind; CBegin 0 sample_key; CPermit 0; COther (RqTask 3 TDone); CResume 0; CPublished 0 (Ok tt);
     COther (RqClaim sample_reply); COther (RqComplete 0); CResume 0;
     CRemoved 0 (Some (MQTTDisconnectedError "Connection lost"))] in
  future_of (ca_requests cs) 0 = FResult (VMessage sample_reply) /\
  ca_stage cs !! 0%nat = Some (QDone sample_key (Err (MQTTDisconnectedError "Connection lost"))).
Proof. vm_compute. split; reflexivity. Qed.
