(* ===== verification/Inbound.v ===== *)
(** * The inbound publish flow ([_internal/inbound.py])

    Selection of the recipient, the QoS 0, 1 and 2 receive flows, Receive Maximum, manual
    acknowledgement and the replay buffer of a resumed session.

    A handler suspends in [queue.put] of a full queue: the recipient and what is left to do
    are then in [e_putting], and [put_resume] is the rest of the handler once there is room.  The
    replay buffer never delivers to a full queue.  Draining it is one step here, as it is when no write
    suspends; [Draining] has the drain that is suspended in its writes. *)

From S2P Require Import Prelude Properties Packets Codec Topic SubscriptionIndex State Engine.

Definition RECEIVE_MAXIMUM_EXCEEDED : Z := 0x93.
Definition PACKET_IDENTIFIER_NOT_FOUND : Z := 0x92.

Definition ack_of (packet_id : Z) : PubAckFields := mkAck packet_id 0 None.

(** The acknowledgements on the wire. *)
Definition pubrel_bytes (pid : Z) : bytes := [Byte.x62; Byte.x02] ++ be_bytes 2 pid.
Definition pubrec_bytes (pid : Z) : bytes := [Byte.x50; Byte.x02] ++ be_bytes 2 pid.
Definition pubcomp_bytes (pid : Z) : bytes := [Byte.x70; Byte.x02] ++ be_bytes 2 pid.
Definition puback_bytes (pid : Z) : bytes := [Byte.x40; Byte.x02] ++ be_bytes 2 pid.
(** PUBCOMP with reason 0x92, which 3.1.1 cannot carry. *)
Definition pubcomp_unknown (v : version) (pid : Z) : bytes :=
  match v with
  | V311 => pubcomp_bytes pid
  | V50 => [Byte.x70; Byte.x04] ++ be_bytes 2 pid ++ [Byte.x92; Byte.x00]
  end.

(** ** Delivery *)

Definition queue_of (s : Engine) (q : nat) : Queue :=
  match e_queues s !! q with Some x => x | None => mkQueue 0 [] end.

Definition put_nowait (q : nat) (m : Message) : M unit :=
  modify (fun s => let x := queue_of s q in
    set_e_queues (<[q := mkQueue (q_maxsize x) (q_items x ++ [m])]> (e_queues s)) s).

(** [if not queue.empty(): queue.get_nowait()] *)
Definition drop_head (q : nat) : M unit :=
  modify (fun s => let x := queue_of s q in
    set_e_queues (<[q := mkQueue (q_maxsize x) (tail (q_items x))]> (e_queues s)) s).

Definition is_detached (entry : SubscriptionEntry) : M bool :=
  asks (fun s => bool_decide (se_ref entry ∈ e_detached s)).

Definition set_callback (m : Message) (cb : AckCallback) : M unit :=
  modify (fun s => let resolved := match e_messages s !! msg_ref m with
                                   | Some ms => ms_resolved ms | None => false end in
    set_e_messages (<[msg_ref m := mkMessageState (Some cb) resolved]> (e_messages s)) s).

(** What follows [queue.put] in [_deliver]. *)
Definition after_put (entry : SubscriptionEntry) : M bool :=
  detached ← is_detached entry;
  if detached : bool then _ ← drop_head (se_queue entry); mret false else mret true.

(** [_deliver]; [None] when it suspends in [queue.put]. *)
Definition _deliver (recipient : InboundRecipient) (ack_callback : option AckCallback) : M (option bool) :=
  match ir_request recipient, ir_subscription recipient with
  | Some request, _ => _ ← complete request; mret (Some true)
  | None, None => mret (Some true)
  | None, Some (_, entry) =>
    detached ← is_detached entry;
    if detached : bool then mret (Some false)
    else
      _ ← match ack_callback with
          | Some cb => if se_auto_ack entry then mret tt else set_callback (ir_message recipient) cb
          | None => mret tt
          end;
      full ← asks (fun s => queue_full (queue_of s (se_queue entry)));
      if full : bool then mret None
      else
        _ ← put_nowait (se_queue entry) (ir_message recipient);
        b ← after_put entry;
        mret (Some b)
  end.

(** [_complete] *)
Definition _complete (ack : AnyPacket) (packet_id : Z) : M unit :=
  _ ← modify (fun s => set_e_unacknowledged (e_unacknowledged s ∖ {[ packet_id ]}) s);
  send_packet ack.

Definition after_deliver (k : deliver_cont) (delivered : bool) : M unit :=
  match k with
  | AfterNothing => mret tt
  | AfterPubAck pid => if delivered then _complete (PPubAck (ack_of pid)) pid else mret tt
  end.

(** [await self._deliver(recipient, ack_callback)] and the rest of its caller. *)
Definition deliver_then (recipient : InboundRecipient) (cb : option AckCallback) (k : deliver_cont) : M unit :=
  r ← _deliver recipient cb;
  match r with
  | Some b => after_deliver k b
  | None => modify (set_e_putting (Some (recipient, k)))
  end.

(** The suspended handler continues: the queue has room. *)
Definition put_resume : M unit :=
  p ← asks e_putting;
  match p with
  | None => mret tt
  | Some (recipient, k) =>
    match ir_subscription recipient with
    | None => mret tt
    | Some (_, entry) =>
      full ← asks (fun s => queue_full (queue_of s (se_queue entry)));
      if full : bool then mret tt
      else
        _ ← modify (set_e_putting None);
        _ ← put_nowait (se_queue entry) (ir_message recipient);
        b ← after_put entry;
        after_deliver k b
    end
  end.

(** ** Selecting the recipient *)

Definition _make_message (publish : Publish) : M Message :=
  ref ← new_ref;
  _ ← modify (fun s => set_e_messages (<[ref := mkMessageState None false]> (e_messages s)) s);
  mret (mkMessage ref (p_topic publish) (p_payload publish) (p_qos publish) (p_retain publish)
          (p_properties publish)).

Definition publish_identifier (publish : Publish) : option Z :=
  match p_properties publish with Some props => pp_subscription_identifier props | None => None end.

Definition _select_subscription (publish : Publish) : M SubscriptionSelection :=
  idx ← ask_state subscriptions;
  match publish_identifier publish with
  | None => mret (select idx (p_topic publish))
  | Some i => mret (select_by_identifier idx (p_topic publish) i)
  end.

Definition select_recipient (publish : Publish) : M InboundRecipient :=
  message ← _make_message publish;
  request ← claim message;
  match request with
  | Some r => mret (mkRecipient message (Some r) None)
  | None =>
    selection ← _select_subscription publish;
    mret (mkRecipient message None (recipient selection))
  end.

(** ** Persistent-session replay *)

Definition topic_count (b : ReplayBuffer) (topic : pystr) : Z :=
  match rb_topics b !! topic with Some n => n | None => 0 end.

Definition has_packet_id (b : ReplayBuffer) (packet_id : option Z) : bool :=
  match packet_id with Some pid => bool_decide (pid ∈ rb_packet_ids b) | None => false end.

Definition add_packet_id (packet_id : option Z) (ids : gset Z) : gset Z :=
  match packet_id with Some pid => {[ pid ]} ∪ ids | None => ids end.

(** [_PersistentReplayBuffered.__init__] *)
Definition replay_buffer_new (ref : nat) : ReplayBuffer := mkReplayBuffer ref [] ∅ ∅ 0 false.

(** The second half of [_PersistentReplayBuffered.accept]: keep the message. *)
Definition buffer_publish (b : ReplayBuffer) (publish : Publish) : ReplayBuffer :=
  mkReplayBuffer (rb_ref b) (rb_publishes b ++ [publish])
    (add_packet_id (p_packet_id publish) (rb_packet_ids b))
    (<[p_topic publish := topic_count b (p_topic publish) + 1]> (rb_topics b))
    (rb_message_count b + 1) true.

Definition accept_buffered (b : ReplayBuffer) (publish : Publish) (r : InboundRecipient)
    : M (option InboundRecipient * ReplayState) :=
  let same := PersistentReplayBuffered b in
  if is_Some_b (ir_request r) then mret (Some r, same)
  else if is_Some_b (ir_subscription r) && negb (is_Some_b (rb_topics b !! p_topic publish))
  then mret (Some r, same)
  else if has_packet_id b (p_packet_id publish) then mret (None, same)
  else
    size ← asks e_replay_buffer_size;
    if negb (size =? 0) && (size <=? rb_message_count b) then
      _ ← abort None;
      throw (MQTTProtocolError "Persistent-session replay buffer limit exceeded")
    else mret (None, PersistentReplayBuffered (buffer_publish b publish)).

(** [accept] of the three states. *)
Definition accept (replay : ReplayState) (publish : Publish) (r : InboundRecipient)
    : M (option InboundRecipient * ReplayState) :=
  match replay with
  | NoSessionReplay => mret (Some r, replay)
  | PersistentReplayIdle =>
    if is_Some_b (ir_request r) || is_Some_b (ir_subscription r) then mret (Some r, replay)
    else
      ref ← new_ref;
      accept_buffered (replay_buffer_new ref) publish r
  | PersistentReplayBuffered b => accept_buffered b publish r
  end.

Definition contains_packet_id (replay : ReplayState) (packet_id : Z) : bool :=
  match replay with
  | PersistentReplayBuffered b => bool_decide (packet_id ∈ rb_packet_ids b)
  | _ => false
  end.

Definition _select_recipient_or_buffer (publish : Publish) : M (option InboundRecipient) :=
  replay ← asks e_replay;
  selected ← select_recipient publish;
  '(r, next_replay) ← accept replay publish selected;
  _ ← modify (set_e_replay next_replay);
  mret r.

(** ** The receive flows *)

Definition _hold_receive_quota (packet_id : Z) : M unit :=
  _ ← modify (fun s => set_e_unacknowledged ({[ packet_id ]} ∪ e_unacknowledged s) s);
  limit ← asks e_receive_maximum;
  n ← asks (fun s => Z.of_nat (size (e_unacknowledged s)));
  match limit with
  | Some l =>
    if l <? n then
      _ ← abort (Some RECEIVE_MAXIMUM_EXCEEDED);
      throw (MQTTProtocolError "Broker exceeded the Receive Maximum")
    else mret tt
  | None => mret tt
  end.

Definition require_packet_id (packet : Publish) : M Z :=
  match p_packet_id packet with
  | None => throw (ValueError "Cannot publish without packet id")
  | Some pid => mret pid
  end.

Definition _deliver_qos1_publish (packet : Publish) (r : InboundRecipient) : M unit :=
  pid ← require_packet_id packet;
  if auto_ack r then deliver_then r None (AfterPubAck pid)
  else deliver_then r (Some (AckPuback pid false)) AfterNothing.

Definition _handle_qos1_publish (packet : Publish) : M unit :=
  pid ← require_packet_id packet;
  _ ← _hold_receive_quota pid;
  replay ← asks e_replay;
  if contains_packet_id replay pid then mret tt
  else
    r ← _select_recipient_or_buffer packet;
    match r with
    | None => mret tt
    | Some r => _deliver_qos1_publish packet r
    end.

Definition detached_recipient (r : InboundRecipient) : M bool :=
  match ir_subscription r with
  | Some (_, entry) => is_detached entry
  | None => mret false
  end.

Definition _accept_qos2_publish (packet : Publish) (r : InboundRecipient) : M unit :=
  pid ← require_packet_id packet;
  detached ← detached_recipient r;
  if detached : bool then mret tt
  else if auto_ack r then
    _ ← modify_state (fun st => set_inflight_qos2_in
          (<[pid := mkInboundFlight pid r false]> (inflight_qos2_in st)) st);
    send_packet (PPubRec (ack_of pid))
  else
    _ ← modify_state (fun st => set_pending_ack_qos2_in ({[ pid ]} ∪ pending_ack_qos2_in st) st);
    deliver_then r (Some (AckPubrec pid r)) AfterNothing.

Definition _handle_qos2_publish (packet : Publish) : M unit :=
  pid ← require_packet_id packet;
  _ ← _hold_receive_quota pid;
  st ← asks e_state;
  replay ← asks e_replay;
  if is_Some_b (inflight_qos2_in st !! pid) then send_packet (PPubRec (ack_of pid))
  else if bool_decide (pid ∈ pending_ack_qos2_in st) then mret tt
  else if contains_packet_id replay pid then mret tt
  else
    r ← _select_recipient_or_buffer packet;
    match r with
    | None => mret tt
    | Some r => _accept_qos2_publish packet r
    end.

Definition handle_publish (packet : Publish) : M unit :=
  match p_qos packet with
  | AT_MOST_ONCE =>
    r ← _select_recipient_or_buffer packet;
    match r with
    | Some r => deliver_then r None AfterNothing
    | None => mret tt
    end
  | AT_LEAST_ONCE => _handle_qos1_publish packet
  | EXACTLY_ONCE => _handle_qos2_publish packet
  end.

Definition handle_pubrel (packet : PubAckFields) : M unit :=
  let pid := a_packet_id packet in
  flight ← ask_state (fun st => inflight_qos2_in st !! pid);
  _ ← modify_state (fun st => set_inflight_qos2_in (delete pid (inflight_qos2_in st)) st);
  match flight with
  | None => send_packet (PPubComp (mkAck pid PACKET_IDENTIFIER_NOT_FOUND None))
  | Some flight =>
    _ ← _complete (PPubComp (ack_of pid)) pid;
    if i2_delivered flight then mret tt
    else deliver_then (i2_recipient flight) None AfterNothing
  end.

(** [_puback] and [_pubrec], the closures of manual acknowledgement. *)
Definition run_callback (m : nat) (cb : AckCallback) : M unit :=
  match cb with
  | AckPuback pid true => mret tt
  | AckPuback pid false =>
    _ ← modify (fun s => set_e_messages
          (<[m := mkMessageState (Some (AckPuback pid true)) true]> (e_messages s)) s);
    _complete (PPubAck (ack_of pid)) pid
  | AckPubrec pid r =>
    _ ← modify_state (fun st => set_pending_ack_qos2_in (pending_ack_qos2_in st ∖ {[ pid ]}) st);
    _ ← modify_state (fun st => set_inflight_qos2_in
          (<[pid := mkInboundFlight pid r true]> (inflight_qos2_in st)) st);
    send_packet (PPubRec (ack_of pid))
  end.

(** [Message.ack] *)
Definition message_ack (m : nat) : M unit :=
  ms ← asks (fun s => e_messages s !! m);
  match ms with
  | None => mret tt
  | Some ms =>
    if ms_resolved ms then mret tt
    else
      _ ← modify (fun s => set_e_messages (<[m := mkMessageState (ms_callback ms) true]> (e_messages s)) s);
      match ms_callback ms with
      | None => mret tt
      | Some cb => run_callback m cb
      end
  end.

(** ** Draining and expiring the replay buffer *)

Definition modify_buffer (f : ReplayBuffer -> ReplayBuffer) : M unit :=
  modify (fun s => match e_replay s with
                   | PersistentReplayBuffered b => set_e_replay (PersistentReplayBuffered (f b)) s
                   | _ => s
                   end).

Definition set_publishes (l : list Publish) (b : ReplayBuffer) : ReplayBuffer :=
  mkReplayBuffer (rb_ref b) l (rb_packet_ids b) (rb_topics b) (rb_message_count b) (rb_expiration b).

(** [_discard] *)
Definition _discard (publish : Publish) (b : ReplayBuffer) : ReplayBuffer :=
  let n := topic_count b (p_topic publish) - 1 in
  mkReplayBuffer (rb_ref b) (rb_publishes b)
    (match p_packet_id publish with Some pid => rb_packet_ids b ∖ {[ pid ]} | None => rb_packet_ids b end)
    (if n =? 0 then delete (p_topic publish) (rb_topics b) else <[p_topic publish := n]> (rb_topics b))
    (rb_message_count b - 1) (rb_expiration b).

Definition deliver_replay (publish : Publish) (r : InboundRecipient) : M unit :=
  match p_qos publish with
  | AT_MOST_ONCE => deliver_then r None AfterNothing
  | AT_LEAST_ONCE => _deliver_qos1_publish publish r
  | EXACTLY_ONCE => _accept_qos2_publish publish r
  end.

(** A message that has no recipient with room stays. *)
Definition must_wait (r : InboundRecipient) : M bool :=
  match ir_request r, ir_subscription r with
  | None, None => mret true
  | _, Some (_, entry) => asks (fun s => queue_full (queue_of s (se_queue entry)))
  | Some _, None => mret false
  end.

(** The inner loop of [_deliver_pending] with its [finally] clause: [unmatched] are the messages
    kept so far. *)
Fixpoint deliver_pending_loop (pending unmatched : list Publish) : M unit :=
  match pending with
  | [] => modify_buffer (set_publishes unmatched)
  | publish :: pending' =>
    r ← select_recipient publish;
    wait ← must_wait r;
    if wait : bool then deliver_pending_loop pending' (unmatched ++ [publish])
    else fun s =>
      match deliver_replay publish r s with
      | (Ok _, s') =>
        (_ ← modify_buffer (_discard publish); deliver_pending_loop pending' unmatched) s'
      | (Err e, s') =>
        (_ ← modify_buffer (set_publishes (unmatched ++ publish :: pending')); throw e) s'
      end
  end.

(** [_deliver_pending] when no write suspends: nothing arrives during it, so that its outer loop runs once
    ([Draining.whole_drain]). *)
Definition _deliver_pending : M unit :=
  replay ← asks e_replay;
  match replay with
  | PersistentReplayBuffered b =>
    _ ← modify_buffer (set_publishes []);
    deliver_pending_loop (rb_publishes b) []
  | _ => mret tt
  end.

(** [_PersistentReplayBuffered.drain] and [expire], after [_deliver_pending]: whether the state is idle again, and the next state. *)
Definition drained (b : ReplayBuffer) : bool := rb_message_count b =? 0.

Definition _drop_pending (b : ReplayBuffer) : Z * ReplayBuffer :=
  (rb_message_count b, mkReplayBuffer (rb_ref b) [] ∅ ∅ 0 (rb_expiration b)).

Definition expired (b : ReplayBuffer) : ReplayState :=
  if (_drop_pending b).1 =? 0 then PersistentReplayIdle else NoSessionReplay.

(** [InboundPublishFlow.drain], when no write suspends; the lock is free then. *)
Definition drain_replay : M unit :=
  _ ← _deliver_pending;
  modify (fun s => match e_replay s with
                   | PersistentReplayBuffered b =>
                     if drained b then set_e_replay PersistentReplayIdle s else s
                   | _ => s
                   end).

(** [expire_replay], for the buffered state of identity [ref]. *)
Definition expire_replay (ref : nat) : M unit :=
  replay ← asks e_replay;
  match replay with
  | PersistentReplayBuffered b =>
    if (rb_ref b =? ref)%nat then
      _ ← _deliver_pending;
      modify (fun s => match e_replay s with
                       | PersistentReplayBuffered b => set_e_replay (expired b) s
                       | _ => s
                       end)
    else mret tt
  | _ => mret tt
  end.

(** [_expire_after_timeout], after its sleep. *)
Definition expire_after_timeout (ref : nat) : M unit := fun s =>
  match expire_replay ref s with
  | (Ok _, s') => (Ok tt, s')
  | (Err _, s') => suppress (abort None) s'
  end.

Definition begin_session (session_present : bool) : M unit :=
  modify (set_e_replay (if session_present then PersistentReplayIdle else NoSessionReplay)).

(** [clear] of the three states; what a buffer held is dropped with it. *)
Definition replay_clear (_ : ReplayState) : ReplayState := NoSessionReplay.

(** [InboundPublishFlow.clear] *)
Definition inbound_clear : M unit := modify (fun s => set_e_replay (replay_clear (e_replay s)) s).

Lemma pack_packet_id pid : 1 <= pid <= MAX_PACKET_ID -> pack 2 pid = Ok (be_bytes 2 pid).
Proof.
  unfold MAX_PACKET_ID, pack. intros. by rewrite (proj2 (Z.leb_le _ _)), (proj2 (Z.ltb_lt _ _)) by (cbn; lia).
Qed.

Ltac encode_ack :=
  intros Hpid; cbn [encode ack_of a_packet_id a_reason_code a_properties];
  unfold _encode_pub_ack_variant; cbn [is_Some_b]; rewrite ?Z.eqb_refl, ?andb_false_r; unfold _packet_id_only;
  rewrite (pack_packet_id _ Hpid); reflexivity.

Lemma encode_pubrec pid v : 1 <= pid <= MAX_PACKET_ID -> encode (PPubRec (ack_of pid)) v = Ok (pubrec_bytes pid).
Proof. encode_ack. Qed.
Lemma encode_pubcomp pid v : 1 <= pid <= MAX_PACKET_ID -> encode (PPubComp (ack_of pid)) v = Ok (pubcomp_bytes pid).
Proof. encode_ack. Qed.
Lemma encode_puback pid v : 1 <= pid <= MAX_PACKET_ID -> encode (PPubAck (ack_of pid)) v = Ok (puback_bytes pid).
Proof. encode_ack. Qed.
Lemma encode_pubcomp_unknown pid v :
  1 <= pid <= MAX_PACKET_ID ->
  encode (PPubComp (mkAck pid PACKET_IDENTIFIER_NOT_FOUND None)) v = Ok (pubcomp_unknown v pid).
Proof. destruct v; encode_ack. Qed.
Lemma encode_pubrel pid v : 1 <= pid <= MAX_PACKET_ID -> encode (PPubRel (ack_of pid)) v = Ok (pubrel_bytes pid).
Proof. encode_ack. Qed.

(** ** What the inbound flow leaves to the rest of the engine

    The inbound flow never touches the packet identifiers, the outbound flights, the pending
    SUBSCRIBE and UNSUBSCRIBE, the subscriptions or the life cycle of the connection; it resolves
    no futures but those of requests, and a future that is done stays done. *)

(** The futures of the pending requests. *)
Definition request_future (s : Engine) (f : nat) : Prop :=
  exists d k p, e_dispatcher s = Some d /\ d_pending d !! k = Some p /\ pr_future p = f.

Record inbound_frame (s s' : Engine) : Prop := {
  if_packet_ids : packet_ids (e_state s') = packet_ids (e_state s);
  if_qos1 : inflight_qos1 (e_state s') = inflight_qos1 (e_state s);
  if_qos2 : inflight_qos2_out (e_state s') = inflight_qos2_out (e_state s);
  if_subs : pending_subs (e_state s') = pending_subs (e_state s);
  if_unsubs : pending_unsubs (e_state s') = pending_unsubs (e_state s);
  if_subscriptions : subscriptions (e_state s') = subscriptions (e_state s);
  if_waiters : e_ping_waiters s' = e_ping_waiters s;
  if_dead : e_dead s' = e_dead s;
  if_version : e_version s' = e_version s;
  if_keepalive : e_effective_keepalive s' = e_effective_keepalive s;
  if_disconnecting : e_disconnecting s' = e_disconnecting s;
  if_detached : e_detached s' = e_detached s;
  if_next : (e_next_ref s <= e_next_ref s')%nat;
  if_requests : forall f, request_future s' f <-> request_future s f;
  if_futures : forall f, fut_state s' f = fut_state s f \/ request_future s f;
  if_done : forall f, fut_done (fut_state s f) = true -> fut_done (fut_state s' f) = true
}.

#[export] Instance inbound_frame_preorder : PreOrder inbound_frame.
Proof.
  split.
  - intros s. split; try done. by left.
  - intros s1 s2 s3 H12 H23. split; try (destruct H12, H23; congruence).
    + pose proof (if_next _ _ H12). pose proof (if_next _ _ H23). lia.
    + intros f. by rewrite (if_requests _ _ H23), (if_requests _ _ H12).
    + intros f. destruct (if_futures _ _ H23 f) as [->|Hr]; [apply (if_futures _ _ H12)|].
      right. by apply (if_requests _ _ H12).
    + intros f Hf. by apply (if_done _ _ H23), (if_done _ _ H12).
Qed.

Ltac frame_split := split; cbn; first [reflexivity | lia | by left | done].
Ltac frame_leaf := apply preserves_modify; intros ?; frame_split.

Lemma frame_new_ref : preserves inbound_frame new_ref.
Proof. intros s. frame_split. Qed.

Lemma frame_send data : preserves inbound_frame (_send data).
Proof. intros s. unfold _send. destruct (_ || _); [reflexivity|]. frame_split. Qed.

Lemma frame_encode p : preserves inbound_frame (_encode p).
Proof. unfold _encode. preserve. Qed.
#[export] Hint Resolve frame_new_ref frame_send frame_encode : frame.

Lemma frame_send_packet p : preserves inbound_frame (send_packet p).
Proof. unfold send_packet. preserve. Qed.
#[export] Hint Resolve frame_send_packet : frame.

Lemma frame_abort rc : preserves inbound_frame (abort rc).
Proof. unfold abort, transport_close. preserve. frame_leaf. Qed.

Lemma frame_is_done f : preserves inbound_frame (is_done f).
Proof. unfold is_done. preserve. Qed.
#[export] Hint Resolve frame_abort frame_is_done : frame.

Lemma frame_bind_router : preserves inbound_frame bind_router.
Proof.
  intros s. split; cbn; try first [reflexivity | lia | by left | done].
  intros f. unfold request_future. cbn. split.
  - intros (d & k & p & Hd & Hk & <-). destruct (e_dispatcher s) as [d0|] eqn:Ed; [|done]. injection Hd as <-. cbn in Hk.
    rewrite lookup_fmap in Hk. destruct (d_pending d0 !! k) as [q|] eqn:Hq; [|done]. injection Hk as <-. by exists d0, k, q.
  - intros (d & k & p & -> & Hk & <-). exists (bind_core d), k, (mkPending (pr_ref p) (pr_future p) false).
    split; [done|]. cbn. by rewrite lookup_fmap, Hk.
Qed.

Lemma frame_complete r : preserves inbound_frame (complete r).
Proof.
  intros s. unfold complete, mbind, M_bind. cbn [asks].
  destruct (e_dispatcher s) as [d|] eqn:Ed; [|reflexivity].
  destruct (d_pending d !! cr_key r) as [p|] eqn:Ep; [|reflexivity].
  destruct (_ && _); [|reflexivity]. unfold unless_done, is_done, mbind, M_bind. cbn [asks].
  destruct (fut_done (fut_state s (pr_future p))) eqn:Hd; [reflexivity|].
  unfold set_result, resolve. rewrite Hd. split; cbn; try first [reflexivity | lia | done].
  all: intros g; unfold fut_state in *; cbn; destruct (decide (pr_future p = g)) as [<-|Hne].
  - right. by exists d, (cr_key r), p.
  - left. by rewrite lookup_insert_ne.
  - by rewrite lookup_insert_eq.
  - by rewrite lookup_insert_ne.
Qed.

Lemma frame_claim m : preserves inbound_frame (claim m).
Proof.
  intros s. unfold claim, mbind, M_bind. cbn [asks].
  destruct (e_dispatcher s) as [d|] eqn:Ed; [|reflexivity].
  destruct (msg_properties m) as [props|]; [|reflexivity].
  destruct (pp_correlation_data props) as [data|]; [|reflexivity].
  destruct (d_pending d !! _) as [p|] eqn:Ep; [|reflexivity].
  cbn [is_done asks modify]. destruct (_ || _); [reflexivity|].
  split; cbn; try first [reflexivity | lia | by left | done].
  intros f. unfold request_future. cbn. split.
  - intros (d' & k & q & [= <-] & Hk & <-). cbn in Hk.
    apply lookup_insert_Some in Hk as [[<- <-]|[Hne Hk]].
    + exists d, (msg_topic m, data), p. done.
    + exists d, k, q. done.
  - intros (d' & k & q & Hd' & Hk & <-). rewrite Ed in Hd'. injection Hd' as <-.
    destruct (decide ((msg_topic m, data) = k)) as [<-|Hne].
    + eexists _, _, _. split; [done|]. cbn. rewrite lookup_insert_eq. split; [done|]. cbn. congruence.
    + exists (mkDispatcher (<[(msg_topic m, data) := mkPending (pr_ref p) (pr_future p) true]> (d_pending d))
        (d_generation d)), k, q. split; [done|]. cbn. by rewrite lookup_insert_ne.
Qed.
#[export] Hint Resolve frame_complete frame_claim : frame.

Lemma frame_put_nowait q m : preserves inbound_frame (put_nowait q m).
Proof. unfold put_nowait. frame_leaf. Qed.
Lemma frame_drop_head q : preserves inbound_frame (drop_head q).
Proof. unfold drop_head. frame_leaf. Qed.
Lemma frame_set_callback m cb : preserves inbound_frame (set_callback m cb).
Proof. unfold set_callback. frame_leaf. Qed.
Lemma frame_is_detached e : preserves inbound_frame (is_detached e).
Proof. unfold is_detached. preserve. Qed.
#[export] Hint Resolve frame_put_nowait frame_drop_head frame_set_callback frame_is_detached : frame.

Lemma frame_after_put e : preserves inbound_frame (after_put e).
Proof. unfold after_put. preserve. Qed.
#[export] Hint Resolve frame_after_put : frame.

Lemma frame_deliver r cb : preserves inbound_frame (_deliver r cb).
Proof. unfold _deliver. preserve. Qed.

Lemma frame_complete_ack p pid : preserves inbound_frame (_complete p pid).
Proof. unfold _complete. preserve. frame_leaf. Qed.
#[export] Hint Resolve frame_deliver frame_complete_ack : frame.

Lemma frame_after_deliver k b : preserves inbound_frame (after_deliver k b).
Proof. unfold after_deliver. preserve. Qed.
#[export] Hint Resolve frame_after_deliver : frame.

Lemma frame_deliver_then r cb k : preserves inbound_frame (deliver_then r cb k).
Proof. unfold deliver_then. preserve. frame_leaf. Qed.

Lemma frame_put_resume : preserves inbound_frame put_resume.
Proof. unfold put_resume. preserve. frame_leaf. Qed.

Lemma frame_make_message p : preserves inbound_frame (_make_message p).
Proof. unfold _make_message. preserve. frame_leaf. Qed.

Lemma frame_select_subscription p : preserves inbound_frame (_select_subscription p).
Proof. unfold _select_subscription. preserve. Qed.
#[export] Hint Resolve frame_deliver_then frame_put_resume frame_make_message frame_select_subscription : frame.

Lemma frame_select_recipient p : preserves inbound_frame (select_recipient p).
Proof. unfold select_recipient. preserve. Qed.

Lemma frame_accept_buffered b p r : preserves inbound_frame (accept_buffered b p r).
Proof. unfold accept_buffered. preserve. Qed.
#[export] Hint Resolve frame_select_recipient frame_accept_buffered : frame.

Lemma frame_accept replay p r : preserves inbound_frame (accept replay p r).
Proof. unfold accept. preserve. Qed.
#[export] Hint Resolve frame_accept : frame.

Lemma frame_select_or_buffer p : preserves inbound_frame (_select_recipient_or_buffer p).
Proof. unfold _select_recipient_or_buffer. preserve. frame_leaf. Qed.

Lemma frame_hold pid : preserves inbound_frame (_hold_receive_quota pid).
Proof. unfold _hold_receive_quota. preserve. frame_leaf. Qed.

Lemma frame_require p : preserves inbound_frame (require_packet_id p).
Proof. unfold require_packet_id. preserve. Qed.

Lemma frame_detached_recipient r : preserves inbound_frame (detached_recipient r).
Proof. unfold detached_recipient. preserve. Qed.
#[export] Hint Resolve frame_select_or_buffer frame_hold frame_require frame_detached_recipient : frame.

Lemma frame_deliver_qos1 p r : preserves inbound_frame (_deliver_qos1_publish p r).
Proof. unfold _deliver_qos1_publish. preserve. Qed.

Lemma frame_accept_qos2 p r : preserves inbound_frame (_accept_qos2_publish p r).
Proof. unfold _accept_qos2_publish, modify_state. preserve; frame_leaf. Qed.
#[export] Hint Resolve frame_deliver_qos1 frame_accept_qos2 : frame.

Lemma frame_handle_publish p : preserves inbound_frame (handle_publish p).
Proof. unfold handle_publish, _handle_qos1_publish, _handle_qos2_publish. preserve. Qed.

Lemma frame_handle_pubrel p : preserves inbound_frame (handle_pubrel p).
Proof. unfold handle_pubrel, modify_state. preserve. frame_leaf. Qed.

Lemma frame_message_ack m : preserves inbound_frame (message_ack m).
Proof. unfold message_ack, run_callback, modify_state. preserve; frame_leaf. Qed.

Lemma frame_modify_buffer f : preserves inbound_frame (modify_buffer f).
Proof.
  apply preserves_modify. intros s. destruct (e_replay s); try reflexivity.
  frame_split.
Qed.
#[export] Hint Resolve frame_handle_publish frame_handle_pubrel frame_message_ack frame_modify_buffer : frame.

Lemma frame_deliver_replay p r : preserves inbound_frame (deliver_replay p r).
Proof. unfold deliver_replay. preserve. Qed.

Lemma frame_must_wait r : preserves inbound_frame (must_wait r).
Proof. unfold must_wait. preserve. Qed.
#[export] Hint Resolve frame_deliver_replay frame_must_wait : frame.

Lemma preserves_branch {A B} R `{!PreOrder R} (m : M A) (f : A -> M B) (g : exn -> M B) :
  preserves R m -> (forall a, preserves R (f a)) -> (forall e, preserves R (g e)) ->
  preserves R (fun s => match m s with (Ok a, s') => f a s' | (Err e, s') => g e s' end).
Proof.
  intros Hm Hf Hg s. specialize (Hm s). destruct (m s) as [[a|e] s']; cbn in *.
  - etransitivity; [exact Hm|apply Hf].
  - etransitivity; [exact Hm|apply Hg].
Qed.

Lemma frame_deliver_pending_loop pending unmatched :
  preserves inbound_frame (deliver_pending_loop pending unmatched).
Proof.
  revert unmatched; induction pending as [|p pending IH]; intros unmatched; cbn [deliver_pending_loop];
    [auto with frame|].
  preserve. apply (preserves_branch _ (deliver_replay _ _) (fun _ => _ ← modify_buffer _; _)
    (fun e => _ ← modify_buffer _; throw e)); preserve.
Qed.
#[export] Hint Resolve frame_deliver_pending_loop : frame.

Lemma frame_deliver_pending : preserves inbound_frame _deliver_pending.
Proof. unfold _deliver_pending. preserve. Qed.
#[export] Hint Resolve frame_deliver_pending : frame.

Lemma frame_drain_replay : preserves inbound_frame drain_replay.
Proof.
  unfold drain_replay. preserve. apply preserves_modify. intros s.
  destruct (e_replay s); try reflexivity. case_if; [|reflexivity]. frame_split.
Qed.

Lemma frame_expire_replay ref : preserves inbound_frame (expire_replay ref).
Proof.
  unfold expire_replay. preserve. apply preserves_modify. intros s.
  destruct (e_replay s); try reflexivity. frame_split.
Qed.

#[export] Hint Resolve frame_expire_replay : frame.

Lemma frame_expire_after_timeout ref : preserves inbound_frame (expire_after_timeout ref).
Proof.
  intros s. unfold expire_after_timeout. pose proof (frame_expire_replay ref s) as H.
  destruct (expire_replay ref s) as [[|e] s']; [exact H|].
  transitivity s'; [exact H|apply (preserves_suppress _ (abort None)); auto with frame].
Qed.

Lemma frame_begin_session b : preserves inbound_frame (begin_session b).
Proof. unfold begin_session. frame_leaf. Qed.
Lemma frame_inbound_clear : preserves inbound_frame inbound_clear.
Proof. unfold inbound_clear. frame_leaf. Qed.
#[export] Hint Resolve frame_drain_replay frame_expire_after_timeout frame_begin_session frame_inbound_clear : frame.
