(* ===== verification/Protocol.v ===== *)
(** * The protocol engine ([_internal/protocol.py])

    Publishing, subscription management, the handlers of incoming packets, the handshake and the
    end of a connection.

    A coroutine that waits for the broker is cut at the future it awaits: [X_begin] is the code
    up to there, which yields a task, and [X_finish] is the rest, run when the future is done or
    an exception (a cancellation, say) is thrown into the coroutine.  [engine_step] lets the
    application, the broker and the event loop interleave these pieces in any order. *)

From S2P Require Import Prelude Properties Packets Codec Topic SubscriptionIndex State Engine Inbound.

Definition PACKET_TOO_LARGE : Z := 0x95.

(** ** Reason codes *)

Definition _PUBLISH_REASON_NAMES : list (Z * string) :=
  [(0x00, "Success"%string); (0x10, "No matching subscribers"%string); (0x80, "Unspecified error"%string);
   (0x83, "Implementation specific error"%string); (0x87, "Not authorized"%string);
   (0x90, "Topic Name invalid"%string); (0x91, "Packet Identifier in use"%string);
   (0x97, "Quota exceeded"%string); (0x99, "Payload format invalid"%string)].

Definition _publish_error (packet : PubAckFields) : exn :=
  MQTTPublishError (a_reason_code packet) (dict_get _PUBLISH_REASON_NAMES (a_reason_code packet))
    (match a_properties packet with Some props => pap_reason_string props | None => None end).

Definition _raise_on_rejected_puback (puback : PubAckFields) : res unit :=
  if 0x80 <=? a_reason_code puback then Err (_publish_error puback) else Ok tt.

(** The dictionary comprehension over [zip(filters, return_codes)]. *)
Definition rejected_filters (filters : list SubscriptionRequest) (codes : list Z) : dict pystr Z :=
  fold_left (fun d rc => if 0x80 <=? rc.2 then dict_set d (sr_topic_filter rc.1) rc.2 else d)
    (zip filters codes) [].

Definition _raise_on_rejected_filters (filters : list SubscriptionRequest) (suback : SubAck) : res unit :=
  match rejected_filters filters (sa_return_codes suback) with
  | [] => Ok tt
  | failures => Err (MQTTSubscribeError failures)
  end.

(** ** The handshake *)

(** The handling of one packet in [_await_connack]; [None] is the return of the CONNACK. *)
Definition handle_connack (pkt : AnyPacket) : M ConnAck :=
  match pkt with
  | PConnAck pkt =>
    if negb (ca_return_code pkt =? 0) then throw (MQTTConnectError (ca_return_code pkt))
    else
      v ← asks e_version;
      keepalive ← asks e_keepalive;
      _ ← modify (set_e_effective_keepalive keepalive);
      _ ← match v, ca_properties pkt with
          | V50, Some props =>
            _ ← match cap_server_keep_alive props with
                | Some k => modify (set_e_effective_keepalive k)
                | None => mret tt
                end;
            q ← match cap_maximum_qos props with
                | None => mret EXACTLY_ONCE
                | Some n => lift (QoS_of n)
                end;
            _ ← modify (set_e_max_publish_qos q);
            modify (set_e_retain_available
              (match cap_retain_available props with Some false => false | _ => true end))
          | _, _ =>
            _ ← modify (set_e_max_publish_qos EXACTLY_ONCE);
            modify (set_e_retain_available true)
          end;
      _ ← begin_session (ca_session_present pkt);
      mret pkt
  | _ => throw (MQTTProtocolError "Expected CONNACK")
  end.

(** [_rejecting_oversized_packets], around a body that raised [e]. *)
Definition rejecting_oversized (e : exn) : M unit :=
  match e with
  | PacketTooLargeError _ _ =>
    _ ← abort (Some PACKET_TOO_LARGE);
    throw (MQTTProtocolError "Broker sent a packet exceeding the Maximum Packet Size")
  | e => throw e
  end.

(** ** Publishing *)

Definition _ensure_alive : M unit :=
  dead ← asks e_dead;
  if dead : bool then throw (MQTTDisconnectedError "Connection lost") else mret tt.

Definition acquire_pid : M Z := fun s =>
  match acquire (packet_ids (e_state s)) with
  | Ok (pid, pool) => (Ok pid, set_e_state (set_packet_ids pool (e_state s)) s)
  | Err e => (Err e, s)
  end.

Definition release_pid (pid : Z) : M unit :=
  modify_state (fun st => set_packet_ids (release (packet_ids st) pid) st).

(** [dataclasses.replace(packet, packet_id=pid)] *)
Definition with_packet_id (packet : Publish) (pid : Z) : Publish :=
  mkPublish (p_topic packet) (p_payload packet) (p_qos packet) (p_retain packet) (p_dup packet)
    (Some pid) (p_properties packet).

(** What a suspended coroutine still has to do. *)
Inductive task_kind : Type :=
| TPublishQoS1
| TPublishQoS2
| TSubscribe (filters : list SubscriptionRequest) (new_entries : list pystr)
| TObserve (topic : pystr)
| TUnsubscribe (broker_filters observed_filters : list pystr)
| TRestoreObservers (filters : list SubscriptionRequest) (broker_filters : list pystr) (acknowledged : option UnsubAck)
| TUnobserve (topic : pystr)
| TPing.

(** [t_pid] is the packet identifier the coroutine registered (none for a ping). *)
Record task : Type := mkTask {
  t_kind : task_kind;
  t_pid : Z;
  t_future : nat
}.

(** What a call returns. *)
Inductive call_value : Type :=
| RNone
| RPubAck (p : PubAckFields)
| RPubComp (p : PubAckFields)
| RSubscribed (p : SubAck) (new_entries : list pystr)
| RUnsubscribed (acknowledged : option (list pystr * UnsubAck)).

(** A coroutine step either returns or suspends. *)
Inductive progress : Type :=
| Returned (v : call_value)
| Suspended (t : task).

Definition publish_begin (packet : Publish) : M progress :=
  _ ← _ensure_alive;
  max_qos ← asks e_max_publish_qos;
  if qos_val max_qos <? qos_val (p_qos packet)
  then throw (MQTTQoSExceededError (qos_val (p_qos packet)) (qos_val max_qos))
  else
    retain_available ← asks e_retain_available;
    if p_retain packet && negb retain_available then throw MQTTRetainNotAvailableError
    else
      match p_qos packet with
      | AT_MOST_ONCE => _ ← send_packet (PPublish packet); mret (Returned RNone)
      | AT_LEAST_ONCE =>
        pid ← acquire_pid;
        let packet := with_packet_id packet pid in
        future ← create_future;
        _ ← modify_state (fun st => set_inflight_qos1
              (<[pid := mkQoS1Flight pid packet future]> (inflight_qos1 st)) st);
        _ ← send_packet (PPublish packet);
        mret (Suspended (mkTask TPublishQoS1 pid future))
      | EXACTLY_ONCE =>
        pid ← acquire_pid;
        let packet := with_packet_id packet pid in
        future ← create_future;
        _ ← modify_state (fun st => set_inflight_qos2_out
              (<[pid := mkQoS2Flight pid packet PENDING_PUBREC future]> (inflight_qos2_out st)) st);
        _ ← send_packet (PPublish packet);
        mret (Suspended (mkTask TPublishQoS2 pid future))
      end.

(** ** SUBSCRIBE and UNSUBSCRIBE *)

(** The [finally] clauses of [_send_subscribe] and [_send_unsubscribe]. *)
Definition forget_sub (pid : Z) : M unit :=
  _ ← modify_state (fun st => set_pending_subs (delete pid (pending_subs st)) st);
  release_pid pid.
Definition forget_unsub (pid : Z) : M unit :=
  _ ← modify_state (fun st => set_pending_unsubs (delete pid (pending_unsubs st)) st);
  release_pid pid.

(** [except BaseException: fin; raise], the [finally] clause of a block that did not suspend. *)
Definition on_error {A} (m : M A) (fin : M unit) : M A := fun s =>
  match m s with
  | (Ok a, s') => (Ok a, s')
  | (Err e, s') => match fin s' with
                   | (Ok _, s'') => (Err e, s'')
                   | (Err e', s'') => (Err e', s'')
                   end
  end.

(** [_send_subscribe], up to [await future]: the identifier and the future. *)
Definition send_subscribe_begin (filters : list SubscriptionRequest) (subscription_identifier : option Z)
    : M (Z * nat) :=
  _ ← _ensure_alive;
  pid ← acquire_pid;
  future ← create_future;
  _ ← modify_state (fun st => set_pending_subs (<[pid := future]> (pending_subs st)) st);
  let properties := match subscription_identifier with
                    | Some i => Some (mkSubscribeProperties (Some i) [])
                    | None => None
                    end in
  on_error
    (_ ← send_packet (PSubscribe (mkSubscribe pid filters properties)); mret (pid, future))
    (forget_sub pid).

(** [_send_unsubscribe], up to [await future]. *)
Definition send_unsubscribe_begin (filters : list pystr) : M (Z * nat) :=
  _ ← _ensure_alive;
  pid ← acquire_pid;
  future ← create_future;
  _ ← modify_state (fun st => set_pending_unsubs (<[pid := future]> (pending_unsubs st)) st);
  on_error
    (_ ← send_packet (PUnsubscribe (mkUnsubscribe pid filters None)); mret (pid, future))
    (forget_unsub pid).

(** The result of [await future]. *)
Definition await_result (f : nat) : M fut_value := fun s =>
  match fut_state s f with
  | FResult v => (Ok v, s)
  | FException e => (Err e, s)
  | FCancelled => (Err CancelledError, s)
  | FPending => (Err (RuntimeError "await wasn't used with future"), s)
  end.

(** How the coroutine resumes: with the result of its future, or with an exception thrown in. *)
Definition resumed (f : nat) (thrown : option exn) : M fut_value :=
  match thrown with Some e => throw e | None => await_result f end.

Definition as_suback (v : fut_value) : M SubAck :=
  match v with VPacket (PSubAck p) => mret p | _ => throw (TypeError "SubAck") end.
Definition as_unsuback (v : fut_value) : M UnsubAck :=
  match v with VPacket (PUnsubAck p) => mret p | _ => throw (TypeError "UnsubAck") end.

(** [_send_subscribe], from [await future] on. *)
Definition send_subscribe_finish (filters : list SubscriptionRequest) (pid : Z) (f : nat) (thrown : option exn)
    : M SubAck :=
  try_finally
    (v ← resumed f thrown;
     suback ← as_suback v;
     _ ← lift (_raise_on_rejected_filters filters suback);
     mret suback)
    (forget_sub pid).

Definition send_unsubscribe_finish (pid : Z) (f : nat) (thrown : option exn) : M UnsubAck :=
  try_finally (v ← resumed f thrown; as_unsuback v) (forget_unsub pid).

Definition modify_index (f : SubscriptionIndex -> SubscriptionIndex) : M unit :=
  modify_state (fun st => set_subscriptions (f (subscriptions st)) st).

Fixpoint remove_filters (fs : list pystr) : M unit :=
  match fs with
  | [] => mret tt
  | f :: fs' => _ ← modify_index (fun idx => (remove idx f).2); remove_filters fs'
  end.

(** The loop of [_subscribe] that builds [new_entries]: one entry per filter that is not
    subscribed yet. *)
Fixpoint build_entries (filters : list SubscriptionRequest) (queue : nat) (auto : bool)
    (identifier : option Z) (acc : dict pystr SubscriptionEntry) : M (dict pystr SubscriptionEntry) :=
  match filters with
  | [] => mret acc
  | req :: filters' =>
    let f := sr_topic_filter req in
    idx ← ask_state subscriptions;
    match get idx f with
    | Some _ => build_entries filters' queue auto identifier acc
    | None =>
      ref ← new_ref;
      prefixes ← asks e_stripped_prefixes;
      let entry := mkSubscriptionEntry ref queue auto (_shared_filter_to_actual f prefixes) identifier in
      build_entries filters' queue auto identifier (dict_set acc f entry)
    end
  end.

(** [_subscribe], the body of [subscribe] under its locks; [inbound.drain] comes after their release
    ([EvDrain]; [Locking] has the whole call). *)
Definition subscribe_begin (filters : list SubscriptionRequest) (queue : nat) (auto : bool)
    (identifier : option Z) : M progress :=
  new_entries ← build_entries filters queue auto identifier [];
  _ ← modify_index (fun idx => add_many idx new_entries);
  '(pid, future) ← on_error (send_subscribe_begin filters identifier) (remove_filters (keys new_entries));
  mret (Suspended (mkTask (TSubscribe filters (keys new_entries)) pid future)).

Definition observer_request (topic : pystr) : SubscriptionRequest :=
  mkSubscriptionRequest topic AT_MOST_ONCE false false SEND_ON_SUBSCRIBE.

Definition observe (topic : pystr) : M bool := fun s =>
  let '(b, idx) := SubscriptionIndex.add_response_observer (subscriptions (e_state s)) topic in
  (Ok b, set_e_state (set_subscriptions idx (e_state s)) s).

Definition unobserve (topic : pystr) : M bool := fun s =>
  let '(b, idx) := SubscriptionIndex.remove_response_observer (subscriptions (e_state s)) topic in
  (Ok b, set_e_state (set_subscriptions idx (e_state s)) s).

(** [_add_response_observer] *)
Definition add_response_observer_begin (topic : pystr) : M progress :=
  _ ← _ensure_alive;
  added ← observe topic;
  if negb added then mret (Returned RNone)
  else
    known ← ask_state (fun st => contains (subscriptions st) topic);
    if known : bool then mret (Returned RNone)
    else
      '(pid, future) ← on_error (send_subscribe_begin [observer_request topic] None)
                         (_ ← unobserve topic; mret tt);
      mret (Suspended (mkTask (TObserve topic) pid future)).

(** [_remove_response_observer] *)
Definition remove_response_observer_begin (topic : pystr) : M progress :=
  removed ← unobserve topic;
  if negb removed then mret (Returned RNone)
  else
    known ← ask_state (fun st => contains (subscriptions st) topic);
    dead ← asks e_dead;
    if known || dead then mret (Returned RNone)
    else
      '(pid, future) ← send_unsubscribe_begin [topic];
      mret (Suspended (mkTask (TUnobserve topic) pid future)).

(** The second half of [_unsubscribe]: resubscribe the observed filters; a failure is logged. *)
Definition restore_begin (broker observed : list pystr) (acknowledged : option UnsubAck) : M progress :=
  let result := Returned (RUnsubscribed ((fun u => (broker, u)) <$> acknowledged)) in
  match observed with
  | [] => mret result
  | _ => fun s =>
    let requests := map observer_request observed in
    match send_subscribe_begin requests None s with
    | (Ok (pid, future), s') => (Ok (Suspended (mkTask (TRestoreObservers requests broker acknowledged) pid future)), s')
    | (Err _, s') => (Ok result, s')
    end
  end.

Definition unsubscribe_begin (filters : list pystr) : M progress :=
  _ ← _ensure_alive;
  idx ← ask_state subscriptions;
  let observed := List.filter (has_response_observer idx) filters in
  let broker := List.filter (fun f => negb (bool_decide (f ∈ observed))) filters in
  _ ← remove_filters filters;
  match broker with
  | [] => restore_begin broker observed None
  | _ =>
    '(pid, future) ← send_unsubscribe_begin broker;
    mret (Suspended (mkTask (TUnsubscribe broker observed) pid future))
  end.

(** [detach] and [restore_detached] *)
Definition detach (filters : list pystr) : M unit :=
  idx ← ask_state subscriptions;
  modify (fun s => set_e_detached
    (fold_left (fun d f => match get idx f with Some e => {[ se_ref e ]} ∪ d | None => d end)
       filters (e_detached s)) s).

(** The entries are those [detach] has marked; the mark is in the object, which the engines of
    successive connections share. *)
Definition restore_detached (entries : list item) : M unit :=
  _ ← modify_index (fun idx => add_many idx entries);
  modify (fun s => set_e_detached (list_to_set (map (fun fe => se_ref fe.2) entries) ∪ e_detached s) s).

(** ** Ping *)

Definition ping_begin : M progress :=
  future ← create_future;
  _ ← modify (fun s => set_e_ping_waiters (e_ping_waiters s ++ [future]) s);
  _ ← send_packet PPingReq;
  mret (Suspended (mkTask TPing 0 future)).

(** [list.remove] *)
Fixpoint remove_first (f : nat) (l : list nat) : list nat :=
  match l with
  | [] => []
  | g :: l' => if (g =? f)%nat then l' else g :: remove_first f l'
  end.

(** The timeout of [wait_for] is the only exception the code handles. *)
Definition ping_finish (f : nat) (thrown : option exn) : M progress :=
  match thrown with
  | Some (MQTTTimeoutError _) =>
    waiters ← asks e_ping_waiters;
    if bool_decide (f ∈ waiters) then
      _ ← modify (set_e_ping_waiters (remove_first f waiters));
      throw (MQTTTimeoutError "PINGRESP not received within timeout")
    else throw (ValueError "list.remove(x): x not in list")
  | _ => _ ← resumed f thrown; mret (Returned RNone)
  end.

(** ** Resuming a coroutine *)

(** An exception that [except Exception] catches: a cancellation is not one. *)
Definition is_exception (e : exn) : bool := match e with CancelledError => false | _ => true end.

Definition task_finish (t : task) (thrown : option exn) : M progress :=
  let 'mkTask kind pid f := t in
  match kind with
  | TPublishQoS1 =>
    v ← resumed f thrown;
    match v with
    | VPacket (PPubAck ack) => _ ← lift (_raise_on_rejected_puback ack); mret (Returned (RPubAck ack))
    | _ => throw (TypeError "PubAck")
    end
  | TPublishQoS2 =>
    v ← resumed f thrown;
    match v with
    | VPacket (PPubComp c) => mret (Returned (RPubComp c))
    | _ => throw (TypeError "PubComp")
    end
  | TSubscribe filters new_entries =>
    suback ← on_error (send_subscribe_finish filters pid f thrown) (remove_filters new_entries);
    mret (Returned (RSubscribed suback new_entries))
  | TObserve topic =>
    _ ← on_error (send_subscribe_finish [observer_request topic] pid f thrown)
           (_ ← unobserve topic; mret tt);
    mret (Returned RNone)
  | TUnsubscribe broker observed =>
    unsuback ← send_unsubscribe_finish pid f thrown;
    restore_begin broker observed (Some unsuback)
  | TRestoreObservers filters broker acknowledged => fun s =>
    let result := Returned (RUnsubscribed ((fun u => (broker, u)) <$> acknowledged)) in
    match send_subscribe_finish filters pid f thrown s with
    | (Ok _, s') => (Ok result, s')
    | (Err e, s') => if is_exception e then (Ok result, s') else (Err e, s')
    end
  | TUnobserve topic => _ ← send_unsubscribe_finish pid f thrown; mret (Returned RNone)
  | TPing => ping_finish f thrown
  end.

(** ** Incoming packets *)

Definition _handle_puback (packet : PubAckFields) : M unit :=
  let pid := a_packet_id packet in
  flight ← ask_state (fun st => inflight_qos1 st !! pid);
  match flight with
  | None => throw (MQTTProtocolError "PUBACK for unknown packet_id")
  | Some flight =>
    _ ← modify_state (fun st => set_inflight_qos1 (delete pid (inflight_qos1 st)) st);
    _ ← release_pid pid;
    unless_done (q1_future flight) (set_result (q1_future flight) (VPacket (PPubAck packet)))
  end.

Definition _handle_pubrec (packet : PubAckFields) : M unit :=
  let pid := a_packet_id packet in
  flight ← ask_state (fun st => inflight_qos2_out st !! pid);
  match flight with
  | None => throw (MQTTProtocolError "PUBREC for unknown packet_id")
  | Some flight =>
    if decide (q2_state flight = PENDING_PUBREC) then
      if 0x80 <=? a_reason_code packet then
        _ ← modify_state (fun st => set_inflight_qos2_out (delete pid (inflight_qos2_out st)) st);
        _ ← release_pid pid;
        unless_done (q2_future flight) (set_exception (q2_future flight) (_publish_error packet))
      else
        let flight' := mkQoS2Flight (q2_packet_id flight) (q2_publish flight) PENDING_PUBCOMP (q2_future flight) in
        _ ← modify_state (fun st => set_inflight_qos2_out (<[pid := flight']> (inflight_qos2_out st)) st);
        send_packet (PPubRel (ack_of pid))
    else throw (MQTTProtocolError "PUBREC in wrong state")
  end.

Definition _handle_pubcomp (packet : PubAckFields) : M unit :=
  let pid := a_packet_id packet in
  flight ← ask_state (fun st => inflight_qos2_out st !! pid);
  match flight with
  | None => throw (MQTTProtocolError "PUBCOMP for unknown packet_id")
  | Some flight =>
    _ ← modify_state (fun st => set_inflight_qos2_out (delete pid (inflight_qos2_out st)) st);
    _ ← release_pid pid;
    unless_done (q2_future flight) (set_result (q2_future flight) (VPacket (PPubComp packet)))
  end.

Definition _handle_suback (packet : SubAck) : M unit :=
  future ← ask_state (fun st => pending_subs st !! sa_packet_id packet);
  match future with
  | None => throw (MQTTProtocolError "SUBACK for unknown packet_id")
  | Some f => set_result f (VPacket (PSubAck packet))
  end.

Definition _handle_unsuback (packet : UnsubAck) : M unit :=
  future ← ask_state (fun st => pending_unsubs st !! ua_packet_id packet);
  match future with
  | None => throw (MQTTProtocolError "UNSUBACK for unknown packet_id")
  | Some f => set_result f (VPacket (PUnsubAck packet))
  end.

Definition _handle_pingresp : M unit :=
  waiters ← asks e_ping_waiters;
  match waiters with
  | [] => mret tt
  | f :: rest =>
    _ ← modify (set_e_ping_waiters rest);
    unless_done f (set_result f VNone)
  end.

Definition _dispatch (packet : AnyPacket) : M unit :=
  match packet with
  | PPublish p => handle_publish p
  | PPubAck p => _handle_puback p
  | PPubRec p => _handle_pubrec p
  | PPubRel p => handle_pubrel p
  | PPubComp p => _handle_pubcomp p
  | PSubAck p => _handle_suback p
  | PUnsubAck p => _handle_unsuback p
  | PPingResp => _handle_pingresp
  | PDisconnect _ => throw (MQTTDisconnectedError "Broker sent DISCONNECT")
  | PAuth _ =>
    v ← asks e_version;
    if decide (v = V50) then mret tt
    else throw (MQTTProtocolError "Received AUTH packet in MQTT 3.1.1 session")
  | _ => throw (MQTTProtocolError "Unexpected packet from broker")
  end.

(** ** The end of the connection *)

(** [if not f.done(): f.set_exception(exc)] for every future of a list. *)
Definition fail_futures (fs : list nat) (futures : gmap nat FutState) : gmap nat FutState :=
  fold_left (fun m f =>
    match m !! f with
    | Some FPending => <[f := FException (MQTTDisconnectedError "Connection lost")]> m
    | Some _ => m
    | None => <[f := FException (MQTTDisconnectedError "Connection lost")]> m
    end) fs futures.

(** The futures [_cancel_pending] visits. *)
Definition pending_futures (s : Engine) : list nat :=
  let st := e_state s in
  map snd (map_to_list (pending_subs st)) ++ map snd (map_to_list (pending_unsubs st)) ++
  map (fun kv => q1_future kv.2) (map_to_list (inflight_qos1 st)) ++
  map (fun kv => q2_future kv.2) (map_to_list (inflight_qos2_out st)) ++ e_ping_waiters s.

Definition _cancel_pending : M unit :=
  _ ← modify (fun s => set_e_futures (fail_futures (pending_futures s) (e_futures s)) s);
  _ ← modify (set_e_ping_waiters []);
  inbound_clear.

(** The [finally] clause of [run], once both loops have ended. *)
Definition run_finally : M unit :=
  _ ← modify (set_e_dead true);
  _cancel_pending.

(** [disconnect] *)
Definition disconnect : M unit :=
  _ ← modify (set_e_disconnecting true);
  _ ← suppress (send_packet (PDisconnect (mkDisconnect 0 None)));
  transport_close.

Definition send_auth (packet : Auth) : M unit :=
  v ← asks e_version;
  if decide (v = V50) then send_packet (PAuth packet)
  else throw (RuntimeError "Feature is not supported for mqtt protocol version 3.1.1").

(** ** Interleavings

    [calls] are the coroutines that wait, by call number, and [results] what the finished calls
    returned or raised.  [failure] is the exception that ended the read loop. *)

Record System : Type := mkSystem {
  engine : Engine;
  calls : gmap nat task;
  next_call : nat;
  results : list (nat * res call_value);
  failure : option exn
}.

Inductive event : Type :=
| EvPublish (packet : Publish)
| EvSubscribe (filters : list SubscriptionRequest) (queue : nat) (auto : bool) (identifier : option Z)
| EvUnsubscribe (filters : list pystr)
| EvObserve (topic : pystr)
| EvUnobserve (topic : pystr)
| EvPing
| EvDetach (filters : list pystr)
| EvAuth (packet : Auth)
| EvConnect (packet : Connect)      (** [connect] sends CONNECT *)
| EvConnAck (packet : AnyPacket)    (** the answer to CONNECT *)
| EvReceive (packet : AnyPacket)    (** the read loop dispatches a packet *)
| EvReadFails (e : exn)              (** the buffer or the transport raises in the read loop *)
| EvPutResume                       (** a queue the read loop waits for has room *)
| EvTake (queue : nat)              (** the application takes a message *)
| EvAck (message : nat)             (** [Message.ack] *)
| EvDrain                           (** [inbound.drain]: the end of [subscribe], and [get_message] *)
| EvExpire (buffer : nat)
| EvCancel (call : nat)             (** [task.cancel()]: of the future, or of a task about to resume *)
| EvTimeout (call : nat)            (** the timeout of a ping *)
| EvResume (call : nat)             (** the future of the call is done *)
| EvLost                            (** the peer is gone: writes fail from now on *)
| EvDisconnect
| EvRestoreDetached (entries : list item)
| EvBind                            (** the client binds the request dispatcher *)
| EvRunEnds.                        (** a loop failed, or [run] was cancelled *)

(** The outcome of a piece of a coroutine: wait, or finish with a result. *)
Definition settle (n : nat) (r : res progress) (s : Engine) (sys : System) : System :=
  match r with
  | Ok (Suspended t) => mkSystem s (<[n := t]> (calls sys)) (next_call sys) (results sys) (failure sys)
  | Ok (Returned v) =>
    mkSystem s (delete n (calls sys)) (next_call sys) (results sys ++ [(n, Ok v)]) (failure sys)
  | Err e =>
    mkSystem s (delete n (calls sys)) (next_call sys) (results sys ++ [(n, Err e)]) (failure sys)
  end.

Definition new_call (m : M progress) (sys : System) : System :=
  let n := next_call sys in
  let '(r, s) := m (engine sys) in
  settle n r s (mkSystem (engine sys) (calls sys) (S n) (results sys) (failure sys)).

Definition with_engine (s : Engine) (sys : System) : System :=
  mkSystem s (calls sys) (next_call sys) (results sys) (failure sys).

Definition run_unit (m : M unit) (sys : System) : System := with_engine (m (engine sys)).2 sys.

(** A handler of the read loop that raises ends the loop. *)
Definition run_reader (m : M unit) (sys : System) : System :=
  match m (engine sys) with
  | (Ok _, s) => with_engine s sys
  | (Err e, s) => mkSystem s (calls sys) (next_call sys) (results sys) (Some e)
  end.

Definition reading (sys : System) : bool :=
  negb (is_Some_b (failure sys)) && negb (e_dead (engine sys)).

Definition cancel_future (f : nat) (s : Engine) : Engine :=
  set_e_futures (<[f := FCancelled]> (e_futures s)) s.

Definition is_ping (t : task) : bool := match t_kind t with TPing => true | _ => false end.

(** One event; an event that is not possible now changes nothing.  [asyncio.shield] keeps the
    future of a ping from being cancelled, so that a cancelled ping ends at once. *)
Definition engine_step (sys : System) (ev : event) : System :=
  match ev with
  | EvPublish p => new_call (publish_begin p) sys
  | EvSubscribe fs q auto i => new_call (subscribe_begin fs q auto i) sys
  | EvUnsubscribe fs => new_call (unsubscribe_begin fs) sys
  | EvObserve t => new_call (add_response_observer_begin t) sys
  | EvUnobserve t => new_call (remove_response_observer_begin t) sys
  | EvPing => new_call ping_begin sys
  | EvDetach fs => run_unit (detach fs) sys
  | EvAuth p => run_unit (send_auth p) sys
  | EvConnect p => run_unit (send_packet (PConnect p)) sys
  | EvConnAck p => if reading sys then run_reader (_ ← handle_connack p; mret tt) sys else sys
  | EvReceive p =>
    if reading sys && negb (is_Some_b (e_putting (engine sys))) then run_reader (_dispatch p) sys else sys
  | EvReadFails e =>
    if reading sys && negb (is_Some_b (e_putting (engine sys))) then run_reader (rejecting_oversized e) sys else sys
  | EvPutResume => if reading sys then run_reader put_resume sys else sys
  | EvTake q => run_unit (drop_head q) sys
  | EvAck m => run_unit (message_ack m) sys
  | EvDrain => run_unit drain_replay sys
  | EvExpire b => run_unit (expire_after_timeout b) sys
  | EvCancel n =>
    match calls sys !! n with
    | Some t =>
      if is_ping t || fut_done (fut_state (engine sys) (t_future t)) then
        let '(r, s) := task_finish t (Some CancelledError) (engine sys) in settle n r s sys
      else with_engine (cancel_future (t_future t) (engine sys)) sys
    | None => sys
    end
  | EvTimeout n =>
    match calls sys !! n with
    | Some t =>
      if is_ping t then
        let '(r, s) := task_finish t (Some (MQTTTimeoutError "")) (engine sys) in settle n r s sys
      else sys
    | None => sys
    end
  | EvResume n =>
    match calls sys !! n with
    | Some t =>
      if fut_done (fut_state (engine sys) (t_future t)) then
        let '(r, s) := task_finish t None (engine sys) in settle n r s sys
      else sys
    | None => sys
    end
  | EvLost => with_engine (set_e_lost true (engine sys)) sys
  | EvDisconnect => run_unit disconnect sys
  | EvRestoreDetached entries => run_unit (restore_detached entries) sys
  | EvBind => run_unit bind_router sys
  | EvRunEnds => if e_dead (engine sys) then sys else run_unit run_finally sys
  end.

Definition run_events (sys : System) (evs : list event) : System := fold_left engine_step evs sys.

(** [MQTTProtocol.__init__] with a new [SessionState]; the queues are the application's and the
    dispatcher is the client's, so that references below [next] may be taken. *)
Definition engine_new (v : version) (stripped_prefixes : list pystr) (keepalive : Z)
    (receive_maximum : option Z) (replay_buffer_size : Z) (dispatcher : option Dispatcher)
    (queues : gmap nat Queue) (next : nat) : Engine :=
  mkEngine v stripped_prefixes keepalive keepalive session_new [] false false EXACTLY_ONCE true
    receive_maximum ∅ NoSessionReplay replay_buffer_size dispatcher ∅ ∅ queues ∅ None next [] false false.

Definition system_new (s : Engine) : System := mkSystem s ∅ 0 [] None.
