(* ===== verification/Ownership.v ===== *)
(** * Ownership of packet identifiers

    Every identifier in use belongs to exactly one exchange: an outbound QoS 1 or QoS 2 flight,
    or a SUBSCRIBE or UNSUBSCRIBE that a suspended call waits for.  This file has the invariant
    of the session state and of the tables of pending acknowledgements; [Calls] shows that every
    interleaving keeps it. *)

From S2P Require Import Prelude Properties Packets Codec Topic SubscriptionIndex State Engine Inbound Protocol.

(** ** The session *)

(** How many exchanges own the identifier [i]. *)
Definition owners (st : SessionState) (i : Z) : nat :=
  Nat.b2n (is_Some_b (inflight_qos1 st !! i)) + Nat.b2n (is_Some_b (inflight_qos2_out st !! i)) +
  Nat.b2n (is_Some_b (pending_subs st !! i)) + Nat.b2n (is_Some_b (pending_unsubs st !! i)).

Definition in_use (st : SessionState) (i : Z) : bool := bool_decide (i ∈ pool_in_use (packet_ids st)).

Definition held_at (held : option Z) (i : Z) : bool :=
  match held with Some pid => pid =? i | None => false end.

(** [holding held st]: every identifier in use has one owner and the others none, where [held]
    is an identifier acquired and not yet registered, or unregistered and not yet released. *)
Record holding (held : option Z) (st : SessionState) : Prop := {
  h_pool : pool_ok (packet_ids st);
  h_owners : forall i, (owners st i + Nat.b2n (held_at held i) = Nat.b2n (in_use st i))%nat
}.

Lemma holding_new : holding None session_new.
Proof. split; [apply pool_new_ok|]. intros i. vm_compute. reflexivity. Qed.

Lemma b2n_le b : (Nat.b2n b <= 1)%nat.
Proof. destruct b; cbn; lia. Qed.

(** Compare the two states at one identifier. *)
Ltac holding_at H pid :=
  let i := fresh "i" in
  destruct H as [? H]; split; [done|]; intros i; specialize (H i);
  unfold owners, in_use in *; cbn in *;
  destruct (decide (pid = i)) as [<-|?];
  rewrite ?lookup_insert_eq, ?lookup_delete_eq, ?lookup_insert_ne, ?lookup_delete_ne by done;
  rewrite ?Z.eqb_refl, ?(proj2 (Z.eqb_neq pid i)) in * by done.

(** The table that changes holds [E] at the identifier. *)
Ltac holding_solve H E pid := holding_at H pid; [rewrite E in H|]; cbn in *; lia.

Lemma holding_acquire st pid pool :
  holding None st -> acquire (packet_ids st) = Ok (pid, pool) ->
  holding (Some pid) (set_packet_ids pool st) /\ 1 <= pid <= MAX_PACKET_ID.
Proof.
  intros [Hp H] Ha. destruct (acquire_inv _ _ _ Hp Ha) as (Hp' & Hr & Hf & Hu & _). split; [|done].
  split; [done|]. intros i. specialize (H i). unfold owners, in_use in *. cbn in *. rewrite Hu.
  destruct (decide (pid = i)) as [<-|Hne].
  - rewrite (bool_decide_eq_false_2 (pid ∈ pool_in_use (packet_ids st))) in H by done.
    rewrite (bool_decide_eq_true_2 (pid ∈ _)) by set_solver. rewrite Z.eqb_refl. cbn in *. lia.
  - rewrite (proj2 (Z.eqb_neq pid i)) by done.
    rewrite (bool_decide_ext (i ∈ {[pid]} ∪ _) (i ∈ pool_in_use (packet_ids st))) by set_solver. done.
Qed.

Lemma holding_release st pid :
  holding (Some pid) st -> holding None (set_packet_ids (release (packet_ids st) pid) st).
Proof.
  intros [Hp H].
  assert (pid ∈ pool_in_use (packet_ids st)) as Hin.
  { specialize (H pid). unfold in_use in H. cbn [held_at] in H. rewrite Z.eqb_refl in H.
    destruct (bool_decide_reflect (pid ∈ pool_in_use (packet_ids st))); cbn in H; [done|lia]. }
  split; [apply release_ok; [done|]; by apply (pool_range _ Hp)|].
  intros i. specialize (H i). unfold owners, in_use in *. cbn in *.
  destruct (decide (pid = i)) as [<-|Hne].
  - rewrite Z.eqb_refl in H. rewrite (bool_decide_eq_true_2 (pid ∈ pool_in_use (packet_ids st))) in H by done.
    rewrite (bool_decide_eq_false_2 (pid ∈ _)) by set_solver. cbn in *. lia.
  - rewrite (proj2 (Z.eqb_neq pid i)) in H by done. rewrite (bool_decide_ext (i ∈ _ ∖ {[pid]}) (i ∈ pool_in_use (packet_ids st))) by set_solver. done.
Qed.

(** An acquired identifier is in none of the tables. *)
Lemma holding_free st pid :
  holding (Some pid) st ->
  inflight_qos1 st !! pid = None /\ inflight_qos2_out st !! pid = None /\
  pending_subs st !! pid = None /\ pending_unsubs st !! pid = None.
Proof.
  intros [_ H]. specialize (H pid). unfold owners in H. cbn [held_at] in H. rewrite Z.eqb_refl in H.
  pose proof (b2n_le (in_use st pid)). cbn [Nat.b2n] in H.
  destruct (inflight_qos1 st !! pid), (inflight_qos2_out st !! pid), (pending_subs st !! pid),
    (pending_unsubs st !! pid); cbn in H; try lia. done.
Qed.

Lemma holding_q1 st pid fl :
  holding (Some pid) st -> holding None (set_inflight_qos1 (<[pid := fl]> (inflight_qos1 st)) st).
Proof. intros H. destruct (holding_free _ _ H) as (E & ? & ? & ?). holding_solve H E pid. Qed.
Lemma holding_q2 st pid fl :
  holding (Some pid) st -> holding None (set_inflight_qos2_out (<[pid := fl]> (inflight_qos2_out st)) st).
Proof. intros H. destruct (holding_free _ _ H) as (? & E & ? & ?). holding_solve H E pid. Qed.
Lemma holding_sub st pid f :
  holding (Some pid) st -> holding None (set_pending_subs (<[pid := f]> (pending_subs st)) st).
Proof. intros H. destruct (holding_free _ _ H) as (? & ? & E & ?). holding_solve H E pid. Qed.
Lemma holding_unsub st pid f :
  holding (Some pid) st -> holding None (set_pending_unsubs (<[pid := f]> (pending_unsubs st)) st).
Proof. intros H. destruct (holding_free _ _ H) as (? & ? & ? & E). holding_solve H E pid. Qed.

Lemma holding_q2_update st pid fl fl' :
  holding None st -> inflight_qos2_out st !! pid = Some fl ->
  holding None (set_inflight_qos2_out (<[pid := fl']> (inflight_qos2_out st)) st).
Proof. intros H E. holding_solve H E pid. Qed.

Lemma holding_del_q1 st pid fl :
  holding None st -> inflight_qos1 st !! pid = Some fl ->
  holding (Some pid) (set_inflight_qos1 (delete pid (inflight_qos1 st)) st).
Proof. intros H E. holding_solve H E pid. Qed.
Lemma holding_del_q2 st pid fl :
  holding None st -> inflight_qos2_out st !! pid = Some fl ->
  holding (Some pid) (set_inflight_qos2_out (delete pid (inflight_qos2_out st)) st).
Proof. intros H E. holding_solve H E pid. Qed.
Lemma holding_del_sub st pid f :
  holding None st -> pending_subs st !! pid = Some f ->
  holding (Some pid) (set_pending_subs (delete pid (pending_subs st)) st).
Proof. intros H E. holding_solve H E pid. Qed.
Lemma holding_del_unsub st pid f :
  holding None st -> pending_unsubs st !! pid = Some f ->
  holding (Some pid) (set_pending_unsubs (delete pid (pending_unsubs st)) st).
Proof. intros H E. holding_solve H E pid. Qed.

(** A change elsewhere. *)
Record outbound_eq (st st' : SessionState) : Prop := {
  oe_ids : packet_ids st' = packet_ids st;
  oe_q1 : inflight_qos1 st' = inflight_qos1 st;
  oe_q2 : inflight_qos2_out st' = inflight_qos2_out st;
  oe_subs : pending_subs st' = pending_subs st;
  oe_unsubs : pending_unsubs st' = pending_unsubs st
}.

Lemma holding_eq held st st' : outbound_eq st st' -> holding held st -> holding held st'.
Proof.
  intros [E1 E2 E3 E4 E5] [Hp H]. split; unfold owners, in_use in *; rewrite ?E1, ?E2, ?E3, ?E4, ?E5; done.
Qed.

(** ** The suspended calls

    [table_ok sel calls tbl]: the table of pending acknowledgements [tbl] holds exactly the
    identifiers and futures of the suspended calls of the kinds [sel], one call each. *)

Record table_ok (sel : task_kind -> bool) (calls : gmap nat task) (tbl : gmap Z nat) : Prop := {
  tb_held : forall n t, calls !! n = Some t -> sel (t_kind t) = true -> tbl !! t_pid t = Some (t_future t);
  tb_inj : forall n m t u, calls !! n = Some t -> calls !! m = Some u ->
    sel (t_kind t) = true -> sel (t_kind u) = true -> t_pid t = t_pid u -> n = m;
  tb_surj : forall pid f, tbl !! pid = Some f -> exists n t,
    calls !! n = Some t /\ sel (t_kind t) = true /\ t_pid t = pid
}.

Definition waits_suback (k : task_kind) : bool :=
  match k with TSubscribe _ _ | TObserve _ | TRestoreObservers _ _ _ => true | _ => false end.
Definition waits_unsuback (k : task_kind) : bool :=
  match k with TUnsubscribe _ _ | TUnobserve _ => true | _ => false end.

Lemma table_empty sel : table_ok sel ∅ ∅.
Proof. split; intros *; rewrite ?lookup_empty; done. Qed.

Lemma table_insert sel calls tbl n t :
  calls !! n = None -> sel (t_kind t) = true -> tbl !! t_pid t = None ->
  table_ok sel calls tbl -> table_ok sel (<[n := t]> calls) (<[t_pid t := t_future t]> tbl).
Proof.
  intros Hn Hs Hp [H1 H2 H3].
  assert (forall m u, calls !! m = Some u -> sel (t_kind u) = true -> t_pid u <> t_pid t) as Hne.
  { intros m u Hu Hsu E. apply (H1 m) in Hu; [|done]. congruence. }
  split.
  - intros m u [[<- <-]|[Hm Hu]]%lookup_insert_Some Hsu; [by rewrite lookup_insert_eq|].
    rewrite lookup_insert_ne by (specialize (Hne m u); intuition congruence). by apply (H1 m).
  - intros m m' u u' [[<- <-]|[Hm Hu]]%lookup_insert_Some [[<- <-]|[Hm' Hu']]%lookup_insert_Some Hsu Hsu' E.
    + done.
    + by destruct (Hne m' u' Hu' Hsu').
    + by destruct (Hne m u Hu Hsu).
    + by eapply H2.
  - intros pid f [[<- <-]|[Hne' Hf]]%lookup_insert_Some.
    + exists n, t. by rewrite lookup_insert_eq.
    + destruct (H3 _ _ Hf) as (m & u & Hm & ? & ?). exists m, u.
      rewrite lookup_insert_ne by congruence. done.
Qed.

Lemma table_insert_other sel calls tbl n t :
  calls !! n = None -> sel (t_kind t) = false ->
  table_ok sel calls tbl -> table_ok sel (<[n := t]> calls) tbl.
Proof.
  intros Hn Hs [H1 H2 H3]. split.
  - intros m u [[<- <-]|[Hm Hu]]%lookup_insert_Some Hsu; [congruence|]. by apply (H1 m).
  - intros m m' u u' [[<- <-]|[Hm Hu]]%lookup_insert_Some [[<- <-]|[Hm' Hu']]%lookup_insert_Some Hsu Hsu' E;
      [congruence..|]. by eapply H2.
  - intros pid f Hf. destruct (H3 _ _ Hf) as (m & u & Hm & ? & ?). exists m, u.
    rewrite lookup_insert_ne by congruence. done.
Qed.

Lemma table_delete sel calls tbl n t :
  calls !! n = Some t -> sel (t_kind t) = true ->
  table_ok sel calls tbl -> table_ok sel (delete n calls) (delete (t_pid t) tbl).
Proof.
  intros Hn Hs [H1 H2 H3]. split.
  - intros m u [Hm Hu]%lookup_delete_Some Hsu. rewrite lookup_delete_ne; [by apply (H1 m)|].
    intros E. destruct Hm. by apply (H2 n m t u).
  - intros m m' u u' [_ Hu]%lookup_delete_Some [_ Hu']%lookup_delete_Some. by apply (H2 m m').
  - intros pid f [Hne Hf]%lookup_delete_Some. destruct (H3 _ _ Hf) as (m & u & Hm & ? & ?).
    exists m, u. rewrite lookup_delete_ne; [done|]. intros ->. congruence.
Qed.

Lemma table_delete_other sel calls tbl n t :
  calls !! n = Some t -> sel (t_kind t) = false ->
  table_ok sel calls tbl -> table_ok sel (delete n calls) tbl.
Proof.
  intros Hn Hs [H1 H2 H3]. split.
  - intros m u [Hm Hu]%lookup_delete_Some. by apply (H1 m).
  - intros m m' u u' [_ Hu]%lookup_delete_Some [_ Hu']%lookup_delete_Some. by apply (H2 m m').
  - intros pid f Hf. destruct (H3 _ _ Hf) as (m & u & Hm & ? & ?). exists m, u.
    rewrite lookup_delete_ne; [done|]. intros ->. congruence.
Qed.
