(* ===== verification/Calls.v ===== *)
(** * Suspended calls, futures and the end of a connection

    The invariant that ties the suspended calls to the tables of the engine: the packet
    identifiers ([Ownership]), the future each call waits for, and the handler that will resolve
    it.  Every interleaving keeps it ([run_events_ok]), which gives that identifiers have one
    owner, that a call only ever gets the acknowledgement of its own exchange, and that no call
    is left hanging when the connection ends. *)

From S2P Require Import Prelude Properties Packets Codec Topic SubscriptionIndex State Engine Inbound Protocol Ownership.

(** ** Who resolves a future *)

Inductive slot : Type :=
| SPubAck (pid : Z)
| SPubComp (pid : Z)
| SSubAck (pid : Z)
| SUnsubAck (pid : Z)
| SPing
| SRequest.

(** The slot a call waits in. *)
Definition slot_of (t : task) : slot :=
  match t_kind t with
  | TPublishQoS1 => SPubAck (t_pid t)
  | TPublishQoS2 => SPubComp (t_pid t)
  | TSubscribe _ _ | TObserve _ | TRestoreObservers _ _ _ => SSubAck (t_pid t)
  | TUnsubscribe _ _ | TUnobserve _ => SUnsubAck (t_pid t)
  | TPing => SPing
  end.

(** The handler of the slot will resolve the future [f]. *)
Definition holds (s : Engine) (sl : slot) (f : nat) : Prop :=
  match sl with
  | SPubAck pid => exists fl, inflight_qos1 (e_state s) !! pid = Some fl /\ q1_future fl = f
  | SPubComp pid => exists fl, inflight_qos2_out (e_state s) !! pid = Some fl /\ q2_future fl = f
  | SSubAck pid => pending_subs (e_state s) !! pid = Some f
  | SUnsubAck pid => pending_unsubs (e_state s) !! pid = Some f
  | SPing => f ∈ e_ping_waiters s
  | SRequest => request_future s f
  end.

(** What the handler of the slot resolves it with. *)
Definition accepts (sl : slot) (v : fut_value) : Prop :=
  match sl, v with
  | SPubAck pid, VPacket (PPubAck p) => a_packet_id p = pid
  | SPubComp pid, VPacket (PPubComp p) => a_packet_id p = pid
  | SSubAck pid, VPacket (PSubAck p) => sa_packet_id p = pid
  | SUnsubAck pid, VPacket (PUnsubAck p) => ua_packet_id p = pid
  | SPing, VNone => True
  | SRequest, VMessage _ => True
  | _, _ => False
  end.

Record linked (calls : gmap nat task) (s : Engine) : Prop := {
  lk_bound : forall sl f, holds s sl f -> (f < e_next_ref s)%nat;
  lk_call : forall n t, calls !! n = Some t -> (t_future t < e_next_ref s)%nat;
  lk_inj : forall n m t u, calls !! n = Some t -> calls !! m = Some u -> t_future t = t_future u -> n = m;
  lk_slot : forall n t sl, calls !! n = Some t -> holds s sl (t_future t) -> sl = slot_of t;
  lk_result : forall n t v, calls !! n = Some t -> fut_state s (t_future t) = FResult v -> accepts (slot_of t) v;
  lk_pending : forall n t, calls !! n = Some t -> fut_state s (t_future t) = FPending ->
    holds s (slot_of t) (t_future t) /\ (is_ping t = true \/ e_dead s = false)
}.

(** The tables shrink, and futures are resolved by their slots. *)
Lemma linked_step calls s s' :
  linked calls s -> (e_next_ref s <= e_next_ref s')%nat ->
  (forall sl f, holds s' sl f -> holds s sl f) ->
  (forall n t, calls !! n = Some t -> fut_state s' (t_future t) = FPending ->
     fut_state s (t_future t) = FPending /\ e_dead s' = e_dead s /\
     (holds s (slot_of t) (t_future t) -> holds s' (slot_of t) (t_future t))) ->
  (forall n t v, calls !! n = Some t -> fut_state s' (t_future t) = FResult v ->
     fut_state s (t_future t) = FResult v \/ accepts (slot_of t) v) ->
  linked calls s'.
Proof.
  intros [H1 H2 H3 H4 H5 H6] Hn Hh Hp Hr. split.
  - intros sl f Hf%Hh%H1. lia.
  - intros n t Ht%H2. lia.
  - done.
  - intros n t sl Ht Hf%Hh. by eapply H4.
  - intros n t v Ht Hv. destruct (Hr n t v Ht Hv) as [Hv'|]; [by eapply H5|done].
  - intros n t Ht Hf. destruct (Hp n t Ht Hf) as (Hf' & -> & Hk). destruct (H6 n t Ht Hf'). auto.
Qed.

Lemma linked_sub calls calls' s : calls' ⊆ calls -> linked calls s -> linked calls' s.
Proof.
  intros Hsub [H1 H2 H3 H4 H5 H6].
  assert (forall n t, calls' !! n = Some t -> calls !! n = Some t) as Hl by (intros; by eapply lookup_weaken).
  split; try done; intros *; try intros Ht%Hl; eauto.
Qed.

(** A future nobody knows yet. *)
Record unused (f : nat) (calls : gmap nat task) (s : Engine) : Prop := {
  un_bound : (f < e_next_ref s)%nat;
  un_state : fut_state s f = FPending;
  un_holds : forall sl, ~ holds s sl f;
  un_calls : forall n t, calls !! n = Some t -> t_future t <> f
}.

(** A new call registers its future. *)
Lemma linked_register calls n t s s' :
  linked calls s -> calls !! n = None -> unused (t_future t) calls s ->
  e_next_ref s' = e_next_ref s -> (forall f, fut_state s' f = fut_state s f) -> e_dead s' = e_dead s ->
  (is_ping t = true \/ e_dead s = false) ->
  (forall sl f, holds s' sl f <-> holds s sl f \/ (sl = slot_of t /\ f = t_future t)) ->
  linked (<[n := t]> calls) s'.
Proof.
  intros [H1 H2 H3 H4 H5 H6] Hn [U1 U2 U3 U4] En Ef Ed Hd Hh. split.
  - intros sl f Hf. rewrite En. apply Hh in Hf as [Hf|[_ ->]]; [by eapply H1|done].
  - intros m u [[<- <-]|[_ Hu]]%lookup_insert_Some; rewrite En; [done|by eapply H2].
  - intros m m' u u' [[<- <-]|[_ Hu]]%lookup_insert_Some [[<- <-]|[_ Hu']]%lookup_insert_Some E; [done|..].
    + by destruct (U4 m' u').
    + by destruct (U4 m u).
    + by eapply H3.
  - intros m u sl [[<- <-]|[_ Hu]]%lookup_insert_Some Hf; apply Hh in Hf as [Hf|[-> E]].
    + by destruct (U3 sl).
    + done.
    + by eapply H4.
    + by destruct (U4 m u).
  - intros m u v [[<- <-]|[_ Hu]]%lookup_insert_Some; rewrite Ef; [congruence|by eapply H5].
  - intros m u [[<- <-]|[_ Hu]]%lookup_insert_Some; rewrite Ef, Ed; intros Hf.
    + split; [apply Hh; by right|done].
    + destruct (H6 m u Hu Hf). split; [apply Hh; by left|done].
Qed.

(** ** The invariant *)

(** [owns held calls s]: identifiers, tables and futures fit the suspended [calls]; [held] is an
    identifier acquired and not yet registered. *)
Record owns (held : option Z) (calls : gmap nat task) (s : Engine) : Prop := {
  ow_ids : holding held (e_state s);
  ow_subs : table_ok waits_suback calls (pending_subs (e_state s));
  ow_unsubs : table_ok waits_unsuback calls (pending_unsubs (e_state s));
  ow_linked : linked calls s
}.
Abbreviation owned := (owns None).

(** What leaves all of this alone. *)
Record frame (s s' : Engine) : Prop := {
  fr_out : outbound_eq (e_state s) (e_state s');
  fr_waiters : e_ping_waiters s' = e_ping_waiters s;
  fr_dead : e_dead s' = e_dead s;
  fr_next : (e_next_ref s <= e_next_ref s')%nat;
  fr_requests : forall f, request_future s' f <-> request_future s f;
  fr_futures : forall f, fut_state s' f = fut_state s f \/ request_future s f
}.

Lemma inbound_frame_frame s s' : inbound_frame s s' -> frame s s'.
Proof. intros []. by split. Qed.

Lemma holds_frame s s' sl f : frame s s' -> holds s' sl f <-> holds s sl f.
Proof.
  intros [[E0 E1 E2 E3 E4] Ew _ _ Er _]. destruct sl; cbn [holds]; rewrite ?E1, ?E2, ?E3, ?E4, ?Ew; done.
Qed.

Lemma slot_of_request t : slot_of t <> SRequest.
Proof. unfold slot_of. by destruct (t_kind t). Qed.

(** The future of a call is not that of a request. *)
Lemma linked_no_request calls s n t : linked calls s -> calls !! n = Some t -> ~ request_future s (t_future t).
Proof. intros Hl Ht Hr. apply (lk_slot _ _ Hl _ _ SRequest Ht) in Hr. by apply (slot_of_request t). Qed.

Lemma linked_frame calls s s' : frame s s' -> linked calls s -> linked calls s'.
Proof.
  intros Hf Hl.
  assert (forall n t, calls !! n = Some t -> fut_state s' (t_future t) = fut_state s (t_future t)) as Hs.
  { intros n t Ht. destruct (fr_futures _ _ Hf (t_future t)) as [|Hr]; [done|].
    by destruct (linked_no_request _ _ _ _ Hl Ht). }
  apply (linked_step calls s); [done|apply Hf|intros sl f; by rewrite (holds_frame s s')|..].
  - intros n t Ht. rewrite (Hs n t Ht). intros Hp. split; [done|]. split; [apply Hf|]. by rewrite (holds_frame s s').
  - intros n t v Ht. rewrite (Hs n t Ht). by left.
Qed.

Lemma owns_frame held calls s s' : frame s s' -> owns held calls s -> owns held calls s'.
Proof.
  intros Hf [H1 H2 H3 H4]. pose proof (fr_out _ _ Hf) as Ho. split.
  - by apply (holding_eq _ (e_state s)).
  - by rewrite (oe_subs _ _ Ho).
  - by rewrite (oe_unsubs _ _ Ho).
  - by apply (linked_frame _ s).
Qed.

(** What a computation does to the calls is nothing. *)
Definition keeps (s s' : Engine) : Prop := forall calls, owned calls s -> owned calls s'.

#[export] Instance keeps_preorder : PreOrder keeps.
Proof. split; unfold keeps; [auto|intros s1 s2 s3; auto]. Qed.

Lemma keeps_frame s s' : frame s s' -> keeps s s'.
Proof. intros H calls. by apply owns_frame. Qed.

Lemma keeps_inbound {A} (m : M A) : preserves inbound_frame m -> preserves keeps m.
Proof. intros H s. apply keeps_frame, inbound_frame_frame, H. Qed.

(** Changes of the other fields. *)
Lemma frame_same s s' :
  outbound_eq (e_state s) (e_state s') -> e_ping_waiters s' = e_ping_waiters s -> e_dead s' = e_dead s ->
  e_next_ref s' = e_next_ref s -> e_dispatcher s' = e_dispatcher s -> e_futures s' = e_futures s -> frame s s'.
Proof.
  intros Ho Ew Ed En Er Ef. split; try done; [lia|..].
  - intros f. unfold request_future. by rewrite Er.
  - intros f. left. unfold fut_state. by rewrite Ef.
Qed.

Ltac frame_other := apply keeps_frame, frame_same; done.

Lemma keeps_modify_index f : preserves keeps (modify_index f).
Proof. apply preserves_modify. intros s. frame_other. Qed.

Lemma keeps_remove_filters fs : preserves keeps (remove_filters fs).
Proof.
  induction fs as [|f fs IH]; cbn [remove_filters]; [preserve|].
  apply preserves_bind; [tc_solve|apply keeps_modify_index|done].
Qed.

Lemma keeps_observe topic : preserves keeps (observe topic).
Proof. intros s. unfold observe. destruct (add_response_observer _ _). frame_other. Qed.
Lemma keeps_unobserve topic : preserves keeps (unobserve topic).
Proof. intros s. unfold unobserve. destruct (remove_response_observer _ _). frame_other. Qed.

#[export] Hint Resolve keeps_modify_index keeps_remove_filters keeps_observe keeps_unobserve : frame.
#[export] Hint Extern 2 (preserves keeps _) => apply keeps_inbound; solve [auto with frame] : frame.
#[export] Hint Extern 3 (preserves keeps (modify _)) => apply preserves_modify; intros ?; frame_other : frame.

Lemma keeps_build_entries filters q auto i acc : preserves keeps (build_entries filters q auto i acc).
Proof. revert acc; induction filters as [|r filters IH]; intros acc; cbn [build_entries]; preserve. Qed.

Lemma keeps_ensure_alive : preserves keeps _ensure_alive.
Proof. unfold _ensure_alive. preserve. Qed.

Lemma keeps_resumed f thrown : preserves keeps (resumed f thrown).
Proof.
  unfold resumed. destruct thrown; [preserve|]. intros s. unfold await_result.
  destruct (fut_state s f); cbn; reflexivity.
Qed.
#[export] Hint Resolve keeps_build_entries keeps_ensure_alive keeps_resumed : frame.

(** ** Acquiring, registering, forgetting *)

Lemma acquire_pid_owns C s :
  owned C s ->
  match acquire_pid s with
  | (Ok pid, s') => owns (Some pid) C s' /\ e_dead s' = e_dead s
  | (Err _, s') => s' = s
  end.
Proof.
  intros [H1 H2 H3 H4]. unfold acquire_pid. destruct (acquire _) as [[pid pool]|e] eqn:E; [|done].
  destruct (holding_acquire _ _ _ H1 E). split; [|done]. split; [done|done|done|].
  eapply (linked_step C s); [done|done|by intros []|by intros|by left].
Qed.

Lemma create_future_owns held C s :
  owns held C s -> let s' := (create_future s).2 in
  owns held C s' /\ unused (e_next_ref s) C s' /\ e_dead s' = e_dead s.
Proof.
  intros [H1 H2 H3 H4]. cbn zeta. assert (e_next_ref (create_future s).2 = S (e_next_ref s)) as En by done.
  assert (forall g, fut_state (create_future s).2 g = if decide (e_next_ref s = g) then FPending else fut_state s g) as Hg.
  { intros g. unfold fut_state. change (e_futures (create_future s).2) with (<[e_next_ref s := FPending]> (e_futures s)).
    case_decide as E; [by rewrite <-E, lookup_insert_eq|by rewrite lookup_insert_ne]. }
  assert (forall n t, C !! n = Some t -> fut_state (create_future s).2 (t_future t) = fut_state s (t_future t)) as Hc.
  { intros n t Ht%(lk_call _ _ H4). rewrite Hg, decide_False by lia. done. }
  split; [|split; [|done]].
  - split; [done|done|done|]. apply (linked_step C s); [done|lia|by intros []|..].
    + intros n t Ht. rewrite (Hc n t Ht). intros Hp. split; [done|]. split; [done|]. by destruct (slot_of t).
    + intros n t v Ht. rewrite (Hc n t Ht). by left.
  - split.
    + lia.
    + by rewrite Hg, decide_True.
    + intros sl Hh. assert (holds s sl (e_next_ref s)) as Hh' by (by destruct sl).
      apply (lk_bound _ _ H4) in Hh'. lia.
    + intros n t Ht%(lk_call _ _ H4). lia.
Qed.

Lemma linked_forget C s s' :
  linked C s -> e_next_ref s' = e_next_ref s -> e_dead s' = e_dead s -> e_futures s' = e_futures s ->
  (forall sl f, holds s' sl f -> holds s sl f) ->
  (forall n t, C !! n = Some t -> holds s (slot_of t) (t_future t) -> holds s' (slot_of t) (t_future t)) ->
  linked C s'.
Proof.
  intros Hl En Ed Ef Hh Hk. assert (forall f, fut_state s' f = fut_state s f) as Hs
    by (intros f; unfold fut_state; by rewrite Ef).
  apply (linked_step C s); [done|lia|done|..].
  - intros n t Ht. rewrite Hs. intros Hp. split; [done|]. split; [done|]. by apply (Hk n).
  - intros n t v Ht. rewrite Hs. by left.
Qed.

Lemma forget_sub_eq pid s :
  forget_sub pid s = (Ok tt, set_e_state
    (set_packet_ids (release (packet_ids (e_state s)) pid)
      (set_pending_subs (delete pid (pending_subs (e_state s))) (e_state s))) s).
Proof. reflexivity. Qed.

Lemma forget_sub_owned C n t s :
  C !! n = Some t -> waits_suback (t_kind t) = true -> owned C s ->
  owned (delete n C) (forget_sub (t_pid t) s).2.
Proof.
  intros Hn Hk [H1 H2 H3 H4]. pose proof (tb_held _ _ _ H2 _ _ Hn Hk) as Hl.
  assert (waits_unsuback (t_kind t) = false) as Hk' by (destruct (t_kind t); done).
  rewrite forget_sub_eq. split; cbn [snd].
  - eapply (holding_release (set_pending_subs _ _) (t_pid t)), holding_del_sub; done.
  - by apply table_delete.
  - by eapply table_delete_other.
  - apply (linked_forget _ s); [by eapply linked_sub; [apply delete_subseteq|]|done..| |].
    + intros [] f; cbn; try done. by intros [_ ?]%lookup_delete_Some.
    + intros m u [Hne Hu]%lookup_delete_Some. destruct u as [k pid f]; destruct k; cbn; try done;
        intros Hp; rewrite lookup_delete_ne; try done; intros E; destruct Hne; by eapply (tb_inj _ _ _ H2).
Qed.

Lemma forget_unsub_eq pid s :
  forget_unsub pid s = (Ok tt, set_e_state
    (set_packet_ids (release (packet_ids (e_state s)) pid)
      (set_pending_unsubs (delete pid (pending_unsubs (e_state s))) (e_state s))) s).
Proof. reflexivity. Qed.

Lemma forget_unsub_owned C n t s :
  C !! n = Some t -> waits_unsuback (t_kind t) = true -> owned C s ->
  owned (delete n C) (forget_unsub (t_pid t) s).2.
Proof.
  intros Hn Hk [H1 H2 H3 H4]. pose proof (tb_held _ _ _ H3 _ _ Hn Hk) as Hl.
  assert (waits_suback (t_kind t) = false) as Hk' by (destruct (t_kind t); done).
  rewrite forget_unsub_eq. split; cbn [snd].
  - eapply (holding_release (set_pending_unsubs _ _) (t_pid t)), holding_del_unsub; done.
  - by eapply table_delete_other.
  - by apply table_delete.
  - apply (linked_forget _ s); [by eapply linked_sub; [apply delete_subseteq|]|done..| |].
    + intros [] f; cbn; try done. by intros [_ ?]%lookup_delete_Some.
    + intros m u [Hne Hu]%lookup_delete_Some. destruct u as [k pid f]; destruct k; cbn; try done;
        intros Hp; rewrite lookup_delete_ne; try done; intros E; destruct Hne; by eapply (tb_inj _ _ _ H3).
Qed.

(** Registering the future of a call in one table. *)
Lemma register_linked C n t s st :
  C !! n = None -> linked C s -> unused (t_future t) C s -> e_dead s = false ->
  (forall sl f, holds (set_e_state st s) sl f <-> holds s sl f \/ (sl = slot_of t /\ f = t_future t)) ->
  linked (<[n := t]> C) (set_e_state st s).
Proof. intros Hn Hl Hu Hd Hh. apply (linked_register _ _ _ s); try done. by right. Qed.

Ltac register_holds E :=
  intros [q|q|q|q| |] g; cbn;
  try (split; [by left|intros [?|[? ?]]; [assumption|discriminate]]);
  match goal with |- context [<[?i := _]> _ !! q] => destruct (decide (i = q)) as [<-|Hne] end;
  rewrite ?lookup_insert_eq, ?lookup_insert_ne, ?E by done; naive_solver.

Lemma register_q1_owned C n pid f p s :
  C !! n = None -> owns (Some pid) C s -> unused f C s -> e_dead s = false ->
  owned (<[n := mkTask TPublishQoS1 pid f]> C)
    (set_e_state (set_inflight_qos1 (<[pid := mkQoS1Flight pid p f]> (inflight_qos1 (e_state s))) (e_state s)) s).
Proof.
  intros Hn [H1 H2 H3 H4] Hu Hd. destruct (holding_free _ _ H1) as (E & _).
  split; [by apply holding_q1|by apply table_insert_other..|apply register_linked; try done].
  register_holds E.
Qed.

Lemma register_q2_owned C n pid f p s :
  C !! n = None -> owns (Some pid) C s -> unused f C s -> e_dead s = false ->
  owned (<[n := mkTask TPublishQoS2 pid f]> C)
    (set_e_state (set_inflight_qos2_out (<[pid := mkQoS2Flight pid p PENDING_PUBREC f]>
      (inflight_qos2_out (e_state s))) (e_state s)) s).
Proof.
  intros Hn [H1 H2 H3 H4] Hu Hd. destruct (holding_free _ _ H1) as (_ & E & _).
  split; [by apply holding_q2|by apply table_insert_other..|apply register_linked; try done].
  register_holds E.
Qed.

Lemma slot_suback t : waits_suback (t_kind t) = true -> slot_of t = SSubAck (t_pid t).
Proof. unfold slot_of. by destruct (t_kind t). Qed.
Lemma slot_unsuback t : waits_unsuback (t_kind t) = true -> slot_of t = SUnsubAck (t_pid t).
Proof. unfold slot_of. by destruct (t_kind t). Qed.

Lemma register_sub_owned C n t s :
  C !! n = None -> waits_suback (t_kind t) = true -> owns (Some (t_pid t)) C s ->
  unused (t_future t) C s -> e_dead s = false ->
  owned (<[n := t]> C)
    (set_e_state (set_pending_subs (<[t_pid t := t_future t]> (pending_subs (e_state s))) (e_state s)) s).
Proof.
  intros Hn Hk [H1 H2 H3 H4] Hu Hd. destruct (holding_free _ _ H1) as (_ & _ & E & _).
  assert (waits_unsuback (t_kind t) = false) as Hk' by (destruct (t_kind t); done).
  split; [by apply holding_sub|by apply table_insert|by apply table_insert_other|apply register_linked; try done].
  rewrite slot_suback by done. register_holds E.
Qed.

Lemma register_unsub_owned C n t s :
  C !! n = None -> waits_unsuback (t_kind t) = true -> owns (Some (t_pid t)) C s ->
  unused (t_future t) C s -> e_dead s = false ->
  owned (<[n := t]> C)
    (set_e_state (set_pending_unsubs (<[t_pid t := t_future t]> (pending_unsubs (e_state s))) (e_state s)) s).
Proof.
  intros Hn Hk [H1 H2 H3 H4] Hu Hd. destruct (holding_free _ _ H1) as (_ & _ & _ & E).
  assert (waits_suback (t_kind t) = false) as Hk' by (destruct (t_kind t); done).
  split; [by apply holding_unsub|by apply table_insert_other|by apply table_insert|apply register_linked; try done].
  rewrite slot_unsuback by done. register_holds E.
Qed.

Lemma owned_delete_other C n t s :
  C !! n = Some t -> waits_suback (t_kind t) = false -> waits_unsuback (t_kind t) = false ->
  owned C s -> owned (delete n C) s.
Proof.
  intros Hn Hs Hu [H1 H2 H3 H4]. split; [done|by eapply table_delete_other..|].
  eapply linked_sub; [apply delete_subseteq|done].
Qed.

(** A call that was never registered. *)
Lemma owned_undo C n t s :
  C !! n = None -> waits_suback (t_kind t) = false -> waits_unsuback (t_kind t) = false ->
  owned (<[n := t]> C) s -> owned C s.
Proof.
  intros Hn Hs Hu Ho. rewrite <-(delete_insert_id C n t) by done.
  by eapply owned_delete_other; [apply lookup_insert_eq|..].
Qed.

(** ** The pieces of a call *)

(** The outcome of a piece of the call [n], the other suspended calls being [C]. *)
Definition outcome (n : nat) (C : gmap nat task) (p : res progress * Engine) : Prop :=
  match p.1 with
  | Ok (Suspended t) => owned (<[n := t]> C) p.2
  | _ => owned C p.2
  end.

Definition starts (m : M progress) : Prop :=
  forall n C s, C !! n = None -> owned C s -> outcome n C (m s).

Lemma starts_returned v : starts (mret (Returned v)).
Proof. by intros n C s. Qed.

Lemma starts_throw e : starts (throw e).
Proof. by intros n C s. Qed.

Lemma starts_bind {A} (m : M A) f : preserves keeps m -> (forall a, starts (f a)) -> starts (x ← m; f x).
Proof.
  intros Hm Hf n C s Hn Ho. specialize (Hm s C Ho). unfold mbind, M_bind.
  destruct (m s) as [[a|e] s']; cbn in *; [by apply Hf|done].
Qed.

Tactic Notation "starts_step" simple_intropattern(x) :=
  apply starts_bind; [preserve|]; intros x; cbv beta.

(** A call whose future is registered sends its packet and waits. *)
Lemma send_outcome n C t (m : M unit) s :
  C !! n = None -> waits_suback (t_kind t) = false -> waits_unsuback (t_kind t) = false ->
  preserves keeps m -> owned (<[n := t]> C) s -> outcome n C ((_ ← m; mret (Suspended t)) s).
Proof.
  intros Hn Hs Hu Hm Ho. specialize (Hm s _ Ho). unfold outcome, mbind, M_bind.
  destruct (m s) as [[a|e] s']; cbn in *; [done|]. by eapply owned_undo.
Qed.

(** What [_send_subscribe] and [_send_unsubscribe] yield to the call that waits. *)
Definition begins (sel : task_kind -> bool) (m : M (Z * nat)) : Prop :=
  forall n C s, C !! n = None -> owned C s ->
  match m s with
  | (Ok (pid, f), s') => forall k, sel k = true -> owned (<[n := mkTask k pid f]> C) s'
  | (Err _, s') => owned C s'
  end.

Lemma ensure_alive_eq s :
  _ensure_alive s = (if e_dead s then Err (MQTTDisconnectedError "Connection lost") else Ok tt, s).
Proof. unfold _ensure_alive, mbind, M_bind. cbn [asks]. by destruct (e_dead s). Qed.

Lemma exchange_begins sel k0 (upd : Z -> nat -> SessionState -> SessionState) packet forget :
  sel k0 = true ->
  (forall C n t s, C !! n = None -> sel (t_kind t) = true -> owns (Some (t_pid t)) C s ->
     unused (t_future t) C s -> e_dead s = false ->
     owned (<[n := t]> C) (set_e_state (upd (t_pid t) (t_future t) (e_state s)) s)) ->
  (forall C n t s, C !! n = Some t -> sel (t_kind t) = true -> owned C s ->
     owned (delete n C) (forget (t_pid t) s).2) ->
  begins sel
    (_ ← _ensure_alive;
     pid ← acquire_pid;
     future ← create_future;
     _ ← modify_state (upd pid future);
     on_error (_ ← send_packet (packet pid); mret (pid, future)) (forget pid)).
Proof.
  intros Hk0 Hreg Hfor n C s Hn Ho. unfold mbind at 1, M_bind at 1. rewrite ensure_alive_eq.
  destruct (e_dead s) eqn:Hd; [done|].
  pose proof (acquire_pid_owns _ _ Ho) as Ha.
  unfold mbind at 1, M_bind at 1. destruct (acquire_pid s) as [[pid|e] s1]; [|by subst].
  destruct Ha as [Ha Ed]. destruct (create_future_owns _ _ _ Ha) as (Hf & Hu & Ed').
  unfold mbind at 1, M_bind at 1.
  change (create_future s1) with (@Ok nat (e_next_ref s1), (create_future s1).2). cbv iota beta.
  set (f := e_next_ref s1) in *. set (s2 := (create_future s1).2) in *.
  unfold mbind at 1, M_bind at 1. cbn [modify_state modify].
  set (s3 := set_e_state _ s2).
  assert (forall k, sel k = true -> owned (<[n := mkTask k pid f]> C) s3) as Hr
    by (intros k Hk; apply (Hreg C n (mkTask k pid f)); try done; congruence).
  unfold on_error, mbind, M_bind.
  pose proof (keeps_inbound _ (frame_send_packet (packet pid)) s3) as Hk.
  destruct (send_packet _ s3) as [[[]|e] s4]; cbn [snd mret M_ret] in *.
  - intros k Hw. apply Hk, Hr, Hw.
  - specialize (Hfor _ n (mkTask k0 pid f) s4 (lookup_insert_eq C _ _) Hk0 (Hk _ (Hr _ Hk0))).
    rewrite delete_insert_id in Hfor by done. cbn [t_pid] in Hfor.
    by destruct (forget pid s4) as [[|] s5].
Qed.

Lemma send_subscribe_begins fs i : begins waits_suback (send_subscribe_begin fs i).
Proof.
  unfold send_subscribe_begin. apply (exchange_begins _ (TObserve []) (fun pid f st => set_pending_subs (<[pid := f]> (pending_subs st)) st)
    (fun pid => PSubscribe (mkSubscribe pid fs _)));
    [done|apply register_sub_owned|apply forget_sub_owned].
Qed.

Lemma send_unsubscribe_begins fs : begins waits_unsuback (send_unsubscribe_begin fs).
Proof.
  unfold send_unsubscribe_begin. apply (exchange_begins _ (TUnobserve []) (fun pid f st => set_pending_unsubs (<[pid := f]> (pending_unsubs st)) st)
    (fun pid => PUnsubscribe (mkUnsubscribe pid fs None)));
    [done|apply register_unsub_owned|apply forget_unsub_owned].
Qed.

Lemma begins_on_error sel m fin : begins sel m -> preserves keeps fin -> begins sel (on_error m fin).
Proof.
  intros Hm Hf n C s Hn Ho. specialize (Hm n C s Hn Ho). unfold on_error.
  destruct (m s) as [[[pid f]|e] s']; [done|]. specialize (Hf s').
  destruct (fin s') as [[|] s'']; by apply Hf.
Qed.

Lemma starts_begins sel m (k : task_kind) :
  begins sel m -> sel k = true -> starts ('(pid, f) ← m; mret (Suspended (mkTask k pid f))).
Proof.
  intros Hm Hk n C s Hn Ho. specialize (Hm n C s Hn Ho). unfold mbind, M_bind.
  destruct (m s) as [[[pid f]|e] s']; [by apply Hm|done].
Qed.

Lemma keeps_discard {A} (m : M A) : preserves keeps m -> preserves keeps (_ ← m; mret tt).
Proof. intros H. preserve. Qed.

Lemma publish_starts p : starts (publish_begin p).
Proof.
  intros n C s Hn Ho. unfold publish_begin. unfold mbind at 1, M_bind at 1. rewrite ensure_alive_eq.
  destruct (e_dead s) eqn:Hd; [done|]. unfold mbind at 1, M_bind at 1. cbn [asks].
  destruct (_ <? _); [done|]. unfold mbind at 1, M_bind at 1. cbn [asks].
  destruct (_ && _); [done|]. destruct (p_qos p).
  - refine (starts_bind _ _ _ _ n C s Hn Ho); [preserve|]. intros _. apply starts_returned.
  - pose proof (acquire_pid_owns _ _ Ho) as Ha. unfold mbind at 1, M_bind at 1.
    destruct (acquire_pid s) as [[pid|e] s1]; [|by subst]. destruct Ha as [Ha Ed].
    destruct (create_future_owns _ _ _ Ha) as (Hf & Hu & Ed').
    apply (send_outcome n C (mkTask TPublishQoS1 pid (e_next_ref s1)) (send_packet _)); [done..|preserve|].
    apply (register_q1_owned _ _ _ _ _ (create_future s1).2); try done. congruence.
  - pose proof (acquire_pid_owns _ _ Ho) as Ha. unfold mbind at 1, M_bind at 1.
    destruct (acquire_pid s) as [[pid|e] s1]; [|by subst]. destruct Ha as [Ha Ed].
    destruct (create_future_owns _ _ _ Ha) as (Hf & Hu & Ed').
    apply (send_outcome n C (mkTask TPublishQoS2 pid (e_next_ref s1)) (send_packet _)); [done..|preserve|].
    apply (register_q2_owned _ _ _ _ _ (create_future s1).2); try done. congruence.
Qed.

Lemma subscribe_starts fs q auto i : starts (subscribe_begin fs q auto i).
Proof.
  unfold subscribe_begin. starts_step entries. starts_step _.
  apply (starts_begins waits_suback _ (TSubscribe fs (keys entries))); [|done].
  apply begins_on_error; [apply send_subscribe_begins|auto with frame].
Qed.

Lemma observe_starts topic : starts (add_response_observer_begin topic).
Proof.
  unfold add_response_observer_begin. starts_step _. starts_step added.
  case_match; [apply starts_returned|]. starts_step known. case_match; [apply starts_returned|].
  apply (starts_begins waits_suback _ (TObserve topic)); [|done].
  apply begins_on_error; [apply send_subscribe_begins|apply keeps_discard; auto with frame].
Qed.

Lemma unobserve_starts topic : starts (remove_response_observer_begin topic).
Proof.
  unfold remove_response_observer_begin. starts_step removed. case_match; [apply starts_returned|].
  starts_step known. starts_step dead. case_match; [apply starts_returned|].
  apply (starts_begins waits_unsuback _ (TUnobserve topic)); [apply send_unsubscribe_begins|done].
Qed.

Lemma restore_starts broker observed acknowledged : starts (restore_begin broker observed acknowledged).
Proof.
  unfold restore_begin. destruct observed as [|f fs]; [apply starts_returned|]. intros n C s Hn Ho.
  pose proof (send_subscribe_begins (map observer_request (f :: fs)) None n C s Hn Ho) as H.
  destruct (send_subscribe_begin _ _ s) as [[[pid g]|e] s']; [by apply H|done].
Qed.

Lemma unsubscribe_starts fs : starts (unsubscribe_begin fs).
Proof.
  unfold unsubscribe_begin. starts_step _. starts_step idx. starts_step _. case_match; [apply restore_starts|].
  apply (starts_begins waits_unsuback _ (TUnsubscribe _ _)); [apply send_unsubscribe_begins|done].
Qed.

Lemma register_ping_owned C n f s :
  C !! n = None -> owned C s -> unused f C s ->
  owned (<[n := mkTask TPing 0 f]> C) (set_e_ping_waiters (e_ping_waiters s ++ [f]) s).
Proof.
  intros Hn [H1 H2 H3 H4] Hu. split; [done|by apply table_insert_other..|].
  apply (linked_register _ _ _ s); try done; [by left|].
  intros [q|q|q|q| |] g; cbn; try (split; [by left|intros [?|[? ?]]; [assumption|discriminate]]).
  rewrite elem_of_app, list_elem_of_singleton. naive_solver.
Qed.

Lemma ping_starts : starts ping_begin.
Proof.
  intros n C s Hn Ho. destruct (create_future_owns _ _ _ Ho) as (Hf & Hu & _).
  apply (send_outcome n C (mkTask TPing 0 (e_next_ref s)) (send_packet _)); [done..|preserve|].
  by apply register_ping_owned.
Qed.

(** ** Resuming a call *)

Lemma send_subscribe_finish_owned C n t fs thrown s :
  C !! n = Some t -> waits_suback (t_kind t) = true -> owned C s ->
  owned (delete n C) (send_subscribe_finish fs (t_pid t) (t_future t) thrown s).2.
Proof.
  intros Hn Hk Ho. unfold send_subscribe_finish, try_finally.
  match goal with |- context [let '(r, s') := ?m s in _] =>
    assert (preserves keeps m) as Hm by (unfold as_suback; preserve); specialize (Hm s C Ho);
    destruct (m s) as [r s'] end.
  pose proof (forget_sub_owned _ _ _ s' Hn Hk Hm) as H.
  by destruct (forget_sub _ s') as [[|] s''].
Qed.

Lemma send_unsubscribe_finish_owned C n t thrown s :
  C !! n = Some t -> waits_unsuback (t_kind t) = true -> owned C s ->
  owned (delete n C) (send_unsubscribe_finish (t_pid t) (t_future t) thrown s).2.
Proof.
  intros Hn Hk Ho. unfold send_unsubscribe_finish, try_finally.
  match goal with |- context [let '(r, s') := ?m s in _] =>
    assert (preserves keeps m) as Hm by (unfold as_unsuback; preserve); specialize (Hm s C Ho);
    destruct (m s) as [r s'] end.
  pose proof (forget_unsub_owned _ _ _ s' Hn Hk Hm) as H.
  by destruct (forget_unsub _ s') as [[|] s''].
Qed.

(** After the acknowledged part, the call goes on as [g]. *)
Lemma outcome_bind {A} n C (m : M A) g s :
  C !! n = None -> owned C (m s).2 -> (forall a, starts (g a)) -> outcome n C ((x ← m; g x) s).
Proof.
  intros Hn Ho Hg. unfold mbind, M_bind. destruct (m s) as [[a|e] s']; [by apply Hg|done].
Qed.

Lemma on_error_owned {A} C (m : M A) fin s :
  owned C (m s).2 -> preserves keeps fin -> owned C (on_error m fin s).2.
Proof.
  intros Ho Hf. unfold on_error. destruct (m s) as [[a|e] s']; [done|].
  specialize (Hf s' C Ho). by destruct (fin s') as [[|] s''].
Qed.

Lemma elem_remove_first f g l : g ∈ remove_first f l -> g ∈ l.
Proof.
  induction l as [|h l IH]; cbn [remove_first]; [done|]. case_match; rewrite ?elem_of_cons; naive_solver.
Qed.
Lemma elem_remove_first_ne f g l : g <> f -> g ∈ l -> g ∈ remove_first f l.
Proof.
  intros Hne. induction l as [|h l IH]; cbn [remove_first]; [done|]. intros [->|Hg]%elem_of_cons.
  - rewrite (proj2 (Nat.eqb_neq h f)) by done. apply elem_of_cons. by left.
  - case_match; [done|]. apply elem_of_cons. right. auto.
Qed.

Lemma ping_finish_owned C n t thrown s :
  C !! n = Some t -> t_kind t = TPing -> owned C s ->
  outcome n (delete n C) (ping_finish (t_future t) thrown s).
Proof.
  intros Hn Hk Ho. assert (owned (delete n C) s) as Hd by (eapply owned_delete_other; try done; by rewrite Hk).
  assert (starts (_ ← resumed (t_future t) thrown; mret (Returned RNone))) as Hs
    by (starts_step _; apply starts_returned).
  specialize (Hs n _ s (lookup_delete_eq _ _) Hd). unfold ping_finish.
  destruct thrown as [[]|]; try exact Hs. unfold mbind, M_bind. cbn [asks].
  destruct (bool_decide_reflect (t_future t ∈ e_ping_waiters s)); [|exact Hd]. cbn [modify].
  destruct Hd as [H1 H2 H3 H4]. split; [done..|].
  apply (linked_forget _ s); [done..| |].
  - intros [] f; cbn; try done. apply elem_remove_first.
  - intros m u [Hne Hu]%lookup_delete_Some. destruct (slot_of u) eqn:Es; cbn; try done.
    apply elem_remove_first_ne. intros E. destruct Hne. by eapply (lk_inj _ _ (ow_linked _ _ _ Ho)).
Qed.

(** Resuming a suspended call: its own exchange is over. *)
Lemma task_finish_owned C n t thrown s :
  C !! n = Some t -> owned C s -> outcome n (delete n C) (task_finish t thrown s).
Proof.
  intros Hn Ho. assert (delete n C !! n = None) as Hd by apply lookup_delete_eq.
  destruct t as [kind pid f]. destruct kind eqn:Ek; cbn [task_finish].
  - apply (owned_delete_other _ _ _ _ Hn eq_refl eq_refl) in Ho.
    refine (starts_bind _ _ _ _ n _ s Hd Ho); [auto with frame|]. intros v.
    destruct v as [p| |]; [destruct p|..]; try apply starts_throw. starts_step _. apply starts_returned.
  - apply (owned_delete_other _ _ _ _ Hn eq_refl eq_refl) in Ho.
    refine (starts_bind _ _ _ _ n _ s Hd Ho); [auto with frame|]. intros v.
    destruct v as [p| |]; [destruct p|..]; try apply starts_throw. apply starts_returned.
  - pose proof (send_subscribe_finish_owned _ _ _ filters thrown _ Hn eq_refl Ho) as H.
    apply outcome_bind; [done|apply on_error_owned; [done|auto with frame]|].
    intros p. apply starts_returned.
  - pose proof (send_subscribe_finish_owned _ _ _ [observer_request topic] thrown _ Hn eq_refl Ho) as H.
    apply outcome_bind; [done|apply on_error_owned; [done|apply keeps_discard; auto with frame]|].
    intros p. apply starts_returned.
  - pose proof (send_unsubscribe_finish_owned _ _ _ thrown _ Hn eq_refl Ho) as H.
    apply outcome_bind; [done|done|]. intros p. apply restore_starts.
  - pose proof (send_subscribe_finish_owned _ _ _ filters thrown _ Hn eq_refl Ho) as H.
    cbn [t_pid t_future] in H. unfold outcome.
    destruct (send_subscribe_finish filters pid f thrown s) as [[a|e] s']; [done|]. by destruct (is_exception e).
  - pose proof (send_unsubscribe_finish_owned _ _ _ thrown _ Hn eq_refl Ho) as H.
    apply outcome_bind; [done|done|]. intros p. apply starts_returned.
  - by apply (ping_finish_owned C n (mkTask TPing pid f)).
Qed.

(** ** The packet handlers *)

(** [if not f.done()]: resolve [f] with [st]. *)
Definition settled (f : nat) (st : FutState) (s : Engine) : Engine :=
  if fut_done (fut_state s f) then s else set_e_futures (<[f := st]> (e_futures s)) s.

Lemma unless_done_eq f st s : unless_done f (resolve f st) s = (Ok tt, settled f st s).
Proof.
  unfold unless_done, is_done, settled, resolve, mbind, M_bind. cbn [asks].
  by destruct (fut_done (fut_state s f)) eqn:E; [|rewrite E].
Qed.

Lemma fut_state_insert f g st s :
  fut_state (set_e_futures (<[f := st]> (e_futures s)) s) g = if decide (f = g) then st else fut_state s g.
Proof.
  unfold fut_state. cbn [e_futures set_e_futures].
  case_decide as E; [by rewrite E, lookup_insert_eq|by rewrite lookup_insert_ne].
Qed.

Lemma fut_state_settled f g st s :
  fut_state (settled f st s) g =
    if decide (f = g) then (if fut_done (fut_state s f) then fut_state s f else st) else fut_state s g.
Proof.
  unfold settled. destruct (fut_done (fut_state s f)) eqn:E; [case_decide; congruence|].
  apply fut_state_insert.
Qed.

Lemma settled_same f st s :
  e_state (settled f st s) = e_state s /\ e_ping_waiters (settled f st s) = e_ping_waiters s /\
  e_dead (settled f st s) = e_dead s /\ e_next_ref (settled f st s) = e_next_ref s /\
  e_dispatcher (settled f st s) = e_dispatcher s.
Proof. unfold settled. by destruct (fut_done (fut_state s f)). Qed.

(** Resolving the future of a slot, which may be taken out of its table. *)
Lemma linked_settle C s s1 sl f st :
  linked C s -> holds s sl f -> fut_done st = true ->
  (forall v, st = FResult v -> accepts sl v) ->
  e_next_ref s1 = e_next_ref s -> e_dead s1 = e_dead s -> e_futures s1 = e_futures s ->
  (forall sl' g, holds s1 sl' g -> holds s sl' g) ->
  (forall sl' g, g <> f -> holds s sl' g -> holds s1 sl' g) ->
  linked C (settled f st s1).
Proof.
  intros Hl Hf Hd Ha En Ed Ef Hh Hk.
  assert (forall g, fut_state s1 g = fut_state s g) as Hs by (intros g; unfold fut_state; by rewrite Ef).
  destruct (settled_same f st s1) as (E1 & E2 & E3 & E4 & E5).
  assert (forall sl' g, holds (settled f st s1) sl' g <-> holds s1 sl' g) as Hse.
  { intros [] g; cbn [holds]; unfold request_future; rewrite ?E1, ?E2, ?E5; done. }
  apply (linked_step C s); [done|lia|intros sl' g Hg; by apply Hh, Hse|..].
  - intros n t Ht. rewrite fut_state_settled, !Hs. case_decide as E.
    + subst f. destruct (fut_state s (t_future t)) eqn:Est; cbn [fut_done]; try congruence.
      intros ->. discriminate Hd.
    + intros Hp. split; [done|]. split; [congruence|]. intros Hg. apply Hse, Hk; [congruence|done].
  - intros n t v Ht. rewrite fut_state_settled, !Hs. case_decide as E; [|by left].
    subst f. destruct (fut_done (fut_state s (t_future t))); [by left|]. intros ->. right.
    rewrite <-(lk_slot _ _ Hl _ _ _ Ht Hf). by apply Ha.
Qed.

Lemma keeps_puback p : preserves keeps (_handle_puback p).
Proof.
  intros s C [H1 H2 H3 H4]. unfold _handle_puback, ask_state, set_result. set (pid := a_packet_id p).
  unfold mbind at 1, M_bind at 1. cbn [asks].
  destruct (inflight_qos1 (e_state s) !! pid) as [fl|] eqn:E; [|by split].
  unfold mbind, M_bind. cbn [modify_state modify release_pid]. rewrite unless_done_eq. cbn [snd].
  match goal with |- owned C (settled ?f ?st ?x) => destruct (settled_same f st x) as (E1 & _); set (s1 := x) in * end.
  split; rewrite ?E1; cbn.
  - eapply (holding_release (set_inflight_qos1 _ _) pid), holding_del_q1; done.
  - done.
  - done.
  - apply (linked_settle C s s1 (SPubAck pid)); [done|by exists fl|done| |done..| |].
    + by intros v [= <-].
    + intros [] g; cbn; try done. intros (fl' & [_ Hl]%lookup_delete_Some & <-). by exists fl'.
    + intros [q|q|q|q| |] g Hg; cbn; try done. intros (fl' & Hl & <-). exists fl'. split; [|done].
      rewrite lookup_delete_ne; [done|]. intros <-. congruence.
Qed.

Lemma end_q2_owned C s pid fl st :
  owned C s -> inflight_qos2_out (e_state s) !! pid = Some fl -> fut_done st = true ->
  (forall v, st = FResult v -> accepts (SPubComp pid) v) ->
  let s1 := set_e_state (set_inflight_qos2_out (delete pid (inflight_qos2_out (e_state s))) (e_state s)) s in
  owned C (settled (q2_future fl) st (release_pid pid s1).2).
Proof.
  intros [H1 H2 H3 H4] E Hst Ha s1. cbn [release_pid modify_state modify snd].
  match goal with |- owned C (settled ?f ?st ?x) => destruct (settled_same f st x) as (E1 & _); set (s2 := x) in * end.
  split; rewrite ?E1; cbn.
  - eapply (holding_release (set_inflight_qos2_out _ _) pid), holding_del_q2; done.
  - done.
  - done.
  - apply (linked_settle C s s2 (SPubComp pid)); [done|by exists fl|done..| |].
    + intros [] g; cbn; try done. intros (fl' & [_ Hl]%lookup_delete_Some & <-). by exists fl'.
    + intros [q|q|q|q| |] g Hg; cbn; try done. intros (fl' & Hl & <-). exists fl'. split; [|done].
      rewrite lookup_delete_ne; [done|]. intros <-. congruence.
Qed.

Lemma keeps_pubcomp p : preserves keeps (_handle_pubcomp p).
Proof.
  intros s C Ho. unfold _handle_pubcomp, ask_state, set_result. set (pid := a_packet_id p).
  unfold mbind at 1, M_bind at 1. cbn [asks].
  destruct (inflight_qos2_out (e_state s) !! pid) as [fl|] eqn:E; [|done].
  unfold mbind, M_bind. cbn [modify_state modify release_pid]. rewrite unless_done_eq. cbn [snd].
  apply (end_q2_owned C s pid fl); [done..|]. by intros v [= <-].
Qed.

Lemma keeps_pubrec p : preserves keeps (_handle_pubrec p).
Proof.
  intros s C Ho. unfold _handle_pubrec, ask_state, set_exception. set (pid := a_packet_id p).
  unfold mbind at 1, M_bind at 1. cbn [asks].
  destruct (inflight_qos2_out (e_state s) !! pid) as [fl|] eqn:E; [|done].
  case_decide; [|done]. case_match.
  - unfold mbind, M_bind. cbn [modify_state modify release_pid]. rewrite unless_done_eq. cbn [snd].
    apply (end_q2_owned C s pid fl); try done.
  - unfold mbind, M_bind. cbn [modify_state modify]. apply (keeps_inbound _ (frame_send_packet _)).
    destruct Ho as [H1 H2 H3 H4]. split; cbn; [by eapply holding_q2_update|done|done|].
    apply (linked_forget C s); try done.
    + intros [q|q|q|q| |] g; cbn; try done. intros (fl' & [[<- <-]|[_ Hl]]%lookup_insert_Some & <-); eauto.
    + intros n t Ht. destruct (slot_of t) as [q|q|q|q| |]; cbn; try done. intros (fl' & Hl & <-).
      destruct (decide (pid = q)) as [<-|Hne]; [|exists fl'; by rewrite lookup_insert_ne].
      eexists. rewrite lookup_insert_eq. split; [done|]. cbn. congruence.
Qed.

(** SUBACK and UNSUBACK do not look whether the future is done. *)
Lemma keeps_set_result sl f v s C :
  owned C s -> holds s sl f -> accepts sl v -> owned C (set_result f v s).2.
Proof.
  intros [H1 H2 H3 H4] Hf Ha. unfold set_result, resolve.
  destruct (fut_done (fut_state s f)) eqn:E; [by split|]. cbn [snd]. split; [done..|].
  pose proof (linked_settle C s s sl f (FResult v) H4 Hf eq_refl) as Hl. unfold settled in Hl. rewrite E in Hl.
  apply Hl; try done. congruence.
Qed.

Lemma keeps_suback p : preserves keeps (_handle_suback p).
Proof.
  intros s C Ho. unfold _handle_suback, ask_state. unfold mbind, M_bind. cbn [asks].
  destruct (pending_subs (e_state s) !! sa_packet_id p) as [f|] eqn:E; [|done].
  by apply (keeps_set_result (SSubAck (sa_packet_id p))).
Qed.

Lemma keeps_unsuback p : preserves keeps (_handle_unsuback p).
Proof.
  intros s C Ho. unfold _handle_unsuback, ask_state. unfold mbind, M_bind. cbn [asks].
  destruct (pending_unsubs (e_state s) !! ua_packet_id p) as [f|] eqn:E; [|done].
  by apply (keeps_set_result (SUnsubAck (ua_packet_id p))).
Qed.

Lemma keeps_pingresp : preserves keeps _handle_pingresp.
Proof.
  intros s C [H1 H2 H3 H4]. unfold _handle_pingresp, set_result. unfold mbind, M_bind. cbn [asks].
  destruct (e_ping_waiters s) as [|f rest] eqn:E; [by split|]. cbn [modify]. rewrite unless_done_eq. cbn [snd].
  match goal with |- owned C (settled ?f ?st ?x) => destruct (settled_same f st x) as (E1 & _); set (s1 := x) in * end.
  split; rewrite ?E1; [done..|].
  apply (linked_settle C s s1 SPing); [done|cbn; rewrite E; by left|done| |done..| |].
  - by intros v [= <-].
  - intros [] g; cbn; try done. rewrite E. by right.
  - intros [] g Hg; cbn; try done. rewrite E. by intros [->|]%elem_of_cons.
Qed.
#[export] Hint Resolve keeps_puback keeps_pubcomp keeps_pubrec keeps_suback keeps_unsuback keeps_pingresp : frame.

Lemma keeps_dispatch p : preserves keeps (_dispatch p).
Proof. unfold _dispatch. destruct p; preserve. Qed.

(** ** The end of the connection *)

Lemma fail_futures_lookup fs m g :
  match fail_futures fs m !! g with
  | Some FPending | None => g ∉ fs /\ fail_futures fs m !! g = m !! g
  | Some (FResult v) => m !! g = Some (FResult v)
  | Some _ => True
  end.
Proof.
  revert m; induction fs as [|f fs IH]; intros m; cbn [fail_futures fold_left].
  - destruct (m !! g) as [[]|]; done || (split; [apply not_elem_of_nil|done]).
  - match goal with |- context [fold_left _ fs ?x] => specialize (IH x); set (m' := x) in * end.
    change (fold_left _ fs m') with (fail_futures fs m').
    assert (forall st, m' !! g = Some st -> st = FPending -> g <> f) as Hp.
    { intros st Hg -> ->. subst m'. destruct (m !! f) as [[]|] eqn:E; try congruence;
        rewrite lookup_insert_eq in Hg; congruence. }
    assert (g <> f -> m' !! g = m !! g) as Hne.
    { intros Hgf. subst m'. destruct (m !! f) as [[]|]; rewrite ?lookup_insert_ne by done; done. }
    assert (m' !! f <> None) as Hn.
    { subst m'. destruct (m !! f) as [[]|] eqn:E; rewrite ?lookup_insert_eq; congruence. }
    assert (forall v, m' !! g = Some (FResult v) -> m !! g = Some (FResult v)) as Hr.
    { intros v Hv. destruct (decide (g = f)) as [->|Hgf]; [|by rewrite <-Hne]. subst m'.
      destruct (m !! f) as [[]|] eqn:E; try congruence; rewrite lookup_insert_eq in Hv; congruence. }
    destruct (fail_futures fs m' !! g) as [[]|] eqn:E; try done; [|auto|].
    + destruct IH as [Hg Hm]. assert (g <> f) as Hgf by (eapply Hp; eauto).
      split; [by apply not_elem_of_cons|]. by rewrite <-Hne.
    + destruct IH as [Hg Hm]. assert (g <> f) as Hgf by congruence.
      split; [by apply not_elem_of_cons|]. by rewrite <-Hne.
Qed.

Lemma holds_pending s sl f : holds s sl f -> sl <> SRequest -> f ∈ pending_futures s.
Proof.
  unfold pending_futures. intros Hh Hne. rewrite !elem_of_app. destruct sl as [pid|pid|pid|pid| |]; cbn in Hh.
  - destruct Hh as (fl & Hl & <-). do 2 right. left. apply list_elem_of_fmap. exists (pid, fl).
    split; [done|by apply elem_of_map_to_list].
  - destruct Hh as (fl & Hl & <-). do 3 right. left. apply list_elem_of_fmap. exists (pid, fl).
    split; [done|by apply elem_of_map_to_list].
  - left. apply list_elem_of_fmap. exists (pid, f). split; [done|by apply elem_of_map_to_list].
  - right. left. apply list_elem_of_fmap. exists (pid, f). split; [done|by apply elem_of_map_to_list].
  - by do 4 right.
  - done.
Qed.

(** When [run] ends, no suspended call is left with a pending future. *)
Lemma run_finally_done C s n t :
  linked C s -> C !! n = Some t -> fut_done (fut_state (run_finally s).2 (t_future t)) = true.
Proof.
  intros Hl Ht. pose proof (fail_futures_lookup (pending_futures s) (e_futures s) (t_future t)) as Hf.
  unfold fut_state. change (e_futures (run_finally s).2) with (fail_futures (pending_futures s) (e_futures s)).
  assert (fut_state s (t_future t) = FPending -> t_future t ∈ pending_futures s) as Hp.
  { intros Hp. destruct (lk_pending _ _ Hl _ _ Ht Hp) as [Hh _].
    by eapply holds_pending; [|apply slot_of_request]. }
  unfold fut_state in Hp.
  destruct (fail_futures _ _ !! _) as [[]|]; try done; destruct Hf as [Hf E]; rewrite <-E in Hp;
    by destruct Hf; apply Hp.
Qed.

Lemma keeps_connack p : preserves keeps (_ ← handle_connack p; mret tt).
Proof. unfold handle_connack. preserve. Qed.

Lemma keeps_run_finally : preserves keeps run_finally.
Proof.
  intros s C [H1 H2 H3 H4]. split; [done..|].
  apply (linked_step C s); [done|done|intros [] f; cbn; try done; by intros ?%not_elem_of_nil|..].
  - intros n t Ht Hp. pose proof (run_finally_done _ _ _ _ H4 Ht) as Hd. by rewrite Hp in Hd.
  - intros n t v Ht Hv. left. revert Hv. unfold fut_state.
    change (e_futures (run_finally s).2) with (fail_futures (pending_futures s) (e_futures s)).
    pose proof (fail_futures_lookup (pending_futures s) (e_futures s) (t_future t)) as Hf.
    destruct (fail_futures _ _ !! _) as [[]|]; try done. intros [= <-]. by rewrite Hf.
Qed.

Lemma keeps_cancel C s n t :
  C !! n = Some t -> fut_done (fut_state s (t_future t)) = false -> owned C s ->
  owned C (cancel_future (t_future t) s).
Proof.
  intros Ht Hd [H1 H2 H3 H4]. split; [done..|].
  assert (fut_state s (t_future t) = FPending) as Hp by (by destruct (fut_state s (t_future t))).
  destruct (lk_pending _ _ H4 _ _ Ht Hp) as [Hh _].
  pose proof (linked_settle C s s (slot_of t) _ FCancelled H4 Hh eq_refl) as Hl. unfold settled in Hl. rewrite Hd in Hl.
  apply Hl; try done.
Qed.

(** ** Every interleaving *)

Record system_ok (sys : System) : Prop := {
  so_owned : owned (calls sys) (engine sys);
  so_fresh : forall n, (next_call sys <= n)%nat -> calls sys !! n = None
}.

(** The references of the dispatcher are below those the engine gives out. *)
Definition dispatcher_below (d : option Dispatcher) (next : nat) : Prop :=
  forall d' k p, d = Some d' -> d_pending d' !! k = Some p -> (pr_future p < next)%nat.

Lemma system_new_ok v prefixes keepalive limit size d queues next :
  dispatcher_below d next ->
  system_ok (system_new (engine_new v prefixes keepalive limit size d queues next)).
Proof.
  intros Hd. split; [|intros; apply lookup_empty]. split; cbn; [apply holding_new|apply table_empty..|].
  split; intros *; cbn; rewrite ?lookup_empty; try done.
  destruct sl; cbn; try (by intros (? & ? & ?)); try done; [by intros ?%not_elem_of_nil|].
  intros (d' & k & p & Hd' & Hk & <-). by eapply Hd.
Qed.

Lemma new_call_ok m sys : starts m -> system_ok sys -> system_ok (new_call m sys).
Proof.
  intros Hm [Ho Hf]. assert (calls sys !! next_call sys = None) as Hn by (apply Hf; lia).
  specialize (Hm _ _ _ Hn Ho). unfold new_call, settle, outcome in *.
  destruct (m (engine sys)) as [[[x|t]|e] s]; cbn [fst snd] in Hm; split; cbn [calls engine next_call];
    rewrite ?delete_id by done; try done; intros n Hle; try (apply Hf; lia).
  rewrite lookup_insert_ne by lia. apply Hf. lia.
Qed.

Lemma settle_ok n t sys thrown :
  calls sys !! n = Some t -> system_ok sys ->
  system_ok (let '(r, s) := task_finish t thrown (engine sys) in settle n r s sys).
Proof.
  intros Hn [Ho Hf]. pose proof (task_finish_owned _ _ _ thrown _ Hn Ho) as H.
  assert (n < next_call sys)%nat as Hlt.
  { destruct (Nat.lt_ge_cases n (next_call sys)) as [|Hge]; [done|]. rewrite Hf in Hn by lia. done. }
  unfold settle, outcome in *.
  destruct (task_finish t thrown (engine sys)) as [[[x|u]|e] s]; cbn [fst snd] in H; split;
    cbn [calls engine next_call]; try done.
  - intros m Hle. rewrite lookup_delete_ne by lia. by apply Hf.
  - by rewrite insert_delete_eq in H.
  - intros m Hle. rewrite lookup_insert_ne by lia. by apply Hf.
  - intros m Hle. rewrite lookup_delete_ne by lia. by apply Hf.
Qed.

Lemma with_engine_ok sys s : keeps (engine sys) s -> system_ok sys -> system_ok (with_engine s sys).
Proof. intros Hk [Ho Hf]. split; [by apply Hk|done]. Qed.

Lemma run_unit_ok m sys : preserves keeps m -> system_ok sys -> system_ok (run_unit m sys).
Proof. intros Hm. apply with_engine_ok, Hm. Qed.

Lemma run_reader_ok m sys : preserves keeps m -> system_ok sys -> system_ok (run_reader m sys).
Proof.
  intros Hm Hok. specialize (Hm (engine sys)). unfold run_reader.
  destruct (m (engine sys)) as [[a|e] s]; [by apply with_engine_ok|].
  destruct Hok as [Ho Hf]. split; [by apply Hm|done].
Qed.

Lemma keeps_detach fs : preserves keeps (detach fs).
Proof. unfold detach. preserve. Qed.
Lemma keeps_send_auth p : preserves keeps (send_auth p).
Proof. unfold send_auth. preserve. Qed.
Lemma keeps_disconnect : preserves keeps disconnect.
Proof. unfold disconnect, transport_close. preserve. Qed.
Lemma keeps_rejecting_oversized e : preserves keeps (rejecting_oversized e).
Proof. unfold rejecting_oversized, abort, transport_close. destruct e; preserve. Qed.
Lemma keeps_restore_detached l : preserves keeps (restore_detached l).
Proof. unfold restore_detached. preserve. Qed.
Lemma keeps_bind_router : preserves keeps bind_router.
Proof. apply keeps_inbound, frame_bind_router. Qed.

#[export] Hint Resolve publish_starts subscribe_starts unsubscribe_starts observe_starts unobserve_starts
  ping_starts keeps_detach keeps_send_auth keeps_disconnect keeps_restore_detached keeps_bind_router keeps_dispatch
  keeps_rejecting_oversized keeps_run_finally : frame.

Lemma engine_step_ok sys ev : system_ok sys -> system_ok (engine_step sys ev).
Proof.
  intros Hok. destruct ev; cbn [engine_step];
    try (apply new_call_ok; [auto with frame|done]); try (apply run_unit_ok; [auto with frame|done]).
  - case_match; [|done]. by apply run_reader_ok; [apply keeps_connack|].
  - case_match; [|done]. by apply run_reader_ok; [auto with frame|].
  - case_match; [|done]. by apply run_reader_ok; [auto with frame|].
  - case_match; [|done]. by apply run_reader_ok; [auto with frame|].
  - destruct (calls sys !! call) as [t|] eqn:E; [|done].
    destruct (is_ping t || fut_done (fut_state (engine sys) (t_future t))) eqn:Ed; [by apply settle_ok|].
    apply orb_false_iff in Ed as [_ Ed]. destruct Hok as [Ho Hf]. split; [by eapply keeps_cancel|done].
  - destruct (calls sys !! call) as [t|] eqn:E; [|done]. case_match; [by apply settle_ok|done].
  - destruct (calls sys !! call) as [t|] eqn:E; [|done]. case_match; [by apply settle_ok|done].
  - apply with_engine_ok; [frame_other|done].
  - case_match; [done|]. by apply run_unit_ok; [auto with frame|].
Qed.

Lemma run_events_ok sys evs : system_ok sys -> system_ok (run_events sys evs).
Proof.
  unfold run_events. revert sys; induction evs as [|ev evs IH]; intros sys Hok; [done|].
  cbn [fold_left]. by apply IH, engine_step_ok.
Qed.

(** The states of a connection whose dispatcher may have been used before. *)
Inductive reachable : System -> Prop :=
| reachable_new v prefixes keepalive limit size d queues next :
    dispatcher_below d next ->
    reachable (system_new (engine_new v prefixes keepalive limit size d queues next))
| reachable_step sys ev : reachable sys -> reachable (engine_step sys ev).

Lemma reachable_ok sys : reachable sys -> system_ok sys.
Proof. induction 1; [by apply system_new_ok|by apply engine_step_ok]. Qed.

Lemma reachable_events sys evs : reachable sys -> reachable (run_events sys evs).
Proof.
  unfold run_events. revert sys; induction evs as [|ev evs IH]; intros sys H; [done|].
  cbn [fold_left]. by apply IH, reachable_step.
Qed.

Lemma dispatcher_below_none next : dispatcher_below None next.
Proof. by intros d k p ?. Qed.

(** C3: ownership of packet identifiers.  After any interleaving of calls, incoming packets,
    acknowledgements, cancellations, timeouts and connection loss: every identifier in use
    belongs to exactly one exchange (a QoS 1 or QoS 2 flight, a pending SUBSCRIBE or a pending
    UNSUBSCRIBE) and is in 1..65535, an identifier not in use belongs to none; and the pending
    SUBSCRIBE and UNSUBSCRIBE entries are those of the suspended calls, one each.  So no two
    exchanges ever share an identifier and a finished subscribe or unsubscribe leaks none. *)
Theorem packet_id_ownership sys :
  reachable sys ->
  let st := e_state (engine sys) in
  (forall i, owners st i = Nat.b2n (in_use st i)) /\
  (forall i, in_use st i = true -> 1 <= i <= MAX_PACKET_ID) /\
  table_ok waits_suback (calls sys) (pending_subs st) /\
  table_ok waits_unsuback (calls sys) (pending_unsubs st).
Proof.
  intros [[[Hp Ho] Hs Hu _] _]%reachable_ok st. split; [|split; [|done]].
  - intros i. specialize (Ho i). subst st. cbn [held_at] in Ho. change (Nat.b2n false) with 0%nat in Ho. lia.
  - intros i Hi%bool_decide_eq_true. by apply (pool_range _ Hp).
Qed.

(** A session with all four kinds of exchange open. *)
Definition sample_system : System :=
  system_new (engine_new V50 [] 60 (Some 10) 1000 None ∅ 0).

Definition sample_events : list event :=
  [EvSubscribe [observer_request (py "a/b")] 0 true None;
   EvPublish (mkPublish (py "a") [] AT_LEAST_ONCE false false None None);
   EvPublish (mkPublish (py "b") [] EXACTLY_ONCE false false None None);
   EvUnsubscribe [py "c"]; EvPing].

Lemma sample_reachable evs : reachable (run_events sample_system evs).
Proof. apply reachable_events, reachable_new, dispatcher_below_none. Qed.

Lemma packet_id_ownership_witness :
  let sys := run_events sample_system sample_events in
  let st := e_state (engine sys) in
  size (calls sys) = 5%nat /\ pool_in_use (packet_ids st) = {[ 1; 2; 3; 4 ]} /\
  owners st 2 = 1%nat /\ owners st 5 = 0%nat /\ table_ok waits_suback (calls sys) (pending_subs st).
Proof.
  intros sys st. destruct (packet_id_ownership sys (sample_reachable _)) as (Ho & _ & Hs & _).
  split; [vm_compute; reflexivity|]. split; [vm_compute; reflexivity|].
  split; [etransitivity; [apply (Ho 2)|vm_compute; reflexivity]|].
  split; [etransitivity; [apply (Ho 5)|vm_compute; reflexivity]|done].
Defined.

(** C4: a call only gets the acknowledgement of its own exchange.  Whatever the interleaving,
    the future a suspended call waits for holds, if it has a result, a packet of the type the
    call expects with the packet identifier of the call: PUBACK for a QoS 1 publish, PUBCOMP for
    a QoS 2 publish, SUBACK, UNSUBACK, and a bare completion for a ping. *)
Theorem own_acknowledgement sys n t v :
  reachable sys -> calls sys !! n = Some t -> fut_state (engine sys) (t_future t) = FResult v ->
  accepts (slot_of t) v.
Proof. intros [[_ _ _ Hl] _]%reachable_ok. apply (lk_result _ _ Hl). Qed.

Lemma own_acknowledgement_witness :
  let sys := run_events sample_system (sample_events ++ [EvReceive (PPubAck (mkAck 2 0 None))]) in
  exists t, calls sys !! 1%nat = Some t /\ t_pid t = 2 /\
    accepts (slot_of t) (VPacket (PPubAck (mkAck 2 0 None))).
Proof.
  intros sys.
  assert (calls sys !! 1%nat = Some (mkTask TPublishQoS1 2 2)) as Hc by (vm_compute; reflexivity).
  exists (mkTask TPublishQoS1 2 2). split; [done|]. split; [done|].
  apply (own_acknowledgement sys 1); [apply sample_reachable|done|vm_compute; reflexivity].
Defined.

(** ** No call is left hanging *)

Definition same_dead (s s' : Engine) : Prop := e_dead s' = e_dead s.

#[export] Instance same_dead_preorder : PreOrder same_dead.
Proof. split; unfold same_dead; [done|intros s1 s2 s3; congruence]. Qed.

Lemma send_unsubscribe_finish_dead pid f thrown s :
  e_dead (send_unsubscribe_finish pid f thrown s).2 = e_dead s.
Proof.
  change (same_dead s (send_unsubscribe_finish pid f thrown s).2). revert s.
  change (preserves same_dead (send_unsubscribe_finish pid f thrown)).
  unfold send_unsubscribe_finish, resumed, as_unsuback. preserve; try done.
  intros s. unfold await_result. by destruct (fut_state s f).
Qed.

Lemma restore_begin_dead broker observed ack s t s' :
  e_dead s = true -> restore_begin broker observed ack s <> (Ok (Suspended t), s').
Proof.
  intros Hd. unfold restore_begin. destruct observed as [|f fs]; [done|].
  unfold send_subscribe_begin. unfold mbind at 1, M_bind at 1. rewrite ensure_alive_eq, Hd. done.
Qed.

Lemma bind_returned {A} (m : M A) (g : A -> M progress) s t s' :
  (forall a u, g a u <> (Ok (Suspended t), s')) -> (x ← m; g x) s <> (Ok (Suspended t), s').
Proof. intros Hg. unfold mbind, M_bind. destruct (m s) as [[a|e] u]; [apply Hg|done]. Qed.

(** A call resumed after the end of the connection does not wait again. *)
Lemma task_finish_dead t thrown s u s' :
  e_dead s = true -> task_finish t thrown s <> (Ok (Suspended u), s').
Proof.
  intros Hd. destruct t as [kind pid f]. destruct kind; cbn [task_finish].
  - apply bind_returned. intros [[]| |] u'; try done. by apply bind_returned.
  - apply bind_returned. by intros [[]| |] u'.
  - by apply bind_returned.
  - by apply bind_returned.
  - unfold mbind, M_bind. pose proof (send_unsubscribe_finish_dead pid f thrown s) as E.
    destruct (send_unsubscribe_finish pid f thrown s) as [[a|e] s1]; [|done].
    apply restore_begin_dead. cbn in E. congruence.
  - destruct (send_subscribe_finish _ _ _ _ s) as [[a|e] s1]; [done|]. by destruct (is_exception e).
  - by apply bind_returned.
  - unfold ping_finish. destruct thrown as [[]|]; try by apply bind_returned.
    apply bind_returned. intros w u'. case_bool_decide; [by apply bind_returned|done].
Qed.

(** [finishes n sys]: resuming the call [n] ends it with a result. *)
Definition finishes (n : nat) (sys : System) : Prop :=
  exists r, calls (engine_step sys (EvResume n)) = delete n (calls sys) /\
    results (engine_step sys (EvResume n)) = results sys ++ [(n, r)].

Lemma resume_dead_finishes sys n t :
  e_dead (engine sys) = true -> calls sys !! n = Some t ->
  fut_done (fut_state (engine sys) (t_future t)) = true -> finishes n sys.
Proof.
  intros Hd Ht Hf. unfold finishes. cbn [engine_step]. rewrite Ht, Hf.
  pose proof (task_finish_dead t None (engine sys)) as Hn.
  destruct (task_finish t None (engine sys)) as [[[v|u]|e] s]; cbn [settle calls results].
  - by exists (Ok v).
  - by destruct (Hn u s Hd).
  - by exists (Err e).
Qed.

(** C5: no call is left hanging.  When [run] ends, every suspended call can resume and ends with
    a result or an exception, pings included; and after that end, no call other than a ping ever
    waits for a future that nothing will resolve. *)
Theorem no_call_hangs sys n t :
  reachable sys -> calls sys !! n = Some t ->
  if e_dead (engine sys) then is_ping t = true \/ finishes n sys
  else calls (engine_step sys EvRunEnds) = calls sys /\ finishes n (engine_step sys EvRunEnds).
Proof.
  intros [[_ _ _ Hl] _]%reachable_ok Ht. destruct (e_dead (engine sys)) eqn:Hd.
  - destruct (fut_done (fut_state (engine sys) (t_future t))) eqn:Hf; [right; by eapply resume_dead_finishes|].
    left. assert (fut_state (engine sys) (t_future t) = FPending) as Hp by (by destruct (fut_state _ _)).
    destruct (lk_pending _ _ Hl _ _ Ht Hp) as [_ [|]]; [done|congruence].
  - cbn [engine_step]. rewrite Hd. split; [done|]. apply (resume_dead_finishes _ n t); [done..|].
    by eapply run_finally_done.
Qed.

Lemma no_call_hangs_witness :
  let sys := run_events sample_system sample_events in
  finishes 0 (engine_step sys EvRunEnds) /\ finishes 4 (engine_step sys EvRunEnds).
Proof.
  intros sys. pose proof (sample_reachable sample_events) as Hr. fold sys in Hr.
  assert (e_dead (engine sys) = false) as Hd by (vm_compute; reflexivity). split.
  - destruct (calls sys !! 0%nat) as [t|] eqn:E; [|vm_compute in E; discriminate E].
    pose proof (no_call_hangs sys 0 t Hr E) as H. rewrite Hd in H. apply H.
  - destruct (calls sys !! 4%nat) as [t|] eqn:E; [|vm_compute in E; discriminate E].
    pose proof (no_call_hangs sys 4 t Hr E) as H. rewrite Hd in H. apply H.
Defined.
