(* ===== verification/Outbound.v ===== *)
(** * Outbound exchanges, end to end

    What the application sees of a QoS 1 or QoS 2 publish, of a refused or failed publish, and
    of a SUBSCRIBE that is acknowledged twice, as runs of the engine from any reachable state. *)

From S2P Require Import Prelude Properties Packets Codec Topic SubscriptionIndex State Engine Inbound Protocol Ownership Calls.

(** ** Starting a publish *)

(** The publish passes the checks and gets [pid]. *)
Record checked (s : Engine) (p : Publish) (pid : Z) (pool : PacketIdPool) : Prop := {
  ck_alive : e_dead s = false;
  ck_qos : qos_val (p_qos p) <= qos_val (e_max_publish_qos s);
  ck_retain : p_retain p = true -> e_retain_available s = true;
  ck_pid : acquire (packet_ids (e_state s)) = Ok (pid, pool)
}.

(** ... and is written as [data], while the connection is up and being read. *)
Record publishable (sys : System) (p : Publish) (pid : Z) (pool : PacketIdPool) (data : bytes) : Prop := {
  pb_checked : checked (engine sys) p pid pool;
  pb_lost : e_lost (engine sys) = false;
  pb_closed : e_closed (engine sys) = false;
  pb_reading : failure sys = None;
  pb_putting : e_putting (engine sys) = None;
  pb_encode : encode (PPublish (with_packet_id p pid)) (e_version (engine sys)) = Ok data
}.

(** The checks of [publish]. *)
Lemma publish_begin_checked s p pid pool :
  checked s p pid pool ->
  publish_begin p s =
    match p_qos p with
    | AT_MOST_ONCE => (_ ← send_packet (PPublish p); mret (Returned RNone)) s
    | AT_LEAST_ONCE =>
      let s1 := set_e_state (set_packet_ids pool (e_state s)) s in
      let f := e_next_ref s1 in
      let packet := with_packet_id p pid in
      (_ ← modify_state (fun st => set_inflight_qos1
             (<[pid := mkQoS1Flight pid packet f]> (inflight_qos1 st)) st);
       _ ← send_packet (PPublish packet);
       mret (Suspended (mkTask TPublishQoS1 pid f))) (create_future s1).2
    | EXACTLY_ONCE =>
      let s1 := set_e_state (set_packet_ids pool (e_state s)) s in
      let f := e_next_ref s1 in
      let packet := with_packet_id p pid in
      (_ ← modify_state (fun st => set_inflight_qos2_out
             (<[pid := mkQoS2Flight pid packet PENDING_PUBREC f]> (inflight_qos2_out st)) st);
       _ ← send_packet (PPublish packet);
       mret (Suspended (mkTask TPublishQoS2 pid f))) (create_future s1).2
    end.
Proof.
  intros [Ha Hq Hr Hp]. unfold publish_begin. unfold mbind at 1, M_bind at 1.
  rewrite ensure_alive_eq, Ha. unfold mbind at 1, M_bind at 1. cbn [asks].
  rewrite (proj2 (Z.ltb_ge _ _)) by done. unfold mbind at 1, M_bind at 1. cbn [asks].
  replace (p_retain p && negb (e_retain_available s)) with false
    by (destruct (p_retain p); [by rewrite Hr|done]).
  destruct (p_qos p); [reflexivity|..]; unfold mbind at 1, M_bind at 1; unfold acquire_pid; rewrite Hp; reflexivity.
Qed.

(** The engine after the packet of a new flight is sent; [upd] registers the flight. *)
Definition sent_flight (upd : SessionState -> SessionState) (pool : PacketIdPool) (data : bytes) (s : Engine) : Engine :=
  let s1 := (create_future (set_e_state (set_packet_ids pool (e_state s)) s)).2 in
  set_e_sent (e_sent s ++ [data]) (set_e_state (upd (e_state s1)) s1).

Lemma sent_flight_future upd pool data s : fut_state (sent_flight upd pool data s) (e_next_ref s) = FPending.
Proof.
  unfold fut_state.
  change (e_futures (sent_flight upd pool data s)) with (<[e_next_ref s := FPending]> (e_futures s)).
  by rewrite lookup_insert_eq.
Qed.

Lemma publish_qos1_begin sys p pid pool data :
  publishable sys p pid pool data -> p_qos p = AT_LEAST_ONCE ->
  let s := engine sys in let f := e_next_ref s in
  publish_begin p s = (Ok (Suspended (mkTask TPublishQoS1 pid f)),
    sent_flight (fun st => set_inflight_qos1
      (<[pid := mkQoS1Flight pid (with_packet_id p pid) f]> (inflight_qos1 st)) st) pool data s).
Proof.
  intros Hp Hq s f. subst s. rewrite (publish_begin_checked _ _ _ _ (pb_checked _ _ _ _ _ Hp)), Hq. destruct Hp.
  cbv zeta. unfold mbind at 1, M_bind at 1. cbn [modify_state modify].
  unfold mbind at 1, M_bind at 1. by rewrite (send_packet_ok _ data).
Qed.

Lemma publish_qos2_begin sys p pid pool data :
  publishable sys p pid pool data -> p_qos p = EXACTLY_ONCE ->
  let s := engine sys in let f := e_next_ref s in
  publish_begin p s = (Ok (Suspended (mkTask TPublishQoS2 pid f)),
    sent_flight (fun st => set_inflight_qos2_out
      (<[pid := mkQoS2Flight pid (with_packet_id p pid) PENDING_PUBREC f]> (inflight_qos2_out st)) st) pool data s).
Proof.
  intros Hp Hq s f. subst s. rewrite (publish_begin_checked _ _ _ _ (pb_checked _ _ _ _ _ Hp)), Hq. destruct Hp.
  cbv zeta. unfold mbind at 1, M_bind at 1. cbn [modify_state modify].
  unfold mbind at 1, M_bind at 1. by rewrite (send_packet_ok _ data).
Qed.

(** ** The handlers on a known flight *)

Definition without_q1 (pid : Z) (s : Engine) : Engine :=
  set_e_state (set_packet_ids (release (packet_ids (e_state s)) pid)
    (set_inflight_qos1 (delete pid (inflight_qos1 (e_state s))) (e_state s))) s.
Definition without_q2 (pid : Z) (s : Engine) : Engine :=
  set_e_state (set_packet_ids (release (packet_ids (e_state s)) pid)
    (set_inflight_qos2_out (delete pid (inflight_qos2_out (e_state s))) (e_state s))) s.

Lemma handle_puback_known ack s fl :
  inflight_qos1 (e_state s) !! a_packet_id ack = Some fl ->
  _handle_puback ack s =
    (Ok tt, settled (q1_future fl) (FResult (VPacket (PPubAck ack))) (without_q1 (a_packet_id ack) s)).
Proof.
  intros H. unfold _handle_puback, ask_state, set_result. unfold mbind at 1, M_bind at 1. cbn [asks]. rewrite H.
  unfold mbind, M_bind. cbn [modify_state modify release_pid]. by rewrite unless_done_eq.
Qed.

Lemma handle_pubcomp_known c s fl :
  inflight_qos2_out (e_state s) !! a_packet_id c = Some fl ->
  _handle_pubcomp c s =
    (Ok tt, settled (q2_future fl) (FResult (VPacket (PPubComp c))) (without_q2 (a_packet_id c) s)).
Proof.
  intros H. unfold _handle_pubcomp, ask_state, set_result. unfold mbind at 1, M_bind at 1. cbn [asks]. rewrite H.
  unfold mbind, M_bind. cbn [modify_state modify release_pid]. by rewrite unless_done_eq.
Qed.

Lemma handle_pubrec_rejected r s fl :
  inflight_qos2_out (e_state s) !! a_packet_id r = Some fl -> q2_state fl = PENDING_PUBREC ->
  0x80 <= a_reason_code r ->
  _handle_pubrec r s =
    (Ok tt, settled (q2_future fl) (FException (_publish_error r)) (without_q2 (a_packet_id r) s)).
Proof.
  intros H Hs Hr. unfold _handle_pubrec, ask_state, set_exception. unfold mbind at 1, M_bind at 1. cbn [asks]. rewrite H.
  rewrite decide_True by done. rewrite (proj2 (Z.leb_le _ _)) by done.
  unfold mbind, M_bind. cbn [modify_state modify release_pid]. by rewrite unless_done_eq.
Qed.

Lemma handle_pubrec_accepted r s fl data :
  inflight_qos2_out (e_state s) !! a_packet_id r = Some fl -> q2_state fl = PENDING_PUBREC ->
  a_reason_code r < 0x80 ->
  encode (PPubRel (ack_of (a_packet_id r))) (e_version s) = Ok data -> e_lost s = false -> e_closed s = false ->
  _handle_pubrec r s =
    (Ok tt, set_e_sent (e_sent s ++ [data])
      (set_e_state (set_inflight_qos2_out
        (<[a_packet_id r := mkQoS2Flight (q2_packet_id fl) (q2_publish fl) PENDING_PUBCOMP (q2_future fl)]>
          (inflight_qos2_out (e_state s))) (e_state s)) s)).
Proof.
  intros H Hs Hr He Hl Hc. unfold _handle_pubrec, ask_state. unfold mbind at 1, M_bind at 1. cbn [asks]. rewrite H.
  rewrite decide_True by done. rewrite (proj2 (Z.leb_gt _ _)) by done.
  unfold mbind, M_bind. cbn [modify_state modify]. by rewrite (send_packet_ok _ data).
Qed.

(** ** The steps *)

Lemma step_call sys m t s :
  m (engine sys) = (Ok (Suspended t), s) ->
  new_call m sys = mkSystem s (<[next_call sys := t]> (calls sys)) (S (next_call sys)) (results sys) (failure sys).
Proof. intros H. unfold new_call. by rewrite H. Qed.

Lemma step_receive sys p s :
  failure sys = None -> e_dead (engine sys) = false -> e_putting (engine sys) = None ->
  _dispatch p (engine sys) = (Ok tt, s) -> engine_step sys (EvReceive p) = with_engine s sys.
Proof.
  intros Hf Hd Hp H. cbn [engine_step]. unfold reading, run_reader. by rewrite Hf, Hd, Hp, H.
Qed.

Lemma step_resume sys n t r s :
  calls sys !! n = Some t -> fut_done (fut_state (engine sys) (t_future t)) = true ->
  task_finish t None (engine sys) = (r, s) -> engine_step sys (EvResume n) = settle n r s sys.
Proof. intros H1 H2 H3. cbn [engine_step]. by rewrite H1, H2, H3. Qed.

(** The identifier is free again, and no other changed. *)
Lemma release_acquired pool pool' pid i :
  pool_ok pool -> acquire pool = Ok (pid, pool') ->
  i ∈ pool_in_use (release pool' pid) <-> i ∈ pool_in_use pool.
Proof.
  intros Hok Ha. destruct (acquire_inv _ _ _ Hok Ha) as (_ & _ & Hf & Hu & _). cbn. rewrite Hu. set_solver.
Qed.

Lemma acquired_free sys pid pool :
  system_ok sys -> acquire (packet_ids (e_state (engine sys))) = Ok (pid, pool) ->
  let st := e_state (engine sys) in
  inflight_qos1 st !! pid = None /\ inflight_qos2_out st !! pid = None /\ pool_ok (packet_ids st).
Proof.
  intros [[Hh _ _ _] _] Ha st. destruct (holding_acquire _ _ _ Hh Ha) as [Hh' _].
  destruct (holding_free _ _ Hh') as (H1 & H2 & _). by destruct Hh.
Qed.

(** Resuming a publish whose future [r] has resolved. *)
Definition publish_outcome (r : FutState) : res call_value :=
  match r with
  | FResult (VPacket (PPubAck ack)) =>
    if 0x80 <=? a_reason_code ack then Err (_publish_error ack) else Ok (RPubAck ack)
  | FResult (VPacket (PPubComp c)) => Ok (RPubComp c)
  | FException e => Err e
  | _ => Err CancelledError
  end.

Lemma finish_qos1 pid f s ack :
  fut_state s f = FResult (VPacket (PPubAck ack)) ->
  task_finish (mkTask TPublishQoS1 pid f) None s =
    (v ← publish_outcome (fut_state s f); Ok (Returned v), s).
Proof.
  intros H. cbn [task_finish resumed]. unfold mbind at 1, M_bind at 1, await_result. rewrite H.
  unfold _raise_on_rejected_puback, mbind, M_bind. cbn [lift publish_outcome]. by destruct (_ <=? _).
Qed.

Lemma finish_qos2 pid f s r :
  fut_state s f = r ->
  match r with FResult (VPacket (PPubComp _)) | FException _ => True | _ => False end ->
  task_finish (mkTask TPublishQoS2 pid f) None s =
    (v ← publish_outcome r; Ok (Returned v), s).
Proof.
  intros H Hr. cbn [task_finish resumed]. unfold mbind at 1, M_bind at 1, await_result. rewrite H.
  by destruct r as [|[[]| |]| |].
Qed.

(** A resolved publish returns, and the calls are as before it. *)
Lemma step_publish_done sys n t r s :
  calls sys !! n = None ->
  task_finish t None s = (v ← r; Ok (Returned v), s) ->
  fut_done (fut_state s (t_future t)) = true ->
  let sys1 := mkSystem s (<[n := t]> (calls sys)) (S (next_call sys)) (results sys) (failure sys) in
  engine_step sys1 (EvResume n) =
    mkSystem s (calls sys) (S (next_call sys)) (results sys ++ [(n, r)]) (failure sys).
Proof.
  intros Hn Ht Hd sys1. rewrite (step_resume sys1 n t (v ← r; Ok (Returned v)) s); [|apply lookup_insert_eq|done|exact Ht].
  destruct r as [v|e]; cbn; by rewrite delete_insert_id.
Qed.

(** C33: a QoS 1 publish, end to end.  From any reachable state, a publish that passes the checks
    sends one PUBLISH; when the broker acknowledges its identifier, the call returns the PUBACK,
    or raises the publish error if the reason code is a failure; afterwards the identifier is
    free again and the flights, the calls and the other identifiers are as before. *)
Theorem qos1_exchange sys p pid pool data ack :
  reachable sys -> publishable sys p pid pool data -> p_qos p = AT_LEAST_ONCE -> a_packet_id ack = pid ->
  let n := next_call sys in
  let sys' := run_events sys [EvPublish p; EvReceive (PPubAck ack); EvResume n] in
  results sys' = results sys ++ [(n, if 0x80 <=? a_reason_code ack then Err (_publish_error ack)
                                     else Ok (RPubAck ack))] /\
  e_sent (engine sys') = e_sent (engine sys) ++ [data] /\
  calls sys' = calls sys /\
  inflight_qos1 (e_state (engine sys')) = inflight_qos1 (e_state (engine sys)) /\
  (forall i, in_use (e_state (engine sys')) i = in_use (e_state (engine sys)) i).
Proof.
  intros Hok%reachable_ok Hp Hq Hack n sys'.
  destruct (acquired_free _ _ _ Hok (ck_pid _ _ _ _ (pb_checked _ _ _ _ _ Hp))) as (Hfree & _ & Hpool).
  assert (calls sys !! n = None) as Hn by (apply (so_fresh _ Hok); lia).
  set (f := e_next_ref (engine sys)). set (fl := mkQoS1Flight pid (with_packet_id p pid) f).
  set (s1 := sent_flight (fun st => set_inflight_qos1 (<[pid := fl]> (inflight_qos1 st)) st) pool data (engine sys)).
  set (s2 := settled f (FResult (VPacket (PPubAck ack))) (without_q1 pid s1)).
  assert (fut_state s1 f = FPending) as Hf1 by apply sent_flight_future.
  assert (fut_state s2 f = FResult (VPacket (PPubAck ack))) as Hf2.
  { subst s2. rewrite fut_state_settled, decide_True by done.
    change (fut_state (without_q1 pid s1) f) with (fut_state s1 f). by rewrite Hf1. }
  assert (sys' = mkSystem s2 (calls sys) (S n) (results sys ++ [(n, publish_outcome (fut_state s2 f))])
    (failure sys)) as ->.
  { subst sys'. unfold run_events. cbn [fold_left].
    change (engine_step sys (EvPublish p)) with (new_call (publish_begin p) sys).
    rewrite (step_call _ _ _ _ (publish_qos1_begin _ _ _ _ _ Hp Hq)). fold f. fold fl. fold s1. fold n.
    rewrite (step_receive _ _ s2); [|apply Hp|apply (pb_checked _ _ _ _ _ Hp)|apply Hp|].
    2: { cbn [_dispatch engine]. rewrite (handle_puback_known _ _ fl), Hack; [done|].
         cbn. rewrite Hack. by rewrite lookup_insert_eq. }
    apply (step_publish_done sys n (mkTask TPublishQoS1 pid f)); [done|by apply (finish_qos1 pid f s2 ack)|].
    cbn [t_future]. by rewrite Hf2. }
  rewrite Hf2. cbn [results engine calls publish_outcome]. split; [done|].
  destruct (settled_same f (FResult (VPacket (PPubAck ack))) (without_q1 pid s1)) as (E & _).
  assert (e_sent s2 = e_sent s1) as -> by (subst s2; unfold settled; by destruct (fut_done _)).
  split; [done|]. split; [done|]. subst s2. rewrite E. split.
  - cbn. by apply delete_insert_id.
  - intros i. apply bool_decide_ext. exact (release_acquired _ _ _ i Hpool (ck_pid _ _ _ _ (pb_checked _ _ _ _ _ Hp))).
Qed.

(** ** QoS 2 *)

(** The end of either QoS 2 exchange: the flight of [pid] is gone and the call resumes. *)
Lemma qos2_finished sys pid pool data fl st r f s2 :
  system_ok sys -> acquire (packet_ids (e_state (engine sys))) = Ok (pid, pool) ->
  let s1 := sent_flight (fun st => set_inflight_qos2_out (<[pid := fl]> (inflight_qos2_out st)) st) pool data (engine sys) in
  fut_state s2 f = st -> fut_done st = true -> publish_outcome st = r ->
  match st with FResult (VPacket (PPubComp _)) | FException _ => True | _ => False end ->
  packet_ids (e_state s2) = release pool pid ->
  inflight_qos2_out (e_state s2) = delete pid (inflight_qos2_out (e_state s1)) ->
  let n := next_call sys in
  let sys' := engine_step (mkSystem s2 (<[n := mkTask TPublishQoS2 pid f]> (calls sys)) (S n) (results sys) (failure sys))
                (EvResume n) in
  results sys' = results sys ++ [(n, r)] /\ e_sent (engine sys') = e_sent s2 /\ calls sys' = calls sys /\
  inflight_qos2_out (e_state (engine sys')) = inflight_qos2_out (e_state (engine sys)) /\
  (forall i, in_use (e_state (engine sys')) i = in_use (e_state (engine sys)) i).
Proof.
  intros Hok Ha s1 Hf Hd <- Hst Hids Hq2 n sys'.
  destruct (acquired_free _ _ _ Hok Ha) as (_ & Hfree & Hpool).
  assert (calls sys !! n = None) as Hn by (apply (so_fresh _ Hok); lia).
  assert (sys' = mkSystem s2 (calls sys) (S n) (results sys ++ [(n, publish_outcome st)]) (failure sys)) as ->.
  { apply (step_publish_done sys n (mkTask TPublishQoS2 pid f)); [done|by apply finish_qos2|cbn [t_future]; by rewrite Hf]. }
  cbn [results engine calls]. split; [done|]. split; [done|]. split; [done|]. split.
  - rewrite Hq2. subst s1. cbn. by apply delete_insert_id.
  - intros i. unfold in_use. rewrite Hids. apply bool_decide_ext. by apply release_acquired.
Qed.

(** The same, from the state in which the last acknowledgement arrives. *)
Lemma qos2_resolved sys pid pool data fl st r f sx :
  system_ok sys -> acquire (packet_ids (e_state (engine sys))) = Ok (pid, pool) ->
  let s1 := sent_flight (fun st => set_inflight_qos2_out (<[pid := fl]> (inflight_qos2_out st)) st) pool data (engine sys) in
  fut_state sx f = FPending -> fut_done st = true -> publish_outcome st = r ->
  match st with FResult (VPacket (PPubComp _)) | FException _ => True | _ => False end ->
  packet_ids (e_state sx) = pool ->
  delete pid (inflight_qos2_out (e_state sx)) = delete pid (inflight_qos2_out (e_state s1)) ->
  let n := next_call sys in
  let sys' := engine_step (mkSystem (settled f st (without_q2 pid sx)) (<[n := mkTask TPublishQoS2 pid f]> (calls sys)) (S n)
                (results sys) (failure sys)) (EvResume n) in
  results sys' = results sys ++ [(n, r)] /\ e_sent (engine sys') = e_sent sx /\ calls sys' = calls sys /\
  inflight_qos2_out (e_state (engine sys')) = inflight_qos2_out (e_state (engine sys)) /\
  (forall i, in_use (e_state (engine sys')) i = in_use (e_state (engine sys)) i).
Proof.
  intros Hok Ha s1 Hf Hd Hr Hst Hids Hq n sys'. destruct (settled_same f st (without_q2 pid sx)) as (E & _).
  destruct (qos2_finished sys pid pool data fl st r f (settled f st (without_q2 pid sx))) as (H1 & H2 & H3); try done.
  - rewrite fut_state_settled, decide_True by done. change (fut_state (without_q2 pid sx) f) with (fut_state sx f). by rewrite Hf.
  - rewrite E. cbn. by rewrite Hids.
  - by rewrite E.
  - split; [exact H1|]. split; [|exact H3]. etransitivity; [exact H2|]. unfold settled. change (fut_state (without_q2 pid sx) f) with (fut_state sx f). by rewrite Hf.
Qed.

(** C32: a QoS 2 publish, end to end.  From any reachable state, when the broker answers PUBREC
    without failure and then PUBCOMP, exactly PUBLISH and one PUBREL are sent, in this order, and
    the call returns the PUBCOMP; when PUBREC carries a failure, no PUBREL is sent and the call
    raises the publish error.  In both cases the identifier is free again and the flights, the
    calls and the other identifiers are as before. *)
Theorem qos2_exchange sys p pid pool data rec comp :
  reachable sys -> publishable sys p pid pool data -> p_qos p = EXACTLY_ONCE ->
  a_packet_id rec = pid -> a_packet_id comp = pid ->
  let n := next_call sys in
  let accepted := a_reason_code rec <? 0x80 in
  let sys' := run_events sys
    ([EvPublish p; EvReceive (PPubRec rec)] ++
     (if accepted then [EvReceive (PPubComp comp)] else []) ++ [EvResume n]) in
  results sys' = results sys ++ [(n, if accepted then Ok (RPubComp comp) else Err (_publish_error rec))] /\
  e_sent (engine sys') = e_sent (engine sys) ++ data :: (if accepted then [pubrel_bytes pid] else []) /\
  calls sys' = calls sys /\
  inflight_qos2_out (e_state (engine sys')) = inflight_qos2_out (e_state (engine sys)) /\
  (forall i, in_use (e_state (engine sys')) i = in_use (e_state (engine sys)) i).
Proof.
  intros Hok%reachable_ok Hp Hq Hrec Hcomp n accepted sys'.
  pose proof (ck_pid _ _ _ _ (pb_checked _ _ _ _ _ Hp)) as Ha.
  destruct (acquired_free _ _ _ Hok Ha) as (_ & _ & Hpool).
  destruct (acquire_inv _ _ _ Hpool Ha) as (_ & Hpid & _).
  set (f := e_next_ref (engine sys)). set (fl := mkQoS2Flight pid (with_packet_id p pid) PENDING_PUBREC f).
  set (s1 := sent_flight (fun st => set_inflight_qos2_out (<[pid := fl]> (inflight_qos2_out st)) st) pool data (engine sys)).
  assert (fut_state s1 f = FPending) as Hf1 by apply sent_flight_future.
  assert (inflight_qos2_out (e_state s1) !! pid = Some fl) as Hl1 by (cbn; by rewrite lookup_insert_eq).
  subst sys'. unfold run_events. cbn [fold_left app].
  change (engine_step sys (EvPublish p)) with (new_call (publish_begin p) sys).
  rewrite (step_call _ _ _ _ (publish_qos2_begin _ _ _ _ _ Hp Hq)). fold f. fold fl. fold s1. fold n.
  subst accepted. destruct (Z.ltb_spec (a_reason_code rec) 0x80) as [Hrc|Hrc].
  - set (s2 := set_e_sent (e_sent s1 ++ [pubrel_bytes pid]) (set_e_state (set_inflight_qos2_out
      (<[pid := mkQoS2Flight pid (with_packet_id p pid) PENDING_PUBCOMP f]> (inflight_qos2_out (e_state s1))) (e_state s1)) s1)).
    rewrite (step_receive _ _ s2); [|apply Hp|apply (pb_checked _ _ _ _ _ Hp)|apply Hp|].
    2: { cbn [_dispatch engine]. rewrite (handle_pubrec_accepted _ _ fl (pubrel_bytes pid)); rewrite ?Hrec; try done.
         - by apply encode_pubrel.
         - apply Hp.
         - apply Hp. }
    set (fl2 := mkQoS2Flight pid (with_packet_id p pid) PENDING_PUBCOMP f) in *.
    set (s3 := settled f (FResult (VPacket (PPubComp comp))) (without_q2 pid s2)).
    cbn [app fold_left]. rewrite (step_receive _ _ s3); [|apply Hp|apply (pb_checked _ _ _ _ _ Hp)|apply Hp|].
    2: { cbn [_dispatch engine]. rewrite (handle_pubcomp_known _ _ fl2), Hcomp; [done|].
         cbn. rewrite Hcomp. by rewrite lookup_insert_eq. }
    destruct (qos2_resolved sys pid pool data fl (FResult (VPacket (PPubComp comp))) (Ok (RPubComp comp)) f s2)
      as (Hr & Hs & Hrest); try done; [cbn; by rewrite !delete_insert_eq|].
    split; [exact Hr|]. split; [|exact Hrest]. etransitivity; [exact Hs|]. cbn. by rewrite <-app_assoc.
  - set (s3 := settled f (FException (_publish_error rec)) (without_q2 pid s1)).
    rewrite (step_receive _ _ s3); [|apply Hp|apply (pb_checked _ _ _ _ _ Hp)|apply Hp|].
    2: { cbn [_dispatch engine]. rewrite (handle_pubrec_rejected _ _ fl); rewrite ?Hrec; done. }
    by destruct (qos2_resolved sys pid pool data fl (FException (_publish_error rec)) (Err (_publish_error rec)) f s1).
Qed.

(** ** Witnesses *)

Definition sample_qos1 : Publish := mkPublish (py "a") [] AT_LEAST_ONCE false false None None.
Definition sample_qos2 : Publish := mkPublish (py "a") [] EXACTLY_ONCE false false None None.

Definition sample_data (p : Publish) : bytes :=
  match encode (PPublish (with_packet_id p 1)) V50 with Ok data => data | Err _ => [] end.

Lemma sample_publishable p :
  p = sample_qos1 \/ p = sample_qos2 ->
  publishable sample_system p 1 (mkPool 2 ({[ 1 ]} ∪ ∅)) (sample_data p).
Proof. intros [-> | ->]; repeat split; vm_compute; try reflexivity; intros; try discriminate; done. Qed.

Lemma qos1_exchange_witness :
  let ack := mkAck 1 0x87 None in
  let sys' := run_events sample_system [EvPublish sample_qos1; EvReceive (PPubAck ack); EvResume 0] in
  results sys' = [(0%nat, Err (MQTTPublishError 0x87 (Some "Not authorized"%string) None))] /\ calls sys' = ∅.
Proof.
  intros ack sys'.
  destruct (qos1_exchange sample_system sample_qos1 1 (mkPool 2 ({[ 1 ]} ∪ ∅)) (sample_data sample_qos1) ack)
    as (Hr & _ & Hc & _); [apply (sample_reachable [])|by apply sample_publishable; left|done|done|].
  split; [exact Hr|exact Hc].
Defined.

Lemma qos2_exchange_witness :
  let rec := mkAck 1 0x10 None in
  let comp := mkAck 1 0 None in
  let sys' := run_events sample_system
    [EvPublish sample_qos2; EvReceive (PPubRec rec); EvReceive (PPubComp comp); EvResume 0] in
  results sys' = [(0%nat, Ok (RPubComp comp))] /\
  e_sent (engine sys') = [sample_data sample_qos2; [Byte.x62; Byte.x02; Byte.x00; Byte.x01]].
Proof.
  intros rec comp sys'.
  destruct (qos2_exchange sample_system sample_qos2 1 (mkPool 2 ({[ 1 ]} ∪ ∅)) (sample_data sample_qos2) rec comp)
    as (Hr & Hs & _); [apply (sample_reachable [])|by apply sample_publishable; right|done|done|done|].
  split; [exact Hr|exact Hs].
Defined.

(** ** Errors *)

(** A SUBACK for a call that no longer waits for it.  If the future of a suspended subscribe
    is done (its SUBACK arrived and the call has not run yet, or the call was cancelled), another
    SUBACK with its identifier raises asyncio's InvalidStateError in the read loop, which ends
    the connection. *)
Theorem suback_on_done_future sys n t p :
  reachable sys -> calls sys !! n = Some t -> waits_suback (t_kind t) = true ->
  fut_done (fut_state (engine sys) (t_future t)) = true -> sa_packet_id p = t_pid t ->
  failure sys = None -> e_dead (engine sys) = false -> e_putting (engine sys) = None ->
  failure (engine_step sys (EvReceive (PSubAck p))) = Some InvalidStateError.
Proof.
  intros [[_ Hs _ _] _]%reachable_ok Ht Hk Hf Hp Hfail Hd Hput.
  pose proof (tb_held _ _ _ Hs _ _ Ht Hk) as Hl. cbn [engine_step]. unfold reading. rewrite Hfail, Hd, Hput.
  cbn [negb is_Some_b andb]. unfold run_reader. cbn [_dispatch]. unfold _handle_suback, ask_state, mbind, M_bind.
  cbn [asks]. rewrite Hp, Hl. unfold set_result, resolve. by rewrite Hf.
Qed.

Lemma suback_on_done_future_witness :
  let ack := mkSubAck 1 [0] None in
  let sys := run_events sample_system
    [EvSubscribe [observer_request (py "a/b")] 0 true None; EvReceive (PSubAck ack)] in
  failure (engine_step sys (EvReceive (PSubAck ack))) = Some InvalidStateError.
Proof.
  intros ack sys.
  destruct (calls sys !! 0%nat) as [t|] eqn:E; [|vm_compute in E; discriminate E].
  assert (t_kind t = TSubscribe [observer_request (py "a/b")] [py "a/b"] /\ t_pid t = 1 /\ t_future t = 1%nat) as (H1 & H2 & H3)
    by (vm_compute in E; injection E as <-; vm_compute; done).
  apply (suback_on_done_future sys 0 t); [apply sample_reachable|exact E|by rewrite H1| |by rewrite H2|..].
  - rewrite H3. vm_compute. reflexivity.
  - vm_compute. reflexivity.
  - vm_compute. reflexivity.
  - vm_compute. reflexivity.
Defined.

(** A publish whose packet cannot be encoded keeps its identifier.  The call raises the error
    of the encoder and nothing is sent, but the flight stays registered and the identifier stays
    in use, with no call left to release it. *)
Theorem failed_publish_keeps_identifier sys p pid pool e :
  reachable sys -> checked (engine sys) p pid pool -> p_qos p <> AT_MOST_ONCE ->
  encode (PPublish (with_packet_id p pid)) (e_version (engine sys)) = Err e ->
  let sys' := engine_step sys (EvPublish p) in
  results sys' = results sys ++ [(next_call sys, Err e)] /\ calls sys' = calls sys /\
  e_sent (engine sys') = e_sent (engine sys) /\
  in_use (e_state (engine sys)) pid = false /\ in_use (e_state (engine sys')) pid = true.
Proof.
  intros Hok%reachable_ok Hc Hq He. pose proof (ck_pid _ _ _ _ Hc) as Hp.
  destruct (acquired_free _ _ _ Hok Hp) as (_ & _ & Hpool).
  destruct (acquire_inv _ _ _ Hpool Hp) as (_ & _ & Hf & Hu & _).
  assert (exists s, publish_begin p (engine sys) = (Err e, s) /\ e_sent s = e_sent (engine sys) /\
    packet_ids (e_state s) = pool) as (s & Hb & Hs & Hi).
  { rewrite (publish_begin_checked _ _ _ _ Hc). destruct (p_qos p); [done|..]; cbv zeta;
      unfold mbind at 1, M_bind at 1; cbn [modify_state modify]; unfold mbind at 1, M_bind at 1;
      rewrite (send_packet_err _ e) by exact He; by eexists. }
  intros sys'. subst sys'. cbn [engine_step]. unfold new_call. rewrite Hb. cbn [settle engine calls results].
  split; [done|]. split; [by apply delete_id, (so_fresh _ Hok)|]. split; [done|]. unfold in_use. rewrite Hi, Hu.
  split; [by apply bool_decide_eq_false_2|]. apply bool_decide_eq_true_2. set_solver.
Qed.

Lemma failed_publish_keeps_identifier_witness :
  let p := mkPublish [0xD800] [] AT_LEAST_ONCE false false None None in
  let sys' := engine_step sample_system (EvPublish p) in
  calls sys' = ∅ /\ e_sent (engine sys') = [] /\ in_use (e_state (engine sys')) 1 = true.
Proof.
  intros p sys'.
  destruct (failed_publish_keeps_identifier sample_system p 1 (mkPool 2 ({[ 1 ]} ∪ ∅)) UnicodeEncodeError)
    as (_ & Hc & Hs & _ & Hi).
  - apply (sample_reachable []).
  - repeat split; vm_compute; try reflexivity; intros; try discriminate; done.
  - done.
  - vm_compute. reflexivity.
  - split; [exact Hc|]. split; [exact Hs|exact Hi].
Defined.

(** PUBCOMP is not checked against the state of the flight.  A broker that answers a QoS 2
    PUBLISH with PUBCOMP alone ends the exchange: the call returns as for a completed handshake,
    though no PUBREC was received and no PUBREL was sent. *)
Theorem pubcomp_without_pubrec sys p pid pool data comp :
  reachable sys -> publishable sys p pid pool data -> p_qos p = EXACTLY_ONCE -> a_packet_id comp = pid ->
  let n := next_call sys in
  let sys' := run_events sys [EvPublish p; EvReceive (PPubComp comp); EvResume n] in
  results sys' = results sys ++ [(n, Ok (RPubComp comp))] /\
  e_sent (engine sys') = e_sent (engine sys) ++ [data].
Proof.
  intros Hok%reachable_ok Hp Hq Hcomp n sys'. pose proof (ck_pid _ _ _ _ (pb_checked _ _ _ _ _ Hp)) as Ha.
  set (f := e_next_ref (engine sys)). set (fl := mkQoS2Flight pid (with_packet_id p pid) PENDING_PUBREC f).
  set (s1 := sent_flight (fun st => set_inflight_qos2_out (<[pid := fl]> (inflight_qos2_out st)) st) pool data (engine sys)).
  assert (fut_state s1 f = FPending) as Hf1 by apply sent_flight_future.
  assert (inflight_qos2_out (e_state s1) !! pid = Some fl) as Hl1 by (cbn; by rewrite lookup_insert_eq).
  subst sys'. unfold run_events. cbn [fold_left].
  change (engine_step sys (EvPublish p)) with (new_call (publish_begin p) sys).
  rewrite (step_call _ _ _ _ (publish_qos2_begin _ _ _ _ _ Hp Hq)). fold f. fold fl. fold s1. fold n.
  set (s3 := settled f (FResult (VPacket (PPubComp comp))) (without_q2 pid s1)).
  rewrite (step_receive _ _ s3); [|apply Hp|apply (pb_checked _ _ _ _ _ Hp)|apply Hp|].
  2: { cbn [_dispatch engine]. rewrite (handle_pubcomp_known _ _ fl); rewrite ?Hcomp; done. }
  destruct (settled_same f (FResult (VPacket (PPubComp comp))) (without_q2 pid s1)) as (E & _).
  destruct (qos2_finished sys pid pool data fl (FResult (VPacket (PPubComp comp))) (Ok (RPubComp comp)) f s3)
    as (Hr & Hs & _); try done.
  - unfold s3. rewrite fut_state_settled, decide_True by done.
    change (fut_state (without_q2 pid s1) f) with (fut_state s1 f). by rewrite Hf1.
  - unfold s3. by rewrite E.
  - unfold s3. by rewrite E.
  - split; [exact Hr|]. etransitivity; [exact Hs|]. unfold s3, settled. by destruct (fut_done _).
Qed.

Lemma pubcomp_without_pubrec_witness :
  let comp := mkAck 1 0 None in
  let sys' := run_events sample_system [EvPublish sample_qos2; EvReceive (PPubComp comp); EvResume 0] in
  results sys' = [(0%nat, Ok (RPubComp comp))] /\ e_sent (engine sys') = [sample_data sample_qos2].
Proof.
  intros comp sys'.
  destruct (pubcomp_without_pubrec sample_system sample_qos2 1 (mkPool 2 ({[ 1 ]} ∪ ∅)) (sample_data sample_qos2) comp)
    as (Hr & Hs); [apply (sample_reachable [])|by apply sample_publishable; right|done|done|].
  split; [exact Hr|exact Hs].
Defined.

(** A ping is not refused after the end of the connection.  While the transport can still be
    written to, a ping begun after [run] has ended is sent and waits; no packet is read any more,
    [run] does not end again, and the call does not resume, so that only its timeout or its
    cancellation ends it. *)
Theorem ping_after_end sys p :
  e_dead (engine sys) = true -> e_lost (engine sys) = false -> e_closed (engine sys) = false ->
  let n := next_call sys in
  let sys' := engine_step sys EvPing in
  (exists t, calls sys' !! n = Some t /\ t_kind t = TPing) /\
  e_sent (engine sys') = e_sent (engine sys) ++ [[Byte.xc0; Byte.x00]] /\
  engine_step sys' (EvReceive p) = sys' /\ engine_step sys' EvRunEnds = sys' /\
  engine_step sys' (EvResume n) = sys'.
Proof.
  intros Hd Hl Hc n sys'.
  set (f := e_next_ref (engine sys)). set (t := mkTask TPing 0 f).
  set (s1 := (create_future (engine sys)).2).
  set (s2 := set_e_sent (e_sent (engine sys) ++ [[Byte.xc0; Byte.x00]])
    (set_e_ping_waiters (e_ping_waiters (engine sys) ++ [f]) s1)).
  assert (ping_begin (engine sys) = (Ok (Suspended t), s2)) as Hb.
  { unfold ping_begin. unfold mbind at 1, M_bind at 1.
    change (create_future (engine sys)) with (@Ok nat f, s1). cbv iota beta.
    unfold mbind at 1, M_bind at 1. cbn [modify]. unfold mbind at 1, M_bind at 1.
    rewrite (send_packet_ok _ [Byte.xc0; Byte.x00]); done. }
  assert (sys' = mkSystem s2 (<[n := t]> (calls sys)) (S n) (results sys) (failure sys)) as ->
    by exact (step_call _ _ _ _ Hb).
  assert (e_dead s2 = true) as Hd2 by exact Hd.
  assert (fut_state s2 f = FPending) as Hf2.
  { unfold fut_state. change (e_futures s2) with (<[f := FPending]> (e_futures (engine sys))). by rewrite lookup_insert_eq. }
  split; [exists t; cbn [calls]; by rewrite lookup_insert_eq|]. split; [done|].
  cbn [engine_step engine calls]. unfold reading. cbn [engine failure]. rewrite Hd2, andb_false_r.
  split; [done|]. split; [done|]. rewrite lookup_insert_eq. change (t_future t) with f. by rewrite Hf2.
Qed.

Lemma ping_after_end_witness :
  let sys := engine_step sample_system EvRunEnds in
  let sys' := engine_step sys EvPing in
  engine_step sys' (EvReceive PPingResp) = sys' /\ engine_step sys' (EvResume 0) = sys'.
Proof.
  intros sys sys'.
  destruct (ping_after_end sys PPingResp eq_refl eq_refl eq_refl) as (_ & _ & H1 & _ & H2).
  split; [exact H1|exact H2].
Defined.
