(* ===== verification/Receiving.v ===== *)
(** * Invariants of the receiving side

    Receive Maximum and the consistency of the replay buffer, for every state the engine can
    reach, and the inbound QoS 2 exchange: one delivery for every PUBLISH and PUBREL. *)

From S2P Require Import Prelude Properties Packets Codec Topic SubscriptionIndex State Engine Inbound Protocol Ownership Calls.

(** ** What a delivery changes *)

(** The replay buffer and the configuration stay, quota units are only given back, a closed
    transport stays closed. *)
Record delivery_frame (s s' : Engine) : Prop := {
  df_replay : e_replay s' = e_replay s;
  df_size : e_replay_buffer_size s' = e_replay_buffer_size s;
  df_limit : e_receive_maximum s' = e_receive_maximum s;
  df_units : e_unacknowledged s' ⊆ e_unacknowledged s;
  df_closed : e_closed s = true -> e_closed s' = true
}.

#[export] Instance delivery_frame_preorder : PreOrder delivery_frame.
Proof.
  split; [by split|]. intros s1 s2 s3 H12 H23. split; try (destruct H12, H23; congruence).
  - etransitivity; [apply (df_units _ _ H23)|apply (df_units _ _ H12)].
  - intros Hc. by apply (df_closed _ _ H23), (df_closed _ _ H12).
Qed.

Ltac delivery_leaf := apply preserves_modify; intros ?; split; cbn; done.
#[export] Hint Extern 3 (preserves delivery_frame (modify _)) => delivery_leaf : frame.
#[export] Hint Extern 3 (preserves delivery_frame (modify_state _)) => apply preserves_modify; intros ?; split; cbn; done : frame.

Lemma delivery_new_ref : preserves delivery_frame new_ref.
Proof. intros s. by split. Qed.
Lemma delivery_send data : preserves delivery_frame (_send data).
Proof. intros s. unfold _send. destruct (_ || _); by split. Qed.
Lemma delivery_resolve f st : preserves delivery_frame (resolve f st).
Proof. intros s. unfold resolve. destruct (fut_done _); by split. Qed.
#[export] Hint Resolve delivery_new_ref delivery_send delivery_resolve : frame.

Lemma delivery_send_packet p : preserves delivery_frame (send_packet p).
Proof. unfold send_packet, _encode. preserve. Qed.
#[export] Hint Resolve delivery_send_packet : frame.
Lemma delivery_abort rc : preserves delivery_frame (abort rc).
Proof. unfold abort, transport_close. preserve. Qed.
Lemma delivery_unless_done f st : preserves delivery_frame (unless_done f (resolve f st)).
Proof. unfold unless_done, is_done. preserve. Qed.
#[export] Hint Resolve delivery_abort delivery_unless_done : frame.
Lemma delivery_complete r : preserves delivery_frame (complete r).
Proof. unfold complete, set_result. preserve. Qed.
Lemma delivery_claim m : preserves delivery_frame (claim m).
Proof. unfold claim, is_done. preserve. Qed.
#[export] Hint Resolve delivery_complete delivery_claim : frame.
Lemma delivery_deliver r cb : preserves delivery_frame (_deliver r cb).
Proof. unfold _deliver, after_put, is_detached, put_nowait, drop_head, set_callback. preserve. Qed.
Lemma delivery_complete_ack p pid : preserves delivery_frame (_complete p pid).
Proof.
  unfold _complete. preserve. apply preserves_modify. intros s. split; cbn; try done. set_solver.
Qed.
#[export] Hint Resolve delivery_deliver delivery_complete_ack : frame.
Lemma delivery_deliver_then r cb k : preserves delivery_frame (deliver_then r cb k).
Proof. unfold deliver_then, after_deliver. preserve. Qed.
Lemma delivery_put_resume : preserves delivery_frame put_resume.
Proof. unfold put_resume, after_put, is_detached, put_nowait, drop_head, after_deliver. preserve. Qed.
#[export] Hint Resolve delivery_deliver_then delivery_put_resume : frame.
Lemma delivery_select_recipient p : preserves delivery_frame (select_recipient p).
Proof. unfold select_recipient, _make_message, _select_subscription. preserve. Qed.
Lemma delivery_deliver_qos1 p r : preserves delivery_frame (_deliver_qos1_publish p r).
Proof. unfold _deliver_qos1_publish, require_packet_id. preserve. Qed.
Lemma delivery_accept_qos2 p r : preserves delivery_frame (_accept_qos2_publish p r).
Proof. unfold _accept_qos2_publish, require_packet_id, detached_recipient, is_detached. preserve. Qed.
#[export] Hint Resolve delivery_select_recipient delivery_deliver_qos1 delivery_accept_qos2 : frame.
Lemma delivery_deliver_replay p r : preserves delivery_frame (deliver_replay p r).
Proof. unfold deliver_replay. preserve. Qed.
Lemma delivery_must_wait r : preserves delivery_frame (must_wait r).
Proof. unfold must_wait. preserve. Qed.
Lemma delivery_message_ack m : preserves delivery_frame (message_ack m).
Proof. unfold message_ack, run_callback. preserve. Qed.
Lemma delivery_handle_pubrel p : preserves delivery_frame (handle_pubrel p).
Proof. unfold handle_pubrel. preserve. Qed.
Lemma delivery_drop_head q : preserves delivery_frame (drop_head q).
Proof. unfold drop_head. preserve. Qed.
#[export] Hint Resolve delivery_deliver_replay delivery_must_wait delivery_message_ack delivery_handle_pubrel
  delivery_drop_head : frame.

(** ** The replay buffer *)

Definition buffered_ids (l : list Publish) : list Z := omap p_packet_id l.
Definition on_topic (t : pystr) (l : list Publish) : list Publish :=
  List.filter (fun p => bool_decide (p_topic p = t)) l.

(** The counters, the topics and the identifiers of [b] are those of the messages [l]. *)
Record counts (b : ReplayBuffer) (l : list Publish) : Prop := {
  ct_count : rb_message_count b = zlen l;
  ct_topics : forall t, topic_count b t = zlen (on_topic t l);
  ct_positive : forall t n, rb_topics b !! t = Some n -> 0 < n;
  ct_ids : forall pid, pid ∈ rb_packet_ids b <-> pid ∈ buffered_ids l;
  ct_nodup : NoDup (buffered_ids l)
}.

Definition replay_ok (s : Engine) : Prop :=
  match e_replay s with
  | PersistentReplayBuffered b =>
      counts b (rb_publishes b) /\
      (0 < e_replay_buffer_size s -> rb_message_count b <= e_replay_buffer_size s)
  | _ => True
  end.

Lemma on_topic_app t l l' : on_topic t (l ++ l') = on_topic t l ++ on_topic t l'.
Proof. apply List.filter_app. Qed.
Lemma on_topic_cons t p l :
  zlen (on_topic t (p :: l)) = (if decide (p_topic p = t) then 1 else 0) + zlen (on_topic t l).
Proof.
  unfold on_topic. cbn [List.filter]. destruct (bool_decide_reflect (p_topic p = t)).
  - rewrite decide_True by done. by rewrite zlen_cons.
  - by rewrite decide_False.
Qed.

Lemma counts_new ref : counts (mkReplayBuffer ref [] ∅ ∅ 0 false) [].
Proof.
  split; cbn; try done.
  - intros pid. split; [by intros ?%not_elem_of_empty|by intros ?%not_elem_of_nil].
  - constructor.
Qed.

Lemma counts_nonneg b l t : counts b l -> 0 <= topic_count b t.
Proof. intros H. rewrite (ct_topics _ _ H). unfold zlen. lia. Qed.

Lemma counts_buffer b l p :
  counts b l -> has_packet_id b (p_packet_id p) = false -> counts (buffer_publish b p) (l ++ [p]).
Proof.
  intros H Hp. destruct H as [Hc Ht Hpos Hi Hn]. split.
  - cbn. rewrite zlen_app, Hc. done.
  - intros t. rewrite on_topic_app, zlen_app, on_topic_cons. unfold topic_count at 1. cbn [buffer_publish rb_topics].
    case_decide as E; [subst t; rewrite lookup_insert_eq, Ht; change (zlen (on_topic _ [])) with 0; lia|].
    rewrite lookup_insert_ne by done. fold (topic_count b t). rewrite Ht. change (zlen (on_topic _ [])) with 0. lia.
  - intros t n. cbn. intros [[<- <-]|[_ Hl]]%lookup_insert_Some; [|by eapply Hpos].
    specialize (Ht (p_topic p)). unfold topic_count in *. destruct (rb_topics b !! p_topic p) eqn:E; [|lia].
    specialize (Hpos _ _ E). lia.
  - intros pid. cbn. unfold buffered_ids in *. rewrite omap_app. cbn. rewrite elem_of_app, <-Hi.
    destruct (p_packet_id p) as [q|]; cbn; [|set_solver]. rewrite list_elem_of_singleton. set_solver.
  - unfold buffered_ids in *. rewrite omap_app. cbn. destruct (p_packet_id p) as [q|]; [|by rewrite app_nil_r].
    apply NoDup_app. split; [done|]. split; [|apply NoDup_singleton].
    intros x Hx ->%list_elem_of_singleton. apply Hi in Hx. cbn in Hp. by apply bool_decide_eq_false in Hp.
Qed.

Lemma counts_discard b l1 p l2 : counts b (l1 ++ p :: l2) -> counts (_discard p b) (l1 ++ l2).
Proof.
  intros [Hc Ht Hpos Hi Hn]. unfold buffered_ids in *. rewrite omap_app in Hn.
  assert (0 < topic_count b (p_topic p)) as Hp.
  { rewrite Ht, on_topic_app, zlen_app, on_topic_cons, decide_True by done. unfold zlen. lia. }
  split.
  - cbn. rewrite Hc, !zlen_app, zlen_cons. lia.
  - intros t. pose proof (Ht t) as Ht'. rewrite on_topic_app, zlen_app, on_topic_cons in Ht'.
    rewrite on_topic_app, zlen_app. unfold topic_count at 1. cbn [_discard rb_topics].
    case_decide as E.
    + subst t. destruct (Z.eqb_spec (topic_count b (p_topic p) - 1) 0);
        [rewrite lookup_delete_eq|rewrite lookup_insert_eq]; lia.
    + destruct (Z.eqb_spec (topic_count b (p_topic p) - 1) 0);
        [rewrite lookup_delete_ne by done|rewrite lookup_insert_ne by done]; fold (topic_count b t); lia.
  - intros t n. cbn. destruct (Z.eqb_spec (topic_count b (p_topic p) - 1) 0).
    + intros [_ Hl]%lookup_delete_Some. by eapply Hpos.
    + intros [[<- <-]|[_ Hl]]%lookup_insert_Some; [lia|by eapply Hpos].
  - intros pid. unfold buffered_ids. rewrite omap_app. cbn [_discard rb_packet_ids].
    specialize (Hi pid). rewrite omap_app in Hi. cbn in Hi, Hn.
    destruct (p_packet_id p) as [q|]; [|by rewrite Hi].
    rewrite elem_of_difference, Hi, elem_of_singleton, !elem_of_app, elem_of_cons.
    apply NoDup_app in Hn as (_ & Hd & Hn). apply NoDup_cons in Hn as [Hn _].
    split; [naive_solver|]. intros Hq. split; [naive_solver|]. intros ->. destruct Hq as [Hq|Hq]; [|done].
    apply (Hd _ Hq). by left.
  - unfold buffered_ids. rewrite omap_app. cbn in Hn. destruct (p_packet_id p) as [q|]; [|done].
    apply NoDup_app in Hn as (H1 & Hd & Hn). apply NoDup_cons in Hn as [_ Hn]. apply NoDup_app.
    split; [done|]. split; [|done]. intros x Hx Hx'. apply (Hd _ Hx). by right.
Qed.

(** ** The invariant *)

Definition quota_ok (s : Engine) : Prop :=
  e_closed s = true \/
  match e_receive_maximum s with
  | Some limit => Z.of_nat (size (e_unacknowledged s)) <= Z.max 0 limit
  | None => True
  end.

Definition receiving_ok (s : Engine) : Prop := replay_ok s /\ quota_ok s.

Definition steady (s s' : Engine) : Prop := receiving_ok s -> receiving_ok s'.

#[export] Instance steady_preorder : PreOrder steady.
Proof. split; unfold steady; intros *; auto. Qed.

Lemma quota_delivery s s' : delivery_frame s s' -> quota_ok s -> quota_ok s'.
Proof.
  intros Hd [Hc|Hq]; [left; by apply (df_closed _ _ Hd)|right]. rewrite (df_limit _ _ Hd).
  destruct (e_receive_maximum s); [|done]. pose proof (subseteq_size _ _ (df_units _ _ Hd)). lia.
Qed.

Lemma steady_delivery s s' : delivery_frame s s' -> steady s s'.
Proof.
  intros Hd [Hr Hq]. split; [|by eapply quota_delivery].
  unfold replay_ok in *. by rewrite (df_replay _ _ Hd), (df_size _ _ Hd).
Qed.

Lemma steady_of_delivery {A} (m : M A) : preserves delivery_frame m -> preserves steady m.
Proof. intros H s. apply steady_delivery, H. Qed.
#[export] Hint Extern 2 (preserves steady _) => apply steady_of_delivery; solve [preserve] : frame.

Lemma abort_closed rc s : e_closed (abort rc s).2 = true.
Proof.
  unfold abort, transport_close, mbind, M_bind. cbn [asks]. destruct rc as [rc|]; [|done].
  by destruct (e_version s).
Qed.

Lemma abort_replay rc s : e_replay (abort rc s).2 = e_replay s /\ e_replay_buffer_size (abort rc s).2 = e_replay_buffer_size s.
Proof. destruct (delivery_abort rc s). done. Qed.

(** Counting a message against Receive Maximum. *)
Lemma steady_hold pid : preserves steady (_hold_receive_quota pid).
Proof.
  intros s [Hr Hq]. unfold _hold_receive_quota, mbind, M_bind. cbn [modify asks].
  set (s1 := set_e_unacknowledged _ s). change (e_receive_maximum s1) with (e_receive_maximum s).
  destruct (e_receive_maximum s) as [limit|] eqn:El; [|split; [exact Hr|right; cbn; by rewrite El]].
  destruct (Z.ltb_spec limit (Z.of_nat (size (e_unacknowledged s1)))).
  - destruct (abort (Some RECEIVE_MAXIMUM_EXCEEDED) s1) as [r s2] eqn:Ea.
    destruct (abort_replay (Some RECEIVE_MAXIMUM_EXCEEDED) s1) as [E1 E2].
    pose proof (abort_closed (Some RECEIVE_MAXIMUM_EXCEEDED) s1) as Hc. rewrite Ea in *. cbn [snd] in *.
    assert (receiving_ok s2) as H2.
    { split; [|by left]. unfold replay_ok. rewrite E1, E2. exact Hr. }
    by destruct r.
  - split; [exact Hr|]. right. cbn. rewrite El. cbn in H. lia.
Qed.
#[export] Hint Resolve steady_hold : frame.

(** ** Accepting a message *)

Lemma replay_ok_abort rc s : replay_ok s -> receiving_ok (abort rc s).2.
Proof.
  intros Hr. destruct (abort_replay rc s) as [E1 E2]. split; [|left; apply abort_closed].
  unfold replay_ok. rewrite E1, E2. exact Hr.
Qed.

(** The states [accept] yields. *)
Lemma accept_buffered_ok b p r s :
  counts b (rb_publishes b) ->
  (0 < e_replay_buffer_size s -> rb_message_count b <= e_replay_buffer_size s) ->
  receiving_ok s ->
  match accept_buffered b p r s with
  | (Ok (_, next), s') => receiving_ok (set_e_replay next s')
  | (Err _, s') => receiving_ok s'
  end.
Proof.
  intros Hb Hl [Hr Hq]. assert (forall next, (forall b', next = PersistentReplayBuffered b' ->
    counts b' (rb_publishes b') /\ (0 < e_replay_buffer_size s -> rb_message_count b' <= e_replay_buffer_size s)) ->
    receiving_ok (set_e_replay next s)) as Hs.
  { intros next Hn. split; [|exact Hq]. unfold replay_ok. cbn. destruct next; try done. by apply Hn. }
  unfold accept_buffered. destruct (is_Some_b (ir_request r)); [apply Hs; by intros b' [= <-]|].
  destruct (_ && _); [apply Hs; by intros b' [= <-]|].
  destruct (has_packet_id b (p_packet_id p)) eqn:Hp; [apply Hs; by intros b' [= <-]|].
  unfold mbind at 1, M_bind at 1. cbn [asks].
  destruct (negb (e_replay_buffer_size s =? 0) && (e_replay_buffer_size s <=? rb_message_count b)) eqn:Hfull.
  - unfold mbind, M_bind. pose proof (replay_ok_abort None s Hr) as Ha.
    destruct (abort None s) as [[]s']; exact Ha.
  - apply Hs. intros b' [= <-]. split; [by apply counts_buffer|].
    intros Hpos. cbn. apply andb_false_iff in Hfull as [Hz%negb_false_iff%Z.eqb_eq|Hf%Z.leb_gt]; lia.
Qed.

Lemma accept_ok replay p r s :
  e_replay s = replay -> receiving_ok s ->
  match accept replay p r s with
  | (Ok (_, next), s') => receiving_ok (set_e_replay next s')
  | (Err _, s') => receiving_ok s'
  end.
Proof.
  intros E Hok. destruct replay as [| |b]; cbn [accept].
  - destruct Hok as [_ Hq]. by split.
  - destruct (_ || _); [destruct Hok as [_ Hq]; by split|]. unfold mbind, M_bind. cbn [new_ref].
    apply (accept_buffered_ok _ p r (set_e_next_ref (S (e_next_ref s)) s)).
    + apply counts_new.
    + cbn. lia.
    + by apply (delivery_new_ref s) || (destruct Hok; by split).
  - pose proof Hok as [Hr _]. unfold replay_ok in Hr. rewrite E in Hr. destruct Hr. by apply accept_buffered_ok.
Qed.

Lemma steady_select_or_buffer p : preserves steady (_select_recipient_or_buffer p).
Proof.
  intros s Hok. unfold _select_recipient_or_buffer. unfold mbind at 1, M_bind at 1. cbn [asks].
  pose proof (delivery_select_recipient p s) as Hd. pose proof (steady_delivery _ _ Hd Hok) as Hok1.
  unfold mbind at 1, M_bind at 1. destruct (select_recipient p s) as [[r|e] s1]; cbn [snd] in *; [|exact Hok1].
  pose proof (accept_ok (e_replay s) p r s1 (df_replay _ _ Hd) Hok1) as Ha.
  unfold mbind, M_bind. destruct (accept (e_replay s) p r s1) as [[[r' next]|e] s2]; exact Ha.
Qed.
#[export] Hint Resolve steady_select_or_buffer : frame.

Lemma steady_handle_publish p : preserves steady (handle_publish p).
Proof. unfold handle_publish, _handle_qos1_publish, _handle_qos2_publish, require_packet_id. preserve. Qed.
#[export] Hint Resolve steady_handle_publish : frame.

(** ** Draining *)

Lemma select_recipient_total p s : exists r s', select_recipient p s = (Ok r, s').
Proof.
  unfold select_recipient, _make_message, claim, _select_subscription, is_done. unfold mbind, M_bind.
  cbn [new_ref modify asks ask_state]. repeat (case_match; simplify_eq/=; eauto).
Qed.

Lemma must_wait_total r s : exists b, must_wait r s = (Ok b, s).
Proof. unfold must_wait. destruct (ir_request r), (ir_subscription r) as [[f e]|]; eexists; reflexivity. Qed.

(** The messages left are those of the loop. *)
Definition draining (l : list Publish) (s : Engine) : Prop :=
  quota_ok s /\
  exists b, e_replay s = PersistentReplayBuffered b /\ counts b l /\
    (0 < e_replay_buffer_size s -> rb_message_count b <= e_replay_buffer_size s).

Lemma draining_delivery l s s' : delivery_frame s s' -> draining l s -> draining l s'.
Proof.
  intros Hd (Hq & b & E & Hc & Hl). split; [by eapply quota_delivery|]. exists b.
  by rewrite (df_replay _ _ Hd), (df_size _ _ Hd).
Qed.

Lemma draining_done l s : draining l s -> receiving_ok (modify_buffer (set_publishes l) s).2.
Proof.
  intros (Hq & b & E & Hc & Hl). unfold modify_buffer. cbn. rewrite E. split; [|exact Hq].
  unfold replay_ok. cbn. split; [|exact Hl]. by destruct Hc.
Qed.

Lemma steady_deliver_pending_loop pending unmatched s :
  draining (unmatched ++ pending) s -> receiving_ok (deliver_pending_loop pending unmatched s).2.
Proof.
  revert unmatched s; induction pending as [|p pending IH]; intros unmatched s Hd; cbn [deliver_pending_loop].
  - apply draining_done. by rewrite app_nil_r in Hd.
  - destruct (select_recipient_total p s) as (r & s1 & E1). pose proof (delivery_select_recipient p s) as F1.
    unfold mbind at 1, M_bind at 1. rewrite E1 in *. cbn [snd] in F1.
    destruct (must_wait_total r s1) as [w E2]. unfold mbind at 1, M_bind at 1. rewrite E2.
    pose proof (draining_delivery _ _ _ F1 Hd) as Hd1. destruct w.
    + apply IH. by rewrite <-app_assoc.
    + pose proof (delivery_deliver_replay p r s1) as F2.
      destruct (deliver_replay p r s1) as [[[]|e] s2]; cbn [snd] in F2;
        pose proof (draining_delivery _ _ _ F2 Hd1) as Hd2.
      * unfold mbind, M_bind. cbn [modify_buffer modify]. apply IH.
        destruct Hd2 as (Hq & b & E & Hc & Hl). rewrite E. split; [exact Hq|].
        exists (_discard p b). split; [done|]. split; [by apply counts_discard|]. cbn. intros Hpos.
        specialize (Hl Hpos). lia.
      * unfold mbind, M_bind. cbn [throw]. by apply draining_done.
Qed.

Lemma steady_deliver_pending : preserves steady _deliver_pending.
Proof.
  intros s [Hr Hq]. unfold _deliver_pending. unfold mbind at 1, M_bind at 1. cbn [asks].
  destruct (e_replay s) as [| |b] eqn:E; [by split..|].
  unfold mbind at 1, M_bind at 1. cbn [modify_buffer modify].
  apply steady_deliver_pending_loop. rewrite E. split; [exact Hq|]. unfold replay_ok in Hr. rewrite E in Hr.
  destruct Hr as [Hc Hl]. exists (set_publishes [] b). split; [done|]. split; [|exact Hl]. by destruct Hc.
Qed.

Lemma steady_set_replay (f : Engine -> Engine) :
  (forall s, f s = s \/ exists r, f s = set_e_replay r s /\ (r = NoSessionReplay \/ r = PersistentReplayIdle)) ->
  preserves steady (modify f).
Proof.
  intros Hf. apply preserves_modify. intros s [Hr Hq]. destruct (Hf s) as [->|(r & -> & Hn)]; [by split|].
  split; [|exact Hq]. unfold replay_ok. cbn. by destruct Hn as [-> | ->].
Qed.
#[export] Hint Resolve steady_deliver_pending : frame.

Lemma steady_drain : preserves steady drain_replay.
Proof.
  unfold drain_replay. preserve. apply steady_set_replay. intros s.
  destruct (e_replay s); try (by left). case_match; [right; eauto|by left].
Qed.

Lemma steady_expire ref : preserves steady (expire_replay ref).
Proof.
  unfold expire_replay. preserve. apply steady_set_replay. intros s.
  destruct (e_replay s); try (by left). right. eexists. split; [done|]. unfold expired. case_match; auto.
Qed.

Lemma steady_expire_after_timeout ref : preserves steady (expire_after_timeout ref).
Proof.
  intros s Hok. unfold expire_after_timeout. pose proof (steady_expire ref s Hok) as H.
  destruct (expire_replay ref s) as [[|e] s']; [exact H|]. apply replay_ok_abort, H.
Qed.
Lemma steady_begin b : preserves steady (begin_session b).
Proof. apply steady_set_replay. intros s. right. eexists. split; [done|]. destruct b; auto. Qed.
Lemma steady_clear : preserves steady inbound_clear.
Proof. apply steady_set_replay. intros s. right. exists NoSessionReplay. by destruct (e_replay s); auto. Qed.
#[export] Hint Resolve steady_drain steady_expire_after_timeout steady_begin steady_clear : frame.

(** ** The other operations *)

Lemma delivery_on_error {A} (m : M A) fin :
  preserves delivery_frame m -> preserves delivery_frame fin -> preserves delivery_frame (on_error m fin).
Proof.
  intros Hm Hf s. unfold on_error. specialize (Hm s). destruct (m s) as [[a|e] s']; [exact Hm|].
  specialize (Hf s'). destruct (fin s') as [[|] s'']; (etransitivity; [exact Hm|exact Hf]).
Qed.

Lemma delivery_acquire : preserves delivery_frame acquire_pid.
Proof. intros s. unfold acquire_pid. destruct (acquire _) as [[]|]; by split. Qed.
Lemma delivery_observe t : preserves delivery_frame (observe t).
Proof. intros s. unfold observe. destruct (add_response_observer _ _). by split. Qed.
Lemma delivery_unobserve t : preserves delivery_frame (unobserve t).
Proof. intros s. unfold unobserve. destruct (remove_response_observer _ _). by split. Qed.
Lemma delivery_await f : preserves delivery_frame (await_result f).
Proof. intros s. unfold await_result. by destruct (fut_state s f). Qed.
Lemma delivery_resumed f thrown : preserves delivery_frame (resumed f thrown).
Proof. unfold resumed. destruct thrown; [preserve|apply delivery_await]. Qed.
Lemma delivery_remove_filters fs : preserves delivery_frame (remove_filters fs).
Proof. induction fs; cbn [remove_filters]; unfold modify_index; preserve. Qed.
Lemma delivery_alive : preserves delivery_frame _ensure_alive.
Proof. unfold _ensure_alive. preserve. Qed.
Lemma delivery_create : preserves delivery_frame create_future.
Proof. unfold create_future. preserve. Qed.
#[export] Hint Extern 2 (preserves delivery_frame (on_error _ _)) => apply delivery_on_error; solve [preserve] : frame.
#[export] Hint Resolve delivery_acquire delivery_observe delivery_unobserve delivery_resumed
  delivery_remove_filters delivery_alive delivery_create : frame.

Lemma delivery_build filters q auto i acc : preserves delivery_frame (build_entries filters q auto i acc).
Proof. revert acc; induction filters as [|r filters IH]; intros acc; cbn [build_entries]; preserve. Qed.
Lemma delivery_forget_sub pid : preserves delivery_frame (forget_sub pid).
Proof. unfold forget_sub, release_pid. preserve. Qed.
Lemma delivery_forget_unsub pid : preserves delivery_frame (forget_unsub pid).
Proof. unfold forget_unsub, release_pid. preserve. Qed.
#[export] Hint Resolve delivery_build delivery_forget_sub delivery_forget_unsub : frame.

Lemma delivery_send_subscribe fs i : preserves delivery_frame (send_subscribe_begin fs i).
Proof. unfold send_subscribe_begin. preserve. Qed.
Lemma delivery_send_unsubscribe fs : preserves delivery_frame (send_unsubscribe_begin fs).
Proof. unfold send_unsubscribe_begin. preserve. Qed.
Lemma delivery_sub_finish fs pid f thrown : preserves delivery_frame (send_subscribe_finish fs pid f thrown).
Proof. unfold send_subscribe_finish, as_suback. preserve. Qed.
Lemma delivery_unsub_finish pid f thrown : preserves delivery_frame (send_unsubscribe_finish pid f thrown).
Proof. unfold send_unsubscribe_finish, as_unsuback. preserve. Qed.
#[export] Hint Resolve delivery_send_subscribe delivery_send_unsubscribe delivery_sub_finish delivery_unsub_finish : frame.

Lemma delivery_restore broker observed ack : preserves delivery_frame (restore_begin broker observed ack).
Proof.
  unfold restore_begin. destruct observed as [|f fs]; [preserve|]. intros s.
  pose proof (delivery_send_subscribe (map observer_request (f :: fs)) None s) as H.
  by destruct (send_subscribe_begin _ _ s) as [[[pid g]|e] s'].
Qed.
#[export] Hint Resolve delivery_restore : frame.

Lemma delivery_publish p : preserves delivery_frame (publish_begin p).
Proof. unfold publish_begin. preserve. Qed.
Lemma delivery_subscribe fs q auto i : preserves delivery_frame (subscribe_begin fs q auto i).
Proof. unfold subscribe_begin, modify_index. preserve. Qed.
Lemma delivery_unsubscribe fs : preserves delivery_frame (unsubscribe_begin fs).
Proof. unfold unsubscribe_begin. preserve. Qed.
Lemma delivery_add_observer t : preserves delivery_frame (add_response_observer_begin t).
Proof. unfold add_response_observer_begin. preserve. Qed.
Lemma delivery_remove_observer t : preserves delivery_frame (remove_response_observer_begin t).
Proof. unfold remove_response_observer_begin. preserve. Qed.
Lemma delivery_ping : preserves delivery_frame ping_begin.
Proof. unfold ping_begin. preserve. Qed.
Lemma delivery_detach fs : preserves delivery_frame (detach fs).
Proof. unfold detach. preserve. Qed.
Lemma delivery_auth p : preserves delivery_frame (send_auth p).
Proof. unfold send_auth. preserve. Qed.
Lemma delivery_disconnect : preserves delivery_frame disconnect.
Proof. unfold disconnect, transport_close. preserve. Qed.
Lemma delivery_restore_detached l : preserves delivery_frame (restore_detached l).
Proof. unfold restore_detached, modify_index. preserve. Qed.
Lemma delivery_bind_router : preserves delivery_frame bind_router.
Proof. unfold bind_router. preserve. Qed.
#[export] Hint Resolve delivery_publish delivery_subscribe delivery_unsubscribe delivery_add_observer
  delivery_remove_observer delivery_ping delivery_detach delivery_auth delivery_disconnect
  delivery_restore_detached delivery_bind_router : frame.

Lemma delivery_puback p : preserves delivery_frame (_handle_puback p).
Proof. unfold _handle_puback, release_pid, set_result. preserve. Qed.
Lemma delivery_pubrec p : preserves delivery_frame (_handle_pubrec p).
Proof. unfold _handle_pubrec, release_pid, set_exception. preserve. Qed.
Lemma delivery_pubcomp p : preserves delivery_frame (_handle_pubcomp p).
Proof. unfold _handle_pubcomp, release_pid, set_result. preserve. Qed.
#[export] Hint Resolve delivery_puback delivery_pubrec delivery_pubcomp : frame.

Lemma steady_dispatch p : preserves steady (_dispatch p).
Proof. unfold _dispatch, _handle_suback, _handle_unsuback, _handle_pingresp, set_result. destruct p; preserve. Qed.

Lemma steady_run_finally : preserves steady run_finally.
Proof. unfold run_finally, _cancel_pending. preserve. Qed.

Lemma delivery_task_finish t thrown : preserves delivery_frame (task_finish t thrown).
Proof.
  destruct t as [kind pid f]. destruct kind; cbn [task_finish]; unfold ping_finish.
  - preserve.
  - preserve.
  - preserve.
  - preserve.
  - preserve.
  - intros s. pose proof (delivery_sub_finish filters pid f thrown s) as H.
    destruct (send_subscribe_finish filters pid f thrown s) as [[a|e] s']; [exact H|]. by destruct (is_exception e).
  - preserve.
  - preserve.
Qed.
#[export] Hint Resolve steady_dispatch steady_run_finally delivery_task_finish : frame.

(** ** Every interleaving *)

Lemma new_call_engine m sys : engine (new_call m sys) = (m (engine sys)).2.
Proof. unfold new_call, settle. by destruct (m (engine sys)) as [[[v|t]|e] s]. Qed.
Lemma settle_engine n r s sys : engine (settle n r s sys) = s.
Proof. by destruct r as [[v|t]|e]. Qed.
Lemma run_reader_engine m sys : engine (run_reader m sys) = (m (engine sys)).2.
Proof. unfold run_reader. by destruct (m (engine sys)) as [[a|e] s]. Qed.

Lemma steady_rejecting_oversized e : preserves steady (rejecting_oversized e).
Proof. unfold rejecting_oversized. destruct e; preserve. Qed.

Lemma engine_step_steady sys ev : steady (engine sys) (engine (engine_step sys ev)).
Proof.
  assert (forall n t thrown, steady (engine sys)
    (engine (let '(r, s) := task_finish t thrown (engine sys) in settle n r s sys))) as Hfin.
  { intros n t thrown. pose proof (steady_of_delivery _ (delivery_task_finish t thrown) (engine sys)) as H.
    destruct (task_finish t thrown (engine sys)) as [r s]. by rewrite settle_engine. }
  destruct ev; cbn [engine_step run_unit with_engine engine]; rewrite ?new_call_engine;
    try match goal with |- steady (engine sys) (?m (engine sys)).2 =>
      assert (preserves steady m) as Hm by preserve; apply Hm end.
  - case_match; [|reflexivity]. rewrite run_reader_engine. unfold handle_connack.
    match goal with |- steady _ (?m _).2 => assert (preserves steady m) as Hm by preserve; apply Hm end.
  - case_match; [|reflexivity]. rewrite run_reader_engine. apply steady_dispatch.
  - case_match; [|reflexivity]. rewrite run_reader_engine. apply steady_rejecting_oversized.
  - case_match; [|reflexivity]. rewrite run_reader_engine. apply steady_delivery, delivery_put_resume.
  - destruct (calls sys !! call) as [t|]; [|reflexivity]. case_match; [apply Hfin|].
    apply steady_delivery. by split.
  - destruct (calls sys !! call) as [t|]; [|reflexivity]. case_match; [apply Hfin|reflexivity].
  - destruct (calls sys !! call) as [t|]; [|reflexivity]. case_match; [apply Hfin|reflexivity].
  - apply steady_delivery. by split.
  - case_match; [reflexivity|]. apply steady_run_finally.
Qed.

Lemma reachable_receiving sys : reachable sys -> receiving_ok (engine sys).
Proof.
  induction 1; [|by apply engine_step_steady]. split; [done|]. right. cbn. destruct limit; [|done].
  rewrite size_empty. lia.
Qed.

(** ** Receive Maximum *)

Definition disconnect_0x93 : bytes := [Byte.xe0; Byte.x02; Byte.x93; Byte.x00].

(** The outcome of a message above the limit. *)
Lemma hold_exceeded pid s limit :
  e_receive_maximum s = Some limit -> limit < Z.of_nat (size ({[ pid ]} ∪ e_unacknowledged s)) ->
  exists s', _hold_receive_quota pid s = (Err (MQTTProtocolError "Broker exceeded the Receive Maximum"), s') /\
    e_closed s' = true /\ e_queues s' = e_queues s /\ e_replay s' = e_replay s /\ e_state s' = e_state s /\
    e_sent s' = e_sent s ++
      (if bool_decide (e_version s = V50) && negb (e_lost s || e_closed s) then [disconnect_0x93] else []).
Proof.
  intros El Hs. unfold _hold_receive_quota, mbind, M_bind. cbn [modify asks].
  set (s1 := set_e_unacknowledged _ s). change (e_receive_maximum s1) with (e_receive_maximum s). rewrite El.
  change (e_unacknowledged s1) with ({[ pid ]} ∪ e_unacknowledged s). rewrite (proj2 (Z.ltb_lt _ _)) by done.
  unfold abort, transport_close, mbind, M_bind. cbn [asks modify]. change (e_version s1) with (e_version s).
  destruct (e_version s) eqn:Ev; cbn [bool_decide andb]; (eexists; split; [reflexivity|]).
  - cbn. rewrite app_nil_r. done.
  - unfold suppress, send_packet, _encode, _send, mbind, M_bind. cbn [asks lift]. change (e_version s1) with (e_version s).
    rewrite Ev. cbn [snd]. change (e_lost s1) with (e_lost s). change (e_closed s1) with (e_closed s).
    replace (encode (PDisconnect (mkDisconnect RECEIVE_MAXIMUM_EXCEEDED None)) V50) with (Ok disconnect_0x93)
      by (vm_compute; reflexivity).
    destruct (e_lost s || e_closed s); cbn; rewrite ?app_nil_r; done.
Qed.

(** C30: Receive Maximum.  In every reachable state whose connection has not been closed, at most
    Receive Maximum incoming QoS 1 and QoS 2 messages hold a unit; a PUBLISH that would exceed it
    is refused with a protocol error and the connection is closed, on MQTT 5.0 after DISCONNECT
    with reason 0x93, and nothing is delivered, buffered or recorded for it. *)
Theorem receive_maximum_enforced sys limit :
  reachable sys -> e_receive_maximum (engine sys) = Some limit ->
  let s := engine sys in
  (e_closed s = true \/ Z.of_nat (size (e_unacknowledged s)) <= Z.max 0 limit) /\
  (forall p pid, p_qos p <> AT_MOST_ONCE -> p_packet_id p = Some pid ->
    limit < Z.of_nat (size ({[ pid ]} ∪ e_unacknowledged s)) ->
    exists s', handle_publish p s = (Err (MQTTProtocolError "Broker exceeded the Receive Maximum"), s') /\
      e_closed s' = true /\ e_queues s' = e_queues s /\ e_replay s' = e_replay s /\ e_state s' = e_state s /\
      e_sent s' = e_sent s ++
        (if bool_decide (e_version s = V50) && negb (e_lost s || e_closed s) then [disconnect_0x93] else [])).
Proof.
  intros [_ Hq]%reachable_receiving El s. fold s in Hq, El. split.
  - unfold quota_ok in Hq. by rewrite El in Hq.
  - intros p pid Hqos Hp Hs. destruct (hold_exceeded pid s limit El Hs) as (s' & Hh & Hrest). exists s'.
    split; [|exact Hrest]. unfold handle_publish, _handle_qos1_publish, _handle_qos2_publish, require_packet_id.
    rewrite Hp. by destruct (p_qos p); [done|..]; unfold mbind, M_bind; cbn [mret M_ret]; rewrite Hh.
Qed.

Definition inbound_sample (qos : QoS) (pid : Z) : Publish :=
  mkPublish (py "a/b") [] qos false false (Some pid) None.

Lemma receive_maximum_enforced_witness :
  let sys := run_events (system_new (engine_new V50 [] 60 (Some 2) 1000 None ∅ 0))
    [EvConnAck (PConnAck (mkConnAck true 0 None)); EvReceive (PPublish (inbound_sample AT_LEAST_ONCE 1));
     EvReceive (PPublish (inbound_sample EXACTLY_ONCE 2))] in
  exists s', handle_publish (inbound_sample AT_LEAST_ONCE 3) (engine sys) =
    (Err (MQTTProtocolError "Broker exceeded the Receive Maximum"), s') /\ e_sent s' = [disconnect_0x93].
Proof.
  intros sys.
  destruct (receive_maximum_enforced sys 2) as (_ & H);
    [apply reachable_events, reachable_new, dispatcher_below_none|vm_compute; reflexivity|].
  destruct (H (inbound_sample AT_LEAST_ONCE 3) 3) as (s' & H1 & _ & _ & _ & _ & H2);
    [done|done|vm_compute; reflexivity|].
  exists s'. split; [exact H1|]. rewrite H2. vm_compute. reflexivity.
Defined.

(** C31: the replay buffer of a resumed session.  In every reachable state, the counters of the
    buffer, the number of messages per topic and the set of packet identifiers are exactly those
    of the messages it holds, no identifier is buffered twice, and it never holds more messages
    than its limit (0 is no limit).  ([Draining.drain_accounts] has this of the moments at which a drain is suspended in a write.) *)
Theorem replay_buffer_consistent sys b :
  reachable sys -> e_replay (engine sys) = PersistentReplayBuffered b ->
  rb_message_count b = zlen (rb_publishes b) /\
  (forall t, topic_count b t = zlen (on_topic t (rb_publishes b))) /\
  (forall pid, pid ∈ rb_packet_ids b <-> pid ∈ buffered_ids (rb_publishes b)) /\
  NoDup (buffered_ids (rb_publishes b)) /\
  (0 < e_replay_buffer_size (engine sys) -> zlen (rb_publishes b) <= e_replay_buffer_size (engine sys)).
Proof.
  intros [Hr _]%reachable_receiving E. unfold replay_ok in Hr. rewrite E in Hr.
  destruct Hr as [[Hc Ht _ Hi Hn] Hl]. rewrite <-Hc. done.
Qed.

Lemma replay_buffer_consistent_witness :
  let p0 := mkPublish (py "a/b") [] AT_MOST_ONCE false false None None in
  let sys := run_events (system_new (engine_new V50 [] 60 None 2 None ∅ 0))
    [EvConnAck (PConnAck (mkConnAck true 0 None)); EvReceive (PPublish (inbound_sample AT_LEAST_ONCE 1));
     EvReceive (PPublish p0); EvReceive (PPublish (inbound_sample AT_LEAST_ONCE 1))] in
  match e_replay (engine sys) with
  | PersistentReplayBuffered b => rb_message_count b = 2 /\ 1 ∈ rb_packet_ids b
  | _ => False
  end.
Proof.
  intros p0 sys.
  assert (reachable sys) as Hr by apply reachable_events, reachable_new, dispatcher_below_none.
  destruct (e_replay (engine sys)) as [| |b] eqn:E; [vm_compute in E; discriminate E..|].
  destruct (replay_buffer_consistent sys b Hr E) as (Hc & _ & Hi & _ & _).
  assert (rb_publishes b = [inbound_sample AT_LEAST_ONCE 1; p0]) as Hp
    by (vm_compute in E; injection E as <-; vm_compute; reflexivity).
  split; [rewrite Hc, Hp; reflexivity|]. apply Hi. rewrite Hp. by left.
Defined.

(** ** One delivery for every QoS 2 message *)

Fixpoint in_sequence (ms : list (M unit)) : M unit :=
  match ms with [] => mret tt | m :: ms' => _ ← m; in_sequence ms' end.

Lemma in_sequence_app ms ms' s s1 :
  in_sequence ms s = (Ok tt, s1) -> in_sequence (ms ++ ms') s = in_sequence ms' s1.
Proof.
  revert s; induction ms as [|m ms IH]; intros s; cbn [in_sequence app]; [by intros [= ->]|].
  unfold mbind, M_bind. destruct (m s) as [[a|e] s2]; [apply IH|done].
Qed.

(** A PUBLISH with identifier [pid] that goes to the subscription [f], on a connection that is up,
    within its Receive Maximum. *)
Record delivers (s : Engine) (p : Publish) (pid : Z) (f : pystr) (entry : SubscriptionEntry) : Prop := {
  dl_pid : p_packet_id p = Some pid;
  dl_range : 1 <= pid <= MAX_PACKET_ID;
  dl_uncorrelated : match p_properties p with Some props => pp_correlation_data props = None | None => True end;
  dl_selected : exists sel, _select_subscription p s = (Ok sel, s) /\ recipient sel = Some (f, entry);
  dl_replay : e_replay s = NoSessionReplay \/ e_replay s = PersistentReplayIdle;
  dl_attached : se_ref entry ∉ e_detached s;
  dl_auto : se_auto_ack entry = true;
  dl_limit : match e_receive_maximum s with
             | Some limit => Z.of_nat (size ({[ pid ]} ∪ e_unacknowledged s)) <= limit
             | None => True
             end;
  dl_lost : e_lost s = false;
  dl_closed : e_closed s = false
}.

Definition message_of (s : Engine) (p : Publish) : Message :=
  mkMessage (e_next_ref s) (p_topic p) (p_payload p) (p_qos p) (p_retain p) (p_properties p).

Lemma hold_within pid s :
  match e_receive_maximum s with
  | Some limit => Z.of_nat (size ({[ pid ]} ∪ e_unacknowledged s)) <= limit
  | None => True
  end ->
  _hold_receive_quota pid s = (Ok tt, set_e_unacknowledged ({[ pid ]} ∪ e_unacknowledged s) s).
Proof.
  intros Hl. unfold _hold_receive_quota, mbind, M_bind. cbn [modify asks].
  change (e_receive_maximum (set_e_unacknowledged _ s)) with (e_receive_maximum s).
  destruct (e_receive_maximum s) as [limit|]; [|done]. cbn [e_unacknowledged set_e_unacknowledged].
  by rewrite (proj2 (Z.ltb_ge _ _)).
Qed.

Lemma claim_uncorrelated m s :
  match msg_properties m with Some props => pp_correlation_data props = None | None => True end ->
  claim m s = (Ok None, s).
Proof.
  intros H. unfold claim, mbind, M_bind. cbn [asks]. destruct (e_dispatcher s); [|done].
  destruct (msg_properties m); [|done]. by rewrite H.
Qed.

(** The selected recipient gets a fresh message. *)
Lemma select_recipient_delivers s p pid f entry :
  delivers s p pid f entry ->
  let s1 := set_e_unacknowledged ({[ pid ]} ∪ e_unacknowledged s) s in
  _select_recipient_or_buffer p s1 =
    (Ok (Some (mkRecipient (message_of s p) None (Some (f, entry)))),
     set_e_replay (e_replay s) (set_e_messages (<[e_next_ref s := mkMessageState None false]> (e_messages s))
       (set_e_next_ref (S (e_next_ref s)) s1))).
Proof.
  intros Hd s1. destruct (dl_selected _ _ _ _ _ Hd) as (sel & Hs & Hr).
  unfold _select_recipient_or_buffer, mbind, M_bind. cbn [asks].
  assert (select_recipient p s1 = (Ok (mkRecipient (message_of s p) None (Some (f, entry))),
    set_e_messages (<[e_next_ref s := mkMessageState None false]> (e_messages s))
       (set_e_next_ref (S (e_next_ref s)) s1))) as ->.
  { unfold select_recipient, _make_message, mbind, M_bind. cbn [new_ref modify mret M_ret].
    rewrite claim_uncorrelated by exact (dl_uncorrelated _ _ _ _ _ Hd).
    unfold _select_subscription, ask_state, mbind, M_bind in *. cbn [asks] in *.
    change (subscriptions (e_state (set_e_messages _ _))) with (subscriptions (e_state s)).
    destruct (publish_identifier p); cbn [mret M_ret] in *; injection Hs as <-; by rewrite Hr. }
  cbn [e_replay]. change (e_replay s1) with (e_replay s).
  destruct (dl_replay _ _ _ _ _ Hd) as [-> | ->]; reflexivity.
Qed.

(** No QoS 2 exchange with [pid] is open. *)
Definition untracked (s : Engine) (pid : Z) : Prop :=
  inflight_qos2_in (e_state s) !! pid = None /\ pid ∉ pending_ack_qos2_in (e_state s).

(** The first PUBLISH is recorded and answered with PUBREC. *)
Definition recorded (s : Engine) (p : Publish) (pid : Z) (f : pystr) (entry : SubscriptionEntry) : Engine :=
  let fl := mkInboundFlight pid (mkRecipient (message_of s p) None (Some (f, entry))) false in
  let s1 := set_e_replay (e_replay s) (set_e_messages (<[e_next_ref s := mkMessageState None false]> (e_messages s))
    (set_e_next_ref (S (e_next_ref s)) (set_e_unacknowledged ({[ pid ]} ∪ e_unacknowledged s) s))) in
  set_e_sent (e_sent s ++ [pubrec_bytes pid])
    (set_e_state (set_inflight_qos2_in (<[pid := fl]> (inflight_qos2_in (e_state s))) (e_state s)) s1).

Lemma contains_packet_id_free replay pid :
  replay = NoSessionReplay \/ replay = PersistentReplayIdle -> contains_packet_id replay pid = false.
Proof. by intros [-> | ->]. Qed.

Lemma first_qos2_publish s p pid f entry :
  p_qos p = EXACTLY_ONCE -> delivers s p pid f entry -> untracked s pid ->
  handle_publish p s = (Ok tt, recorded s p pid f entry).
Proof.
  intros Hq Hd [Hfl Hpend]. unfold handle_publish. rewrite Hq. unfold _handle_qos2_publish, require_packet_id, mbind, M_bind.
  rewrite (dl_pid _ _ _ _ _ Hd). cbn [mret M_ret]. rewrite (hold_within _ _ (dl_limit _ _ _ _ _ Hd)). cbn [asks].
  set (s1 := set_e_unacknowledged _ s). change (e_state s1) with (e_state s). change (e_replay s1) with (e_replay s).
  rewrite Hfl. cbn [is_Some_b]. rewrite bool_decide_eq_false_2 by exact Hpend.
  rewrite (contains_packet_id_free _ _ (dl_replay _ _ _ _ _ Hd)).
  subst s1. rewrite (select_recipient_delivers _ _ _ _ _ Hd). set (s2 := set_e_replay _ _).
  unfold _accept_qos2_publish, require_packet_id, detached_recipient, is_detached, mbind, M_bind.
  rewrite (dl_pid _ _ _ _ _ Hd). cbn [mret M_ret ir_subscription asks].
  change (e_detached s2) with (e_detached s). rewrite bool_decide_eq_false_2 by exact (dl_attached _ _ _ _ _ Hd).
  cbn [auto_ack ir_request ir_subscription]. rewrite (dl_auto _ _ _ _ _ Hd). cbn [modify_state modify].
  rewrite (send_packet_ok _ (pubrec_bytes pid)); [done| | |].
  - apply encode_pubrec, (dl_range _ _ _ _ _ Hd).
  - exact (dl_lost _ _ _ _ _ Hd).
  - exact (dl_closed _ _ _ _ _ Hd).
Qed.

(** A PUBLISH that is already recorded is answered with PUBREC again and changes nothing else. *)
Lemma repeated_qos2_publish s p pid :
  p_qos p = EXACTLY_ONCE -> p_packet_id p = Some pid -> 1 <= pid <= MAX_PACKET_ID ->
  is_Some_b (inflight_qos2_in (e_state s) !! pid) = true -> pid ∈ e_unacknowledged s ->
  match e_receive_maximum s with
  | Some limit => Z.of_nat (size (e_unacknowledged s)) <= limit
  | None => True
  end -> e_lost s = false -> e_closed s = false ->
  handle_publish p s = (Ok tt, set_e_sent (e_sent s ++ [pubrec_bytes pid]) s).
Proof.
  intros Hq Hp Hr Hfl Hu Hl Hlost Hclosed. unfold handle_publish. rewrite Hq.
  unfold _handle_qos2_publish, require_packet_id, mbind, M_bind. rewrite Hp. cbn [mret M_ret].
  assert ({[ pid ]} ∪ e_unacknowledged s = e_unacknowledged s) as E by set_solver.
  rewrite hold_within by (by rewrite E). cbn [asks]. rewrite E.
  set (s1 := set_e_unacknowledged _ s). change (e_state s1) with (e_state s). rewrite Hfl.
  replace s1 with s by (by destruct s). apply send_packet_ok; [by apply encode_pubrec|done..].
Qed.

Lemma repeated_qos2_publishes k s p pid :
  p_qos p = EXACTLY_ONCE -> p_packet_id p = Some pid -> 1 <= pid <= MAX_PACKET_ID ->
  is_Some_b (inflight_qos2_in (e_state s) !! pid) = true -> pid ∈ e_unacknowledged s ->
  match e_receive_maximum s with
  | Some limit => Z.of_nat (size (e_unacknowledged s)) <= limit
  | None => True
  end -> e_lost s = false -> e_closed s = false ->
  in_sequence (replicate k (handle_publish p)) s =
    (Ok tt, set_e_sent (e_sent s ++ replicate k (pubrec_bytes pid)) s).
Proof.
  intros Hq Hp Hr. revert s; induction k as [|k IH]; intros s Hfl Hu Hl Hlost Hclosed; cbn [replicate in_sequence].
  - rewrite app_nil_r. by destruct s.
  - unfold mbind, M_bind. rewrite (repeated_qos2_publish s p pid) by done.
    rewrite IH by done. cbn. by rewrite <-app_assoc.
Qed.

(** PUBREL for a recorded message, with room in the queue of its subscription. *)
Lemma pubrel_recorded s rel pid m f entry :
  a_packet_id rel = pid -> 1 <= pid <= MAX_PACKET_ID ->
  inflight_qos2_in (e_state s) !! pid = Some (mkInboundFlight pid (mkRecipient m None (Some (f, entry))) false) ->
  se_ref entry ∉ e_detached s -> queue_full (queue_of s (se_queue entry)) = false ->
  e_lost s = false -> e_closed s = false ->
  let x := queue_of s (se_queue entry) in
  handle_pubrel rel s =
    (Ok tt, set_e_queues (<[se_queue entry := mkQueue (q_maxsize x) (q_items x ++ [m])]> (e_queues s))
      (set_e_sent (e_sent s ++ [pubcomp_bytes pid])
        (set_e_unacknowledged (e_unacknowledged s ∖ {[ pid ]})
          (set_e_state (set_inflight_qos2_in (delete pid (inflight_qos2_in (e_state s))) (e_state s)) s)))).
Proof.
  intros Hrel Hr Hfl Hat Hroom Hlost Hclosed x. unfold handle_pubrel, ask_state, _complete, mbind, M_bind.
  cbn [asks modify_state modify]. rewrite Hrel, Hfl.
  rewrite (send_packet_ok _ (pubcomp_bytes pid)); [|by apply encode_pubcomp|done|done].
  cbn [i2_delivered i2_recipient]. set (s1 := set_e_sent _ _).
  unfold deliver_then, _deliver, is_detached, mbind, M_bind. cbn [ir_request ir_subscription asks].
  change (e_detached s1) with (e_detached s). rewrite bool_decide_eq_false_2 by done. cbn [mret M_ret].
  change (queue_of s1 (se_queue entry)) with x. subst x. rewrite Hroom.
  unfold put_nowait, after_put, is_detached, mbind, M_bind. cbn [modify asks].
  change (e_detached (set_e_queues _ s1)) with (e_detached s). rewrite bool_decide_eq_false_2 by done. reflexivity.
Qed.

Lemma pubrel_unknown s rel pid :
  a_packet_id rel = pid -> 1 <= pid <= MAX_PACKET_ID -> inflight_qos2_in (e_state s) !! pid = None ->
  e_lost s = false -> e_closed s = false ->
  handle_pubrel rel s =
    (Ok tt, set_e_sent (e_sent s ++ [pubcomp_unknown (e_version s) pid])
      (set_e_state (set_inflight_qos2_in (delete pid (inflight_qos2_in (e_state s))) (e_state s)) s)).
Proof.
  intros Hrel Hr Hfl Hlost Hclosed. unfold handle_pubrel, ask_state, mbind, M_bind. cbn [asks modify_state modify].
  rewrite Hrel, Hfl. rewrite (send_packet_ok _ (pubcomp_unknown (e_version s) pid));
    [done|by apply encode_pubcomp_unknown|done|done].
Qed.

(** C15: a QoS 2 message is delivered exactly once.  However often the broker repeats the PUBLISH,
    each copy is answered with PUBREC and none is delivered; the first PUBREL puts the message
    into the queue of its subscription, once, gives the Receive Maximum unit back and is answered
    with PUBCOMP; a repeated PUBREL is answered with PUBCOMP (reason 0x92 on MQTT 5.0) and
    delivers nothing. *)
Theorem qos2_delivered_once s p pid f entry rel k :
  p_qos p = EXACTLY_ONCE -> delivers s p pid f entry -> untracked s pid -> a_packet_id rel = pid ->
  queue_full (queue_of s (se_queue entry)) = false ->
  exists s', in_sequence (replicate (S k) (handle_publish p) ++ [handle_pubrel rel; handle_pubrel rel]) s = (Ok tt, s') /\
    (let x := queue_of s (se_queue entry) in
     e_queues s' = <[se_queue entry := mkQueue (q_maxsize x) (q_items x ++ [message_of s p])]> (e_queues s)) /\
    e_sent s' = e_sent s ++ replicate (S k) (pubrec_bytes pid) ++ [pubcomp_bytes pid; pubcomp_unknown (e_version s) pid] /\
    inflight_qos2_in (e_state s') = inflight_qos2_in (e_state s) /\
    e_unacknowledged s' = e_unacknowledged s ∖ {[ pid ]}.
Proof.
  intros Hq Hd Hun Hrel Hroom. pose proof (dl_range _ _ _ _ _ Hd) as Hr.
  set (s1 := recorded s p pid f entry).
  set (s2 := set_e_sent (e_sent s1 ++ replicate k (pubrec_bytes pid)) s1).
  assert (in_sequence (replicate (S k) (handle_publish p)) s = (Ok tt, s2)) as H2.
  { cbn [replicate in_sequence]. unfold mbind, M_bind. rewrite (first_qos2_publish s p pid f entry) by done. fold s1.
    apply repeated_qos2_publishes; try done.
    - exact (dl_pid _ _ _ _ _ Hd).
    - cbn. by rewrite lookup_insert_eq.
    - cbn. set_solver.
    - exact (dl_limit _ _ _ _ _ Hd).
    - exact (dl_lost _ _ _ _ _ Hd).
    - exact (dl_closed _ _ _ _ _ Hd). }
  rewrite (in_sequence_app _ _ _ _ H2). cbn [in_sequence]. unfold mbind, M_bind.
  rewrite (pubrel_recorded s2 rel pid (message_of s p) f entry); try done.
  2: { cbn. by rewrite lookup_insert_eq. }
  2: { exact (dl_attached _ _ _ _ _ Hd). }
  2: { exact (dl_lost _ _ _ _ _ Hd). }
  2: { exact (dl_closed _ _ _ _ _ Hd). }
  rewrite (pubrel_unknown _ rel pid); try done.
  2: { cbn. by rewrite lookup_delete_eq. }
  2: { exact (dl_lost _ _ _ _ _ Hd). }
  2: { exact (dl_closed _ _ _ _ _ Hd). }
  eexists. split; [reflexivity|]. split; [done|]. split; [|split].
  - cbn. by rewrite <-!app_assoc.
  - cbn. rewrite delete_insert_eq, (delete_id (delete _ _)) by apply lookup_delete_eq.
    apply delete_id, Hun.
  - cbn. set_solver.
Qed.

(** ** A connection with one subscription *)

Definition receiving_entry : SubscriptionEntry := mkSubscriptionEntry 0 0 true (py "a/+") None.

(** One subscription, whose queue holds one message. *)
Definition receiving_sample (maxsize : Z) : Engine :=
  let s := engine_new V311 [] 60 None 1000 None
    {[ 0%nat := mkQueue maxsize [mkMessage 7 (py "a/x") [] AT_MOST_ONCE false None] ]} 8 in
  set_e_state (set_subscriptions (add index_new (py "a/+") receiving_entry) (e_state s)) s.

Lemma sample_delivers maxsize qos :
  delivers (receiving_sample maxsize) (inbound_sample qos 5) 5 (py "a/+") receiving_entry.
Proof.
  split; try (vm_compute; reflexivity); try done.
  - eexists. split; [unfold _select_subscription, mbind, M_bind; cbn; reflexivity|vm_compute; reflexivity].
  - by left.
Qed.

Lemma qos2_delivered_once_witness :
  let s := receiving_sample 2 in
  let p := inbound_sample EXACTLY_ONCE 5 in
  let rel := mkAck 5 0 None in
  exists s', in_sequence [handle_publish p; handle_publish p; handle_publish p; handle_pubrel rel; handle_pubrel rel] s
      = (Ok tt, s') /\
    length (q_items (queue_of s' 0)) = 2%nat /\ length (e_sent s') = 5%nat.
Proof.
  intros s p rel.
  destruct (qos2_delivered_once s p 5 (py "a/+") receiving_entry rel 2) as (s' & H & Hq & Hs & _);
    [done|apply sample_delivers|split; [done|by intros ?%not_elem_of_empty]|done|vm_compute; reflexivity|].
  exists s'. split; [exact H|]. unfold queue_of. rewrite Hq, Hs. split; vm_compute; reflexivity.
Defined.

(** ** PUBACK after delivery *)

Lemma qos1_selected s p pid f entry :
  p_qos p = AT_LEAST_ONCE -> delivers s p pid f entry ->
  handle_publish p s =
    deliver_then (mkRecipient (message_of s p) None (Some (f, entry))) None (AfterPubAck pid)
      (set_e_replay (e_replay s) (set_e_messages (<[e_next_ref s := mkMessageState None false]> (e_messages s))
        (set_e_next_ref (S (e_next_ref s)) (set_e_unacknowledged ({[ pid ]} ∪ e_unacknowledged s) s)))).
Proof.
  intros Hq Hd. unfold handle_publish. rewrite Hq. unfold _handle_qos1_publish, require_packet_id, mbind, M_bind.
  rewrite (dl_pid _ _ _ _ _ Hd). cbn [mret M_ret]. rewrite (hold_within _ _ (dl_limit _ _ _ _ _ Hd)). cbn [asks].
  change (e_replay (set_e_unacknowledged _ s)) with (e_replay s).
  rewrite (contains_packet_id_free _ _ (dl_replay _ _ _ _ _ Hd)).
  rewrite (select_recipient_delivers _ _ _ _ _ Hd).
  unfold _deliver_qos1_publish, require_packet_id, mbind, M_bind. rewrite (dl_pid _ _ _ _ _ Hd).
  cbn [mret M_ret auto_ack ir_request ir_subscription]. by rewrite (dl_auto _ _ _ _ _ Hd).
Qed.

(** The delivery, once the queue has room. *)
Lemma put_acknowledged s m entry pid :
  se_ref entry ∉ e_detached s -> 1 <= pid <= MAX_PACKET_ID -> e_lost s = false -> e_closed s = false ->
  let x := queue_of s (se_queue entry) in
  (_ ← put_nowait (se_queue entry) m; b ← after_put entry; after_deliver (AfterPubAck pid) b) s =
    (Ok tt, set_e_sent (e_sent s ++ [puback_bytes pid])
      (set_e_unacknowledged (e_unacknowledged s ∖ {[ pid ]})
        (set_e_queues (<[se_queue entry := mkQueue (q_maxsize x) (q_items x ++ [m])]> (e_queues s)) s))).
Proof.
  intros Hat Hr Hlost Hclosed x. unfold put_nowait, after_put, is_detached, _complete, mbind, M_bind. cbn [modify asks].
  change (e_detached (set_e_queues _ s)) with (e_detached s). rewrite bool_decide_eq_false_2 by done.
  cbn [mret M_ret after_deliver]. unfold _complete, mbind, M_bind. cbn [modify].
  rewrite (send_packet_ok _ (puback_bytes pid)); [done|by apply encode_puback|done|done].
Qed.

Lemma deliver_room k s m f entry :
  se_ref entry ∉ e_detached s -> queue_full (queue_of s (se_queue entry)) = false ->
  deliver_then (mkRecipient m None (Some (f, entry))) None k s =
    (_ ← put_nowait (se_queue entry) m; b ← after_put entry; after_deliver k b) s.
Proof.
  intros Hat Hroom. unfold deliver_then, _deliver, is_detached, mbind, M_bind. cbn [ir_request ir_subscription asks].
  rewrite bool_decide_eq_false_2 by done. cbn [mret M_ret]. rewrite Hroom. cbn [put_nowait modify ir_message].
  unfold put_nowait. cbn [modify]. by destruct (after_put entry _) as [[b|e] s'].
Qed.

Lemma deliver_full k s m f entry :
  se_ref entry ∉ e_detached s -> queue_full (queue_of s (se_queue entry)) = true ->
  let r := mkRecipient m None (Some (f, entry)) in
  deliver_then r None k s = (Ok tt, set_e_putting (Some (r, k)) s).
Proof.
  intros Hat Hfull r. unfold deliver_then, _deliver, is_detached, mbind, M_bind. cbn [r ir_request ir_subscription asks].
  rewrite bool_decide_eq_false_2 by done. cbn [mret M_ret]. by rewrite Hfull.
Qed.

(** A full queue has room for one after a take. *)
Lemma drop_room x :
  queue_full x = true -> zlen (q_items x) <= q_maxsize x ->
  queue_full (mkQueue (q_maxsize x) (tail (q_items x))) = false.
Proof.
  unfold queue_full. cbn [q_maxsize q_items]. intros [H1%Z.ltb_lt H2%Z.leb_le]%andb_true_iff Hle.
  apply andb_false_iff. right. apply Z.leb_gt. destruct (q_items x); unfold zlen in *; cbn in *; lia.
Qed.

(** C34: PUBACK only after delivery.  A QoS 1 message for a subscription that acknowledges
    automatically is put into its queue and then answered with PUBACK; if the queue is full, no
    PUBACK is sent, the message keeps its Receive Maximum unit and the read loop waits; when the
    application takes a message, the waiting one follows behind the others and only then PUBACK
    is sent. *)
Theorem qos1_ack_after_delivery s p pid f entry :
  p_qos p = AT_LEAST_ONCE -> delivers s p pid f entry ->
  let q := se_queue entry in
  let x := queue_of s q in
  (0 < q_maxsize x -> zlen (q_items x) <= q_maxsize x) ->
  if queue_full x then
    exists s1 s2, handle_publish p s = (Ok tt, s1) /\
      e_sent s1 = e_sent s /\ e_queues s1 = e_queues s /\ pid ∈ e_unacknowledged s1 /\ e_putting s1 <> None /\
      in_sequence [drop_head q; put_resume] s1 = (Ok tt, s2) /\
      e_queues s2 !! q = Some (mkQueue (q_maxsize x) (tail (q_items x) ++ [message_of s p])) /\
      e_sent s2 = e_sent s ++ [puback_bytes pid] /\ e_putting s2 = None /\ pid ∉ e_unacknowledged s2
  else
    exists s', handle_publish p s = (Ok tt, s') /\
      e_queues s' = <[q := mkQueue (q_maxsize x) (q_items x ++ [message_of s p])]> (e_queues s) /\
      e_sent s' = e_sent s ++ [puback_bytes pid] /\ pid ∉ e_unacknowledged s'.
Proof.
  intros Hq Hd q x Hlen. rewrite (qos1_selected _ _ _ _ _ Hq Hd).
  set (r := mkRecipient _ None _). set (s0 := set_e_replay _ _).
  pose proof (dl_attached _ _ _ _ _ Hd) as Hat. pose proof (dl_range _ _ _ _ _ Hd) as Hr.
  pose proof (dl_lost _ _ _ _ _ Hd) as Hlost. pose proof (dl_closed _ _ _ _ _ Hd) as Hclosed.
  destruct (queue_full x) eqn:Hfull.
  - set (s1 := set_e_putting (Some (r, AfterPubAck pid)) s0).
    set (y := mkQueue (q_maxsize x) (tail (q_items x))).
    assert (queue_full y = false) as Hroom.
    { apply (drop_room x Hfull), Hlen. apply andb_true_iff in Hfull as [H%Z.ltb_lt _]. done. }
    set (s2 := set_e_putting None (set_e_queues (<[q := y]> (e_queues s1)) s1)).
    assert (queue_of s2 q = y) as Hy by (unfold queue_of; cbn; by rewrite lookup_insert_eq).
    exists s1. eexists. split; [by apply deliver_full|]. split; [done|]. split; [done|].
    split; [cbn; set_solver|]. split; [done|]. split.
    { cbn [in_sequence]. unfold drop_head. unfold mbind at 1, M_bind at 1. cbn [modify].
      change (queue_of s1 q) with x. fold y. unfold mbind at 1, M_bind at 1. unfold put_resume.
      unfold mbind at 1, M_bind at 1. cbn [asks]. change (e_putting (set_e_queues _ s1)) with (Some (r, AfterPubAck pid)).
      cbn [r ir_subscription]. unfold mbind at 1, M_bind at 1. cbn [asks]. fold q.
      change (queue_of (set_e_queues (<[q := y]> (e_queues s1)) s1) q) with (queue_of s2 q). rewrite Hy.
      rewrite Hroom. unfold mbind at 1, M_bind at 1. cbn [modify ir_message].
      change (set_e_putting None (set_e_queues (<[q := y]> (e_queues s1)) s1)) with s2.
      rewrite (put_acknowledged s2 _ entry pid) by done. reflexivity. }
    fold q. rewrite Hy. cbn. rewrite insert_insert_eq, lookup_insert_eq. split; [done|]. split; [done|]. split; [done|].
    set_solver.
  - eexists. split; [unfold r; rewrite (deliver_room _ s0 _ f entry) by done; by apply put_acknowledged|].
    split; [done|]. split; [done|]. cbn. set_solver.
Qed.

Lemma qos1_ack_after_delivery_witness :
  let s := receiving_sample 1 in
  let p := inbound_sample AT_LEAST_ONCE 5 in
  exists s1 s2, handle_publish p s = (Ok tt, s1) /\ e_sent s1 = [] /\
    in_sequence [drop_head 0; put_resume] s1 = (Ok tt, s2) /\ e_sent s2 = [puback_bytes 5] /\
    e_queues s2 !! 0%nat = Some (mkQueue 1 [message_of s p]).
Proof.
  intros s p.
  pose proof (qos1_ack_after_delivery s p 5 (py "a/+") receiving_entry eq_refl (sample_delivers 1 AT_LEAST_ONCE)) as H.
  cbv zeta in H. destruct H as (s1 & s2 & H1 & H2 & _ & _ & _ & H3 & H4 & H5 & _);
    [intros _; vm_compute; discriminate|].
  exists s1, s2. split; [exact H1|]. split; [exact H2|]. split; [exact H3|]. split; [exact H5|exact H4].
Defined.
