(* ===== verification/Locking.v ===== *)
(** * Subscription management under the guards ([subscribe], [unsubscribe] and the response observers of [_internal/protocol.py])

    [Guards] and [Protocol] together: a call that changes subscriptions takes the locks of its
    filters, runs its body in the engine ([engine_step]) and leaves the locks when the body has
    ended, however it ends; a [subscribe] that has succeeded then drains the replay buffer, without its locks,
    before it returns.  Everything else interleaves: other calls, packets, cancellations
    (while a call waits for a lock, for the broker, or in the drain), the end of the connection.

    Theorem: calls about a common filter exclude each other until they have left their locks, and what
    a call has changed in the index is still so when it resumes and when it leaves them; without the
    locks it is not, and when [subscribe] returns it need not be so any more. *)

From S2P Require Import Prelude Properties Packets Codec Topic SubscriptionIndex Guards State Engine Inbound Protocol Ownership Calls.

(** ** Calls *)

Inductive sub_op : Type :=
| OSubscribe (filters : list SubscriptionRequest) (queue : nat) (auto : bool) (identifier : option Z)
| OUnsubscribe (filters : list pystr)
| OObserve (topic : pystr)
| OUnobserve (topic : pystr).

(** The argument of [hold]. *)
Definition op_filters (op : sub_op) : list pystr :=
  match op with
  | OSubscribe filters _ _ _ => map sr_topic_filter filters
  | OUnsubscribe filters => filters
  | OObserve topic | OUnobserve topic => [topic]
  end.

(** The body of the [async with]. *)
Definition op_body (op : sub_op) : M progress :=
  match op with
  | OSubscribe filters queue auto identifier => subscribe_begin filters queue auto identifier
  | OUnsubscribe filters => unsubscribe_begin filters
  | OObserve topic => add_response_observer_begin topic
  | OUnobserve topic => remove_response_observer_begin topic
  end.

(** [lo_waiting] has the calls that wait for a lock, [lo_body] the call of the engine each body is in,
    [lo_draining] the calls of [subscribe] that have left their locks and are in [inbound.drain], with what they will
    return; a call has the same number as its [hold].  [lo_returns] records what calls have returned or raised. *)
Record Locked : Type := mkLocked {
  lo_guards : Guards;
  lo_system : System;
  lo_waiting : gmap nat sub_op;
  lo_body : gmap nat nat;
  lo_draining : gmap nat call_value;
  lo_returns : list (nat * res call_value)
}.

Definition set_guards (gs : Guards) (lo : Locked) : Locked :=
  mkLocked gs (lo_system lo) (lo_waiting lo) (lo_body lo) (lo_draining lo) (lo_returns lo).
Definition set_system (sys : System) (lo : Locked) : Locked :=
  mkLocked (lo_guards lo) sys (lo_waiting lo) (lo_body lo) (lo_draining lo) (lo_returns lo).
Definition set_waiting (w : gmap nat sub_op) (lo : Locked) : Locked :=
  mkLocked (lo_guards lo) (lo_system lo) w (lo_body lo) (lo_draining lo) (lo_returns lo).
Definition set_body (b : gmap nat nat) (lo : Locked) : Locked :=
  mkLocked (lo_guards lo) (lo_system lo) (lo_waiting lo) b (lo_draining lo) (lo_returns lo).
Definition set_draining (d : gmap nat call_value) (lo : Locked) : Locked :=
  mkLocked (lo_guards lo) (lo_system lo) (lo_waiting lo) (lo_body lo) d (lo_returns lo).

(** Call [n] is over. *)
Definition returns (n : nat) (r : res call_value) (lo : Locked) : Locked :=
  mkLocked (lo_guards lo) (lo_system lo) (lo_waiting lo) (lo_body lo) (lo_draining lo) (lo_returns lo ++ [(n, r)]).

(** What the body that has ended in a step returned or raised. *)
Definition body_outcome (sys sys' : System) : res call_value :=
  match drop (length (results sys)) (results sys') with
  | (_, r) :: _ => r
  | [] => Err CancelledError
  end.

(** What follows the [async with]: [subscribe] awaits [inbound.drain], the other calls return. *)
Definition after_body (n : nat) (r : res call_value) (lo : Locked) : Locked :=
  match r with
  | Ok (RSubscribed suback entries) => set_draining (<[n := RSubscribed suback entries]> (lo_draining lo)) lo
  | _ => returns n r lo
  end.

(** Leave [hold] if the body has ended, with the outcome [r]. *)
Definition leave_if_ended (r : res call_value) (n : nat) (lo : Locked) : res Locked :=
  match lo_body lo !! n with
  | Some c =>
    match calls (lo_system lo) !! c with
    | Some _ => Ok lo
    | None =>
      gs ← guard_step (lo_guards lo) (GLeave n);
      Ok (after_body n r (set_guards gs (set_body (delete n (lo_body lo)) lo)))
    end
  | None => Ok lo
  end.

Fixpoint leave_ended (r : res call_value) (ns : list nat) (lo : Locked) : res Locked :=
  match ns with
  | [] => Ok lo
  | n :: ns' => lo' ← leave_if_ended r n lo; leave_ended r ns' lo'
  end.

Definition in_body (n : nat) (gs : Guards) : bool :=
  match gs_holds gs !! n with Some h => bool_decide (h_phase h = HBody) | None => false end.

(** With all its locks the call runs its body, up to where it waits for the broker. *)
Definition run_body (n : nat) (op : sub_op) (lo : Locked) : res Locked :=
  let c := next_call (lo_system lo) in
  let sys := new_call (op_body op) (lo_system lo) in
  leave_if_ended (body_outcome (lo_system lo) sys) n
    (set_body (<[n := c]> (lo_body lo)) (set_waiting (delete n (lo_waiting lo)) (set_system sys lo))).

(** After a step of the guards: the call has its locks, or has been cancelled, or waits on. *)
Definition after_lock (n : nat) (lo : Locked) : res Locked :=
  match lo_waiting lo !! n with
  | Some op =>
    if in_body n (lo_guards lo) then run_body n op lo
    else match gs_holds (lo_guards lo) !! n with
         | Some _ => Ok lo
         | None => Ok (returns n (Err CancelledError) (set_waiting (delete n (lo_waiting lo)) lo))
         end
  | None => Ok lo
  end.

Inductive locked_event : Type :=
| LCall (n : nat) (op : sub_op)
| LCancel (n : nat)                 (** [task.cancel()] while the call waits for a lock *)
| LResume (n : nat) (thrown : bool) (** the future of that lock is done *)
| LDrained (n : nat) (thrown : bool) (** the drain at the end of [subscribe] is made, or cancelled while it waits for its lock *)
| LEngine (ev : event).             (** anything else *)

(** What only the calls above do, and what [MQTTClient._connect] does before there are any. *)
Definition is_managed (ev : event) : bool :=
  match ev with
  | EvSubscribe _ _ _ _ | EvUnsubscribe _ | EvObserve _ | EvUnobserve _ | EvRestoreDetached _ => true
  | _ => false
  end.

(** An event that is not possible changes nothing. *)
Definition locked_step (lo : Locked) (ev : locked_event) : res Locked :=
  match ev with
  | LCall n op =>
    match gs_holds (lo_guards lo) !! n, lo_draining lo !! n with
    | Some _, _ | _, Some _ => Ok lo
    | None, None =>
      gs ← guard_step (lo_guards lo) (GEnter n (op_filters op));
      after_lock n (set_guards gs (set_waiting (<[n := op]> (lo_waiting lo)) lo))
    end
  | LCancel n => gs ← guard_step (lo_guards lo) (GCancel n); Ok (set_guards gs lo)
  | LResume n thrown => gs ← guard_step (lo_guards lo) (GResume n thrown); after_lock n (set_guards gs lo)
  | LDrained n thrown =>
    match lo_draining lo !! n with
    | Some v =>
      let lo := set_draining (delete n (lo_draining lo)) lo in
      if thrown : bool then Ok (returns n (Err CancelledError) lo)
      else
        let '(r, s) := drain_replay (engine (lo_system lo)) in
        Ok (returns n (_ ← r; Ok v) (set_system (with_engine s (lo_system lo)) lo))
    | None => Ok lo
    end
  | LEngine ev =>
    if is_managed ev then Ok lo
    else
      let sys := engine_step (lo_system lo) ev in
      leave_ended (body_outcome (lo_system lo) sys) (map fst (map_to_list (lo_body lo))) (set_system sys lo)
  end.

Fixpoint locked_steps (lo : Locked) (evs : list locked_event) : res Locked :=
  match evs with
  | [] => Ok lo
  | ev :: evs' => lo' ← locked_step lo ev; locked_steps lo' evs'
  end.

Definition locked_new (sys : System) : Locked := mkLocked guards_new sys ∅ ∅ ∅ [].

(** ** What a waiting call relies on *)

Definition index_of_engine (s : Engine) : SubscriptionIndex := subscriptions (e_state s).
Definition registered_in (s : Engine) (f : pystr) : bool := contains (index_of_engine s) f.
Definition observed_in (s : Engine) (f : pystr) : bool := has_response_observer (index_of_engine s) f.

(** The filters a call is about. *)
Definition task_filters (k : task_kind) : list pystr :=
  match k with
  | TSubscribe filters _ => map sr_topic_filter filters
  | TRestoreObservers filters broker _ => broker ++ map sr_topic_filter filters
  | TUnsubscribe broker observed => broker ++ observed
  | TObserve topic | TUnobserve topic => [topic]
  | TPublishQoS1 | TPublishQoS2 | TPing => []
  end.

Definition is_managed_task (k : task_kind) : bool :=
  match k with TPublishQoS1 | TPublishQoS2 | TPing => false | _ => true end.

(** What it has done to the index. *)
Definition unsubscribed (s : Engine) (broker observed : list pystr) : Prop :=
  (forall f, f ∈ broker -> registered_in s f = false /\ observed_in s f = false) /\
  (forall f, f ∈ observed -> registered_in s f = false /\ observed_in s f = true).

Definition relies (s : Engine) (k : task_kind) : Prop :=
  match k with
  | TSubscribe filters entries => forall f, f ∈ entries -> f ∈ map sr_topic_filter filters /\ registered_in s f = true
  | TUnsubscribe broker observed => unsubscribed s broker observed
  | TRestoreObservers filters broker _ => unsubscribed s broker (map sr_topic_filter filters)
  | TObserve topic => registered_in s topic = false /\ observed_in s topic = true
  | TUnobserve topic => registered_in s topic = false /\ observed_in s topic = false
  | TPublishQoS1 | TPublishQoS2 | TPing => True
  end.

(** ** What a step does to the index *)

(** Only the filters in [F] change. *)
Definition within (F : list pystr) (s s' : Engine) : Prop :=
  NoDup (keys (si_entries (index_of_engine s))) ->
  NoDup (keys (si_entries (index_of_engine s'))) /\
  forall f, f ∉ F -> registered_in s' f = registered_in s f /\ observed_in s' f = observed_in s f.

#[export] Instance within_preorder F : PreOrder (within F).
Proof.
  split; [by intros s H|]. intros s1 s2 s3 H12 H23 Hnd. destruct (H12 Hnd) as [Hnd2 H2]. destruct (H23 Hnd2) as [Hnd3 H3].
  split; [done|]. intros f Hf. destruct (H2 f Hf) as [<- <-]. by apply H3.
Qed.

Lemma within_same F s s' : index_of_engine s' = index_of_engine s -> within F s s'.
Proof. intros E Hnd. unfold registered_in, observed_in. by rewrite E. Qed.

Lemma within_sub F F' s s' : (forall f, f ∈ F -> f ∈ F') -> within F s s' -> within F' s s'.
Proof. intros Hs H Hnd. destruct (H Hnd) as [H1 H2]. split; [done|]. intros f Hf. apply H2. auto. Qed.

Lemma within_inbound {A} F (m : M A) : preserves inbound_frame m -> preserves (within F) m.
Proof. intros H s. apply within_same, (if_subscriptions _ _ (H s)). Qed.

Lemma preserves_on_error {A} (R : Engine -> Engine -> Prop) `{!PreOrder R} (m : M A) fin :
  preserves R m -> preserves R fin -> preserves R (on_error m fin).
Proof.
  intros Hm Hf s. unfold on_error. specialize (Hm s). destruct (m s) as [[a|e] s']; [exact Hm|].
  specialize (Hf s'). destruct (fin s') as [[] s'']; cbn in *; by transitivity s'.
Qed.

Ltac within_leaf := first [apply preserves_modify; intros ? | intros ?]; by apply within_same.

Ltac walk := repeat first [preserve_step | lazymatch goal with |- preserves _ (on_error _ _) => apply preserves_on_error; [tc_solve| |] end | within_leaf].
#[local] Hint Extern 2 (preserves (within _) _) => apply within_inbound : frame.

Section within.
Context (F : list pystr).

Lemma within_acquire : preserves (within F) acquire_pid.
Proof. intros s. unfold acquire_pid. destruct (acquire _) as [[]|]; by apply within_same. Qed.
Lemma within_release pid : preserves (within F) (release_pid pid).
Proof. unfold release_pid, modify_state. within_leaf. Qed.
Lemma within_ensure : preserves (within F) _ensure_alive.
Proof. unfold _ensure_alive. preserve. Qed.
Lemma within_forget_sub pid : preserves (within F) (forget_sub pid).
Proof. intros s. by apply within_same. Qed.
Lemma within_forget_unsub pid : preserves (within F) (forget_unsub pid).
Proof. intros s. by apply within_same. Qed.
Lemma within_create : preserves (within F) create_future.
Proof. intros s. by apply within_same. Qed.
Hint Resolve within_acquire within_release within_ensure within_forget_sub within_forget_unsub within_create : frame.

Lemma within_send_subscribe fs i : preserves (within F) (send_subscribe_begin fs i).
Proof. unfold send_subscribe_begin, modify_state. walk. Qed.
Lemma within_send_unsubscribe fs : preserves (within F) (send_unsubscribe_begin fs).
Proof. unfold send_unsubscribe_begin, modify_state. walk. Qed.
Lemma within_resumed f thrown : preserves (within F) (resumed f thrown).
Proof. intros s. unfold resumed. destruct thrown; [reflexivity|]. unfold await_result. by destruct (fut_state s f). Qed.
Hint Resolve within_resumed : frame.
Lemma within_subscribe_finish fs pid f thrown : preserves (within F) (send_subscribe_finish fs pid f thrown).
Proof. unfold send_subscribe_finish, as_suback. walk. Qed.
Lemma within_unsubscribe_finish pid f thrown : preserves (within F) (send_unsubscribe_finish pid f thrown).
Proof. unfold send_unsubscribe_finish, as_unsuback. walk. Qed.

(** The steps that concern no subscription. *)
Lemma within_publish p : preserves (within F) (publish_begin p).
Proof. unfold publish_begin, modify_state. walk. Qed.
Lemma within_ping : preserves (within F) ping_begin.
Proof. unfold ping_begin. walk. Qed.
Lemma within_ping_finish f thrown : preserves (within F) (ping_finish f thrown).
Proof. unfold ping_finish. walk. Qed.
Lemma within_detach fs : preserves (within F) (detach fs).
Proof. unfold detach. walk. Qed.
Lemma within_auth p : preserves (within F) (send_auth p).
Proof. unfold send_auth. walk. Qed.
Lemma within_connack p : preserves (within F) (handle_connack p).
Proof. unfold handle_connack. walk. Qed.
Lemma within_resolve f st : preserves (within F) (resolve f st).
Proof. intros s. unfold resolve. destruct (fut_done _); by apply within_same. Qed.
Hint Resolve within_resolve : frame.
Lemma within_dispatch p : preserves (within F) (_dispatch p).
Proof.
  destruct p; cbn [_dispatch];
    unfold _handle_puback, _handle_pubrec, _handle_pubcomp, _handle_suback, _handle_unsuback, _handle_pingresp, modify_state,
    unless_done, set_result, set_exception; walk.
Qed.
Lemma within_rejecting e : preserves (within F) (rejecting_oversized e).
Proof. unfold rejecting_oversized. destruct e; walk. Qed.
Lemma within_expire b : preserves (within F) (expire_after_timeout b).
Proof. auto with frame. Qed.
Lemma within_disconnect : preserves (within F) disconnect.
Proof. unfold disconnect, transport_close. walk. Qed.
Lemma within_run_finally : preserves (within F) run_finally.
Proof. unfold run_finally, _cancel_pending. walk. Qed.
End within.

(** ** What the calls change *)

Abbreviation nodup_index s := (NoDup (keys (si_entries (index_of_engine s)))).

Definition set_index (idx : SubscriptionIndex) (s : Engine) : Engine := set_e_state (set_subscriptions idx (e_state s)) s.

Lemma remove_contains idx f :
  NoDup (keys (si_entries idx)) ->
  NoDup (keys (si_entries (remove idx f).2)) /\
  (forall g, contains (remove idx f).2 g = if decide (g = f) then false else contains idx g) /\
  (forall g, has_response_observer (remove idx f).2 g = has_response_observer idx g).
Proof.
  intros Hnd. unfold remove. destruct (dict_get (si_entries idx) f) as [e|] eqn:E; cbn.
  - split; [by apply NoDup_dict_del|]. split; [|done]. intros g. unfold contains. cbn. rewrite dict_get_del by done. by case_decide.
  - split; [done|]. split; [|done]. intros g. case_decide as Hg; [|done]. subst g. unfold contains. by rewrite E.
Qed.

Lemma add_contains idx f e :
  NoDup (keys (si_entries idx)) ->
  NoDup (keys (si_entries (add idx f e))) /\
  (forall g, contains (add idx f e) g = if decide (g = f) then true else contains idx g) /\
  (forall g, has_response_observer (add idx f e) g = has_response_observer idx g).
Proof.
  intros Hnd. unfold add. destruct (remove_contains idx f Hnd) as (Hr1 & Hr2 & Hr3).
  destruct (contains idx f) eqn:E; (split; [cbn; by apply NoDup_dict_set|]; split).
  - intros g. unfold contains at 1. cbn. rewrite dict_get_set. specialize (Hr2 g). unfold contains in Hr2 at 1. by case_decide.
  - intros g. apply Hr3.
  - intros g. unfold contains at 1. cbn. rewrite dict_get_set. by case_decide.
  - done.
Qed.

Lemma remove_filters_spec fs s :
  nodup_index s ->
  exists s', remove_filters fs s = (Ok tt, s') /\ nodup_index s' /\ e_dead s' = e_dead s /\
    (forall f, registered_in s' f = if decide (f ∈ fs) then false else registered_in s f) /\
    (forall f, observed_in s' f = observed_in s f).
Proof.
  revert s; induction fs as [|f fs IH]; intros s Hnd; cbn [remove_filters].
  - exists s. split; [done|]. split; [done|]. split; [done|]. split; [|done]. intros f. by rewrite decide_False by apply not_elem_of_nil.
  - destruct (remove_contains (index_of_engine s) f Hnd) as (H1 & H2 & H3).
    destruct (IH (set_index (remove (index_of_engine s) f).2 s) H1) as (s' & Hs & Hnd' & Hd & Hr & Ho). exists s'.
    split; [exact Hs|]. split; [done|]. split; [done|]. split.
    + intros g. rewrite Hr. change (registered_in (set_index _ s) g) with (contains (remove (index_of_engine s) f).2 g). rewrite H2.
      destruct (decide (g = f)) as [->|Hg]; [rewrite (decide_True (P := f ∈ f :: fs)) by set_solver; by case_decide|].
      apply decide_ext. set_solver.
    + intros g. rewrite Ho. apply H3.
Qed.

Lemma within_remove_filters F fs : (forall f, f ∈ fs -> f ∈ F) -> preserves (within F) (remove_filters fs).
Proof.
  intros Hfs s Hnd. destruct (remove_filters_spec fs s Hnd) as (s' & -> & Hnd' & _ & Hr & Ho). split; [done|].
  intros f Hf. rewrite Hr, Ho, decide_False by auto. done.
Qed.

Lemma build_entries_spec filters q auto i acc s :
  exists new s', build_entries filters q auto i acc s = (Ok new, s') /\ index_of_engine s' = index_of_engine s /\
    (forall f, f ∈ keys new -> f ∈ keys acc \/ f ∈ map sr_topic_filter filters).
Proof.
  revert acc s; induction filters as [|r filters IH]; intros acc s; cbn [build_entries].
  { exists acc, s. split; [done|]. split; [done|]. by left. }
  unfold mbind, M_bind. cbn [ask_state asks].
  destruct (get (subscriptions (e_state s)) (sr_topic_filter r)) as [e|].
  - destruct (IH acc s) as (new & s' & -> & Hi & Hk). exists new, s'. split; [done|]. split; [done|]. set_solver.
  - cbn [new_ref]. match goal with |- context [build_entries filters q auto i ?a ?s1] => destruct (IH a s1) as (new & s' & Hb & Hi & Hk) end.
    exists new, s'. split; [exact Hb|]. split; [done|]. intros f Hf. apply Hk in Hf as [Hf|Hf]; [|set_solver].
    rewrite keys_dict_set in Hf. case_decide; set_solver.
Qed.

Lemma add_many_contains l idx :
  NoDup (keys (si_entries idx)) ->
  NoDup (keys (si_entries (add_many idx l))) /\
  (forall g, contains (add_many idx l) g = if decide (g ∈ keys l) then true else contains idx g) /\
  (forall g, has_response_observer (add_many idx l) g = has_response_observer idx g).
Proof.
  revert idx; induction l as [|[f e] l IH]; intros idx Hnd.
  - split; [done|]. split; [|done]. intros g. by rewrite decide_False by apply not_elem_of_nil.
  - destruct (add_contains idx f e Hnd) as (H1 & H2 & H3). destruct (IH (add idx f e) H1) as (I1 & I2 & I3).
    split; [exact I1|]. change (add_many idx ((f, e) :: l)) with (add_many (add idx f e) l). split; intros g; [|by rewrite I3, H3].
    rewrite I2, H2. change (keys ((f, e) :: l)) with (f :: keys l).
    destruct (decide (g = f)) as [->|Hg]; [rewrite (decide_True (P := f ∈ f :: keys l)) by set_solver; by case_decide|].
    apply decide_ext. set_solver.
Qed.

(** ** What the calls rely on *)

Lemma unsubscribed_within F s s' broker observed :
  nodup_index s -> within F s s' -> (forall f, f ∈ broker ++ observed -> f ∉ F) ->
  unsubscribed s broker observed -> unsubscribed s' broker observed.
Proof.
  intros Hnd Hw Hf [H1 H2]. destruct (Hw Hnd) as [_ Hs].
  split; intros f Hin; (destruct (Hs f) as [-> ->]; [apply Hf; set_solver|]); auto.
Qed.

Lemma relies_within F s s' k :
  nodup_index s -> within F s s' -> (forall f, f ∈ task_filters k -> f ∉ F) -> relies s k -> relies s' k.
Proof.
  intros Hnd Hw Hf. destruct k; cbn in *; try done.
  - intros Hr f Hin. destruct (Hr f Hin) as [Hm Hreg]. destruct (proj2 (Hw Hnd) f (Hf f Hm)) as [-> _]. done.
  - destruct (proj2 (Hw Hnd) topic) as [-> ->]; [set_solver|done].
  - by apply (unsubscribed_within F).
  - by apply (unsubscribed_within F).
  - destruct (proj2 (Hw Hnd) topic) as [-> ->]; [set_solver|done].
Qed.

(** What a call has established when its body ends. *)
Definition returned_ok (s : Engine) (v : call_value) : Prop :=
  match v with
  | RSubscribed _ entries => forall f, f ∈ entries -> registered_in s f = true
  | RUnsubscribed (Some (broker, _)) => forall f, f ∈ broker -> registered_in s f = false /\ observed_in s f = false
  | _ => True
  end.

(** A piece of a call about the filters [F]. *)
Definition opens (F : list pystr) (s : Engine) (p : res progress * Engine) : Prop :=
  within F s p.2 /\
  match p.1 with
  | Ok (Suspended t) => is_managed_task (t_kind t) = true /\ (forall f, f ∈ task_filters (t_kind t) -> f ∈ F) /\ relies p.2 (t_kind t)
  | Ok (Returned v) => returned_ok p.2 v
  | Err _ => True
  end.

Lemma opens_error F s e s' : within F s s' -> opens F s (Err e, s').
Proof. by split. Qed.

(** SUBSCRIBE or UNSUBSCRIBE is sent, and the call waits. *)
Lemma opens_suspend F s s1 s2 pid fut k :
  nodup_index s -> within F s s1 -> within [] s1 s2 -> relies s1 k -> is_managed_task k = true ->
  (forall f, f ∈ task_filters k -> f ∈ F) -> opens F s (Ok (Suspended (mkTask k pid fut)), s2).
Proof.
  intros Hnd Hw Hw' Hr Hk Hf. split; cbn; [transitivity s1; [done|]; by apply (within_sub []); [intros ? ?%elem_of_nil|]|].
  split; [done|]. split; [done|]. apply (relies_within [] s1); [apply (Hw Hnd)|done|intros ? _; apply not_elem_of_nil|done].
Qed.

Lemma opens_returned F s s1 s2 v :
  nodup_index s -> within F s s1 -> within [] s1 s2 -> returned_ok s1 v -> opens F s (Ok (Returned v), s2).
Proof.
  intros Hnd Hw Hw' Hv. split; cbn; [transitivity s1; [done|]; by apply (within_sub []); [intros ? ?%elem_of_nil|]|].
  destruct (Hw' (proj1 (Hw Hnd))) as [_ Hs].
  assert (forall f, registered_in s2 f = registered_in s1 f /\ observed_in s2 f = observed_in s1 f) as E by (intros f; apply Hs, not_elem_of_nil).
  destruct v as [| | |p new|[[broker ack]|]]; cbn in *; try done; intros f Hin; rewrite ?(proj1 (E f)), ?(proj2 (E f)); auto.
Qed.

Lemma opens_ensure F s (m : M progress) : opens F s (m s) -> opens F s ((_ ← _ensure_alive; m) s).
Proof. intros H. unfold mbind, M_bind. rewrite ensure_alive_eq. destruct (e_dead s); [by apply opens_error|done]. Qed.

Lemma subscribe_opens filters q auto i s : nodup_index s -> opens (map sr_topic_filter filters) s (subscribe_begin filters q auto i s).
Proof.
  intros Hnd. unfold subscribe_begin, mbind, M_bind, on_error. destruct (build_entries_spec filters q auto i [] s) as (new & s0 & -> & Hi & Hk).
  set (s1 := set_index (add_many (index_of_engine s0) new) s0). change (modify_index (fun idx => add_many idx new) s0) with (@Ok unit tt, s1).
  assert (forall f, f ∈ keys new -> f ∈ map sr_topic_filter filters) as Hk' by (intros f [?%elem_of_nil|]%Hk; done).
  rewrite <-Hi in Hnd. destruct (add_many_contains new (index_of_engine s0) Hnd) as (H1 & H2 & H3).
  assert (within (map sr_topic_filter filters) s s1) as Hw.
  { transitivity s0; [by apply within_same|]. intros _. split; [done|]. intros f Hf. split; [|apply H3].
    unfold registered_in at 1. change (index_of_engine s1) with (add_many (index_of_engine s0) new). rewrite H2, decide_False by auto. done. }
  rewrite Hi in Hnd. pose proof (within_send_subscribe [] filters i s1) as Hs.
  destruct (send_subscribe_begin filters i s1) as [[[pid fut]|e] s2]; cbn in Hs.
  - apply (opens_suspend _ _ s1); try done. intros f Hf. split; [auto|]. unfold registered_in. change (index_of_engine s1) with (add_many (index_of_engine s0) new).
    by rewrite H2, decide_True.
  - pose proof (within_remove_filters (map sr_topic_filter filters) (keys new) Hk' s2) as Hr.
    assert (within (map sr_topic_filter filters) s (remove_filters (keys new) s2).2) as Hall.
    { transitivity s1; [done|]. transitivity s2; [by apply (within_sub []); [intros ? ?%elem_of_nil|]|done]. }
    destruct (remove_filters (keys new) s2) as [[|] s3]; by apply opens_error.
Qed.

Lemma observe_spec topic s :
  exists b s', observe topic s = (Ok b, s') /\ e_dead s' = e_dead s /\
    (forall f, registered_in s' f = registered_in s f) /\ (nodup_index s -> nodup_index s') /\
    (forall f, observed_in s' f = if decide (f = topic) then true else observed_in s f).
Proof.
  unfold observe, SubscriptionIndex.add_response_observer. case_decide as Hin; eexists _, _; (split; [reflexivity|]); (split; [done|]); (split; [done|]); (split; [done|]).
  - intros f. unfold observed_in, has_response_observer. case_decide as Hf; [subst f; by apply bool_decide_eq_true|done].
  - intros f. unfold observed_in, has_response_observer. cbn. case_decide as Hf; [subst f; apply bool_decide_eq_true; set_solver|]. apply bool_decide_ext. set_solver.
Qed.

Lemma unobserve_spec topic s :
  exists b s', unobserve topic s = (Ok b, s') /\ e_dead s' = e_dead s /\
    (forall f, registered_in s' f = registered_in s f) /\ (nodup_index s -> nodup_index s') /\
    (forall f, observed_in s' f = if decide (f = topic) then false else observed_in s f).
Proof.
  unfold unobserve, SubscriptionIndex.remove_response_observer. case_decide as Hin; eexists _, _; (split; [reflexivity|]); (split; [done|]); (split; [done|]); (split; [done|]).
  - intros f. unfold observed_in, has_response_observer. cbn. case_decide as Hf; [subst f; apply bool_decide_eq_false; set_solver|]. apply bool_decide_ext. set_solver.
  - intros f. unfold observed_in, has_response_observer. case_decide as Hf; [subst f; by apply bool_decide_eq_false|done].
Qed.

Lemma within_observe F topic : topic ∈ F -> preserves (within F) (observe topic).
Proof.
  intros Ht s Hnd. destruct (observe_spec topic s) as (b & s' & -> & _ & Hr & Hn & Ho). split; [auto|]. intros f Hf.
  rewrite Hr, Ho, decide_False by congruence. done.
Qed.
Lemma within_unobserve F topic : topic ∈ F -> preserves (within F) (unobserve topic).
Proof.
  intros Ht s Hnd. destruct (unobserve_spec topic s) as (b & s' & -> & _ & Hr & Hn & Ho). split; [auto|]. intros f Hf.
  rewrite Hr, Ho, decide_False by congruence. done.
Qed.

Lemma observe_opens topic s : nodup_index s -> opens [topic] s (add_response_observer_begin topic s).
Proof.
  intros Hnd. unfold add_response_observer_begin. apply opens_ensure. unfold mbind, M_bind, on_error.
  pose proof (within_observe [topic] topic (list_elem_of_here _ _) s) as Hw.
  destruct (observe_spec topic s) as (b & s1 & Hs & _ & Hr & Hn & Ho). rewrite Hs in Hw |- *. cbn in Hw.
  destruct b; cbn [negb]; [|by apply (opens_returned _ _ s1)]. cbn [ask_state asks].
  destruct (contains (subscriptions (e_state s1)) topic) eqn:Ec; [by apply (opens_returned _ _ s1)|].
  pose proof (within_send_subscribe [] [observer_request topic] None s1) as Hs'.
  destruct (send_subscribe_begin [observer_request topic] None s1) as [[[pid fut]|e] s2]; cbn in Hs'.
  - apply (opens_suspend _ _ s1); try done. split; [done|]. by rewrite Ho, decide_True.
  - destruct (unobserve_spec topic s2) as (b' & s3 & E & _). pose proof (within_unobserve [topic] topic (list_elem_of_here _ _) s2) as Hu.
    rewrite E in Hu |- *. cbn in Hu |- *. apply opens_error. transitivity s1; [done|].
    transitivity s2; [by apply (within_sub []); [intros ? ?%elem_of_nil|]|done].
Qed.

Lemma unobserve_opens topic s : nodup_index s -> opens [topic] s (remove_response_observer_begin topic s).
Proof.
  intros Hnd. unfold remove_response_observer_begin, mbind, M_bind.
  pose proof (within_unobserve [topic] topic (list_elem_of_here _ _) s) as Hw.
  destruct (unobserve_spec topic s) as (b & s1 & Hs & _ & Hr & Hn & Ho). rewrite Hs in Hw |- *. cbn in Hw.
  destruct b; cbn [negb]; [|by apply (opens_returned _ _ s1)]. cbn [ask_state asks].
  destruct (contains (subscriptions (e_state s1)) topic || e_dead s1) eqn:Ec; [by apply (opens_returned _ _ s1)|].
  apply orb_false_iff in Ec as [Ec _]. pose proof (within_send_unsubscribe [] [topic] s1) as Hs'.
  destruct (send_unsubscribe_begin [topic] s1) as [[[pid fut]|e] s2]; cbn in Hs'.
  - apply (opens_suspend _ _ s1); try done. split; [done|]. by rewrite Ho, decide_True.
  - apply opens_error. transitivity s1; [done|]. by apply (within_sub []); [intros ? ?%elem_of_nil|].
Qed.

Lemma map_observer_request observed : map sr_topic_filter (map observer_request observed) = observed.
Proof. rewrite map_map. apply map_id. Qed.

(** The second half of [_unsubscribe]. *)
Lemma restore_opens F s s1 broker observed ack :
  nodup_index s -> within F s s1 -> (forall f, f ∈ broker ++ observed -> f ∈ F) -> unsubscribed s1 broker observed ->
  opens F s (restore_begin broker observed ack s1).
Proof.
  intros Hnd Hw Hf Hu.
  assert (returned_ok s1 (RUnsubscribed ((fun u => (broker, u)) <$> ack))) as Hret by (destruct ack; [exact (proj1 Hu)|done]).
  unfold restore_begin. destruct observed as [|f0 observed]; [by apply (opens_returned _ _ s1)|].
  set (requests := map observer_request (f0 :: observed)).
  pose proof (within_send_subscribe [] requests None s1) as Hs.
  destruct (send_subscribe_begin requests None s1) as [[[pid fut]|e] s2]; cbn in Hs.
  - apply (opens_suspend _ _ s1); cbn [relies is_managed_task task_filters]; unfold requests; rewrite ?map_observer_request; done.
  - by apply (opens_returned _ _ s1).
Qed.

Lemma unsubscribe_opens filters s : nodup_index s -> opens filters s (unsubscribe_begin filters s).
Proof.
  intros Hnd. unfold unsubscribe_begin. apply opens_ensure. unfold mbind, M_bind. cbn [ask_state asks].
  set (observed := List.filter (has_response_observer (subscriptions (e_state s))) filters).
  set (broker := List.filter (fun f => negb (bool_decide (f ∈ observed))) filters).
  destruct (remove_filters_spec filters s Hnd) as (s1 & Hs & Hnd1 & _ & Hr & Ho). rewrite Hs.
  pose proof (within_remove_filters filters filters (fun _ H => H) s) as Hw. rewrite Hs in Hw. cbn in Hw.
  assert (unsubscribed s1 broker observed) as Hu.
  { unfold broker, observed. split; intros f Hf; apply list_elem_of_In, filter_In in Hf as [Hin Hb];
      apply list_elem_of_In in Hin; rewrite Hr, Ho, decide_True by done; (split; [done|]); [|done].
    apply negb_true_iff, bool_decide_eq_false in Hb. apply not_true_iff_false. intros Hobs. apply Hb.
    apply list_elem_of_In, filter_In. split; [by apply list_elem_of_In|done]. }
  assert (forall f, f ∈ broker ++ observed -> f ∈ filters) as Hf.
  { intros f [Hf|Hf]%elem_of_app; apply list_elem_of_In, filter_In in Hf as [Hin _]; by apply list_elem_of_In. }
  assert (forall ack, opens filters s (restore_begin broker observed ack s1)) as Hrest by (intros ack; by apply restore_opens).
  destruct broker as [|f0 broker]; [apply Hrest|].
  pose proof (within_send_unsubscribe [] (f0 :: broker) s1) as Hs'.
  destruct (send_unsubscribe_begin (f0 :: broker) s1) as [[[pid fut]|e] s2]; cbn in Hs'.
  - by apply (opens_suspend _ _ s1).
  - apply opens_error. transitivity s1; [done|]. by apply (within_sub []); [intros ? ?%elem_of_nil|].
Qed.

Lemma op_opens op s : nodup_index s -> opens (op_filters op) s (op_body op s).
Proof. destruct op; [apply subscribe_opens|apply unsubscribe_opens|apply observe_opens|apply unobserve_opens]. Qed.

Lemma finish_opens t thrown s :
  nodup_index s -> is_managed_task (t_kind t) = true -> relies s (t_kind t) -> opens (task_filters (t_kind t)) s (task_finish t thrown s).
Proof.
  intros Hnd Hm Hr. destruct t as [k pid fut]. cbn [t_kind] in *. unfold task_finish, mbind, M_bind, on_error.
  destruct k as [| |filters entries|topic|broker observed|filters broker ack|topic|]; try done; cbn [task_filters] in *.
  - pose proof (within_subscribe_finish [] filters pid fut thrown s) as Hs.
    destruct (send_subscribe_finish filters pid fut thrown s) as [[suback|e] s1]; cbn in Hs.
    + apply (opens_returned _ _ s); [done|reflexivity|done|]. intros f Hf. by apply (Hr f).
    + pose proof (within_remove_filters (map sr_topic_filter filters) entries (fun f H => proj1 (Hr f H)) s1) as Hu.
      destruct (remove_filters entries s1) as [[|] s2]; apply opens_error; (transitivity s1; [by apply (within_sub []); [intros ? ?%elem_of_nil|]|done]).
  - pose proof (within_subscribe_finish [] [observer_request topic] pid fut thrown s) as Hs.
    destruct (send_subscribe_finish [observer_request topic] pid fut thrown s) as [[suback|e] s1]; cbn in Hs.
    + by apply (opens_returned _ _ s).
    + destruct (unobserve_spec topic s1) as (b' & s3 & E & _). pose proof (within_unobserve [topic] topic (list_elem_of_here _ _) s1) as Hu.
      rewrite E in Hu |- *. cbn in Hu |- *. apply opens_error. transitivity s1; [by apply (within_sub []); [intros ? ?%elem_of_nil|]|done].
  - pose proof (within_unsubscribe_finish [] pid fut thrown s) as Hs.
    destruct (send_unsubscribe_finish pid fut thrown s) as [[ack|e] s1]; cbn in Hs.
    + apply restore_opens; [done|by apply (within_sub []); [intros ? ?%elem_of_nil|]|done|].
      apply (unsubscribed_within [] s); [done|done|intros ? _; apply not_elem_of_nil|done].
    + apply opens_error. by apply (within_sub []); [intros ? ?%elem_of_nil|].
  - pose proof (within_subscribe_finish [] filters pid fut thrown s) as Hs.
    destruct (send_subscribe_finish filters pid fut thrown s) as [[suback|e] s1]; cbn in Hs.
    + apply (opens_returned _ _ s); [done|reflexivity|done|]. destruct ack; [exact (proj1 Hr)|done].
    + destruct (is_exception e); [|by apply opens_error, (within_sub []); [intros ? ?%elem_of_nil|]].
      apply (opens_returned _ _ s); [done|reflexivity|done|]. destruct ack; [exact (proj1 Hr)|done].
  - pose proof (within_unsubscribe_finish [] pid fut thrown s) as Hs.
    destruct (send_unsubscribe_finish pid fut thrown s) as [[ack|e] s1]; cbn in Hs.
    + by apply (opens_returned _ _ s).
    + apply opens_error. by apply (within_sub []); [intros ? ?%elem_of_nil|].
Qed.

(** A publish or a ping, resumed. *)
Lemma within_other t thrown : is_managed_task (t_kind t) = false -> preserves (within []) (task_finish t thrown).
Proof. destruct t as [k pid fut]. destruct k; try done; intros _; cbn [task_finish]; [| |apply within_ping_finish]; walk; apply within_resumed. Qed.

Lemma other_ends t thrown s v : is_managed_task (t_kind t) = false -> (task_finish t thrown s).1 = Ok v ->
  match v with Returned (RNone | RPubAck _ | RPubComp _) => True | _ => False end.
Proof.
  destruct t as [k pid fut]. destruct k; try done; intros _; cbn [task_finish]; unfold ping_finish, mbind, M_bind;
    repeat case_match; cbn; intros; simplify_eq; done.
Qed.

(** ** The invariant *)

Record locked_inv (lo : Locked) : Prop := {
  li_guards : guards_inv (lo_guards lo);
  li_nodup : nodup_index (engine (lo_system lo));
  li_waiting : forall n op h, lo_waiting lo !! n = Some op -> gs_holds (lo_guards lo) !! n = Some h ->
    map fst (h_entries h) = sorted_set (op_filters op);
  li_disjoint : forall n op, lo_waiting lo !! n = Some op -> lo_body lo !! n = None;
  li_body : forall n c, lo_body lo !! n = Some c -> (c < next_call (lo_system lo))%nat /\
    exists h, gs_holds (lo_guards lo) !! n = Some h /\ h_phase h = HBody /\
      forall t, calls (lo_system lo) !! c = Some t ->
        is_managed_task (t_kind t) = true /\ forall f, f ∈ task_filters (t_kind t) -> f ∈ map fst (h_entries h);
  li_inj : forall n m c, lo_body lo !! n = Some c -> lo_body lo !! m = Some c -> n = m;
  li_calls : forall c t, calls (lo_system lo) !! c = Some t ->
    (c < next_call (lo_system lo))%nat /\ (is_managed_task (t_kind t) = true -> exists n, lo_body lo !! n = Some c);
  li_relies : forall c t, calls (lo_system lo) !! c = Some t -> relies (engine (lo_system lo)) (t_kind t);
  li_draining : forall n v, lo_draining lo !! n = Some v -> exists suback entries, v = RSubscribed suback entries
}.

Lemma relies_unmanaged s k : is_managed_task k = false -> relies s k.
Proof. by destruct k. Qed.

(** Calls about a common filter exclude each other. *)
Lemma calls_exclude lo c d t u f :
  locked_inv lo -> calls (lo_system lo) !! c = Some t -> calls (lo_system lo) !! d = Some u ->
  f ∈ task_filters (t_kind t) -> f ∈ task_filters (t_kind u) -> c = d.
Proof.
  intros Hi Hc Hd Hf Hg.
  assert (forall k, f ∈ task_filters k -> is_managed_task k = true) as Hk by (intros [] Hin; try done; by apply elem_of_nil in Hin).
  destruct (proj2 (li_calls _ Hi _ _ Hc) (Hk _ Hf)) as [n Hn]. destruct (proj2 (li_calls _ Hi _ _ Hd) (Hk _ Hg)) as [m Hm].
  destruct (li_body _ Hi _ _ Hn) as (_ & h & Hh & Hb & Ht). destruct (li_body _ Hi _ _ Hm) as (_ & h' & Hh' & Hb' & Ht').
  assert (n = m) as -> by (eapply (bodies_exclude _ n m h h' f); [apply Hi|done..|by eapply Ht|by eapply Ht']). congruence.
Qed.

(** The guards move, and no body loses its locks. *)
Lemma inv_guards lo gs :
  locked_inv lo -> guards_inv gs ->
  (forall n c h, lo_body lo !! n = Some c -> gs_holds (lo_guards lo) !! n = Some h -> gs_holds gs !! n = Some h) ->
  (forall n op h, lo_waiting lo !! n = Some op -> gs_holds gs !! n = Some h -> map fst (h_entries h) = sorted_set (op_filters op)) ->
  locked_inv (set_guards gs lo).
Proof.
  intros Hi Hg Hb Hw. split; cbn; try apply Hi; try done.
  intros n c Hn. destruct (li_body _ Hi n c Hn) as (Hlt & h & Hh & Hp & Ht). split; [done|]. exists h. split; [by eapply Hb|done].
Qed.

Lemma inv_waiting lo w :
  locked_inv lo -> (forall n op, w !! n = Some op -> lo_waiting lo !! n = Some op) -> locked_inv (set_waiting w lo).
Proof. intros Hi Hw. split; cbn; try apply Hi; intros *; intros H%Hw; by eapply Hi. Qed.

(** The system moves: calls end, and calls about no filter begin. *)
Lemma inv_system lo sys :
  locked_inv lo -> within [] (engine (lo_system lo)) (engine sys) -> (next_call (lo_system lo) <= next_call sys)%nat ->
  (forall c t, calls sys !! c = Some t -> (c < next_call sys)%nat /\ (is_managed_task (t_kind t) = true -> calls (lo_system lo) !! c = Some t)) ->
  (forall n c t, lo_body lo !! n = Some c -> calls sys !! c = Some t -> is_managed_task (t_kind t) = true) ->
  locked_inv (set_system sys lo).
Proof.
  intros Hi Hw Hnext Hcalls Hbody. split; cbn; try apply Hi.
  - apply (Hw (li_nodup _ Hi)).
  - intros n c Hn. destruct (li_body _ Hi n c Hn) as (Hlt & h & Hh & Hp & Ht). split; [lia|]. exists h. split; [done|]. split; [done|].
    intros t Hc. pose proof (Hbody n c t Hn Hc) as Hm. apply Ht. by apply (proj2 (Hcalls c t Hc)).
  - intros c t Hc. destruct (Hcalls c t Hc) as [Hlt Hm]. split; [done|]. intros Hk. by apply (li_calls _ Hi c t (Hm Hk)).
  - intros c t Hc. destruct (is_managed_task (t_kind t)) eqn:Hk; [|by apply relies_unmanaged].
    apply (relies_within [] (engine (lo_system lo))); [apply (li_nodup _ Hi)|done|intros ? _; apply not_elem_of_nil|].
    apply (li_relies _ Hi c). by apply (proj2 (Hcalls c t Hc)).
Qed.

(** A piece of the call [c], which holds the locks of [n]. *)
Lemma inv_settle lo n c h p :
  locked_inv lo -> lo_body lo !! n = Some c -> gs_holds (lo_guards lo) !! n = Some h ->
  opens (map fst (h_entries h)) (engine (lo_system lo)) p ->
  locked_inv (set_system (settle c p.1 p.2 (lo_system lo)) lo).
Proof.
  intros Hi Hn Hh [Hw Ho]. destruct p as [r s]. cbn in Hw, Ho.
  destruct (li_body _ Hi n c Hn) as (Hlt & h' & Hh' & Hp & Ht). assert (h' = h) as -> by congruence.
  assert (forall d u, calls (lo_system lo) !! d = Some u -> d <> c -> relies s (t_kind u)) as Hother.
  { intros d u Hd Hne. apply (relies_within (map fst (h_entries h)) (engine (lo_system lo))); [apply (li_nodup _ Hi)|done| |by eapply li_relies].
    intros f Hf Hin. assert (is_managed_task (t_kind u) = true) as Hk by (destruct (t_kind u); try done; by apply elem_of_nil in Hf).
    destruct (proj2 (li_calls _ Hi _ _ Hd) Hk) as [m Hm]. destruct (li_body _ Hi _ _ Hm) as (_ & k & Hk' & Hb & Hu).
    assert (n = m) as -> by (eapply (bodies_exclude _ n m h k f); [apply Hi|done..|by eapply Hu]). congruence. }
  assert (exists C, calls (settle c r s (lo_system lo)) = C /\ next_call (settle c r s (lo_system lo)) = next_call (lo_system lo) /\
    engine (settle c r s (lo_system lo)) = s /\
    forall d u, C !! d = Some u -> calls (lo_system lo) !! d = Some u /\ d <> c \/
      d = c /\ is_managed_task (t_kind u) = true /\ (forall f, f ∈ task_filters (t_kind u) -> f ∈ map fst (h_entries h)) /\ relies s (t_kind u)) as (C & EC & En & Ee & HC).
  { destruct r as [[v|t]|e]; cbn; eexists; (split; [reflexivity|]); (split; [done|]); (split; [done|]); intros d u.
    - intros [? ?]%lookup_delete_Some. by left.
    - intros [[<- <-]|[? ?]]%lookup_insert_Some; [by right|by left].
    - intros [? ?]%lookup_delete_Some. by left. }
  split; cbn; rewrite ?EC, ?En, ?Ee; try apply Hi.
  - apply (Hw (li_nodup _ Hi)).
  - intros m d Hm. destruct (li_body _ Hi m d Hm) as (Hlt' & k & Hk & Hb & Hu). split; [done|]. exists k. split; [done|]. split; [done|].
    intros u Hd. destruct (HC d u Hd) as [[Hd' _]|(-> & Hk' & Hf & _)]; [by apply Hu|]. split; [done|].
    assert (m = n) as -> by (by eapply li_inj). by assert (k = h) as -> by congruence.
  - intros d u Hd. destruct (HC d u Hd) as [[Hd' _]|(-> & _)]; [by apply Hi|]. split; [done|]. intros _. by exists n.
  - intros d u Hd. destruct (HC d u Hd) as [[Hd' Hne]|(-> & _ & _ & Hr)]; [by eapply Hother|done].
Qed.

(** What a step reports: a call that returns has done what it says. *)
Definition reports (sys sys' : System) : Prop :=
  forall c v, results sys' = results sys ++ [(c, Ok v)] -> returned_ok (engine sys') v.

Lemma reports_same sys sys' : results sys' = results sys -> reports sys sys'.
Proof. intros E c v H. rewrite E in H. apply (f_equal length) in H. rewrite length_app in H. cbn in H. lia. Qed.

Lemma settle_reports c p sys :
  match p.1 with Ok (Returned v) => returned_ok p.2 v | _ => True end -> reports sys (settle c p.1 p.2 sys).
Proof.
  destruct p as [[[v|t]|e] s]; cbn; intros Hv; [|by apply reports_same|]; intros d v' E; cbn in E; apply app_inv_head in E; by simplify_eq.
Qed.

(** A step ends at most one body. *)
Definition ends_one (sys sys' : System) : Prop :=
  results sys' = results sys \/ exists cr, results sys' = results sys ++ [cr].

Lemma settle_ends n r s sys : ends_one sys (settle n r s sys).
Proof. unfold ends_one. destruct r as [[v|t]|e]; cbn; eauto. Qed.

Lemma new_call_ends m sys : ends_one sys (new_call m sys).
Proof. unfold new_call. destruct (m (engine sys)) as [r s]. apply (settle_ends _ r s (mkSystem _ _ _ (results sys) _)). Qed.

Lemma engine_step_results sys ev : ends_one sys (engine_step sys ev).
Proof.
  assert (forall m, ends_one sys (run_reader m sys)) as Hr by (intros m; unfold run_reader, ends_one; destruct (m (engine sys)) as [[] ?]; by left).
  assert (forall n t thrown, ends_one sys (let '(r, s) := task_finish t thrown (engine sys) in settle n r s sys)) as Hf.
  { intros n t thrown. destruct (task_finish _ _ _) as [r s]. apply settle_ends. }
  assert (forall s c k f, ends_one sys (mkSystem s c k (results sys) f)) as Hs by (intros; by left).
  assert (ends_one sys sys) as Hid by (by left).
  destruct ev; cbn [engine_step]; try apply new_call_ends; try apply Hs; repeat case_match; try done; try apply Hr; try apply Hs;
    match goal with H : task_finish _ _ _ = (?r, ?s) |- _ => apply settle_ends end.
Qed.

Lemma body_outcome_reported sys sys' v :
  ends_one sys sys' -> reports sys sys' -> body_outcome sys sys' = Ok v -> returned_ok (engine sys') v.
Proof.
  intros [E|[[c r] E]] Hr; unfold body_outcome; rewrite E; [by rewrite drop_all|]. rewrite drop_app_length. intros ->. by eapply Hr.
Qed.

(** What the calls that have returned in a step say is so; of [subscribe] that is said when its body ends. *)
Definition still_ok (s : Engine) (r : res call_value) : Prop :=
  match r with Ok (RSubscribed _ _) | Err _ => True | Ok v => returned_ok s v end.
Definition says (lo lo' : Locked) : Prop :=
  exists l, lo_returns lo' = lo_returns lo ++ l /\ forall n r, (n, r) ∈ l -> still_ok (engine (lo_system lo')) r.

Lemma says_same lo lo' : lo_returns lo' = lo_returns lo -> says lo lo'.
Proof. intros E. exists []. split; [by rewrite app_nil_r|]. by intros n r ?%not_elem_of_nil. Qed.

Lemma says_trans lo lo1 lo2 : lo_system lo2 = lo_system lo1 -> says lo lo1 -> says lo1 lo2 -> says lo lo2.
Proof.
  intros E (l1 & E1 & H1) (l2 & E2 & H2). exists (l1 ++ l2). split; [by rewrite E2, E1, app_assoc|].
  intros n r [H|H]%elem_of_app; [rewrite E; by eapply H1|by eapply H2].
Qed.

Lemma says_returns n r lo : still_ok (engine (lo_system lo)) r -> says lo (returns n r lo).
Proof. intros H. exists [(n, r)]. split; [done|]. by intros m r' [= -> ->]%list_elem_of_singleton. Qed.

Lemma inv_returns n r lo : locked_inv lo -> locked_inv (returns n r lo).
Proof. intros [] . by split. Qed.

Lemma inv_draining d lo :
  locked_inv lo -> (forall n v, d !! n = Some v -> exists suback entries, v = RSubscribed suback entries) -> locked_inv (set_draining d lo).
Proof. intros [] Hd. by split. Qed.

(** The end of the [async with]. *)
Lemma after_body_ok n r lo :
  locked_inv lo -> (forall v, r = Ok v -> returned_ok (engine (lo_system lo)) v) ->
  locked_inv (after_body n r lo) /\ lo_system (after_body n r lo) = lo_system lo /\ says lo (after_body n r lo).
Proof.
  intros Hi Hr. assert (still_ok (engine (lo_system lo)) r) as Hs by (destruct r as [v|]; [specialize (Hr v eq_refl); by destruct v|done]).
  destruct r as [[| | |suback entries|]|e]; cbn [after_body]; try (by split; [apply inv_returns|split; [|apply says_returns]]).
  split; [|by split; [|apply says_same]]. apply inv_draining; [done|]. intros m v [[<- <-]|[_ H]]%lookup_insert_Some; [by eexists _, _|].
  by eapply li_draining.
Qed.

(** Leaving [hold] never fails. *)
Lemma leave_ok_if_ended r n lo :
  locked_inv lo -> (forall v, r = Ok v -> returned_ok (engine (lo_system lo)) v) ->
  exists lo', leave_if_ended r n lo = Ok lo' /\ locked_inv lo' /\ lo_system lo' = lo_system lo /\ says lo lo'.
Proof.
  intros Hi Hr. unfold leave_if_ended. destruct (lo_body lo !! n) as [c|] eqn:Hn; [|exists lo; split_and!; [done..|by apply says_same]].
  destruct (calls (lo_system lo) !! c) as [t|] eqn:Hc; [exists lo; split_and!; [done..|by apply says_same]|].
  destruct (li_body _ Hi n c Hn) as (Hlt & h & Hh & Hp & _).
  destruct (leave_inv (lo_guards lo) n h (li_guards _ Hi) Hh Hp) as (gs & -> & Hg & Hd). eexists. split; [reflexivity|].
  refine (after_body_ok n r (set_guards gs (set_body (delete n (lo_body lo)) lo)) _ Hr).
  apply (inv_guards (set_body (delete n (lo_body lo)) lo)); [|done|..]; cbn.
  - split; cbn; try apply Hi.
    + intros m op Hm. apply lookup_delete_None. right. by eapply li_disjoint.
    + intros m d [_ Hm]%lookup_delete_Some. by apply Hi.
    + intros m m' d [_ Hm]%lookup_delete_Some [_ Hm']%lookup_delete_Some. by eapply li_inj.
    + intros d t Hd'. destruct (li_calls _ Hi d t Hd') as [Hl Hm]. split; [done|]. intros Hk. destruct (Hm Hk) as [m Hb]. exists m.
      apply lookup_delete_Some. split; [|done]. intros <-. congruence.
  - intros m d k [Hne _]%lookup_delete_Some Hk. rewrite Hd. by apply lookup_delete_Some.
  - intros m op k Hm. rewrite Hd. intros [_ Hk]%lookup_delete_Some. by eapply li_waiting.
Qed.

Lemma leave_ok_ended r ns lo :
  locked_inv lo -> (forall v, r = Ok v -> returned_ok (engine (lo_system lo)) v) ->
  exists lo', leave_ended r ns lo = Ok lo' /\ locked_inv lo' /\ lo_system lo' = lo_system lo /\ says lo lo'.
Proof.
  revert lo; induction ns as [|n ns IH]; intros lo Hi Hr; cbn; [exists lo; split_and!; [done..|by apply says_same]|].
  destruct (leave_ok_if_ended r n lo Hi Hr) as (lo1 & -> & Hi1 & E1 & S1). cbn.
  destruct (IH lo1 Hi1) as (lo2 & -> & Hi2 & E2 & S2); [by rewrite E1|].
  exists lo2. split; [done|]. split; [done|]. split; [congruence|]. by eapply says_trans.
Qed.

(** The call that has all its locks gets its number in the engine. *)
Definition begin_body (n : nat) (lo : Locked) : Locked :=
  let sys := lo_system lo in
  set_body (<[n := next_call sys]> (lo_body lo)) (set_waiting (delete n (lo_waiting lo))
    (set_system (mkSystem (engine sys) (calls sys) (S (next_call sys)) (results sys) (failure sys)) lo)).

Lemma inv_begin lo n op h :
  locked_inv lo -> lo_waiting lo !! n = Some op -> gs_holds (lo_guards lo) !! n = Some h -> h_phase h = HBody ->
  locked_inv (begin_body n lo).
Proof.
  intros Hi Hn Hh Hb.
  assert (forall t, calls (lo_system lo) !! next_call (lo_system lo) <> Some t) as Hfresh.
  { intros t Ht. pose proof (proj1 (li_calls _ Hi _ t Ht)). lia. }
  split; cbn; try apply Hi.
  - intros m op' k [_ Hm]%lookup_delete_Some. by eapply li_waiting.
  - intros m op' [Hne Hm]%lookup_delete_Some. rewrite lookup_insert_ne by done. by eapply li_disjoint.
  - intros m d [[<- <-]|[_ Hm]]%lookup_insert_Some.
    + split; [lia|]. exists h. split_and!; [done..|]. by intros t Ht%Hfresh.
    + destruct (li_body _ Hi m d Hm) as [Hlt H]. split; [lia|done].
  - intros m m' d [[<- <-]|[Hne Hm]]%lookup_insert_Some [[<- E]|[Hne' Hm']]%lookup_insert_Some; [done|..].
    + pose proof (proj1 (li_body _ Hi _ _ Hm')). lia.
    + subst d. pose proof (proj1 (li_body _ Hi _ _ Hm)). lia.
    + by eapply li_inj.
  - intros d t Hd. destruct (li_calls _ Hi d t Hd) as [Hlt Hm]. split; [lia|]. intros Hk. destruct (Hm Hk) as [m Hm'].
    exists m. rewrite lookup_insert_ne; [done|]. intros <-. pose proof (li_disjoint _ Hi _ _ Hn). congruence.
Qed.

Lemma opens_sub F F' s p : (forall f, f ∈ F -> f ∈ F') -> opens F s p -> opens F' s p.
Proof.
  intros Hf [Hw Hr]. split; [by eapply within_sub|]. destruct p as [[[v|t]|e] s']; [done| |done].
  destruct Hr as (H1 & H2 & H3). split; [done|]. split; [auto|done].
Qed.

Lemma opens_reports F c s p sys : opens F s p -> reports sys (settle c p.1 p.2 sys).
Proof. intros [_ Hr]. apply settle_reports. by destruct p as [[[]|] ?]. Qed.

Lemma run_body_ok n op lo :
  locked_inv lo -> lo_waiting lo !! n = Some op -> in_body n (lo_guards lo) = true ->
  exists lo', run_body n op lo = Ok lo' /\ locked_inv lo' /\ reports (lo_system lo) (lo_system lo') /\ says lo lo'.
Proof.
  intros Hi Hn Hb. unfold in_body in Hb. destruct (gs_holds (lo_guards lo) !! n) as [h|] eqn:Hh; [|done]. apply bool_decide_eq_true in Hb.
  pose proof (inv_begin lo n op h Hi Hn Hh Hb) as Hi1. set (c := next_call (lo_system lo)) in *.
  assert (opens (map fst (h_entries h)) (engine (lo_system lo)) (op_body op (engine (lo_system lo)))) as Ho.
  { apply (opens_sub (op_filters op)); [|apply op_opens, (li_nodup _ Hi)]. intros f Hf.
    rewrite (li_waiting _ Hi n op h Hn Hh). by apply elem_of_sorted_set. }
  set (sys := new_call (op_body op) (lo_system lo)).
  assert (sys = settle c (op_body op (engine (lo_system lo))).1 (op_body op (engine (lo_system lo))).2 (lo_system (begin_body n lo))) as Es.
  { unfold sys, new_call. cbn zeta. fold c. by destruct (op_body op (engine (lo_system lo))). }
  assert (reports (lo_system lo) sys) as Hrep.
  { rewrite Es. by eapply (opens_reports _ c _ (op_body op (engine (lo_system lo))) (lo_system (begin_body n lo))). }
  assert (run_body n op lo = leave_if_ended (body_outcome (lo_system lo) sys) n (set_system sys (begin_body n lo))) as -> by done.
  assert (lo_body (begin_body n lo) !! n = Some c) as Hbody by apply lookup_insert_eq.
  pose proof (inv_settle _ n c h _ Hi1 Hbody Hh Ho) as Hi2. rewrite <-Es in Hi2.
  destruct (leave_ok_if_ended (body_outcome (lo_system lo) sys) n _ Hi2) as (lo' & Hl & Hi' & E & Hsays).
  { intros v. apply body_outcome_reported; [apply new_call_ends|done]. }
  exists lo'. split; [done|]. split; [done|]. split; [by rewrite E|]. exact Hsays.
Qed.

Lemma after_lock_ok n lo :
  locked_inv lo -> exists lo', after_lock n lo = Ok lo' /\ locked_inv lo' /\ reports (lo_system lo) (lo_system lo') /\ says lo lo'.
Proof.
  intros Hi. unfold after_lock.
  destruct (lo_waiting lo !! n) as [op|] eqn:Hn; [|exists lo; split_and!; [done..|by apply reports_same|by apply says_same]].
  destruct (in_body n (lo_guards lo)) eqn:Hb; [by apply run_body_ok|].
  destruct (gs_holds (lo_guards lo) !! n) as [h|]; [exists lo; split_and!; [done..|by apply reports_same|by apply says_same]|].
  eexists. split; [reflexivity|]. split; [|split; [by apply reports_same|exact (says_returns n (Err CancelledError) (set_waiting (delete n (lo_waiting lo)) lo) I)]].
  apply inv_returns, inv_waiting; [done|]. by intros m op' [_ Hm]%lookup_delete_Some.
Qed.

(** ** The steps of the engine *)

Definition step_ok (lo : Locked) (sys : System) : Prop := locked_inv (set_system sys lo) /\ reports (lo_system lo) sys.

Lemma step_same lo s e :
  locked_inv lo -> within [] (engine (lo_system lo)) s ->
  step_ok lo (mkSystem s (calls (lo_system lo)) (next_call (lo_system lo)) (results (lo_system lo)) e).
Proof.
  intros Hi Hw. split; [|by apply reports_same]. apply inv_system; cbn; [done|done|lia|..].
  - intros c t Hc. split; [by eapply li_calls|done].
  - intros n c t Hn Hc. destruct (li_body _ Hi n c Hn) as (_ & h & _ & _ & Ht). by apply Ht.
Qed.

Lemma step_unit lo m : locked_inv lo -> preserves (within []) m -> step_ok lo (run_unit m (lo_system lo)).
Proof. intros Hi Hm. by apply step_same. Qed.

Lemma step_reader lo m : locked_inv lo -> preserves (within []) m -> step_ok lo (run_reader m (lo_system lo)).
Proof.
  intros Hi Hm. specialize (Hm (engine (lo_system lo))). unfold run_reader. destruct (m _) as [[a|e] s]; by apply step_same.
Qed.

Lemma step_idle lo : locked_inv lo -> step_ok lo (lo_system lo).
Proof. intros Hi. split; [by destruct lo|by apply reports_same]. Qed.

(** A publish or a ping, at its beginning or resumed. *)
Lemma step_other lo c p k :
  locked_inv lo -> within [] (engine (lo_system lo)) p.2 -> (forall n, lo_body lo !! n <> Some c) ->
  (next_call (lo_system lo) <= k)%nat -> (c < k)%nat ->
  match p.1 with
  | Ok (Suspended t) => is_managed_task (t_kind t) = false
  | Ok (Returned v) => match v with RNone | RPubAck _ | RPubComp _ => True | _ => False end
  | Err _ => True
  end ->
  step_ok lo (settle c p.1 p.2 (mkSystem (engine (lo_system lo)) (calls (lo_system lo)) k (results (lo_system lo)) (failure (lo_system lo)))).
Proof.
  intros Hi Hw Hc Hk Hck Hp. destruct p as [r s]. cbn in Hw, Hp. split.
  - assert (forall d t, calls (settle c r s (mkSystem (engine (lo_system lo)) (calls (lo_system lo)) k (results (lo_system lo)) (failure (lo_system lo)))) !! d = Some t ->
      calls (lo_system lo) !! d = Some t \/ d = c /\ is_managed_task (t_kind t) = false) as Hd.
    { intros d t. destruct r as [[v|u]|e]; cbn; [intros [_ ?]%lookup_delete_Some; by left| |intros [_ ?]%lookup_delete_Some; by left].
      intros [[<- <-]|[_ ?]]%lookup_insert_Some; [by right|by left]. }
    apply inv_system; [done|by destruct r as [[]|]|by destruct r as [[]|]|..].
    + intros d t Ht. destruct (Hd d t Ht) as [Ht'|[-> Hm]].
      * split; [|done]. pose proof (proj1 (li_calls _ Hi d t Ht')). destruct r as [[]|]; cbn; lia.
      * split; [by destruct r as [[]|]|]. by rewrite Hm.
    + intros n d t Hn Ht. destruct (Hd d t Ht) as [Ht'|[-> Hm]]; [|by destruct (Hc n)].
      destruct (li_body _ Hi n d Hn) as (_ & h & _ & _ & Hu). by apply Hu.
  - refine (settle_reports c (r, s) (mkSystem _ _ k (results (lo_system lo)) _) _). by destruct r as [[[]|]|].
Qed.

Lemma step_new lo m :
  locked_inv lo -> preserves (within []) m ->
  (forall s, match (m s).1 with Ok (Suspended t) => is_managed_task (t_kind t) = false | Ok (Returned v) => v = RNone | Err _ => True end) ->
  step_ok lo (new_call m (lo_system lo)).
Proof.
  intros Hi Hm Hp. unfold new_call. specialize (Hm (engine (lo_system lo))). specialize (Hp (engine (lo_system lo))).
  destruct (m (engine (lo_system lo))) as [r s]. apply (step_other lo _ (r, s)); try done; [|lia..|by destruct r as [[v|]|]; cbn in *; [rewrite Hp|..]].
  intros n Hn. pose proof (proj1 (li_body _ Hi _ _ Hn)). lia.
Qed.

(** A waiting call, resumed. *)
Lemma step_resumed lo c t thrown :
  locked_inv lo -> calls (lo_system lo) !! c = Some t ->
  step_ok lo (settle c (task_finish t thrown (engine (lo_system lo))).1 (task_finish t thrown (engine (lo_system lo))).2 (lo_system lo)).
Proof.
  intros Hi Hc. destruct (is_managed_task (t_kind t)) eqn:Hm.
  - destruct (proj2 (li_calls _ Hi c t Hc) Hm) as [n Hn]. destruct (li_body _ Hi n c Hn) as (_ & h & Hh & _ & Ht).
    pose proof (finish_opens t thrown _ (li_nodup _ Hi) Hm (li_relies _ Hi c t Hc)) as [Hw Hr].
    destruct (task_finish t thrown (engine (lo_system lo))) as [r s] eqn:E. cbn in Hw, Hr. split.
    + apply (inv_settle lo n c h (r, s)); [done..|]. split; [by eapply within_sub; [apply (proj2 (Ht t Hc))|]|].
      destruct r as [[v|u]|e]; cbn in *; [done| |done]. destruct Hr as (H1 & H2 & H3). split; [done|]. split; [|done].
      intros f Hf. by apply (proj2 (Ht t Hc)), H2.
    + apply (settle_reports c (r, s)). by destruct r as [[]|].
  - pose proof (within_other t thrown Hm (engine (lo_system lo))) as Hw. pose proof (other_ends t thrown (engine (lo_system lo))) as He.
    destruct (task_finish t thrown (engine (lo_system lo))) as [r s]. cbn in Hw, He.
    destruct (step_other lo c (r, s) (next_call (lo_system lo)) Hi Hw) as [H1 H2]; [| |by eapply li_calls| |].
    + intros n Hn. destruct (li_body _ Hi n c Hn) as (_ & h & _ & _ & Ht). destruct (Ht t Hc). congruence.
    + lia.
    + destruct r as [v|e]; [|done]. specialize (He v Hm eq_refl). by destruct v as [[]|].
    + split; [|exact H2]. by destruct r as [[]|].
Qed.

Lemma publish_kind packet s :
  match (publish_begin packet s).1 with Ok (Suspended t) => is_managed_task (t_kind t) = false | Ok (Returned v) => v = RNone | Err _ => True end.
Proof.
  unfold publish_begin, mbind, M_bind. rewrite ensure_alive_eq. destruct (e_dead s); [done|]. cbn [asks].
  destruct (_ <? _); [done|]. cbn [asks]. destruct (_ && _); [done|].
  destruct (p_qos packet); repeat case_match; cbn in *; intros; by simplify_eq.
Qed.

Lemma ping_kind s :
  match (ping_begin s).1 with Ok (Suspended t) => is_managed_task (t_kind t) = false | Ok (Returned v) => v = RNone | Err _ => True end.
Proof. unfold ping_begin, mbind, M_bind. repeat case_match; cbn in *; intros; simplify_eq; done. Qed.

Lemma engine_event_ok lo ev : locked_inv lo -> is_managed ev = false -> step_ok lo (engine_step (lo_system lo) ev).
Proof.
  intros Hi Hm. pose proof (step_unit lo) as Hunit. pose proof (step_reader lo) as Hreader. pose proof (step_idle lo Hi) as Hidle.
  destruct ev; try done; cbn [engine_step].
  - apply step_new; [done|apply within_publish|apply publish_kind].
  - apply step_new; [done|apply within_ping|apply ping_kind].
  - apply Hunit; [done|apply within_detach].
  - apply Hunit; [done|apply within_auth].
  - apply Hunit; [done|apply within_inbound; auto with frame].
  - case_match; [|done]. apply Hreader; [done|]. apply preserves_bind; [tc_solve|apply within_connack|intros ?; apply preserves_ret; tc_solve].
  - case_match; [|done]. apply Hreader; [done|apply within_dispatch].
  - case_match; [|done]. apply Hreader; [done|apply within_rejecting].
  - case_match; [|done]. apply Hreader; [done|apply within_inbound; auto with frame].
  - apply Hunit; [done|apply within_inbound; auto with frame].
  - apply Hunit; [done|apply within_inbound; auto with frame].
  - apply Hunit; [done|apply within_inbound; auto with frame].
  - apply Hunit; [done|apply within_expire].
  - destruct (calls (lo_system lo) !! call) as [t|] eqn:E; [|done]. pose proof (step_resumed lo call t (Some CancelledError) Hi E) as H.
    destruct (is_ping t || _); [by destruct (task_finish _ _ _)|]. apply step_same; [done|by apply within_same].
  - destruct (calls (lo_system lo) !! call) as [t|] eqn:E; [|done]. pose proof (step_resumed lo call t (Some (MQTTTimeoutError "")) Hi E) as H.
    destruct (is_ping t); [by destruct (task_finish _ _ _)|done].
  - destruct (calls (lo_system lo) !! call) as [t|] eqn:E; [|done]. pose proof (step_resumed lo call t None Hi E) as H.
    destruct (fut_done _); [by destruct (task_finish _ _ _)|done].
  - apply step_same; [done|by apply within_same].
  - apply Hunit; [done|apply within_disconnect].
  - apply Hunit; [done|apply within_inbound, frame_bind_router].
  - case_match; [done|]. apply Hunit; [done|apply within_run_finally].
Qed.

(** Resuming a call that waits for a lock disturbs no body, and no call changes its filters. *)
Lemma lock_resumed gs n thrown :
  guards_inv gs -> exists gs', guard_step gs (GResume n thrown) = Ok gs' /\ guards_inv gs' /\
    (forall m h, gs_holds gs !! m = Some h -> h_phase h = HBody -> gs_holds gs' !! m = Some h) /\
    (forall m h, gs_holds gs' !! m = Some h -> exists k, gs_holds gs !! m = Some k /\ h_entries h = h_entries k).
Proof.
  intros Hi. assert (forall m h, gs_holds gs !! m = Some h -> exists k, gs_holds gs !! m = Some k /\ h_entries h = h_entries k) as Hsame by eauto.
  destruct (hold_waiter n gs) as [[[h r] st]|] eqn:Hw; [|exists gs; split; [cbn; by rewrite Hw|done]].
  destruct (decide (st = WPending)) as [->|Hst]; [exists gs; split; [cbn; by rewrite Hw|done]|].
  destruct (hold_waiter_inv _ _ _ _ _ Hw) as (Hn & Hp & _).
  destruct (resume_inv gs n thrown h r st Hi Hw Hst) as (gs' & Hs & Hg & [E|(h' & E & He & _)]); exists gs'; rewrite E.
  - split; [done|]. split; [done|]. split; [|by intros m k [_ Hk]%lookup_delete_Some; eauto].
    intros m k Hk Hb. apply lookup_delete_Some. split; [|done]. intros <-. congruence.
  - split; [done|]. split; [done|]. split.
    + intros m k Hk Hb. rewrite lookup_insert_ne; [done|]. intros <-. congruence.
    + intros m k [[<- <-]|[_ Hk]]%lookup_insert_Some; [by exists h|by eauto].
Qed.

(** Every step is possible and keeps the invariant. *)
Lemma locked_step_ok lo ev :
  locked_inv lo ->
  exists lo', locked_step lo ev = Ok lo' /\ locked_inv lo' /\ reports (lo_system lo) (lo_system lo') /\ says lo lo'.
Proof.
  intros Hi. assert (exists lo', Ok lo = Ok lo' /\ locked_inv lo' /\ reports (lo_system lo) (lo_system lo') /\ says lo lo') as Hid
    by (exists lo; split_and!; [done..|by apply reports_same|by apply says_same]).
  destruct ev as [n op|n|n thrown|n thrown|ev]; cbn [locked_step].
  - destruct (gs_holds (lo_guards lo) !! n) as [h|] eqn:Hn; [done|]. destruct (lo_draining lo !! n); [done|].
    cbn [guard_step]. rewrite Hn. cbn [mbind res_bind].
    destruct (enter_inv (lo_guards lo) n (op_filters op) (li_guards _ Hi) Hn) as [Hg (h & Hh & He)].
    assert (lo_body lo !! n = None) as Hb.
    { apply eq_None_not_Some. intros [c Hc]. destruct (li_body _ Hi n c Hc) as (_ & k & Hk & _). congruence. }
    refine (after_lock_ok n (set_guards _ (set_waiting _ lo)) _). apply inv_guards; [|done|..]; cbn.
    + split; cbn; try apply Hi.
      * intros m op' k [[<- <-]|[_ Hm]]%lookup_insert_Some Hk; [congruence|by eapply li_waiting].
      * intros m op' [[<- _]|[_ Hm]]%lookup_insert_Some; [done|by eapply li_disjoint].
    + intros m c k Hm Hk. rewrite Hh, lookup_insert_ne; [done|]. intros <-. congruence.
    + intros m op' k Hm. rewrite Hh. intros [[<- <-]|[Hne Hk]]%lookup_insert_Some.
      * rewrite lookup_insert_eq in Hm. congruence.
      * rewrite lookup_insert_ne in Hm by done. by eapply li_waiting.
  - destruct (guard_step_inv (lo_guards lo) (GCancel n) (li_guards _ Hi)) as (gs & Hs & Hg). rewrite Hs. eexists.
    split; [reflexivity|]. split; [|split; [by apply reports_same|by apply says_same]].
    assert (gs_holds gs = gs_holds (lo_guards lo)) as E.
    { cbn in Hs. destruct (hold_waiter n (lo_guards lo)) as [[[h r] st]|]; by injection Hs as <-. }
    apply inv_guards; [done|done|by rewrite E|rewrite E; by eapply li_waiting].
  - destruct (lock_resumed (lo_guards lo) n thrown (li_guards _ Hi)) as (gs & -> & Hg & Hbody & Hentries). cbn [mbind res_bind].
    refine (after_lock_ok n (set_guards gs lo) _). apply inv_guards; [done|done|..].
    + intros m c h Hm Hh. destruct (li_body _ Hi m c Hm) as (_ & k & Hk & Hb & _). assert (k = h) as -> by congruence. by apply Hbody.
    + intros m op h Hm Hh. destruct (Hentries m h Hh) as (k & Hk & ->). by eapply li_waiting.
  - destruct (lo_draining lo !! n) as [v|] eqn:Hn; [|done]. destruct (li_draining _ Hi n v Hn) as (suback & entries & ->).
    assert (locked_inv (set_draining (delete n (lo_draining lo)) lo)) as Hi1.
    { apply inv_draining; [done|]. intros m v [_ H]%lookup_delete_Some. by eapply li_draining. }
    destruct thrown; [eexists; split; [reflexivity|]; split; [by apply inv_returns|]; split; [by apply reports_same|];
      exact (says_returns n (Err CancelledError) (set_draining (delete n (lo_draining lo)) lo) I)|].
    pose proof (within_inbound [] _ frame_drain_replay (engine (lo_system lo))) as Hd. cbn [lo_system set_draining].
    destruct (drain_replay (engine (lo_system lo))) as [r s]. cbn in Hd. eexists. split; [reflexivity|].
    split; [|split; [by apply reports_same|]].
    2: { refine (says_returns n _ (set_system (with_engine s (lo_system lo)) (set_draining (delete n (lo_draining lo)) lo)) _). by destruct r. }
    apply inv_returns. by apply (step_same (set_draining (delete n (lo_draining lo)) lo) s (failure (lo_system lo))).
  - destruct (is_managed ev) eqn:Hm; [done|]. destruct (engine_event_ok lo ev Hi Hm) as [Hi' Hr].
    destruct (leave_ok_ended (body_outcome (lo_system lo) (engine_step (lo_system lo) ev)) (map fst (map_to_list (lo_body lo))) _ Hi')
      as (lo' & Hl & Hi'' & E & Hsays).
    { intros v. apply body_outcome_reported; [apply engine_step_results|done]. }
    exists lo'. split; [done|]. split; [done|]. split; [by rewrite E|]. exact Hsays.
Qed.

Lemma locked_steps_ok evs lo : locked_inv lo -> exists lo', locked_steps lo evs = Ok lo' /\ locked_inv lo'.
Proof.
  revert lo; induction evs as [|ev evs IH]; intros lo Hi; cbn; [by exists lo|].
  destruct (locked_step_ok lo ev Hi) as (lo1 & -> & Hi1 & _). by apply IH.
Qed.

(** A new engine, with the detached filters the client restores on it. *)
Definition engine_start (s : Engine) (entries : list item) : System := run_unit (restore_detached entries) (system_new s).

Lemma locked_new_inv v prefixes keepalive limit size d queues next entries :
  locked_inv (locked_new (engine_start (engine_new v prefixes keepalive limit size d queues next) entries)).
Proof.
  split; cbn; try (intros *; by rewrite lookup_empty); [apply guards_new_inv|].
  destruct (add_many_contains entries index_new) as [Hnd _]; [constructor|exact Hnd].
Qed.

(** C22: subscription calls and their locks.  On a new connection, whatever calls are made, and
    however they, the packets of the broker, cancellations (while a call waits for a lock, for the
    broker or in the drain of the replay buffer) and the end of the connection interleave: releasing a lock never fails; two calls
    that wait for the broker never share a filter; what a call that waits for the broker has changed is
    still so (the filters of a [subscribe] are registered, those of an [unsubscribe] are not, a response topic
    is observed or no longer observed); when the body of a [subscribe] has succeeded, and its locks are released, the
    filters it will return are registered; and when an [unsubscribe] returns, those it has unsubscribed are
    neither registered nor observed.  ([subscribe] returns after a drain without its locks: by then its filters may have been
    unsubscribed, [subscribe_returns_late].) *)
Theorem subscriptions_serialised v prefixes keepalive limit size d queues next entries evs :
  exists lo, locked_steps (locked_new (engine_start (engine_new v prefixes keepalive limit size d queues next) entries)) evs = Ok lo /\
    (forall c c' t t' f, calls (lo_system lo) !! c = Some t -> calls (lo_system lo) !! c' = Some t' ->
       f ∈ task_filters (t_kind t) -> f ∈ task_filters (t_kind t') -> c = c') /\
    (forall c t, calls (lo_system lo) !! c = Some t -> relies (engine (lo_system lo)) (t_kind t)) /\
    (forall ev, exists lo', locked_step lo ev = Ok lo' /\
       (forall c r, results (lo_system lo') = results (lo_system lo) ++ [(c, Ok r)] -> returned_ok (engine (lo_system lo')) r) /\
       exists l, lo_returns lo' = lo_returns lo ++ l /\
         forall n filters ack f, (n, Ok (RUnsubscribed (Some (filters, ack)))) ∈ l -> f ∈ filters ->
           registered_in (engine (lo_system lo')) f = false /\ observed_in (engine (lo_system lo')) f = false).
Proof.
  destruct (locked_steps_ok evs _ (locked_new_inv v prefixes keepalive limit size d queues next entries)) as (lo & Hs & Hi).
  exists lo. split; [done|]. split; [intros c c' t t' f; by apply calls_exclude|]. split; [by apply Hi|].
  intros ev. destruct (locked_step_ok lo ev Hi) as (lo' & H1 & _ & H2 & l & E & Hl). exists lo'. split; [done|]. split; [done|].
  exists l. split; [done|]. intros n filters ack f Hin Hf. by apply (Hl _ _ Hin).
Qed.

(** Without the locks, an [unsubscribe] overtakes a [subscribe] that waits for its SUBACK: it returns
    with nothing registered. *)
Theorem unlocked_calls_interfere :
  let sys := run_events sample_system
    [EvSubscribe [observer_request (py "a")] 0 true None; EvUnsubscribe [py "a"];
     EvReceive (PSubAck (mkSubAck 1 [0] None)); EvResume 0] in
  results sys = [(0%nat, Ok (RSubscribed (mkSubAck 1 [0] None) [py "a"]))] /\
  registered_in (engine sys) (py "a") = false.
Proof. vm_compute. split; reflexivity. Qed.

(** With them it waits. *)
Theorem locked_calls_wait :
  exists lo, locked_steps (locked_new sample_system)
    [LCall 0 (OSubscribe [observer_request (py "a")] 0 true None); LCall 1 (OUnsubscribe [py "a"]);
     LEngine (EvReceive (PSubAck (mkSubAck 1 [0] None))); LEngine (EvResume 0)] = Ok lo /\
  results (lo_system lo) = [(0%nat, Ok (RSubscribed (mkSubAck 1 [0] None) [py "a"]))] /\
  registered_in (engine (lo_system lo)) (py "a") = true /\ lo_waiting lo !! 1%nat = Some (OUnsubscribe [py "a"]) /\
  lo_body lo = ∅.
Proof. eexists. split; [vm_compute; reflexivity|]. vm_compute. split_and!; reflexivity. Qed.

(** [subscribe] drains the replay buffer when it has left its locks; while it does, the [unsubscribe] that waited goes on,
    and [subscribe] returns a filter that is not registered any more. *)
Theorem subscribe_returns_late :
  exists lo, locked_steps (locked_new sample_system)
    [LCall 0 (OSubscribe [observer_request (py "a")] 0 true None); LCall 1 (OUnsubscribe [py "a"]);
     LEngine (EvReceive (PSubAck (mkSubAck 1 [0] None))); LEngine (EvResume 0); LResume 1 false; LDrained 0 false] = Ok lo /\
  lo_returns lo = [(0%nat, Ok (RSubscribed (mkSubAck 1 [0] None) [py "a"]))] /\
  registered_in (engine (lo_system lo)) (py "a") = false.
Proof. eexists. split; [vm_compute; reflexivity|]. vm_compute. split; reflexivity. Qed.
