(* ===== verification/Connection.v ===== *)
(** * A connection on the wire ([connect], [_await_connack] and [_read_loop] of [_internal/protocol.py])

    The packet reader and the engine put together.  The handshake is a function of what the
    transport's reads return; the read loop is a coroutine with two places to wait (a read, or a
    full queue inside a handler) that interleaves with everything else the engine does
    ([conn_step]).

    Theorems: the handshake is independent of how the broker's bytes are cut, keeps what follows
    the CONNACK, and negotiates what the CONNACK says; its failures; and the engine is handed
    exactly the packets the broker encoded, in order, under every interleaving. *)

From S2P Require Import Prelude Properties Packets Codec Reader Topic SubscriptionIndex State Engine Inbound Protocol.

(** ** The handshake *)

(** What becomes of a read: data, an exception, or the timeout of [connect] before any. *)
Inductive read_result : Type :=
| ReadData (data : bytes)
| ReadFails (e : exn)
| ReadTimeout.

(** [None]: still waiting. *)
Definition handshake : Type := option (res ConnAck) * PacketBuffer * Engine.

(** An exception leaves [_rejecting_oversized_packets]. *)
Definition rejected (e : exn) (b : PacketBuffer) (s : Engine) : handshake :=
  let '(r, s) := (_ ← rejecting_oversized e; throw e : M ConnAck) s in (Some r, b, s).

(** [_await_connack] under [wait_for]; the [for] loop ends at its first packet, which closes the
    iterator. *)
Fixpoint _await_connack (reads : list read_result) (b : PacketBuffer) (s : Engine) : handshake :=
  match reads with
  | [] => (None, b, s)
  | ReadTimeout :: _ => (Some (Err (MQTTTimeoutError "CONNACK not received within timeout")), b, s)
  | ReadFails e :: _ => rejected e b s
  | ReadData data :: reads' =>
    match feed b data with
    | Err e => rejected e b s
    | Ok b =>
      match iter_next b with
      | (Ok None, b) => _await_connack reads' b s
      | (Err e, b) => rejected e b s
      | (Ok (Some pkt), b) =>
        match handle_connack pkt s with
        | (Ok ack, s) => (Some (Ok ack), iter_close b, s)
        | (Err e, s) => rejected e (iter_close b) s
        end
      end
    end
  end.

Definition connect (packet : Connect) (reads : list read_result) (b : PacketBuffer) (s : Engine) : handshake :=
  match send_packet (PConnect packet) s with
  | (Ok _, s) => _await_connack reads b s
  | (Err e, s) => (Some (Err e), b, s)
  end.

(** ** The read loop *)

(** Inside the [for] loop, in [transport.read], or returned. *)
Inductive read_phase : Type := RIterating | RReading | REnded.

#[export] Instance read_phase_eq_dec : EqDecision read_phase.
Proof. solve_decision. Defined.

(** [c_received] and [c_events] record the bytes read and the events of the engine. *)
Record Connection : Type := mkConnection {
  c_system : System;
  c_buffer : PacketBuffer;
  c_phase : read_phase;
  c_received : bytes;
  c_events : list event
}.

Definition connection_new (sys : System) (b : PacketBuffer) : Connection := mkConnection sys b RIterating [] [].

Definition engine_event (ev : event) (c : Connection) : Connection :=
  mkConnection (engine_step (c_system c) ev) (c_buffer c) (c_phase c) (c_received c) (c_events c ++ [ev]).
Definition at_buffer (b : PacketBuffer) (phase : read_phase) (c : Connection) : Connection :=
  mkConnection (c_system c) b phase (c_received c) (c_events c).

(** The events of the loop itself. *)
Definition is_reader_event (ev : event) : bool :=
  match ev with EvConnAck _ | EvReceive _ | EvReadFails _ => true | _ => false end.

(** The loop has not ended and is not inside a handler that waits for a queue. *)
Definition loop_free (c : Connection) : bool :=
  reading (c_system c) && negb (is_Some_b (e_putting (engine (c_system c)))).

Definition is_disconnected (e : exn) : bool := match e with MQTTDisconnectedError _ => true | _ => false end.

Inductive conn_event : Type :=
| CNext                   (** the [for] loop takes the next packet *)
| CRead (data : bytes)    (** [transport.read] returns *)
| CReadFails (e : exn)    (** [transport.read] raises *)
| CEngine (ev : event).   (** anything else *)

Definition conn_step (c : Connection) (ev : conn_event) : Connection :=
  match ev with
  | CNext =>
    if loop_free c && bool_decide (c_phase c = RIterating) then
      match iter_next (c_buffer c) with
      | (Ok (Some packet), b) => engine_event (EvReceive packet) (at_buffer b RIterating c)
      | (Ok None, b) => at_buffer b RReading c
      | (Err e, b) => engine_event (EvReadFails e) (at_buffer b RIterating c)
      end
    else c
  | CRead data =>
    if loop_free c && bool_decide (c_phase c = RReading) then
      match feed (c_buffer c) data with
      | Ok b => mkConnection (c_system c) b RIterating (c_received c ++ data) (c_events c)
      | Err e => engine_event (EvReadFails e) c
      end
    else c
  | CReadFails e =>
    if loop_free c && bool_decide (c_phase c = RReading) then
      if is_disconnected e && e_disconnecting (engine (c_system c)) then at_buffer (c_buffer c) REnded c
      else engine_event (EvReadFails e) c
    else c
  | CEngine ev => if is_reader_event ev then c else engine_event ev c
  end.

Definition conn_steps (c : Connection) (evs : list conn_event) : Connection := foldl conn_step c evs.

(** The packets handed to [_dispatch]. *)
Definition received_packets (evs : list event) : list AnyPacket :=
  omap (fun ev => match ev with EvReceive p => Some p | _ => None end) evs.

(** ** Waiting for the CONNACK *)

(** A buffer at rest: no iterator is suspended on it. *)
Record at_rest (v : version) (limit : option Z) (b : PacketBuffer) : Prop := {
  ar_well_formed : well_formed b;
  ar_released : pb_exported b = false;
  ar_version : pb_version b = v;
  ar_limit : pb_max_packet_size b = limit
}.

Lemma at_rest_new v limit : at_rest v limit (PacketBuffer_new v limit).
Proof. by split; [apply well_formed_new|..]. Qed.

Lemma feed_at_rest v limit b data :
  at_rest v limit b -> exists b', feed b data = Ok b' /\ at_rest v limit b' /\ pending b' = pending b ++ data.
Proof.
  intros [Hw He <- <-]. destruct (feed_pending b data Hw He) as (b' & H & Hw' & He' & Hv & Hl & Hp & _).
  exists b'. done.
Qed.

(** The three outcomes of one turn of the iterator. *)
Lemma iter_next_spec v limit b :
  well_formed b -> pb_version b = v -> pb_max_packet_size b = limit ->
  match decode (pending b) v limit with
  | Ok (Some (p, n)) => exists b', iter_next b = (Ok (Some p), b') /\ well_formed b' /\ pb_version b' = v /\
      pb_max_packet_size b' = limit /\ at_rest v limit (iter_close b') /\ pending b' = slice_from (pending b) n /\
      pending (iter_close b') = slice_from (pending b) n
  | Ok None => iter_next b = (Ok None, iter_close b) /\ at_rest v limit (iter_close b) /\ pending (iter_close b) = pending b
  | Err e => iter_next b = (Err e, iter_close b) /\ at_rest v limit (iter_close b) /\ pending (iter_close b) = pending b
  end.
Proof.
  intros Hw <- <-. unfold iter_next. fold (pending b).
  destruct (decode (pending b) _ _) as [[[p n]|]|e] eqn:E; [|split; done|split; done].
  pose proof (decode_consumes _ _ _ _ _ E) as [Hn _]. unfold well_formed in Hw.
  assert (zlen (pending b) = zlen (pb_buf b) - pb_offset b) as Hp by (by apply zlen_slice_from).
  eexists. split; [reflexivity|].
  assert (well_formed (mkPacketBuffer (pb_buf b) (pb_offset b + n) (pb_version b) (pb_max_packet_size b) true)) as Hw'
    by (unfold well_formed; cbn; lia).
  assert (slice_from (pb_buf b) (pb_offset b + n) = slice_from (pending b) n) as Hs.
  { unfold pending. rewrite slice_from_slice_from; [done|lia|lia]. }
  split_and!; try done.
Qed.

(** Input that is incomplete was incomplete all along. *)
Lemma decode_wait_prefix bs more v limit : decode (bs ++ more) v limit = Ok None -> decode bs v limit = Ok None.
Proof.
  intros H. destruct (decode bs v limit) as [[[p n]|]|e] eqn:E; [|done|];
    rewrite (decode_prefix bs more v limit) in H by congruence; congruence.
Qed.

Section handshake.
Context (v : version) (limit : option Z).

Lemma await_waits cs reads b s :
  at_rest v limit b -> decode (pending b ++ concat cs) v limit = Ok None ->
  exists b', _await_connack ((ReadData <$> cs) ++ reads) b s = _await_connack reads b' s /\
    at_rest v limit b' /\ pending b' = pending b ++ concat cs.
Proof.
  revert b; induction cs as [|c cs IH]; intros b Hb Hd; cbn [fmap list_fmap app concat _await_connack] in *.
  - exists b. by rewrite app_nil_r.
  - destruct (feed_at_rest v limit b c Hb) as (b1 & -> & Hb1 & Hp1).
    rewrite app_assoc in Hd. rewrite <-Hp1 in Hd.
    pose proof (iter_next_spec v limit b1 (ar_well_formed _ _ _ Hb1) (ar_version _ _ _ Hb1) (ar_limit _ _ _ Hb1)) as Hn.
    rewrite (decode_wait_prefix _ _ _ _ Hd) in Hn. destruct Hn as (-> & Hr & Hp).
    rewrite <-Hp in Hd. destruct (IH _ Hr Hd) as (b' & -> & Hb' & Hp'). exists b'. split_and!; try done.
    by rewrite Hp', Hp, Hp1, app_assoc.
Qed.

(** A read that completes a packet, or shows that there is none. *)
Lemma await_packet data reads b s p n :
  at_rest v limit b -> decode (pending b ++ data) v limit = Ok (Some (p, n)) ->
  exists b', at_rest v limit b' /\ pending b' = slice_from (pending b ++ data) n /\
    _await_connack (ReadData data :: reads) b s =
    match handle_connack p s with
    | (Ok ack, s) => (Some (Ok ack), b', s)
    | (Err e, s) => rejected e b' s
    end.
Proof.
  intros Hb Hd. cbn [_await_connack]. destruct (feed_at_rest v limit b data Hb) as (b1 & -> & Hb1 & Hp1).
  rewrite <-Hp1 in *.
  pose proof (iter_next_spec v limit b1 (ar_well_formed _ _ _ Hb1) (ar_version _ _ _ Hb1) (ar_limit _ _ _ Hb1)) as Hn.
  rewrite Hd in Hn. destruct Hn as (b' & -> & _ & _ & _ & Hr & _ & Hp). exists (iter_close b'). done.
Qed.

Lemma await_error data reads b s e :
  at_rest v limit b -> decode (pending b ++ data) v limit = Err e ->
  exists b', _await_connack (ReadData data :: reads) b s = rejected e b' s.
Proof.
  intros Hb Hd. cbn [_await_connack]. destruct (feed_at_rest v limit b data Hb) as (b1 & -> & Hb1 & Hp1).
  rewrite <-Hp1 in *.
  pose proof (iter_next_spec v limit b1 (ar_well_formed _ _ _ Hb1) (ar_version _ _ _ Hb1) (ar_limit _ _ _ Hb1)) as Hn.
  rewrite Hd in Hn. destruct Hn as (-> & _). by eexists.
Qed.
End handshake.

(** What the CONNACK settles: keepalive, maximum QoS, retained messages. *)
Definition negotiated_keepalive (keepalive : Z) (props : option ConnAckProperties) : Z :=
  from_option (fun p => default keepalive (cap_server_keep_alive p)) keepalive props.
Definition negotiated_qos (props : option ConnAckProperties) : res QoS :=
  from_option (fun p => from_option QoS_of (Ok EXACTLY_ONCE) (cap_maximum_qos p)) (Ok EXACTLY_ONCE) props.
Definition negotiated_retain (props : option ConnAckProperties) : bool :=
  from_option (fun p => default true (cap_retain_available p)) true props.

Lemma handle_connack_accepted ack s q :
  ca_return_code ack = 0 -> negotiated_qos (v5_only (e_version s) (ca_properties ack)) = Ok q ->
  let props := v5_only (e_version s) (ca_properties ack) in
  let ack' := mkConnAck (ca_session_present ack) 0 props in
  handle_connack (PConnAck ack') s =
  (Ok ack',
   set_e_replay (if ca_session_present ack then PersistentReplayIdle else NoSessionReplay)
     (set_e_retain_available (negotiated_retain props)
       (set_e_max_publish_qos q (set_e_effective_keepalive (negotiated_keepalive (e_keepalive s) props) s)))).
Proof.
  intros Hrc Hq. cbn zeta. unfold handle_connack, begin_session, mbind, M_bind, mret, M_ret, asks, modify, throw, lift. cbn.
  destruct (e_version s) eqn:Ev; cbn in *; [by injection Hq as <-|].
  destruct (canon (ca_properties ack)) as [p|]; cbn in *; [|by injection Hq as <-].
  destruct (cap_server_keep_alive p), (cap_maximum_qos p) as [m|], (cap_retain_available p) as [[]|]; cbn in *;
    rewrite ?Hq; try (injection Hq as <-); done.
Qed.

(** C7: the handshake.  Once CONNECT is written, the bytes of an accepting CONNACK, followed by any
    others and cut into reads in any way, make [connect] return that CONNACK at the read that
    completes it.  The bytes after it stay in the buffer for the read loop; CONNECT is all that
    was sent; and keepalive, maximum QoS, retained messages and session replay are from then on
    what the CONNACK says, or their defaults. *)
Theorem connect_handshake packet ack request reply limit chunks last rest more s q :
  let v := e_version s in
  let props := v5_only v (ca_properties ack) in
  encode (PConnect packet) v = Ok request -> e_lost s || e_closed s = false ->
  encode (PConnAck ack) v = Ok reply -> from_option (fun l => zlen reply <= l) True limit ->
  ca_return_code ack = 0 -> negotiated_qos props = Ok q ->
  (length (concat chunks) < length reply)%nat -> concat chunks ++ last = reply ++ rest ->
  exists b s', connect packet ((ReadData <$> chunks) ++ ReadData last :: more) (PacketBuffer_new v limit) s =
      (Some (Ok (mkConnAck (ca_session_present ack) 0 props)), b, s') /\
    at_rest v limit b /\ pending b = rest /\
    e_sent s' = e_sent s ++ [request] /\ e_state s' = e_state s /\
    e_effective_keepalive s' = negotiated_keepalive (e_keepalive s) props /\
    e_max_publish_qos s' = q /\ e_retain_available s' = negotiated_retain props /\
    e_replay s' = (if ca_session_present ack then PersistentReplayIdle else NoSessionReplay).
Proof.
  intros v props Hreq [Hlost Hclosed]%orb_false_iff Hrep Hlim Hrc Hq Hlen Hcat. unfold connect.
  rewrite (send_packet_ok _ request s) by done. set (s1 := set_e_sent _ s).
  assert (concat chunks = take (length (concat chunks)) reply) as Hpre.
  { apply (f_equal (take (length (concat chunks)))) in Hcat. rewrite take_app_length in Hcat. rewrite Hcat at 1.
    by rewrite take_app_le by lia. }
  assert (decode (concat chunks) v limit = Ok None) as Hwait.
  { rewrite Hpre. by apply (encoded_part_waits (PConnAck ack)). }
  destruct (await_waits v limit chunks (ReadData last :: more) _ s1 (at_rest_new v limit) Hwait) as (b & -> & Hb & Hp).
  change (pending b = concat chunks) in Hp. assert (decode (pending b ++ last) v limit =
    Ok (Some (PConnAck (mkConnAck (ca_session_present ack) 0 props), zlen reply))) as Hd.
  { rewrite Hp, Hcat, (decode_encoded _ _ _ _ _ Hrep). cbn [canonical]. rewrite Hrc. destruct limit as [l|]; [|done].
    cbn in Hlim |- *. by rewrite (proj2 (Z.ltb_ge _ _)) by lia. }
  destruct (await_packet v limit last more b s1 _ _ Hb Hd) as (b' & Hb' & Hp' & ->).
  pose proof (handle_connack_accepted ack s1 q Hrc Hq) as Hh. change (e_version s1) with v in Hh. fold props in Hh.
  cbn zeta in Hh. rewrite Hh.
  eexists b', _. split; [reflexivity|]. split_and!; try done.
  rewrite Hp', Hp, Hcat. cbn. by rewrite (at_pos_slice_from _ _ rest) by (by exists reply).
Qed.

(** ** Handshakes that fail *)

Definition disconnect_0x95 : bytes := [Byte.xe0; Byte.x02; Byte.x95; Byte.x00].

Lemma rejected_other e b s :
  (forall size l, e <> PacketTooLargeError size l) -> rejected e b s = (Some (Err e), b, s).
Proof. intros He. destruct e; try done. by destruct (He size limit). Qed.

(** The outcome of a packet above the Maximum Packet Size. *)
Lemma rejecting_too_large size l s :
  e_lost s || e_closed s = false ->
  rejecting_oversized (PacketTooLargeError size l) s =
  (Err (MQTTProtocolError "Broker sent a packet exceeding the Maximum Packet Size"),
   set_e_closed true
     (set_e_sent (e_sent s ++ if decide (e_version s = V50) then [disconnect_0x95] else []) s)).
Proof.
  intros [Hl Hc]%orb_false_iff. unfold rejecting_oversized, abort, transport_close, mbind, M_bind, asks.
  destruct (e_version s) eqn:Ev; cbn [decide decide_rel].
  - rewrite app_nil_r. by destruct s.
  - assert (encode (PDisconnect (mkDisconnect PACKET_TOO_LARGE None)) (e_version s) = Ok disconnect_0x95) as He
      by (rewrite Ev; vm_compute; reflexivity).
    unfold suppress. by rewrite (send_packet_ok _ _ _ He Hl Hc).
Qed.

(** A handshake that fails.  Whatever part of a packet has arrived before: a timeout raises
    [MQTTTimeoutError]; a failing read raises its exception; a packet that is not a CONNACK raises
    [MQTTProtocolError], and a CONNACK that refuses raises [MQTTConnectError] with its code; so
    far nothing but CONNECT is sent.  A packet above Maximum Packet Size raises
    [MQTTProtocolError] and closes the transport, on MQTT 5.0 after DISCONNECT with reason 0x95;
    any other malformed packet raises the exception of the decoder. *)
Theorem connect_fails packet request limit chunks more s :
  let v := e_version s in
  encode (PConnect packet) v = Ok request -> e_lost s || e_closed s = false ->
  decode (concat chunks) v limit = Ok None ->
  let s1 := set_e_sent (e_sent s ++ [request]) s in
  let outcome r := let '(x, _, s') := connect packet ((ReadData <$> chunks) ++ r :: more) (PacketBuffer_new v limit) s in (x, s') in
  outcome ReadTimeout = (Some (Err (MQTTTimeoutError "CONNACK not received within timeout")), s1) /\
  (forall msg, outcome (ReadFails (MQTTDisconnectedError msg)) = (Some (Err (MQTTDisconnectedError msg)), s1)) /\
  forall last,
    match decode (concat chunks ++ last) v limit with
    | Ok (Some (PConnAck ack, _)) => ca_return_code ack <> 0 ->
        outcome (ReadData last) = (Some (Err (MQTTConnectError (ca_return_code ack))), s1)
    | Ok (Some _) => outcome (ReadData last) = (Some (Err (MQTTProtocolError "Expected CONNACK")), s1)
    | Ok None => True
    | Err (PacketTooLargeError _ _) => outcome (ReadData last) =
        (Some (Err (MQTTProtocolError "Broker sent a packet exceeding the Maximum Packet Size")),
         set_e_closed true (set_e_sent (e_sent s1 ++ if decide (v = V50) then [disconnect_0x95] else []) s1))
    | Err e => outcome (ReadData last) = (Some (Err e), s1)
    end.
Proof.
  intros v Hreq Ho Hwait s1. pose proof Ho as [Hlost Hclosed]%orb_false_iff. cbn zeta. unfold connect.
  rewrite (send_packet_ok _ request s) by done. fold s1.
  assert (forall r, exists b, at_rest v limit b /\ pending b = concat chunks /\
    _await_connack ((ReadData <$> chunks) ++ r :: more) (PacketBuffer_new v limit) s1 = _await_connack (r :: more) b s1) as Hw.
  { intros r. destruct (await_waits v limit chunks (r :: more) _ s1 (at_rest_new v limit) Hwait) as (b & H1 & H2 & H3).
    by exists b. }
  split; [|split].
  - destruct (Hw ReadTimeout) as (b & _ & _ & ->). done.
  - intros msg. destruct (Hw (ReadFails (MQTTDisconnectedError msg))) as (b & _ & _ & ->). done.
  - intros last. destruct (Hw (ReadData last)) as (b & Hb & Hp & ->). rewrite <-Hp.
    destruct (decode (pending b ++ last) v limit) as [[[p n]|]|e] eqn:Hd; [|done|].
    + destruct (await_packet v limit last more b s1 p n Hb Hd) as (b' & _ & _ & ->).
      destruct p; try done. intros Hrc. unfold handle_connack. by rewrite (proj2 (Z.eqb_neq _ _)) by done.
    + destruct (await_error v limit last more b s1 e Hb Hd) as (b' & ->).
      destruct e; try done. unfold rejected, mbind, M_bind. by rewrite rejecting_too_large.
Qed.

(** A broker that sets keepalive 30 and maximum QoS 1, and sends PINGRESP in the same segment as the
    second half of its CONNACK. *)
Definition sample_connect : Connect := mkConnect (py "c") true 60 None None None None.
Definition sample_connack : ConnAck :=
  mkConnAck false 0 (Some (mkConnAckProperties None None (Some 1) None None None None None None None None
    (Some 30) None None None None [])).
Definition sample_engine : Engine := engine_new V50 [] 60 None 1000 None ∅ 0.
Definition connect_frame : bytes := default [] (match encode (PConnect sample_connect) V50 with Ok d => Some d | _ => None end).
Definition connack_frame : bytes := default [] (match encode (PConnAck sample_connack) V50 with Ok d => Some d | _ => None end).

Lemma connect_handshake_witness : exists b s',
  connect sample_connect [ReadData (take 1 connack_frame); ReadData (take 4 (drop 1 connack_frame));
    ReadData (drop 5 connack_frame ++ [Byte.xd0; Byte.x00])] (PacketBuffer_new V50 (Some 100)) sample_engine =
    (Some (Ok sample_connack), b, s') /\ pending b = [Byte.xd0; Byte.x00] /\ e_sent s' = [connect_frame] /\
  e_effective_keepalive s' = 30 /\ e_max_publish_qos s' = AT_LEAST_ONCE.
Proof.
  destruct (connect_handshake sample_connect sample_connack connect_frame connack_frame (Some 100)
    [take 1 connack_frame; take 4 (drop 1 connack_frame)] (drop 5 connack_frame ++ [Byte.xd0; Byte.x00]) [Byte.xd0; Byte.x00]
    [] sample_engine AT_LEAST_ONCE) as (b & s' & H1 & _ & H2 & H3 & _ & H4 & H5 & _);
    try (vm_compute; reflexivity); try (vm_compute; discriminate).
  - vm_compute. lia.
  - exists b, s'. split; [exact H1|]. split; [exact H2|]. split; [exact H3|]. split; [exact H4|exact H5].
Defined.

Lemma connect_fails_witness :
  let outcome r := let '(x, _, s') := connect sample_connect ((ReadData <$> [take 3 connack_frame]) ++ [r])
      (PacketBuffer_new V50 (Some 100)) sample_engine in (x, s') in
  outcome ReadTimeout = (Some (Err (MQTTTimeoutError "CONNACK not received within timeout")),
                         set_e_sent [connect_frame] sample_engine).
Proof.
  refine (proj1 (connect_fails sample_connect connect_frame (Some 100) [take 3 connack_frame] [] sample_engine _ _ _));
    vm_compute; reflexivity.
Defined.

(** The reserved packet type 0 in place of the CONNACK: [ValueError], and the transport stays open. *)
Theorem malformed_packet_raises_value_error :
  exists msg s', let '(x, _, s'') := connect sample_connect [ReadData [Byte.x00; Byte.x00]] (PacketBuffer_new V50 None) sample_engine in
    x = Some (Err (ValueError msg)) /\ s'' = s' /\ e_closed s' = false.
Proof. do 2 eexists. vm_compute. split; [reflexivity|split; reflexivity]. Qed.

(** ** The read loop *)

Section read_loop.
Context (v : version) (limit : option Z) (sys0 : System) (b0 : PacketBuffer).

(** Parsing what was received is what was dispatched and then parsing what is pending, whatever
    follows. *)
Record conn_ok (c : Connection) : Prop := {
  co_system : c_system c = run_events sys0 (c_events c);
  co_buffer : well_formed (c_buffer c) /\ pb_version (c_buffer c) = v /\ pb_max_packet_size (c_buffer c) = limit;
  co_waits : c_phase c <> RIterating -> at_rest v limit (c_buffer c) /\ decode (pending (c_buffer c)) v limit = Ok None;
  co_parses : forall more ps r, parses v limit (pending (c_buffer c) ++ more) ps r ->
    parses v limit (pending b0 ++ c_received c ++ more) (received_packets (c_events c) ++ ps) r
}.

Lemma conn_ok_new : at_rest v limit b0 -> conn_ok (connection_new sys0 b0).
Proof. intros Hb. split; [done|split_and!; apply Hb|done|]. by intros more ps r. Qed.

Lemma run_events_snoc evs ev : run_events sys0 (evs ++ [ev]) = engine_step (run_events sys0 evs) ev.
Proof. unfold run_events. by rewrite fold_left_app. Qed.

(** An event of the engine that is not a packet. *)
Lemma conn_ok_event c ev :
  conn_ok c -> received_packets [ev] = [] -> conn_ok (engine_event ev c).
Proof.
  intros [H1 H2 H3 H4] He. split; cbn; try done.
  - rewrite H1. symmetry. apply run_events_snoc.
  - intros more ps r Hp. unfold received_packets. rewrite omap_app. fold (received_packets [ev]).
    rewrite He, app_nil_r. by apply H4.
Qed.

(** The buffer changes, but not what is pending. *)
Lemma conn_ok_buffer c b phase :
  conn_ok c -> at_rest v limit b -> pending b = pending (c_buffer c) ->
  (phase <> RIterating -> decode (pending b) v limit = Ok None) -> conn_ok (at_buffer b phase c).
Proof.
  intros [H1 H2 H3 H4] Hb Hp Hw. split; cbn; try done.
  - split_and!; apply Hb.
  - auto.
  - intros more ps r. rewrite Hp. apply H4.
Qed.

Lemma conn_ok_packet c b p n :
  conn_ok c -> well_formed b -> pb_version b = v -> pb_max_packet_size b = limit ->
  decode (pending (c_buffer c)) v limit = Ok (Some (p, n)) -> pending b = slice_from (pending (c_buffer c)) n ->
  conn_ok (engine_event (EvReceive p) (at_buffer b RIterating c)).
Proof.
  intros [H1 H2 H3 H4] Hw Hv Hl Hd Hp. split; cbn; try done.
  - rewrite H1. symmetry. apply run_events_snoc.
  - intros more ps r Hps. pose proof (decode_consumes _ _ _ _ _ Hd) as [Hn _].
    unfold received_packets. rewrite omap_app. cbn. rewrite <-app_assoc. apply H4.
    apply (parses_packet _ _ _ _ n); [by rewrite decode_prefix by congruence|].
    rewrite slice_from_app by lia. by rewrite <-Hp.
Qed.

Lemma conn_step_ok c ev : conn_ok c -> conn_ok (conn_step c ev).
Proof.
  intros Hc. destruct ev as [|data|e|ev]; cbn [conn_step].
  - case_match; [|done]. destruct (co_buffer _ Hc) as (Hw & Hv & Hl).
    pose proof (iter_next_spec v limit (c_buffer c) Hw Hv Hl) as Hn.
    destruct (decode (pending (c_buffer c)) v limit) as [[[p n]|]|e] eqn:Hd.
    + destruct Hn as (b & -> & Hw' & Hv' & Hl' & _ & Hp & _). by apply (conn_ok_packet c b p n).
    + destruct Hn as (-> & Hr & Hp). apply conn_ok_buffer; [done..|]. by rewrite Hp.
    + destruct Hn as (-> & Hr & Hp). by apply conn_ok_event; [apply conn_ok_buffer|].
  - destruct (loop_free c && bool_decide (c_phase c = RReading)) eqn:E; [|done].
    apply andb_true_iff in E as [_ E%bool_decide_eq_true].
    destruct (co_waits _ Hc) as [Hr Hd]; [by rewrite E|]. destruct (feed_at_rest v limit _ data Hr) as (b & -> & Hb & Hp).
    split; cbn; try done; [apply Hc|split_and!; apply Hb|]. intros more ps r. rewrite Hp, <-!app_assoc. apply Hc.
  - destruct (loop_free c && bool_decide (c_phase c = RReading)) eqn:E; [|done].
    apply andb_true_iff in E as [_ E%bool_decide_eq_true].
    case_match; [|by apply conn_ok_event]. destruct (co_waits _ Hc) as [Hr Hd]; [by rewrite E|]. by apply conn_ok_buffer.
  - case_match eqn:E; [done|]. apply conn_ok_event; [done|]. by destruct ev.
Qed.

Lemma conn_steps_ok evs c : conn_ok c -> conn_ok (conn_steps c evs).
Proof. revert c; induction evs as [|ev evs IH]; intros c Hc; [done|]. cbn. by apply IH, conn_step_ok. Qed.
End read_loop.

Lemma parses_pending v limit sys0 b0 c ps r :
  conn_ok v limit sys0 b0 c -> parses v limit (pending b0 ++ c_received c) ps r ->
  exists later, ps = received_packets (c_events c) ++ later /\ parses v limit (pending (c_buffer c)) later r.
Proof.
  intros Hc Hp. destruct (parses_total v limit (pending (c_buffer c))) as (ps' & r' & Hp').
  pose proof Hp' as H. rewrite <-(app_nil_r (pending (c_buffer c))) in H. apply (co_parses _ _ _ _ _ Hc) in H.
  rewrite app_nil_r in H. destruct (parses_functional _ _ _ _ _ _ _ Hp H) as [-> ->]. by exists ps'.
Qed.

Lemma parses_waiting v limit bs ps r : decode bs v limit = Ok None -> parses v limit bs ps r -> ps = [].
Proof. intros Hd Hp. inversion Hp; subst; congruence. Qed.

(** An exception in the loop ends it. *)
Lemma read_fails_ends c e : loop_free c = true -> loop_free (engine_event (EvReadFails e) c) = false.
Proof.
  unfold loop_free. intros H. cbn [engine_event c_system engine_step]. rewrite H.
  unfold run_reader. assert (exists e' s', rejecting_oversized e (engine (c_system c)) = (Err e', s')) as (e' & s' & ->).
  { destruct e; try by (do 2 eexists). unfold rejecting_oversized, mbind, M_bind.
    destruct (abort _ _) as [[[]|] ?]; by do 2 eexists. }
  done.
Qed.

(** Left to itself the loop comes to rest, in as many turns as it has bytes. *)
Lemma loop_rests v limit sys0 b0 c :
  conn_ok v limit sys0 b0 c ->
  exists n, (n <= S (length (pending (c_buffer c))))%nat /\
    let c' := conn_steps c (repeat CNext n) in
    c_received c' = c_received c /\ (loop_free c' = false \/ c_phase c' <> RIterating).
Proof.
  remember (length (pending (c_buffer c))) as k eqn:Hk. revert c Hk. induction k as [k IH] using lt_wf_ind.
  intros c -> Hc. destruct (loop_free c) eqn:Ef; [|exists 0%nat; cbn; split_and!; [lia|done|by left]].
  destruct (decide (c_phase c = RIterating)) as [Ep|Ep]; [|exists 0%nat; cbn; split_and!; [lia|done|by right]].
  pose proof (conn_step_ok _ _ _ _ c CNext Hc) as Hc'. pose proof (co_buffer _ _ _ _ _ Hc) as (Hw & Hv & Hl).
  pose proof (iter_next_spec v limit (c_buffer c) Hw Hv Hl) as Hn. cbn [conn_step] in Hc'.
  rewrite Ef, bool_decide_eq_true_2 in Hc' by done. cbn [andb] in Hc'.
  assert (forall n, conn_steps c (repeat CNext (S n)) = conn_steps (conn_step c CNext) (repeat CNext n)) as Hs by done.
  cbn [conn_step] in Hs. rewrite Ef, bool_decide_eq_true_2 in Hs by done. cbn [andb] in Hs.
  destruct (decode (pending (c_buffer c)) v limit) as [[[p n]|]|e] eqn:Hd.
  - destruct Hn as (b & Eb & Hwb & Hvb & Hlb & _ & Hp & _). rewrite Eb in Hc', Hs.
    pose proof (decode_consumes _ _ _ _ _ Hd) as [Hn _]. pose proof (zlen_slice_from (pending (c_buffer c)) n ltac:(lia)) as Hz.
    rewrite <-Hp in Hz. destruct (IH (length (pending b))) with (c := engine_event (EvReceive p) (at_buffer b RIterating c)) as (m & Hm & Hr); [unfold zlen in Hz; lia|done|exact Hc'|].
    exists (S m). rewrite Hs. split; [unfold zlen in Hz; lia|]. exact Hr.
  - destruct Hn as (Eb & _). rewrite Eb in Hs. exists 1%nat. rewrite Hs. cbn. split_and!; [lia|done|by right].
  - destruct Hn as (Eb & _). rewrite Eb in Hs. exists 1%nat. rewrite Hs. split; [lia|]. split; [done|left].
    by apply (read_fails_ends (at_buffer _ _ c)).
Qed.

(** C6: from the socket to the handlers.  Let the bytes the connection has read, those left by the
    handshake included, be packets of the broker, encoded, and a part of one more.  However they
    were cut into reads, and whatever calls, cancellations, timeouts and consumers ran between:
    the engine has been handed exactly these packets, in order, up to some point, and all of them
    when the loop waits for data; its state is that of [engine_step] on those packets and the
    other events, so every theorem on [reachable] states applies; and run on by itself the loop
    comes to rest: it has handed over every packet, or waits for a full queue, or has ended. *)
Theorem connection_dispatch v limit sys b packets encs tail evs :
  at_rest v limit b ->
  Forall2 (fun p enc => encode p v = Ok enc /\ from_option (fun l => zlen enc <= l) True limit) packets encs ->
  decode tail v limit = Ok None ->
  let c := conn_steps (connection_new sys b) evs in
  pending b ++ c_received c = concat encs ++ tail ->
  c_system c = run_events sys (c_events c) /\
  (exists later, canonical v <$> packets = received_packets (c_events c) ++ later /\
     (c_phase c <> RIterating -> later = [])) /\
  exists n, (n <= S (length (pending (c_buffer c))))%nat /\
    let c' := conn_steps c (repeat CNext n) in
    loop_free c' = false \/ received_packets (c_events c') = canonical v <$> packets.
Proof.
  intros Hb Henc Htail c Hbytes.
  assert (conn_ok v limit sys b c) as Hc by (by apply conn_steps_ok, conn_ok_new).
  pose proof (parses_encoded v limit packets encs tail Henc Htail) as Hp. rewrite <-Hbytes in Hp.
  assert (forall c', conn_ok v limit sys b c' -> c_received c' = c_received c -> exists later,
    canonical v <$> packets = received_packets (c_events c') ++ later /\ (c_phase c' <> RIterating -> later = [])) as Hall.
  { intros c' Hc' Hr. rewrite <-Hr in Hp. destruct (parses_pending _ _ _ _ _ _ _ Hc' Hp) as (later & -> & Hl).
    exists later. split; [done|]. intros [_ Hd]%(co_waits _ _ _ _ _ Hc'). by eapply parses_waiting. }
  split; [apply Hc|]. split; [by apply Hall|].
  destruct (loop_rests _ _ _ _ _ Hc) as (n & Hn & Hr & Hrest). exists n. split; [done|].
  destruct Hrest as [Hf|Hf]; [by left|right].
  destruct (Hall _ (conn_steps_ok _ _ _ _ (repeat CNext n) c Hc) Hr) as (later & -> & Hl).
  by rewrite Hl, app_nil_r by done.
Qed.

(** A PUBLISH, cut in two, while a call publishes; the second half comes with the first byte of
    another. *)
Lemma connection_dispatch_witness :
  let c := conn_steps (connection_new (system_new sample_engine) (PacketBuffer_new V50 None))
    [CNext; CRead (take 5 sample_frame); CNext; CEngine (EvPublish sample_publish);
     CRead (drop 5 sample_frame ++ take 1 sample_frame); CNext] in
  exists later, [PPublish sample_publish] = received_packets (c_events c) ++ later /\ later = [].
Proof.
  destruct (connection_dispatch V50 None (system_new sample_engine) (PacketBuffer_new V50 None) [PPublish sample_publish]
    [sample_frame] (take 1 sample_frame) [CNext; CRead (take 5 sample_frame); CNext; CEngine (EvPublish sample_publish);
     CRead (drop 5 sample_frame ++ take 1 sample_frame); CNext]) as (_ & (later & Hl & _) & _).
  - apply at_rest_new.
  - by repeat constructor.
  - vm_compute. reflexivity.
  - vm_compute. reflexivity.
  - exists later. split; [exact Hl|]. vm_compute in Hl. by injection Hl as <-.
Defined.
