(* ===== verification/Failures.v ===== *)
(** * What ends the read loop ([_read_loop], [_dispatch] and the packet handlers)

    The exceptions a packet from the broker can raise in the read loop.  A packet that the decoder
    returned never makes a handler fail because of its own contents ([received_ok]: its packet
    identifier is one the acknowledgement can carry): a handler raises a protocol error, that the
    connection is lost, or the [InvalidStateError] of a future that is done already.  What is
    left are the exceptions of the decoder and of the transport's reads. *)

From S2P Require Import Prelude Properties Packets Codec Topic SubscriptionIndex State Engine Inbound Protocol.

(** ** What the decoder promises *)

Definition wire_id (pid : Z) : Prop := 0 <= pid <= MAX_PACKET_ID.

Definition publish_ok (p : Publish) : Prop :=
  p_qos p = AT_MOST_ONCE \/ exists pid, p_packet_id p = Some pid /\ wire_id pid.

Definition received_ok (p : AnyPacket) : Prop :=
  match p with
  | PPublish p => publish_ok p
  | PPubAck a | PPubRec a | PPubRel a | PPubComp a => wire_id (a_packet_id a)
  | _ => True
  end.

Lemma unpack_wire_id buf pos pid : unpack 2 buf pos = Ok pid -> wire_id pid.
Proof. intros H%unpack_range. unfold wire_id, MAX_PACKET_ID. change (256 ^ Z.of_nat 2) with 65536 in H. lia. Qed.

Lemma decode_publish_ok buf flags v p : _decode_publish buf flags v = Ok p -> publish_ok p.
Proof.
  unfold _decode_publish. intros H. inv_ok. unfold publish_ok. cbn.
  case_decide; [by left|right].
  match goal with H : (if zlen buf <? ?n then _ else _) = Ok _ |- _ => destruct (zlen buf <? n); [done|] end.
  inv_ok. eauto using unpack_wire_id.
Qed.

Lemma decode_ack_ok buf v a : _decode_pub_ack_variant buf v = Ok a -> wire_id (a_packet_id a).
Proof.
  unfold _decode_pub_ack_variant. intros H. destruct (zlen buf <? 2); [done|]. inv_ok. destruct (_ && _); inv_ok; cbn; eauto using unpack_wire_id.
Qed.

Lemma fmap_Ok {A B} (f : A -> B) r b : f <$> r = Ok b -> exists a, r = Ok a /\ b = f a.
Proof. destruct r; cbn; [intros [= <-]; eauto|done]. Qed.

Lemma decode_body_ok t flags body v p : decode_body t flags body v = Ok p -> received_ok p.
Proof.
  destruct t; cbn [decode_body]; intros H;
    try (apply fmap_Ok in H as (a & H & ->); cbn; first [by eapply decode_publish_ok|by eapply decode_ack_ok|done]);
    try (by injection H as <-). case_if; [done|]. inv_ok. done.
Qed.

Lemma decode_received_ok buf v limit p n : decode buf v limit = Ok (Some (p, n)) -> received_ok p.
Proof.
  unfold decode. intros H. case_if; [done|]. inv_ok. destruct x0 as [[len k]|]; [|done]. inv_ok.
  case_if; [done|]. destruct (PacketType_of _); [|done]. inv_ok. by eapply decode_body_ok.
Qed.

(** ** The packets the handlers send can be encoded *)

Definition sendable (p : AnyPacket) : Prop := forall v, is_Ok (encode p v).

Lemma pack2_wire_id pid : wire_id pid -> pack 2 pid = Ok (be_bytes 2 pid).
Proof.
  unfold wire_id, MAX_PACKET_ID, pack. intros. by rewrite (proj2 (Z.leb_le _ _)), (proj2 (Z.ltb_lt _ _)) by (cbn; lia).
Qed.

Ltac sendable_ack :=
  intros Hpid v; cbn [encode ack_of a_packet_id a_reason_code a_properties];
  unfold _encode_pub_ack_variant; cbn [is_Some_b]; rewrite ?Z.eqb_refl, ?andb_false_r;
  unfold _packet_id_only; rewrite (pack2_wire_id _ Hpid); eexists; reflexivity.

Lemma sendable_puback pid : wire_id pid -> sendable (PPubAck (ack_of pid)).
Proof. sendable_ack. Qed.
Lemma sendable_pubrec pid : wire_id pid -> sendable (PPubRec (ack_of pid)).
Proof. sendable_ack. Qed.
Lemma sendable_pubrel pid : wire_id pid -> sendable (PPubRel (ack_of pid)).
Proof. sendable_ack. Qed.
Lemma sendable_pubcomp pid : wire_id pid -> sendable (PPubComp (ack_of pid)).
Proof. sendable_ack. Qed.
Lemma sendable_pubcomp_unknown pid : wire_id pid -> sendable (PPubComp (mkAck pid PACKET_IDENTIFIER_NOT_FOUND None)).
Proof.
  intros Hpid v. cbn [encode a_packet_id a_reason_code a_properties]. unfold _encode_pub_ack_variant.
  destruct v; cbn [bool_decide decide decide_rel andb]; unfold _packet_id_only; rewrite (pack2_wire_id _ Hpid);
    eexists; reflexivity.
Qed.

(** ** What a computation raises *)

(** The exceptions of a handler. *)
Definition handler_error (e : exn) : bool :=
  match e with MQTTProtocolError _ | MQTTDisconnectedError _ | InvalidStateError => true | _ => false end.

(** [guarded m]: whatever the state, [m] returns or raises one of them. *)
Definition guarded {A} (m : M A) : Prop := forall s e, (m s).1 = Err e -> handler_error e = true.

Create HintDb guarded discriminated.

Lemma guarded_ret {A} (a : A) : guarded (mret a).
Proof. by intros s e. Qed.
Lemma guarded_asks {A} (f : Engine -> A) : guarded (asks f).
Proof. by intros s e. Qed.
Lemma guarded_ask_state {A} (f : SessionState -> A) : guarded (ask_state f).
Proof. by intros s e. Qed.
Lemma guarded_modify f : guarded (modify f).
Proof. by intros s e. Qed.
Lemma guarded_modify_state f : guarded (modify_state f).
Proof. by intros s e. Qed.
Lemma guarded_suppress m : guarded (suppress m).
Proof. by intros s e. Qed.
Lemma guarded_new_ref : guarded new_ref.
Proof. by intros s e. Qed.
Lemma guarded_resolve f st : guarded (resolve f st).
Proof. intros s e. unfold resolve. destruct (fut_done _); [|done]. by intros [= <-]. Qed.
Lemma guarded_throw {A} e : handler_error e = true -> guarded (throw (A := A) e).
Proof. by intros H s e' [= <-]. Qed.
Lemma guarded_bind {A B} (m : M A) (f : A -> M B) :
  guarded m -> (forall a, guarded (f a)) -> guarded (x ← m; f x).
Proof.
  intros Hm Hf s e. specialize (Hm s). unfold mbind, M_bind.
  destruct (m s) as [[a|e'] s']; [apply Hf|]. intros [= <-]. by apply Hm.
Qed.
Lemma guarded_send p : sendable p -> guarded (send_packet p).
Proof.
  intros Hp s e. destruct (Hp (e_version s)) as [d Hd]. unfold send_packet, _encode, _send, mbind, M_bind.
  cbn [asks lift]. rewrite Hd. destruct (_ || _); [|done]. by intros [= <-].
Qed.
#[export] Hint Resolve guarded_ret guarded_asks guarded_ask_state guarded_modify guarded_modify_state guarded_suppress
  guarded_new_ref guarded_resolve guarded_send sendable_puback sendable_pubrec sendable_pubrel sendable_pubcomp
  sendable_pubcomp_unknown : guarded.

Ltac guarded_step :=
  first
  [ solve [auto with guarded]
  | lazymatch goal with
    | |- forall _, _ => intro
    | |- guarded (throw _) => apply guarded_throw; reflexivity
    | |- guarded (mbind _ _) => apply guarded_bind
    | |- guarded (let '(_, _) := ?p in _) => destruct p
    | |- guarded (if decide ?b then _ else _) => destruct (decide b)
    | |- guarded (if ?b then _ else _) => destruct b
    | |- guarded (match ?x with _ => _ end) => destruct x
    end ].
Ltac walk_guarded := repeat guarded_step.

Lemma guarded_unless_done f m : guarded m -> guarded (unless_done f m).
Proof. intros Hm. unfold unless_done, is_done. walk_guarded. Qed.
#[export] Hint Resolve guarded_unless_done : guarded.

Lemma guarded_abort rc : guarded (abort rc).
Proof. unfold abort, transport_close. walk_guarded. Qed.
Lemma guarded_claim m : guarded (claim m).
Proof. unfold claim, is_done. walk_guarded. Qed.
Lemma guarded_complete r : guarded (complete r).
Proof. unfold complete, set_result. walk_guarded. Qed.
#[export] Hint Resolve guarded_abort guarded_claim guarded_complete : guarded.

(** ** Delivery *)

Lemma guarded_deliver r cb : guarded (_deliver r cb).
Proof. unfold _deliver, is_detached, set_callback, put_nowait, after_put, is_detached, drop_head. walk_guarded. Qed.
#[export] Hint Resolve guarded_deliver : guarded.

Lemma guarded_complete_ack p pid : sendable p -> guarded (_complete p pid).
Proof. intros Hp. unfold _complete. walk_guarded. Qed.
#[export] Hint Resolve guarded_complete_ack : guarded.

Definition cont_ok (k : deliver_cont) : Prop :=
  match k with AfterNothing => True | AfterPubAck pid => wire_id pid end.

Lemma guarded_after_deliver k b : cont_ok k -> guarded (after_deliver k b).
Proof. destruct k; cbn; intros Hk; unfold after_deliver; walk_guarded. Qed.
#[export] Hint Resolve guarded_after_deliver : guarded.

Lemma guarded_deliver_then r cb k : cont_ok k -> guarded (deliver_then r cb k).
Proof. intros Hk. unfold deliver_then. walk_guarded. Qed.
#[export] Hint Resolve guarded_deliver_then : guarded.
#[export] Hint Extern 1 (cont_ok _) => (exact I || assumption) : guarded.

Lemma guarded_select_or_buffer p : guarded (_select_recipient_or_buffer p).
Proof.
  unfold _select_recipient_or_buffer, select_recipient, _make_message, _select_subscription, accept, accept_buffered.
  walk_guarded.
Qed.
Lemma guarded_hold pid : guarded (_hold_receive_quota pid).
Proof. unfold _hold_receive_quota. walk_guarded. Qed.
#[export] Hint Resolve guarded_select_or_buffer guarded_hold : guarded.

(** ** The handlers *)

Lemma guarded_require {A} p pid (f : Z -> M A) :
  p_packet_id p = Some pid -> guarded (f pid) -> guarded (x ← require_packet_id p; f x).
Proof. intros Hp Hf s e. unfold require_packet_id. rewrite Hp. apply Hf. Qed.

Ltac walk_publish Hp := repeat first [apply (guarded_require _ _ _ Hp) | guarded_step].

Lemma guarded_qos1 p pid : p_packet_id p = Some pid -> wire_id pid -> guarded (_handle_qos1_publish p).
Proof. intros Hp Hw. unfold _handle_qos1_publish, _deliver_qos1_publish. walk_publish Hp. Qed.

Lemma guarded_qos2 p pid : p_packet_id p = Some pid -> wire_id pid -> guarded (_handle_qos2_publish p).
Proof.
  intros Hp Hw. unfold _handle_qos2_publish, _accept_qos2_publish, detached_recipient, is_detached. walk_publish Hp.
Qed.

Lemma guarded_publish p : publish_ok p -> guarded (handle_publish p).
Proof.
  intros Hp. unfold handle_publish. destruct (p_qos p) eqn:Hq.
  - walk_guarded.
  - destruct Hp as [|(pid & H1 & H2)]; [congruence|]. by eapply guarded_qos1.
  - destruct Hp as [|(pid & H1 & H2)]; [congruence|]. by eapply guarded_qos2.
Qed.

Lemma guarded_dispatch p : received_ok p -> guarded (_dispatch p).
Proof.
  intros Hp. destruct p as [| |p|a|a|a|a| | | | | | | |]; cbn [_dispatch received_ok] in *.
  all: unfold handle_pubrel, _handle_puback, _handle_pubrec, _handle_pubcomp, _handle_suback, _handle_unsuback,
    _handle_pingresp, release_pid, set_result, set_exception.
  3: by apply guarded_publish.
  all: walk_guarded.
Qed.

Definition too_large (e : exn) : bool := match e with PacketTooLargeError _ _ => true | _ => false end.

Lemma guarded_rejecting e s e' :
  (rejecting_oversized e s).1 = Err e' -> handler_error e' = true \/ (e' = e /\ too_large e = false).
Proof.
  destruct e; try by (intros [= <-]; right). left. revert s e' H.
  match goal with |- forall s e, (?m s).1 = Err e -> _ => change (guarded m) end.
  unfold rejecting_oversized. walk_guarded.
Qed.

(** ** The suspended handler *)

(** What is left of it can be sent. *)
Definition putting_ok (s : Engine) : Prop := forall r k, e_putting s = Some (r, k) -> cont_ok k.

Lemma guarded_put_resume s e : putting_ok s -> (put_resume s).1 = Err e -> handler_error e = true.
Proof.
  intros Hok. unfold put_resume. unfold mbind at 1, M_bind at 1. cbn [asks].
  destruct (e_putting s) as [[r k]|] eqn:Ep; [|done]. apply Hok in Ep. revert e. generalize s.
  match goal with |- forall s e, (?m s).1 = Err e -> _ => change (guarded m) end.
  unfold put_nowait, after_put, is_detached, drop_head. walk_guarded.
Qed.

(** Only a handler of PUBLISH or PUBREL suspends. *)
Definition putting (s s' : Engine) : Prop := putting_ok s -> putting_ok s'.

#[export] Instance putting_preorder : PreOrder putting.
Proof. split; [by intros s H|intros s1 s2 s3 H12 H23 H; auto]. Qed.

Lemma putting_same s s' : e_putting s' = e_putting s -> putting s s'.
Proof. intros E H r k. rewrite E. apply H. Qed.

Ltac putting_leaf := first [apply preserves_modify; intros ? | intros ?]; by apply putting_same.
#[export] Hint Extern 3 (preserves putting (modify _)) => putting_leaf : frame.
#[export] Hint Extern 3 (preserves putting (modify_state _)) => putting_leaf : frame.

Lemma putting_new_ref : preserves putting new_ref.
Proof. putting_leaf. Qed.
Lemma putting_send data : preserves putting (_send data).
Proof. intros s. unfold _send. destruct (_ || _); by apply putting_same. Qed.
Lemma putting_resolve f st : preserves putting (resolve f st).
Proof. intros s. unfold resolve. destruct (fut_done _); by apply putting_same. Qed.
#[export] Hint Resolve putting_new_ref putting_send putting_resolve : frame.

Lemma putting_send_packet p : preserves putting (send_packet p).
Proof. unfold send_packet, _encode. preserve. Qed.
#[export] Hint Resolve putting_send_packet : frame.
Lemma putting_abort rc : preserves putting (abort rc).
Proof. unfold abort, transport_close. preserve. Qed.
Lemma putting_unless_done f m : preserves putting m -> preserves putting (unless_done f m).
Proof. intros H. unfold unless_done, is_done. preserve. Qed.
#[export] Hint Resolve putting_abort putting_unless_done : frame.
Lemma putting_claim m : preserves putting (claim m).
Proof. unfold claim, is_done. preserve. Qed.
Lemma putting_complete r : preserves putting (complete r).
Proof. unfold complete, set_result. preserve. Qed.
#[export] Hint Resolve putting_claim putting_complete : frame.

Lemma putting_deliver r cb : preserves putting (_deliver r cb).
Proof. unfold _deliver, after_put, is_detached, set_callback, put_nowait, drop_head. preserve. Qed.
Lemma putting_complete_ack p pid : preserves putting (_complete p pid).
Proof. unfold _complete. preserve. Qed.
#[export] Hint Resolve putting_deliver putting_complete_ack : frame.
Lemma putting_after_deliver k b : preserves putting (after_deliver k b).
Proof. unfold after_deliver. preserve. Qed.
#[export] Hint Resolve putting_after_deliver : frame.

Lemma putting_deliver_then r cb k : cont_ok k -> preserves putting (deliver_then r cb k).
Proof. intros Hk. unfold deliver_then. preserve. apply preserves_modify. intros s _ r' k' [= <- <-]. done. Qed.

Lemma putting_put_resume : preserves putting put_resume.
Proof.
  unfold put_resume, after_put, is_detached, put_nowait, drop_head. preserve.
  apply preserves_modify. by intros x _ r' k'.
Qed.

Lemma putting_select_recipient p : preserves putting (select_recipient p).
Proof. unfold select_recipient, _make_message, _select_subscription. preserve. Qed.
#[export] Hint Resolve putting_select_recipient : frame.
Lemma putting_select_or_buffer p : preserves putting (_select_recipient_or_buffer p).
Proof. unfold _select_recipient_or_buffer, accept, accept_buffered. preserve. Qed.
Lemma putting_hold pid : preserves putting (_hold_receive_quota pid).
Proof. unfold _hold_receive_quota. preserve. Qed.
#[export] Hint Resolve putting_select_or_buffer putting_hold : frame.

(** A packet as the decoder returns it. *)
Lemma putting_require {A} p pid (f : Z -> M A) :
  p_packet_id p = Some pid -> preserves putting (f pid) -> preserves putting (x ← require_packet_id p; f x).
Proof. intros Hp Hf s. unfold require_packet_id. rewrite Hp. apply Hf. Qed.

Lemma putting_publish p : publish_ok p -> preserves putting (handle_publish p).
Proof.
  intros Hp. unfold handle_publish, _handle_qos1_publish, _deliver_qos1_publish, _handle_qos2_publish, _accept_qos2_publish,
    detached_recipient, is_detached.
  destruct (p_qos p) eqn:Hq.
  - preserve. by apply putting_deliver_then.
  - destruct Hp as [|(pid & Hp & Hw)]; [congruence|].
    repeat first [apply (putting_require _ _ _ Hp) | apply putting_deliver_then; solve [exact I | exact Hw] | preserve_step].
  - destruct Hp as [|(pid & Hp & Hw)]; [congruence|].
    repeat first [apply (putting_require _ _ _ Hp) | apply putting_deliver_then; solve [exact I | exact Hw] | preserve_step].
Qed.

Lemma putting_dispatch p : received_ok p -> preserves putting (_dispatch p).
Proof.
  intros Hp. destruct p; cbn [_dispatch received_ok] in *;
    unfold handle_pubrel, _handle_puback, _handle_pubrec, _handle_pubcomp, _handle_suback, _handle_unsuback,
      _handle_pingresp, release_pid, set_result, set_exception; first [by apply putting_publish | preserve].
  by apply putting_deliver_then.
Qed.

(** What the replay buffer delivers has room, so that it does not suspend. *)
Definition roomy (r : InboundRecipient) (s : Engine) : Prop :=
  match ir_request r, ir_subscription r with
  | None, Some (_, entry) => queue_full (queue_of s (se_queue entry)) = false
  | _, _ => True
  end.

Lemma must_wait_roomy r s : (must_wait r s).1 = Ok false -> roomy r s.
Proof. unfold must_wait, roomy. destruct (ir_request r), (ir_subscription r) as [[]|]; cbn; by try intros [= ->]. Qed.

Lemma deliver_roomy r cb s : roomy r s -> (_deliver r cb s).1 <> Ok None.
Proof.
  unfold roomy, _deliver. destruct (ir_request r).
  - intros _. unfold mbind, M_bind. by destruct (complete _ s) as [[]].
  - destruct (ir_subscription r) as [[l entry]|]; [|done]. intros Hq. unfold mbind at 1, M_bind at 1. cbn [is_detached asks].
    case_bool_decide; [done|]. unfold mbind at 1, M_bind at 1.
    match goal with |- context [match ?m s with _ => _ end] => assert (exists s', m s = (Ok tt, s') /\ e_queues s' = e_queues s) as (s' & -> & E) end.
    { destruct cb; [destruct (se_auto_ack entry)|]; by eexists. }
    unfold mbind at 1, M_bind at 1. cbn [asks]. unfold queue_of in *. rewrite E, Hq.
    unfold mbind, M_bind. cbn [put_nowait modify]. by destruct (after_put entry _) as [[]].
Qed.

Lemma putting_deliver_then_roomy r cb k s : roomy r s -> putting s (deliver_then r cb k s).2.
Proof.
  intros Hr. pose proof (deliver_roomy r cb s Hr) as Hn. pose proof (putting_deliver r cb s) as H. unfold deliver_then, mbind, M_bind.
  destruct (_deliver r cb s) as [[[b|]|e] s']; [|done|exact H]. etransitivity; [exact H|apply putting_after_deliver].
Qed.

Lemma putting_deliver_replay p r s : roomy r s -> putting s (deliver_replay p r s).2.
Proof.
  intros Hr. unfold deliver_replay, _deliver_qos1_publish, _accept_qos2_publish. destruct (p_qos p).
  - by apply putting_deliver_then_roomy.
  - unfold require_packet_id, mbind, M_bind. destruct (p_packet_id p); [|by intros H]. cbn.
    destruct (auto_ack r); by apply putting_deliver_then_roomy.
  - unfold require_packet_id. unfold mbind at 1, M_bind at 1. destruct (p_packet_id p); [|by intros H]. cbn [mret M_ret].
    unfold mbind at 1, M_bind at 1. unfold detached_recipient, is_detached.
    match goal with |- context [match ?m s with _ => _ end] => assert (exists b, m s = (Ok b, s)) as (b & ->) end.
    { destruct (ir_subscription r) as [[]|]; by eexists. }
    destruct b; [by intros H|]. destruct (auto_ack r).
    + match goal with |- putting s (?m s).2 => assert (preserves putting m) as Hm by preserve; apply Hm end.
    + unfold mbind, M_bind. cbn [modify_state modify]. etransitivity; [|apply putting_deliver_then_roomy].
      * by apply putting_same.
      * exact Hr.
Qed.

Lemma putting_modify_buffer f : preserves putting (modify_buffer f).
Proof. apply preserves_modify. intros s. destruct (e_replay s); by apply putting_same. Qed.
#[export] Hint Resolve putting_modify_buffer : frame.

Lemma putting_deliver_pending_loop pending unmatched : preserves putting (deliver_pending_loop pending unmatched).
Proof.
  revert unmatched; induction pending as [|p pending IH]; intros unmatched; cbn [deliver_pending_loop]; [auto with frame|].
  intros s. unfold mbind at 1, M_bind at 1. pose proof (putting_select_recipient p s) as H1.
  destruct (select_recipient p s) as [[r|e] s1]; [|exact H1]. etransitivity; [exact H1|]. clear s H1.
  unfold mbind at 1, M_bind at 1. assert (preserves putting (must_wait r)) as H2 by (unfold must_wait; preserve). specialize (H2 s1).
  pose proof (must_wait_roomy r s1) as Hr. assert ((must_wait r s1).2 = s1) as E.
  { unfold must_wait. by destruct (ir_request r), (ir_subscription r) as [[]|]. }
  destruct (must_wait r s1) as [[[]|e] s2]; cbn [fst snd] in *; subst s2; [apply IH| |exact H2].
  pose proof (putting_deliver_replay p r s1 (Hr eq_refl)) as H3.
  destruct (deliver_replay p r s1) as [[[]|e] s2]; (etransitivity; [exact H3|]).
  - match goal with |- putting _ (?m s2).2 => assert (preserves putting m) as Hm by preserve; apply Hm end.
  - match goal with |- putting _ (?m s2).2 => assert (preserves putting m) as Hm by preserve; apply Hm end.
Qed.
#[export] Hint Resolve putting_deliver_pending_loop : frame.

Lemma putting_drain : preserves putting drain_replay.
Proof.
  unfold drain_replay, _deliver_pending. preserve. apply preserves_modify. intros x.
  destruct (e_replay x); try done. case_match; by apply putting_same.
Qed.

Lemma putting_expire ref : preserves putting (expire_after_timeout ref).
Proof.
  assert (preserves putting (expire_replay ref)) as H.
  { unfold expire_replay, _deliver_pending. preserve. apply preserves_modify. intros x.
    destruct (e_replay x); try done. by apply putting_same. }
  intros s. unfold expire_after_timeout. specialize (H s). destruct (expire_replay ref s) as [[|e] s']; [exact H|].
  etransitivity; [exact H|]. apply (preserves_suppress putting (abort None)). auto with frame.
Qed.
#[export] Hint Resolve putting_drain putting_expire : frame.

(** ** What the operations leave to the run loops *)

Record calm (s s' : Engine) : Prop := {
  cm_keepalive : e_effective_keepalive s' = e_effective_keepalive s;
  cm_dead : e_dead s' = e_dead s;
  cm_disconnecting : e_disconnecting s' = e_disconnecting s;
  cm_putting : putting s s'
}.

(** Moreover no future is resolved, those of requests excepted. *)
Record quiet (s s' : Engine) : Prop := {
  qt_calm : calm s s';
  qt_next : (e_next_ref s <= e_next_ref s')%nat;
  qt_requests : forall f, request_future s' f <-> request_future s f;
  qt_futures : forall f, (f < e_next_ref s)%nat -> fut_state s' f = fut_state s f \/ request_future s f
}.

#[export] Instance calm_preorder : PreOrder calm.
Proof.
  split; [by split|]. intros s1 s2 s3 [] []. split; try congruence. by transitivity s2.
Qed.

#[export] Instance quiet_preorder : PreOrder quiet.
Proof.
  split; [intros s; split; try done; by left|]. intros s1 s2 s3 [C12 N12 R12 F12] [C23 N23 R23 F23]. split.
  - by transitivity s2.
  - lia.
  - intros f. by rewrite R23, R12.
  - intros f Hf. destruct (F23 f ltac:(lia)) as [->|Hr]; [by apply F12|]. right. by apply R12.
Qed.

Lemma quiet_inbound {A} (m : M A) : preserves inbound_frame m -> preserves putting m -> preserves quiet m.
Proof. intros Hm Hp s. pose proof (Hp s). destruct (Hm s). by split. Qed.

Lemma quiet_same s s' :
  e_effective_keepalive s' = e_effective_keepalive s -> e_dead s' = e_dead s -> e_disconnecting s' = e_disconnecting s ->
  e_putting s' = e_putting s -> e_next_ref s' = e_next_ref s -> e_dispatcher s' = e_dispatcher s ->
  e_futures s' = e_futures s -> quiet s s'.
Proof.
  intros E1 E2 E3 E4 E5 E6 E7. split; [split; try done; by apply putting_same|lia|..].
  - intros f. unfold request_future. by rewrite E6.
  - intros f _. left. unfold fut_state. by rewrite E7.
Qed.

Ltac quiet_leaf := first [apply preserves_modify; intros ? | intros ?]; by apply quiet_same.
#[export] Hint Extern 3 (preserves quiet (modify _)) => quiet_leaf : frame.
#[export] Hint Extern 3 (preserves quiet (modify_state _)) => quiet_leaf : frame.
#[export] Hint Extern 3 (preserves quiet (send_packet _)) => apply quiet_inbound; solve [auto with frame] : frame.
#[export] Hint Extern 3 (preserves quiet drain_replay) => apply quiet_inbound; solve [auto with frame] : frame.

Lemma quiet_on_error {A} (m : M A) fin :
  preserves quiet m -> preserves quiet fin -> preserves quiet (on_error m fin).
Proof.
  intros Hm Hf s. unfold on_error. specialize (Hm s). destruct (m s) as [[a|e] s']; [exact Hm|].
  specialize (Hf s'). destruct (fin s') as [[] s'']; cbn in *; by transitivity s'.
Qed.
#[export] Hint Extern 2 (preserves quiet (on_error _ _)) => apply quiet_on_error; solve [preserve] : frame.

Lemma quiet_new_ref : preserves quiet new_ref.
Proof. apply quiet_inbound; auto with frame. Qed.
#[export] Hint Resolve quiet_new_ref : frame.

(** The new future is beyond the references in use. *)
Lemma quiet_create : preserves quiet create_future.
Proof.
  intros s. split.
  - split; try done. by apply putting_same.
  - change (e_next_ref s <= S (e_next_ref s))%nat. lia.
  - done.
  - intros f Hf. left. unfold fut_state. change (e_futures (create_future s).2) with (<[e_next_ref s := FPending]> (e_futures s)).
    by rewrite lookup_insert_ne by lia.
Qed.
Lemma quiet_acquire : preserves quiet acquire_pid.
Proof. intros s. unfold acquire_pid. destruct (acquire _) as [[]|]; by apply quiet_same. Qed.
Lemma quiet_release pid : preserves quiet (release_pid pid).
Proof. unfold release_pid. preserve. Qed.
Lemma quiet_ensure : preserves quiet _ensure_alive.
Proof. unfold _ensure_alive. preserve. Qed.
Lemma quiet_resumed f thrown : preserves quiet (resumed f thrown).
Proof. intros s. unfold resumed. destruct thrown; [reflexivity|]. unfold await_result. by destruct (fut_state s f). Qed.
Lemma quiet_observe t : preserves quiet (observe t).
Proof. intros s. unfold observe. destruct (add_response_observer _ _). by apply quiet_same. Qed.
Lemma quiet_unobserve t : preserves quiet (unobserve t).
Proof. intros s. unfold unobserve. destruct (remove_response_observer _ _). by apply quiet_same. Qed.
Lemma quiet_remove_filters fs : preserves quiet (remove_filters fs).
Proof. induction fs; cbn [remove_filters]; unfold modify_index; preserve. Qed.
Lemma quiet_build filters q auto i acc : preserves quiet (build_entries filters q auto i acc).
Proof. revert acc; induction filters as [|r filters IH]; intros acc; cbn [build_entries]; preserve. Qed.
#[export] Hint Resolve quiet_create quiet_acquire quiet_release quiet_ensure quiet_resumed quiet_observe quiet_unobserve
  quiet_remove_filters quiet_build : frame.

Lemma quiet_forget_sub pid : preserves quiet (forget_sub pid).
Proof. unfold forget_sub. preserve. Qed.
Lemma quiet_forget_unsub pid : preserves quiet (forget_unsub pid).
Proof. unfold forget_unsub. preserve. Qed.
#[export] Hint Resolve quiet_forget_sub quiet_forget_unsub : frame.
Lemma quiet_send_subscribe fs i : preserves quiet (send_subscribe_begin fs i).
Proof. unfold send_subscribe_begin. preserve. Qed.
Lemma quiet_send_unsubscribe fs : preserves quiet (send_unsubscribe_begin fs).
Proof. unfold send_unsubscribe_begin. preserve. Qed.
Lemma quiet_subscribe_finish fs pid f thrown : preserves quiet (send_subscribe_finish fs pid f thrown).
Proof. unfold send_subscribe_finish, as_suback. preserve. Qed.
Lemma quiet_unsubscribe_finish pid f thrown : preserves quiet (send_unsubscribe_finish pid f thrown).
Proof. unfold send_unsubscribe_finish, as_unsuback. preserve. Qed.
#[export] Hint Resolve quiet_send_subscribe quiet_send_unsubscribe quiet_subscribe_finish quiet_unsubscribe_finish : frame.

Lemma quiet_restore broker observed ack : preserves quiet (restore_begin broker observed ack).
Proof.
  unfold restore_begin. destruct observed as [|f fs]; [preserve|].
  intros s. pose proof (quiet_send_subscribe (map observer_request (f :: fs)) None s) as H.
  by destruct (send_subscribe_begin _ _ s) as [[[]|] s'].
Qed.
#[export] Hint Resolve quiet_restore : frame.

Lemma quiet_publish p : preserves quiet (publish_begin p).
Proof. unfold publish_begin. preserve. Qed.
Lemma quiet_subscribe fs q auto i : preserves quiet (subscribe_begin fs q auto i).
Proof. unfold subscribe_begin, modify_index. preserve. Qed.
Lemma quiet_unsubscribe fs : preserves quiet (unsubscribe_begin fs).
Proof. unfold unsubscribe_begin. preserve. Qed.
Lemma quiet_add_observer t : preserves quiet (add_response_observer_begin t).
Proof. unfold add_response_observer_begin. preserve. Qed.
Lemma quiet_remove_observer t : preserves quiet (remove_response_observer_begin t).
Proof. unfold remove_response_observer_begin. preserve. Qed.
Lemma quiet_ping : preserves quiet ping_begin.
Proof. unfold ping_begin. preserve. Qed.
#[export] Hint Resolve quiet_publish quiet_subscribe quiet_unsubscribe quiet_add_observer quiet_remove_observer quiet_ping : frame.

Lemma quiet_task_finish t thrown : preserves quiet (task_finish t thrown).
Proof.
  destruct t as [kind pid f]. destruct kind; cbn [task_finish]; unfold ping_finish; try preserve.
  intros s. pose proof (quiet_subscribe_finish filters pid f thrown s) as H.
  destruct (send_subscribe_finish filters pid f thrown s) as [[a|e] s']; [exact H|]. by destruct (is_exception e).
Qed.
#[export] Hint Resolve quiet_task_finish : frame.

Lemma calm_inbound {A} (m : M A) : preserves inbound_frame m -> preserves putting m -> preserves calm m.
Proof. intros Hm Hp s. pose proof (Hp s). destruct (Hm s). by split. Qed.
Lemma calm_quiet {A} (m : M A) : preserves quiet m -> preserves calm m.
Proof. intros Hm s. apply Hm. Qed.

Ltac calm_leaf := first [apply preserves_modify; intros ? | intros ?]; (split; [done..|by apply putting_same]).
#[export] Hint Extern 3 (preserves calm (modify _)) => calm_leaf : frame.
#[export] Hint Extern 3 (preserves calm (modify_state _)) => calm_leaf : frame.
#[export] Hint Extern 3 (preserves calm (send_packet _)) => apply calm_inbound; solve [auto with frame] : frame.

Lemma calm_resolve f st : preserves calm (resolve f st).
Proof. intros s. unfold resolve. destruct (fut_done _); [reflexivity|].
  split; [done..|by apply putting_same].
Qed.
#[export] Hint Resolve calm_resolve : frame.

Lemma calm_dispatch p : received_ok p -> preserves calm (_dispatch p).
Proof.
  intros Hp. destruct p; cbn [_dispatch] in *; try (apply calm_inbound; [solve [auto with frame]|by apply (putting_dispatch _ Hp)]);
    unfold _handle_puback, _handle_pubrec, _handle_pubcomp, _handle_suback, _handle_unsuback, _handle_pingresp, release_pid,
      unless_done, is_done, set_result, set_exception; preserve.
Qed.

Lemma quiet_put_resume : preserves quiet put_resume.
Proof. apply quiet_inbound; [auto with frame|apply putting_put_resume]. Qed.
Lemma quiet_rejecting e : preserves quiet (rejecting_oversized e).
Proof.
  apply quiet_inbound; unfold rejecting_oversized; destruct e; preserve.
Qed.
Lemma quiet_detach fs : preserves quiet (detach fs).
Proof. unfold detach. preserve. Qed.
Lemma quiet_auth p : preserves quiet (send_auth p).
Proof. unfold send_auth. preserve. Qed.
Lemma quiet_message_ack m : preserves quiet (message_ack m).
Proof. apply quiet_inbound; [auto with frame|]. unfold message_ack, run_callback. preserve. Qed.
Lemma quiet_drop_head q : preserves quiet (drop_head q).
Proof. unfold drop_head. preserve. Qed.
Lemma quiet_expire ref : preserves quiet (expire_after_timeout ref).
Proof. apply quiet_inbound; auto with frame. Qed.
Lemma quiet_restore_detached l : preserves quiet (restore_detached l).
Proof. unfold restore_detached, modify_index. preserve. Qed.
Lemma quiet_bind_router : preserves quiet bind_router.
Proof. apply quiet_inbound; [apply frame_bind_router|]. unfold bind_router. preserve. Qed.
#[export] Hint Resolve quiet_put_resume quiet_rejecting quiet_detach quiet_auth quiet_message_ack quiet_drop_head
  quiet_expire quiet_restore_detached quiet_bind_router : frame.

Lemma disconnect_calm s :
  let s' := (disconnect s).2 in
  e_disconnecting s' = true /\ quiet s (set_e_disconnecting (e_disconnecting s) s').
Proof.
  unfold disconnect, mbind, M_bind. cbn [modify]. set (s1 := set_e_disconnecting true s).
  assert (preserves quiet (suppress (send_packet (PDisconnect (mkDisconnect 0 None))))) as H by preserve.
  specialize (H s1). unfold suppress in *. cbn [snd transport_close modify] in *. cbn zeta.
  destruct H as [[C1 C2 C3 C4] N R F]. split; [done|]. by split.
Qed.

(** ** Steps of the engine *)

(** What happens while the loops run: packets are the decoder's, the handshake is over. *)
Definition while_running (ev : event) : Prop :=
  match ev with
  | EvReceive p => received_ok p
  | EvConnAck _ | EvRunEnds => False
  | _ => True
  end.

(** [disconnect] marks the connection; otherwise these fields stay. *)
Record calm_step (s s' : Engine) : Prop := {
  cs_keepalive : e_effective_keepalive s' = e_effective_keepalive s;
  cs_dead : e_dead s' = e_dead s;
  cs_disconnecting : e_disconnecting s = true -> e_disconnecting s' = true;
  cs_putting : putting s s'
}.

Lemma calm_step_of s s' : calm s s' -> calm_step s s'.
Proof. intros []. split; [done..|congruence|done]. Qed.

Lemma new_call_2 m sys : engine (new_call m sys) = (m (engine sys)).2 /\ failure (new_call m sys) = failure sys.
Proof. unfold new_call, settle. by destruct (m (engine sys)) as [[[]|] ?]. Qed.
Lemma finish_2 n t thrown sys :
  let sys' := let '(r, s) := task_finish t thrown (engine sys) in settle n r s sys in
  engine sys' = (task_finish t thrown (engine sys)).2 /\ failure sys' = failure sys.
Proof. unfold settle. by destruct (task_finish _ _ _) as [[[]|] ?]. Qed.
Lemma run_reader_2 m sys :
  engine (run_reader m sys) = (m (engine sys)).2 /\
  (failure (run_reader m sys) = failure sys \/
   exists e, (m (engine sys)).1 = Err e /\ failure (run_reader m sys) = Some e).
Proof. unfold run_reader. destruct (m (engine sys)) as [[a|e] s]; [by auto|]. split; [done|]. right. by exists e. Qed.

Lemma engine_step_calm sys ev :
  while_running ev -> calm_step (engine sys) (engine (engine_step sys ev)).
Proof.
  intros Hev. assert (forall n t thrown, calm_step (engine sys)
      (engine (let '(r, s) := task_finish t thrown (engine sys) in settle n r s sys))) as Hfin.
  { intros n t thrown. rewrite (proj1 (finish_2 n t thrown sys)). apply calm_step_of, quiet_task_finish. }
  assert (forall s, quiet (engine sys) s -> calm_step (engine sys) s) as Hq by (intros s H; apply calm_step_of, H).
  destruct ev; cbn [engine_step run_unit with_engine engine]; try done;
    rewrite ?(proj1 (new_call_2 _ _)); try (apply Hq; auto with frame; fail).
  all: try match goal with |- calm_step ?s (?m ?s).2 =>
      assert (preserves quiet m) as Hm by preserve; apply Hq, Hm end.
  - case_match; [|by apply Hq]. rewrite (proj1 (run_reader_2 _ _)). by apply calm_step_of, calm_dispatch.
  - case_match; [|by apply Hq]. rewrite (proj1 (run_reader_2 _ _)). apply Hq, quiet_rejecting.
  - case_match; [|by apply Hq]. rewrite (proj1 (run_reader_2 _ _)). apply Hq, quiet_put_resume.
  - destruct (calls sys !! call); [|by apply Hq]. case_match; [apply Hfin|]. split; [done..|by apply putting_same].
  - destruct (calls sys !! call); [|by apply Hq]. case_match; [apply Hfin|by apply Hq].
  - destruct (calls sys !! call); [|by apply Hq]. case_match; [apply Hfin|by apply Hq].
  - apply Hq. by apply quiet_same.
  - destruct (disconnect_calm (engine sys)) as [H1 [[C1 C2 C3 C4] _ _ _]]. by split.
Qed.

(** What has ended the loop: a handler, the decoder, or a read of the transport. *)
Lemma engine_step_failure sys ev e :
  while_running ev -> putting_ok (engine sys) -> failure (engine_step sys ev) = Some e ->
  failure sys = Some e \/ handler_error e = true \/ (ev = EvReadFails e /\ too_large e = false).
Proof.
  intros Hev Hp. assert (forall n t thrown, failure (let '(r, s) := task_finish t thrown (engine sys) in settle n r s sys) =
    failure sys) as Hfin by (intros; apply finish_2).
  destruct ev; cbn [engine_step run_unit with_engine failure]; try done;
    rewrite ?(proj2 (new_call_2 _ _)); auto.
  - case_match; [|auto]. destruct (run_reader_2 (_dispatch packet) sys) as [_ [->|(e' & H1 & ->)]]; [auto|].
    intros [= <-]. right. left. by eapply guarded_dispatch.
  - case_match; [|auto]. destruct (run_reader_2 (rejecting_oversized e0) sys) as [_ [->|(e' & H1 & ->)]]; [auto|].
    intros [= <-]. right. apply guarded_rejecting in H1 as [H1|[-> H1]]; auto.
  - case_match; [|auto]. destruct (run_reader_2 put_resume sys) as [_ [->|(e' & H1 & ->)]]; [auto|].
    intros [= <-]. right. left. by eapply guarded_put_resume.
  - destruct (calls sys !! call); [|auto]. case_match; [rewrite Hfin; auto|auto].
  - destruct (calls sys !! call); [|auto]. case_match; [rewrite Hfin; auto|auto].
  - destruct (calls sys !! call); [|auto]. case_match; [rewrite Hfin; auto|auto].
Qed.
