(* ===== verification/Broker.v ===== *)
(** * What the broker has been told ([_internal/protocol.py])

    A broker is the set of the filters it has been asked for, by the SUBSCRIBE and UNSUBSCRIBE packets it decodes from the
    bytes the engine has written.  Theorem: whatever calls, packets, cancellations and failures interleave, each filter that is registered in
    the index, and each topic with a response observer, is in that set: the engine never gives up at the broker
    what it still needs.  An execution shows that the converse fails: a filter that the index has lost stays subscribed. *)

From S2P Require Import Prelude Properties Packets Codec SubscriptionIndex State Engine Inbound Protocol Calls Connection Failures Locking.

(** ** The broker *)

(** What a packet tells about subscriptions. *)
Definition packet_told (packet : AnyPacket) (filters : gset pystr) : gset pystr :=
  match packet with
  | PSubscribe p => list_to_set (map sr_topic_filter (s_subscriptions p)) ∪ filters
  | PUnsubscribe p => filters ∖ list_to_set (u_topic_filters p)
  | _ => filters
  end.

Definition broker_reads (v : version) (filters : gset pystr) (data : bytes) : gset pystr :=
  match decode data v None with
  | Ok (Some (packet, _)) => packet_told packet filters
  | _ => filters
  end.

Definition broker (v : version) (filters : gset pystr) (sent : list bytes) : gset pystr := fold_left (broker_reads v) sent filters.

Lemma broker_sent v filters sent packet data :
  encode packet v = Ok data -> broker v filters (sent ++ [data]) = packet_told packet (broker v filters sent).
Proof.
  intros He. unfold broker. rewrite fold_left_app. cbn [fold_left]. unfold broker_reads at 1.
  pose proof (decode_encoded packet v data [] None He) as Hd. rewrite app_nil_r in Hd. rewrite Hd. cbn [mbind res_bind].
  destruct packet; cbn; try done. f_equal. f_equal. rewrite map_map. apply map_ext. intros r. by destruct v.
Qed.

(** ** What keeps the promise *)

Section promise.
(** The version, and what the broker knows of the session when the connection begins. *)
Context (v0 : version) (b0 : gset pystr).

Definition told (s : Engine) : gset pystr := broker (e_version s) b0 (e_sent s).
Definition needed (s : Engine) (f : pystr) : Prop := registered_in s f = true \/ observed_in s f = true.

(** Nothing is given up at the broker, and nothing new is needed. *)
Definition loyal (s s' : Engine) : Prop :=
  e_version s' = e_version s /\ told s ⊆ told s' /\
  (nodup_index s -> nodup_index s' /\ forall f, needed s' f -> needed s f).

#[export] Instance loyal_preorder : PreOrder loyal.
Proof.
  split; [by intros s; split; [|split]|]. intros s1 s2 s3 (A1 & A2 & A3) (B1 & B2 & B3). split; [congruence|]. split; [by transitivity (told s2)|].
  intros Hnd. destruct (A3 Hnd) as [Hnd2 H2]. destruct (B3 Hnd2) as [Hnd3 H3]. auto.
Qed.

Lemma loyal_same s s' : e_version s' = e_version s -> e_sent s' = e_sent s -> index_of_engine s' = index_of_engine s -> loyal s s'.
Proof.
  intros E1 E2 E3. split; [done|]. unfold told. rewrite E1, E2. split; [done|]. unfold needed, registered_in, observed_in. by rewrite E3.
Qed.

Lemma told_send packet s : let s' := (send_packet packet s).2 in
  e_version s' = e_version s /\ index_of_engine s' = index_of_engine s /\ e_state s' = e_state s /\
  ((send_packet packet s).1 = Ok tt /\ told s' = packet_told packet (told s) \/ (exists e, (send_packet packet s).1 = Err e) /\ s' = s).
Proof.
  unfold send_packet, _encode, _send, mbind, M_bind. cbn [asks lift]. destruct (encode packet (e_version s)) as [data|e] eqn:He; cbn.
  - destruct (_ || _); cbn; [split_and!; try done; right; eauto|]. split_and!; try done. left. split; [done|]. by apply broker_sent.
  - split_and!; try done. right; eauto.
Qed.

Definition is_unsubscribe (packet : AnyPacket) : bool := match packet with PUnsubscribe _ => true | _ => false end.

Lemma loyal_send packet : is_unsubscribe packet = false -> preserves loyal (send_packet packet).
Proof.
  intros Hp s. destruct (told_send packet s) as (H1 & H2 & H3 & [[_ H]|[_ ->]]); [|done]. split; [done|]. split.
  - rewrite H. destruct packet; cbn in *; try done. set_solver.
  - unfold needed, registered_in, observed_in. by rewrite H2.
Qed.

Ltac loyal_leaf := first [apply preserves_modify; intros ? | intros ?]; apply loyal_same; reflexivity.
#[local] Hint Extern 1 (preserves loyal (send_packet _)) => apply loyal_send; reflexivity : frame.
#[local] Hint Extern 3 (preserves loyal (modify _)) => loyal_leaf : frame.
#[local] Hint Extern 3 (preserves loyal (modify_state _)) => loyal_leaf : frame.

Lemma loyal_new_ref : preserves loyal new_ref.
Proof. loyal_leaf. Qed.
Lemma loyal_resolve f st : preserves loyal (resolve f st).
Proof. intros s. unfold resolve. destruct (fut_done _); by apply loyal_same. Qed.
Lemma loyal_acquire : preserves loyal acquire_pid.
Proof. intros s. unfold acquire_pid. destruct (acquire _) as [[]|]; by apply loyal_same. Qed.
Lemma loyal_await f : preserves loyal (await_result f).
Proof. intros s. unfold await_result. destruct (fut_state s f); reflexivity. Qed.
Lemma loyal_on_error {A} (m : M A) fin : preserves loyal m -> preserves loyal fin -> preserves loyal (on_error m fin).
Proof. apply preserves_on_error. tc_solve. Qed.
#[local] Hint Resolve loyal_new_ref loyal_resolve loyal_acquire loyal_await : frame.

(** Removing entries and observers. *)
Lemma loyal_remove_filters fs : preserves loyal (remove_filters fs).
Proof.
  induction fs as [|f fs IH]; cbn [remove_filters]; [preserve|]. apply preserves_bind; [apply _| |done]. apply preserves_modify. intros s.
  split; [done|]. split; [done|]. intros Hnd. destruct (remove_contains (index_of_engine s) f Hnd) as (H1 & H2 & H3). split; [exact H1|].
  intros g. unfold needed, registered_in, observed_in. cbn. rewrite H2, H3. case_decide; [by intros [|]; [|right]|done].
Qed.
Lemma loyal_unobserve t : preserves loyal (unobserve t).
Proof.
  intros s. unfold unobserve, remove_response_observer. case_decide; (split; [done|]; split; [done|]); intros Hnd; (split; [exact Hnd|]); [|done].
  intros g [Hg|Hg]; [by left|right]. revert Hg. unfold observed_in, has_response_observer. cbn. rewrite !bool_decide_eq_true. set_solver.
Qed.
#[local] Hint Resolve loyal_remove_filters loyal_unobserve : frame.

Ltac loyal := unfold abort, complete, claim, unless_done, is_done, set_result, set_exception, resumed, release_pid, _ensure_alive, create_future,
  modify_index, transport_close; repeat first [preserve_step | lazymatch goal with |- preserves _ (on_error _ _) => apply loyal_on_error end].

Lemma loyal_forget_sub pid : preserves loyal (forget_sub pid).
Proof. unfold forget_sub. loyal. Qed.
Lemma loyal_forget_unsub pid : preserves loyal (forget_unsub pid).
Proof. unfold forget_unsub. loyal. Qed.
#[local] Hint Resolve loyal_forget_sub loyal_forget_unsub : frame.
Lemma loyal_send_subscribe fs i : preserves loyal (send_subscribe_begin fs i).
Proof. unfold send_subscribe_begin. loyal. Qed.
Lemma loyal_sub_finish fs pid f thrown : preserves loyal (send_subscribe_finish fs pid f thrown).
Proof. unfold send_subscribe_finish, as_suback. loyal. Qed.
Lemma loyal_unsub_finish pid f thrown : preserves loyal (send_unsubscribe_finish pid f thrown).
Proof. unfold send_unsubscribe_finish, as_unsuback. loyal. Qed.
#[local] Hint Resolve loyal_send_subscribe loyal_sub_finish loyal_unsub_finish : frame.
Lemma loyal_restore broker observed ack : preserves loyal (restore_begin broker observed ack).
Proof.
  unfold restore_begin. destruct observed as [|f fs]; [preserve|]. intros s.
  pose proof (loyal_send_subscribe (map observer_request (f :: fs)) None s) as H.
  by destruct (send_subscribe_begin _ _ s) as [[[pid g]|e] s'].
Qed.
Lemma loyal_publish p : preserves loyal (publish_begin p).
Proof. unfold publish_begin. loyal. Qed.
Lemma loyal_ping : preserves loyal ping_begin.
Proof. unfold ping_begin. loyal. Qed.
Lemma loyal_detach fs : preserves loyal (detach fs).
Proof. unfold detach. loyal. Qed.
Lemma loyal_auth p : preserves loyal (send_auth p).
Proof. unfold send_auth. loyal. Qed.
Lemma loyal_disconnect : preserves loyal disconnect.
Proof. unfold disconnect. loyal. Qed.
Lemma loyal_bind : preserves loyal bind_router.
Proof. unfold bind_router. loyal. Qed.
Lemma loyal_rejecting e : preserves loyal (rejecting_oversized e).
Proof. unfold rejecting_oversized. destruct e; loyal. Qed.
Lemma loyal_connack p : preserves loyal (_ ← handle_connack p; mret tt).
Proof. unfold handle_connack, begin_session. loyal. Qed.
Lemma loyal_message_ack m : preserves loyal (message_ack m).
Proof. unfold message_ack, run_callback, _complete. loyal. Qed.
Lemma loyal_run_finally : preserves loyal run_finally.
Proof. unfold run_finally, _cancel_pending, inbound_clear. loyal. Qed.
#[local] Hint Resolve loyal_restore loyal_publish loyal_ping loyal_detach loyal_auth loyal_disconnect loyal_bind loyal_rejecting loyal_connack
  loyal_message_ack loyal_run_finally : frame.

(** *** The inbound flow *)

Lemma loyal_after_deliver k b : preserves loyal (after_deliver k b).
Proof. unfold after_deliver, _complete. loyal. Qed.
Lemma loyal_drop_head q : preserves loyal (drop_head q).
Proof. loyal_leaf. Qed.
#[local] Hint Resolve loyal_after_deliver loyal_drop_head : frame.
Lemma loyal_deliver_then r cb k : preserves loyal (deliver_then r cb k).
Proof. unfold deliver_then, _deliver, after_put, is_detached, set_callback, put_nowait. loyal. Qed.
Lemma loyal_put_resume : preserves loyal put_resume.
Proof. unfold put_resume, after_put, is_detached, put_nowait. loyal. Qed.
Lemma loyal_select_recipient p : preserves loyal (select_recipient p).
Proof. unfold select_recipient, _make_message, _select_subscription. loyal. Qed.
Lemma loyal_accept replay p r : preserves loyal (accept replay p r).
Proof. unfold accept, accept_buffered. loyal. Qed.
Lemma loyal_hold pid : preserves loyal (_hold_receive_quota pid).
Proof. unfold _hold_receive_quota. loyal. Qed.
#[local] Hint Resolve loyal_deliver_then loyal_put_resume loyal_select_recipient loyal_accept loyal_hold : frame.
Lemma loyal_select_or_buffer p : preserves loyal (_select_recipient_or_buffer p).
Proof. unfold _select_recipient_or_buffer. loyal. Qed.
Lemma loyal_qos1 p r : preserves loyal (_deliver_qos1_publish p r).
Proof. unfold _deliver_qos1_publish, require_packet_id. loyal. Qed.
Lemma loyal_qos2 p r : preserves loyal (_accept_qos2_publish p r).
Proof. unfold _accept_qos2_publish, require_packet_id, detached_recipient, is_detached. loyal. Qed.
#[local] Hint Resolve loyal_select_or_buffer loyal_qos1 loyal_qos2 : frame.
Lemma loyal_handle_publish p : preserves loyal (handle_publish p).
Proof. unfold handle_publish, _handle_qos1_publish, _handle_qos2_publish, require_packet_id. loyal. Qed.
Lemma loyal_handle_pubrel a : preserves loyal (handle_pubrel a).
Proof. unfold handle_pubrel, _complete. loyal. Qed.
Lemma loyal_modify_buffer f : preserves loyal (modify_buffer f).
Proof. apply preserves_modify. intros s. destruct (e_replay s); [done..|by apply loyal_same]. Qed.
#[local] Hint Resolve loyal_handle_publish loyal_handle_pubrel loyal_modify_buffer : frame.
Lemma loyal_deliver_replay p r : preserves loyal (deliver_replay p r).
Proof. unfold deliver_replay. loyal. Qed.
#[local] Hint Resolve loyal_deliver_replay : frame.

Lemma loyal_pending_loop pending kept : preserves loyal (deliver_pending_loop pending kept).
Proof.
  revert kept; induction pending as [|p pending IH]; intros kept; cbn [deliver_pending_loop]; [preserve|].
  apply preserves_bind; [apply _|preserve|]. intros r. apply preserves_bind; [apply _|unfold must_wait; preserve|]. intros wait.
  destruct wait; [apply IH|]. intros s. pose proof (loyal_deliver_replay p r s) as H. destruct (deliver_replay p r s) as [[[]|e] s']; cbn [snd] in H.
  - etransitivity; [exact H|]. apply (preserves_bind loyal (modify_buffer (_discard p))); [preserve|]. intros _. apply IH.
  - etransitivity; [exact H|]. apply (preserves_bind loyal (modify_buffer _)); preserve.
Qed.

Lemma loyal_deliver_pending : preserves loyal _deliver_pending.
Proof.
  unfold _deliver_pending. apply preserves_bind; [apply _|preserve|]. intros [| |b]; [preserve..|].
  apply preserves_bind; [apply _|preserve|]. intros _. apply loyal_pending_loop.
Qed.
#[local] Hint Resolve loyal_deliver_pending : frame.

Lemma loyal_drain : preserves loyal drain_replay.
Proof.
  unfold drain_replay. apply preserves_bind; [apply _|preserve|]. intros _. apply preserves_modify. intros s.
  destruct (e_replay s); [done..|]. case_match; [by apply loyal_same|done].
Qed.

Lemma loyal_expire ref : preserves loyal (expire_after_timeout ref).
Proof.
  assert (preserves loyal (expire_replay ref)) as H.
  { unfold expire_replay. apply preserves_bind; [apply _|preserve|]. intros [| |b]; [preserve..|]. case_if; [|preserve].
    apply preserves_bind; [apply _|preserve|]. intros _. apply preserves_modify. intros s. destruct (e_replay s); [done..|]. by apply loyal_same. }
  intros s. unfold expire_after_timeout. specialize (H s). destruct (expire_replay ref s) as [[|e] s']; [exact H|].
  etransitivity; [exact H|]. assert (preserves loyal (suppress (abort None))) as Ha by loyal. apply Ha.
Qed.
#[local] Hint Resolve loyal_drain loyal_expire : frame.

Lemma loyal_dispatch p : preserves loyal (_dispatch p).
Proof.
  destruct p; cbn [_dispatch]; unfold _handle_puback, _handle_pubrec, _handle_pubcomp, _handle_suback, _handle_unsuback, _handle_pingresp; loyal.
Qed.

Lemma loyal_task_finish t thrown : preserves loyal (task_finish t thrown).
Proof.
  destruct t as [kind pid f]. destruct kind; cbn [task_finish]; unfold ping_finish; loyal.
  intros s. pose proof (loyal_sub_finish filters pid f thrown s) as H.
  destruct (send_subscribe_finish filters pid f thrown s) as [[a|e] s']; [exact H|]. by destruct (is_exception e).
Qed.
#[local] Hint Resolve loyal_dispatch loyal_task_finish : frame.

(** ** The promise *)

(** What is needed has been asked for. *)
Definition agreed (s : Engine) : Prop := e_version s = v0 /\ nodup_index s /\ forall f, needed s f -> f ∈ told s.

Lemma loyal_agreed s s' : loyal s s' -> agreed s -> agreed s'.
Proof.
  intros (Hv & Ht & Hn) (Hv0 & Hnd & Ha). destruct (Hn Hnd) as [Hnd' Hs]. split; [congruence|]. split; [done|]. intros f Hf. by apply Ht, Ha, Hs.
Qed.

(** [_send_unsubscribe] of filters that are not needed. *)
Definition releasing (fs : list pystr) (s s' : Engine) : Prop :=
  agreed s /\ (forall f, f ∈ fs -> ~ needed s f) -> agreed s' /\ (forall f, f ∈ fs -> ~ needed s' f).

#[local] Instance releasing_preorder fs : PreOrder (releasing fs).
Proof. split; [by intros s H|]. intros s1 s2 s3 H1 H2 H. by apply H2, H1. Qed.

Lemma releasing_loyal {A} fs (m : M A) : preserves loyal m -> preserves (releasing fs) m.
Proof.
  intros Hm s [Ha Hn]. specialize (Hm s). split; [by eapply loyal_agreed|]. intros f Hf Hne. apply (Hn f Hf). by apply (proj2 (proj2 Hm) (proj1 (proj2 Ha))).
Qed.

Lemma releasing_send fs pid : preserves (releasing fs) (send_packet (PUnsubscribe (mkUnsubscribe pid fs None))).
Proof.
  intros s [(Hv & Hnd & Ha) Hn]. destruct (told_send (PUnsubscribe (mkUnsubscribe pid fs None)) s) as (H1 & H2 & _ & [[_ H]|[_ ->]]); [|done].
  assert (forall f, needed (send_packet (PUnsubscribe (mkUnsubscribe pid fs None)) s).2 f <-> needed s f) as Hne.
  { intros f. unfold needed, registered_in, observed_in. by rewrite H2. }
  split; [split; [congruence|split]|].
  - by rewrite H2.
  - intros f Hf%Hne. rewrite H. cbn. apply elem_of_difference. split; [by apply Ha|]. rewrite elem_of_list_to_set. intros Hin. by apply (Hn f).
  - intros f Hf Hne'%Hne. by apply (Hn f).
Qed.

Lemma releasing_send_unsubscribe fs : preserves (releasing fs) (send_unsubscribe_begin fs).
Proof.
  unfold send_unsubscribe_begin. do 4 (apply preserves_bind; [apply _|apply releasing_loyal; loyal|intros ?]).
  apply preserves_on_error; [apply _| |apply releasing_loyal; loyal]. apply preserves_bind; [apply _|apply releasing_send|].
  intros ?. apply releasing_loyal. loyal.
Qed.

(** [_send_subscribe], once SUBSCRIBE is sent. *)
Lemma send_subscribe_told fs i s r s' :
  send_subscribe_begin fs i s = (Ok r, s') -> forall f, f ∈ map sr_topic_filter fs -> f ∈ told s'.
Proof.
  unfold send_subscribe_begin, mbind, M_bind, on_error. destruct (_ensure_alive s) as [[[]|] s1]; [|done]. destruct (acquire_pid s1) as [[pid|] s2]; [|done].
  destruct (create_future s2) as [[fut|] s3]; [|done]. destruct (modify_state _ s3) as [[[]|] s4]; [|done].
  match goal with |- context [send_packet ?p s4] => destruct (told_send p s4) as (_ & _ & _ & H); destruct (send_packet p s4) as [[[]|e] s5] end; cbn in H.
  - destruct H as [[_ H]|[[e [=]] _]]. intros [= _ <-] f Hf. rewrite H. apply elem_of_union_l. by apply elem_of_list_to_set.
  - destruct (forget_sub pid s5) as [[] ?]; discriminate.
Qed.

Lemma loyal_build fs q auto i acc : preserves loyal (build_entries fs q auto i acc).
Proof. revert acc; induction fs; intros acc; cbn [build_entries]; preserve. Qed.

(** Calls other than these are loyal. *)
Lemma agreed_subscribe fs q auto i s : agreed s -> agreed (subscribe_begin fs q auto i s).2.
Proof.
  intros (Hv & Hnd & Ha). unfold subscribe_begin. unfold mbind at 1, M_bind at 1.
  destruct (build_entries_spec fs q auto i [] s) as (new & s0 & Hb & Hi & Hk).
  assert (loyal s s0) as H0.
  { replace s0 with (build_entries fs q auto i [] s).2 by (by rewrite Hb). apply loyal_build. }
  rewrite Hb. unfold mbind at 1, M_bind at 1, on_error. destruct H0 as (V0 & T0 & _).
  set (s1 := set_index (add_many (index_of_engine s0) new) s0). change (modify_index (fun idx => add_many idx new) s0) with (@Ok unit tt, s1).
  cbn beta iota. rewrite <-Hi in Hnd. destruct (add_many_contains new (index_of_engine s0) Hnd) as (H1 & H2 & H3).
  assert (forall f, needed s1 f -> f ∈ keys new \/ needed s f) as Hn1.
  { intros f [Hf|Hf].
    - unfold registered_in in Hf. change (index_of_engine s1) with (add_many (index_of_engine s0) new) in Hf. rewrite H2 in Hf. case_decide; [by left|].
      right. left. unfold registered_in. by rewrite <-Hi.
    - right. right. unfold observed_in in *. change (index_of_engine s1) with (add_many (index_of_engine s0) new) in Hf. rewrite H3 in Hf. by rewrite <-Hi. }
  assert (told s1 = told s0) as T1 by done.
  pose proof (within_send_subscribe [] fs i s1 H1) as [Hnd2 Hw]. pose proof (loyal_send_subscribe fs i s1) as (V2 & T2 & _).
  pose proof (send_subscribe_told fs i s1) as Hs.
  assert (forall s2, (forall f, registered_in s2 f = registered_in s1 f /\ observed_in s2 f = observed_in s1 f) -> forall f, needed s2 f <-> needed s1 f) as Hsame.
  { intros s2 E f. unfold needed. by destruct (E f) as [-> ->]. }
  unfold mbind, M_bind. destruct (send_subscribe_begin fs i s1) as [[[pid fut]|e] s2]; cbn [snd] in *.
  - split; [cbn; rewrite V2; by etransitivity|]. split; [exact Hnd2|]. intros f [Hf|Hf]%(Hsame s2 (fun f => Hw f (not_elem_of_nil f)))%Hn1; [|by apply T2; rewrite T1; apply T0, Ha].
    apply (Hs _ s2 eq_refl). destruct (Hk f Hf) as [?%not_elem_of_nil|]; done.
  - destruct (remove_filters_spec (keys new) s2 Hnd2) as (s3 & E & Hnd3 & _ & Hr & Ho). rewrite E. cbn.
    pose proof (loyal_remove_filters (keys new) s2) as (V3 & T3 & _). rewrite E in V3, T3. cbn in V3, T3.
    split; [cbn; rewrite V3, V2; by etransitivity|]. split; [exact Hnd3|]. intros f Hf. apply T3, T2. rewrite T1. apply T0, Ha.
    destruct (Hw f (not_elem_of_nil f)) as [E1 E2]. destruct Hf as [Hf|Hf].
    + rewrite Hr in Hf. case_decide; [done|]. destruct (Hn1 f) as [|]; [by left; rewrite <-E1|done|done].
    + rewrite Ho, E2 in Hf. right. unfold observed_in in *. change (index_of_engine s1) with (add_many (index_of_engine s0) new) in Hf. rewrite H3 in Hf. by rewrite <-Hi.
Qed.

Lemma agreed_unsubscribe fs s : agreed s -> agreed (unsubscribe_begin fs s).2.
Proof.
  intros Ha. unfold unsubscribe_begin. unfold mbind at 1, M_bind at 1. rewrite ensure_alive_eq. destruct (e_dead s); [done|].
  unfold mbind at 1, M_bind at 1. cbn [ask_state asks].
  set (observed := List.filter (has_response_observer (subscriptions (e_state s))) fs).
  set (brk := List.filter (fun f => negb (bool_decide (f ∈ observed))) fs).
  destruct (remove_filters_spec fs s (proj1 (proj2 Ha))) as (s1 & Hs & _ & _ & Hr & Ho). unfold mbind at 1, M_bind at 1. rewrite Hs.
  assert (agreed s1) as Ha1 by (pose proof (loyal_remove_filters fs s) as H; rewrite Hs in H; by eapply loyal_agreed).
  assert (forall f, f ∈ brk -> ~ needed s1 f) as Hn.
  { intros f Hf. apply list_elem_of_In, filter_In in Hf as [Hin Hb]. apply list_elem_of_In in Hin. apply negb_true_iff, bool_decide_eq_false in Hb.
    intros [H|H]; [by rewrite Hr, decide_True in H|]. rewrite Ho in H. apply Hb, list_elem_of_In, filter_In. split; [by apply list_elem_of_In|exact H]. }
  destruct brk as [|f0 brk]; [eapply loyal_agreed; [apply loyal_restore|done]|].
  pose proof (releasing_send_unsubscribe (f0 :: brk) s1 (conj Ha1 Hn)) as [Ha2 _]. unfold mbind, M_bind.
  by destruct (send_unsubscribe_begin (f0 :: brk) s1) as [[[pid fut]|e] s2].
Qed.

Lemma agreed_unobserve topic s : agreed s -> agreed (remove_response_observer_begin topic s).2.
Proof.
  intros Ha. unfold remove_response_observer_begin. unfold mbind at 1, M_bind at 1. destruct (unobserve_spec topic s) as (b & s1 & Hs & _ & Hr & _ & Ho).
  assert (agreed s1) as Ha1 by (pose proof (loyal_unobserve topic s) as H; rewrite Hs in H; by eapply loyal_agreed).
  rewrite Hs. destruct b; cbn [negb]; [|done]. do 2 (unfold mbind at 1, M_bind at 1). cbn [ask_state asks].
  destruct (contains (subscriptions (e_state s1)) topic || e_dead s1) eqn:Ec; [done|]. apply orb_false_iff in Ec as [Ec _].
  assert (forall f, f ∈ [topic] -> ~ needed s1 f) as Hn.
  { intros f ->%list_elem_of_singleton [H|H]; [unfold registered_in, index_of_engine in H; congruence|]. by rewrite Ho, decide_True in H. }
  pose proof (releasing_send_unsubscribe [topic] s1 (conj Ha1 Hn)) as [Ha2 _]. unfold mbind, M_bind.
  by destruct (send_unsubscribe_begin [topic] s1) as [[[pid fut]|e] s2].
Qed.

Lemma observe_known topic s s1 : observe topic s = (Ok false, s1) -> observed_in s topic = true.
Proof. unfold observe, SubscriptionIndex.add_response_observer. case_decide; [|done]. intros _. by apply bool_decide_eq_true. Qed.

Lemma agreed_observe topic s : agreed s -> agreed (add_response_observer_begin topic s).2.
Proof.
  intros (Hv & Hnd & Ha). unfold add_response_observer_begin. unfold mbind at 1, M_bind at 1. rewrite ensure_alive_eq. destruct (e_dead s); [done|].
  unfold mbind at 1, M_bind at 1. destruct (observe_spec topic s) as (b & s1 & Hs & _ & Hr & Hn & Ho). rewrite Hs.
  assert (told s1 = told s /\ e_version s1 = v0) as [T1 Hv1].
  { unfold observe in Hs. destruct (SubscriptionIndex.add_response_observer _ _) as [b' idx]. injection Hs as _ <-. done. }
  assert ((forall f, f <> topic \/ topic ∈ told s -> needed s1 f -> f ∈ told s)) as Hneed.
  { intros f Hor [Hf|Hf]; [apply Ha; left; by rewrite <-Hr|]. rewrite Ho in Hf. case_decide as E; [destruct Hor; [done|by subst f]|]. apply Ha. by right. }
  destruct b; cbn [negb]; cycle 1.
  { split; [done|]. split; [by apply Hn|]. intros f Hf. change (f ∈ told s1). rewrite T1. apply Hneed; [|done]. right. apply Ha. right. by apply observe_known in Hs. }
  unfold mbind at 1, M_bind at 1. cbn [ask_state asks]. destruct (contains (subscriptions (e_state s1)) topic) eqn:Ec.
  { split; [done|]. split; [by apply Hn|]. intros f Hf. change (f ∈ told s1). rewrite T1. apply Hneed; [|done]. right. apply Ha. left. rewrite <-Hr. exact Ec. }
  unfold mbind at 1, M_bind at 1, on_error. pose proof (within_send_subscribe [] [observer_request topic] None s1 (Hn Hnd)) as [Hnd2 Hw].
  pose proof (loyal_send_subscribe [observer_request topic] None s1) as (V2 & T2 & _). pose proof (send_subscribe_told [observer_request topic] None s1) as Ht.
  destruct (send_subscribe_begin [observer_request topic] None s1) as [[[pid fut]|e] s2]; cbn [snd] in *.
  - split; [cbn; congruence|]. split; [exact Hnd2|]. intros f Hf. destruct (decide (f = topic)) as [->|Hne]; [apply (Ht _ s2 eq_refl); by left|]. apply T2. rewrite T1. apply Hneed; [by left|].
    destruct (Hw f (not_elem_of_nil f)) as [E1 E2]. unfold needed in *. by rewrite <-E1, <-E2.
  - unfold mbind, M_bind. destruct (unobserve_spec topic s2) as (b' & s3 & E & _ & Hr3 & Hn3 & Ho3). pose proof (loyal_unobserve topic s2) as (V3 & T3 & _).
    rewrite E in V3, T3 |- *. cbn in V3, T3 |- *. split; [congruence|]. split; [by apply Hn3|]. intros f Hf. apply T3, T2. rewrite T1. apply Ha.
    destruct (Hw f (not_elem_of_nil f)) as [E1 E2]. destruct Hf as [Hf|Hf]; [left; by rewrite <-Hr, <-E1, <-Hr3|]. rewrite Ho3 in Hf. case_decide; [done|].
    rewrite E2, Ho, decide_False in Hf by done. by right.
Qed.

(** What the client restores is part of the session. *)
Lemma agreed_restore l s : (forall f, f ∈ keys l -> f ∈ told s) -> agreed s -> agreed (restore_detached l s).2.
Proof.
  intros Hl (Hv & Hnd & Ha). destruct (add_many_contains l (index_of_engine s) Hnd) as (H1 & H2 & H3). split; [exact Hv|]. split; [exact H1|].
  intros f [Hf|Hf]; change (told (restore_detached l s).2) with (told s).
  - unfold registered_in in Hf. cbn in Hf. rewrite H2 in Hf. case_decide; [by apply Hl|apply Ha; by left].
  - unfold observed_in in Hf. cbn in Hf. rewrite H3 in Hf. apply Ha. by right.
Qed.

(** Every event but the restoration, which [_connect] does before there are calls. *)
Lemma agreed_step sys ev :
  match ev with EvRestoreDetached _ => False | _ => True end -> agreed (engine sys) -> agreed (engine (engine_step sys ev)).
Proof.
  intros Hev Ha. assert (forall n t thrown, agreed (engine (let '(r, s) := task_finish t thrown (engine sys) in settle n r s sys))) as Hfin.
  { intros n t thrown. rewrite (proj1 (finish_2 n t thrown sys)). eapply loyal_agreed; [apply loyal_task_finish|done]. }
  destruct ev; try done; cbn [engine_step run_unit with_engine engine] in *; rewrite ?(proj1 (new_call_2 _ _)).
  all: try match goal with |- agreed (?m _).2 => assert (preserves loyal m) as Hm by (loyal; fail); eapply loyal_agreed; [apply Hm|done] end.
  - by apply agreed_subscribe.
  - by apply agreed_unsubscribe.
  - by apply agreed_observe.
  - by apply agreed_unobserve.
  - case_match; [|done]. rewrite (proj1 (run_reader_2 _ _)). by eapply loyal_agreed; [apply loyal_connack|].
  - case_match; [|done]. rewrite (proj1 (run_reader_2 _ _)). by eapply loyal_agreed; [apply loyal_dispatch|].
  - case_match; [|done]. rewrite (proj1 (run_reader_2 _ _)). by eapply loyal_agreed; [apply loyal_rejecting|].
  - case_match; [|done]. rewrite (proj1 (run_reader_2 _ _)). by eapply loyal_agreed; [apply loyal_put_resume|].
  - destruct (calls sys !! call); [|done]. case_match; [apply Hfin|]. done.
  - destruct (calls sys !! call); [|done]. case_match; [apply Hfin|done].
  - destruct (calls sys !! call); [|done]. case_match; [apply Hfin|done].
  - case_match; [done|]. by eapply loyal_agreed; [apply loyal_run_finally|].
Qed.

Lemma agreed_run sys evs :
  Forall (fun ev => match ev with EvRestoreDetached _ => False | _ => True end) evs -> agreed (engine sys) -> agreed (engine (run_events sys evs)).
Proof.
  revert sys; induction evs as [|ev evs IH]; intros sys Hev Ha; [done|]. apply Forall_cons in Hev as [H1 H2]. apply IH; [done|]. by apply agreed_step.
Qed.
End promise.

Lemma loyal_connect session packet sys : loyal session (engine sys) (engine (engine_step sys (EvConnect packet))).
Proof. apply (loyal_send session (PConnect packet)). reflexivity. Qed.

Lemma loyal_connack_event session ack sys : loyal session (engine sys) (engine (engine_step sys (EvConnAck ack))).
Proof. cbn [engine_step]. case_match; [|done]. rewrite (proj1 (run_reader_2 _ _)). apply loyal_connack. Qed.

Lemma run_events_app sys evs evs' : run_events sys (evs ++ evs') = run_events (run_events sys evs) evs'.
Proof. apply fold_left_app. Qed.

(** C21: the broker has been asked for what the client needs.  A connection begins with CONNECT, CONNACK and the restoration of
    detached filters, which are part of the session the broker has kept.  Whatever calls, packets, cancellations, timeouts and
    failures follow, and in whatever order, with locks or without: each filter that is registered in the index and each
    topic with a response observer is among those a broker has that decodes what the engine has written: a
    SUBSCRIBE names it after the last UNSUBSCRIBE that does, or it is in the session and none does. *)
Theorem broker_agrees v prefixes keepalive limit size d queues next session packet ack items evs f :
  (forall g, g ∈ keys items -> g ∈ session) ->
  Forall (fun ev => match ev with EvRestoreDetached _ => False | _ => True end) evs ->
  let s := engine (run_events (system_new (engine_new v prefixes keepalive limit size d queues next))
                     ([EvConnect packet; EvConnAck ack; EvRestoreDetached items; EvBind] ++ evs)) in
  registered_in s f = true \/ observed_in s f = true -> f ∈ broker v session (e_sent s).
Proof.
  intros Hitems Hevs s Hf. set (start := system_new (engine_new v prefixes keepalive limit size d queues next)).
  assert (agreed v session (engine start)) as H0 by (split; [done|]; split; [constructor|]; intros g [H|H]; discriminate H).
  set (sys := engine_step (engine_step start (EvConnect packet)) (EvConnAck ack)).
  assert (loyal session (engine start) (engine sys)) as Hl by (etransitivity; [apply (loyal_connect session packet)|apply loyal_connack_event]).
  assert (agreed v session (engine (engine_step sys (EvRestoreDetached items)))) as H1.
  { apply agreed_restore; [|by eapply loyal_agreed]. intros g Hg. by apply (proj1 (proj2 Hl)), Hitems. }
  assert (agreed v session s) as (Hv & _ & Ha); [|unfold told in Ha; rewrite Hv in Ha; by apply Ha].
  unfold s. rewrite run_events_app. apply agreed_run; [done|]. apply (agreed_step _ _ _ EvBind I H1).
Qed.

(** A subscription and a response observer of one filter, released one after the other; another subscription stays. *)
Definition broker_events : list event :=
  let acked pid codes := EvReceive (PSubAck (mkSubAck pid codes None)) in
  [EvSubscribe [observer_request (py "a"); observer_request (py "b")] 0 true None; acked 1 [0; 0]; EvResume 0;
   EvObserve (py "a"); EvUnsubscribe [py "a"]; EvReceive (PSubAck (mkSubAck 1 [0] None)); EvResume 2].

Lemma broker_agrees_witness :
  let s := engine (run_events (system_new (engine_new V50 [] 60 None 1000 None ∅ 8))
             ([EvConnect sample_connect; EvConnAck (PConnAck sample_connack); EvRestoreDetached [(py "d", sample_entry 4 (py "d") None)]; EvBind] ++ broker_events)) in
  observed_in s (py "a") = true /\ registered_in s (py "b") = true /\ py "a" ∈ broker V50 {[ py "d" ]} (e_sent s) /\
  py "b" ∈ broker V50 {[ py "d" ]} (e_sent s) /\ py "d" ∈ broker V50 {[ py "d" ]} (e_sent s).
Proof.
  intros s. assert (forall f, registered_in s f = true \/ observed_in s f = true -> f ∈ broker V50 {[ py "d" ]} (e_sent s)) as H.
  { intros f. apply broker_agrees; [|repeat constructor]. intros g ->%list_elem_of_singleton. by apply elem_of_singleton. }
  assert (observed_in s (py "a") = true) as Ha by (vm_compute; reflexivity).
  assert (registered_in s (py "b") = true) as Hb by (vm_compute; reflexivity).
  assert (registered_in s (py "d") = true) as Hd by (vm_compute; reflexivity).
  split; [exact Ha|]. split; [exact Hb|]. split; [apply H; right; exact Ha|]. split; apply H; left; [exact Hb|exact Hd].
Defined.

(** The converse does not hold.  The broker accepts one filter of a SUBSCRIBE and refuses the other: the call raises and both
    entries are removed, but no UNSUBSCRIBE is sent.  The messages of the accepted filter have no recipient; with a
    persistent session they fill the replay buffer, and the connection is given up (here with a buffer of one). *)
Theorem rejected_filter_leaves_the_other :
  let request f := mkSubscriptionRequest f AT_MOST_ONCE false false SEND_ON_SUBSCRIBE in
  let publish := EvReceive (PPublish (mkPublish (py "a") [] AT_MOST_ONCE false false None None)) in
  let run evs := run_events (system_new (engine_new V50 [] 60 None 1 None ∅ 8)) ([EvConnAck (PConnAck (mkConnAck true 0 None));
    EvSubscribe [request (py "a"); request (py "b")] 0 true None; EvReceive (PSubAck (mkSubAck 1 [0; 0x87] None)); EvResume 0] ++ evs) in
  let s := engine (run []) in
  results (run []) = [(0%nat, Err (MQTTSubscribeError [(py "b", 0x87)]))] /\
  registered_in s (py "a") = false /\ bool_decide (py "a" ∈ broker V50 ∅ (e_sent s)) = true /\
  failure (run [publish; publish]) = Some (MQTTProtocolError "Persistent-session replay buffer limit exceeded").
Proof. vm_compute. split_and!; reflexivity. Qed.
