(* ===== verification/Delivery.v ===== *)
(** * Deliveries

    What the operations of the engine do to messages on their way to the application.  Most leave them alone
    ([unmoved]); a delivery puts the message in its queue, or waits with it, or does nothing;
    a message that comes is delivered, buffered or refused; and a delivery fails only on a connection that is lost
    or closed.  [Ordering] and [Routing] are proved from these lemmas. *)

From S2P Require Import Prelude Properties Packets Codec Topic SubscriptionIndex State Engine Inbound Protocol Ownership Calls Failures Receiving.

(** What the application sees of a message. *)
Definition content : Type := pystr * bytes * QoS * bool * option PublishProperties.
Definition msg_content (m : Message) : content := (msg_topic m, msg_payload m, msg_qos m, msg_retain m, msg_properties m).
Definition pub_content (p : Publish) : content := (p_topic p, p_payload p, p_qos p, p_retain p, p_properties p).

Definition buffered (s : Engine) : list Publish :=
  match e_replay s with PersistentReplayBuffered b => rb_publishes b | _ => [] end.

Abbreviation open s := (e_lost s || e_closed s = false).

(** ** What leaves the messages alone *)

(** The queues and the message with which the read loop waits are the same; the replay buffer is the same or gone; a
    QoS 2 exchange that will deliver at its end is an old one, or its recipient satisfies [P]. *)
Record unmoved (P : InboundRecipient -> Prop) (s s' : Engine) : Prop := {
  sl_queues : e_queues s' = e_queues s;
  sl_putting : e_putting s' = e_putting s;
  sl_replay : e_replay s' = e_replay s \/ e_replay s' = NoSessionReplay \/ e_replay s' = PersistentReplayIdle;
  sl_flights : forall pid fl, inflight_qos2_in (e_state s') !! pid = Some fl -> i2_delivered fl = false ->
    inflight_qos2_in (e_state s) !! pid = Some fl \/ P (i2_recipient fl);
  sl_open : open s' -> open s
}.
Arguments sl_queues {P} s s' _.
Arguments sl_putting {P} s s' _.
Arguments sl_replay {P} s s' _.
Arguments sl_flights {P} s s' _ pid fl _ _.
Arguments sl_open {P} s s' _ _.

#[export] Instance unmoved_preorder P : PreOrder (unmoved P).
Proof.
  split; [by split; auto|]. intros s1 s2 s3 [Q1 P1 R1 F1 O1] [Q2 P2 R2 F2 O2]. split; try congruence; auto.
  - destruct R2 as [->|]; auto.
  - intros pid fl Hl Hd. destruct (F2 _ _ Hl Hd); auto.
Qed.

Ltac unmoved_leaf := apply preserves_modify; intros ?; split; cbn; solve [auto].
Ltac still := unfold abort, complete, claim, unless_done, is_done, set_result, set_exception, resumed, release_pid,
  _ensure_alive, create_future, modify_index, send_packet, _encode; preserve.

Section unmoved.
Context {P : InboundRecipient -> Prop}.
#[local] Abbreviation still := (unmoved P).
#[local] Hint Extern 3 (preserves still (modify _)) => unmoved_leaf : frame.
#[local] Hint Extern 3 (preserves still (modify_state _)) => unmoved_leaf : frame.
Lemma still_new_ref : preserves still new_ref.
Proof. intros s. split; cbn; auto. Qed.
Lemma still_send data : preserves still (_send data).
Proof. intros s. unfold _send. destruct (_ || _); split; cbn; auto. Qed.
Lemma still_resolve f st : preserves still (resolve f st).
Proof. intros s. unfold resolve. destruct (fut_done _); split; cbn; auto. Qed.
Lemma still_close : preserves still transport_close.
Proof. apply preserves_modify. intros s. split; cbn; auto. by rewrite orb_true_r. Qed.
Lemma still_acquire : preserves still acquire_pid.
Proof. intros s. unfold acquire_pid. destruct (acquire _) as [[]|]; split; cbn; auto. Qed.
Lemma still_observe t : preserves still (observe t).
Proof. intros s. unfold observe. destruct (add_response_observer _ _). split; cbn; auto. Qed.
Lemma still_unobserve t : preserves still (unobserve t).
Proof. intros s. unfold unobserve. destruct (remove_response_observer _ _). split; cbn; auto. Qed.
Lemma still_await f : preserves still (await_result f).
Proof. intros s. unfold await_result. destruct (fut_state s f); split; cbn; auto. Qed.
Lemma still_on_error {A} (m : M A) fin : preserves still m -> preserves still fin -> preserves still (on_error m fin).
Proof.
  intros Hm Hf s. unfold on_error. specialize (Hm s). destruct (m s) as [[a|e] s']; [exact Hm|].
  specialize (Hf s'). destruct (fin s') as [[|] s'']; (etransitivity; [exact Hm|exact Hf]).
Qed.
#[local] Hint Resolve still_new_ref still_send still_resolve still_close still_acquire still_observe still_unobserve still_await : frame.

#[local] Hint Extern 2 (preserves still (on_error _ _)) => apply still_on_error; still; fail : frame.

Lemma still_send_packet p : preserves still (send_packet p).
Proof. still. Qed.
Lemma still_abort rc : preserves still (abort rc).
Proof. still. Qed.
Lemma still_complete r : preserves still (complete r).
Proof. still. Qed.
Lemma still_claim m : preserves still (claim m).
Proof. still. Qed.
Lemma still_resumed f thrown : preserves still (resumed f thrown).
Proof. still. Qed.
Lemma still_forget_sub pid : preserves still (forget_sub pid).
Proof. unfold forget_sub. still. Qed.
Lemma still_forget_unsub pid : preserves still (forget_unsub pid).
Proof. unfold forget_unsub. still. Qed.
#[local] Hint Resolve still_send_packet still_abort still_complete still_claim still_resumed still_forget_sub still_forget_unsub : frame.
Lemma still_remove_filters fs : preserves still (remove_filters fs).
Proof. induction fs; cbn [remove_filters]; still. Qed.
Lemma still_build filters q auto i acc : preserves still (build_entries filters q auto i acc).
Proof. revert acc; induction filters as [|r filters IH]; intros acc; cbn [build_entries]; still. Qed.
Lemma still_sub_finish fs pid f thrown : preserves still (send_subscribe_finish fs pid f thrown).
Proof. unfold send_subscribe_finish, as_suback. still. Qed.
Lemma still_unsub_finish pid f thrown : preserves still (send_unsubscribe_finish pid f thrown).
Proof. unfold send_unsubscribe_finish, as_unsuback. still. Qed.
#[local] Hint Resolve still_remove_filters still_build still_sub_finish still_unsub_finish : frame.
Lemma still_send_subscribe fs i : preserves still (send_subscribe_begin fs i).
Proof. unfold send_subscribe_begin. still. Qed.
Lemma still_send_unsubscribe fs : preserves still (send_unsubscribe_begin fs).
Proof. unfold send_unsubscribe_begin. still. Qed.
#[local] Hint Resolve still_send_subscribe still_send_unsubscribe : frame.
Lemma still_restore broker observed ack : preserves still (restore_begin broker observed ack).
Proof.
  unfold restore_begin. destruct observed as [|f fs]; [preserve|]. intros s.
  pose proof (still_send_subscribe (map observer_request (f :: fs)) None s) as H.
  by destruct (send_subscribe_begin _ _ s) as [[[pid g]|e] s'].
Qed.
#[local] Hint Resolve still_restore : frame.

Lemma still_publish p : preserves still (publish_begin p).
Proof. unfold publish_begin. still. Qed.
Lemma still_subscribe fs q auto i : preserves still (subscribe_begin fs q auto i).
Proof. unfold subscribe_begin. still. Qed.
Lemma still_unsubscribe fs : preserves still (unsubscribe_begin fs).
Proof. unfold unsubscribe_begin. still. Qed.
Lemma still_add_observer t : preserves still (add_response_observer_begin t).
Proof. unfold add_response_observer_begin. still. Qed.
Lemma still_remove_observer t : preserves still (remove_response_observer_begin t).
Proof. unfold remove_response_observer_begin. still. Qed.
Lemma still_ping : preserves still ping_begin.
Proof. unfold ping_begin. still. Qed.
(** The second halves of calls touch no messages. *)
Lemma still_task_finish t thrown : preserves still (task_finish t thrown).
Proof.
  destruct t as [kind pid f]. destruct kind; cbn [task_finish]; unfold ping_finish; try solve [still].
  intros s. pose proof (still_sub_finish filters pid f thrown s) as H.
  destruct (send_subscribe_finish filters pid f thrown s) as [[a|e] s']; [exact H|]. by destruct (is_exception e).
Qed.
Lemma still_message_ack m : preserves still (message_ack m).
Proof.
  unfold message_ack, run_callback, _complete. still; apply preserves_modify; intros s; split; cbn; auto.
  intros pid fl [[<- <-]|[_ H]]%lookup_insert_Some; auto; done.
Qed.
Lemma still_connack p : preserves still (_ ← handle_connack p; mret tt).
Proof.
  unfold handle_connack, begin_session. still. apply preserves_modify. intros s. split; cbn; auto. match goal with |- context [if ?b then _ else _] => destruct b end; auto.
Qed.
Lemma still_run_finally : preserves still run_finally.
Proof.
  unfold run_finally, _cancel_pending, inbound_clear, session_clear. still; apply preserves_modify; intros s; split; cbn; auto.
Qed.

(** *** The inbound flow *)

Lemma still_after_deliver k b : preserves still (after_deliver k b).
Proof. unfold after_deliver, _complete. still. Qed.
Lemma still_complete_ack p pid : preserves still (_complete p pid).
Proof. unfold _complete. still. Qed.
#[local] Hint Resolve still_after_deliver still_complete_ack : frame.

Lemma still_select_recipient p : preserves still (select_recipient p).
Proof. unfold select_recipient, _make_message, _select_subscription. still. Qed.
Lemma still_hold pid : preserves still (_hold_receive_quota pid).
Proof. unfold _hold_receive_quota. still. Qed.
#[local] Hint Resolve still_select_recipient still_hold : frame.
Lemma still_set_flight pid r :
  P r -> preserves still (modify_state (fun st => set_inflight_qos2_in (<[pid := mkInboundFlight pid r false]> (inflight_qos2_in st)) st)).
Proof.
  intros Hr. apply preserves_modify. intros s. split; cbn; auto. intros pid' fl [[<- <-]|[_ H]]%lookup_insert_Some; auto.
Qed.
Lemma still_accept_flight pid r :
  P r -> preserves still (_ ← modify_state (fun st => set_inflight_qos2_in
    (<[pid := mkInboundFlight pid r false]> (inflight_qos2_in st)) st); send_packet (PPubRec (ack_of pid))).
Proof. intros Hr. apply preserves_bind; [apply _|by apply still_set_flight|]. intros _. preserve. Qed.

(** *** The handlers and the other calls *)

Lemma still_puback p : preserves still (_handle_puback p).
Proof. unfold _handle_puback. still. Qed.
Lemma still_pubrec p : preserves still (_handle_pubrec p).
Proof. unfold _handle_pubrec. still. Qed.
Lemma still_pubcomp p : preserves still (_handle_pubcomp p).
Proof. unfold _handle_pubcomp. still. Qed.
Lemma still_suback p : preserves still (_handle_suback p).
Proof. unfold _handle_suback. still. Qed.
Lemma still_unsuback p : preserves still (_handle_unsuback p).
Proof. unfold _handle_unsuback. still. Qed.
Lemma still_pingresp : preserves still _handle_pingresp.
Proof. unfold _handle_pingresp. still. Qed.
Lemma still_detach fs : preserves still (detach fs).
Proof. unfold detach. still. Qed.
Lemma still_auth p : preserves still (send_auth p).
Proof. unfold send_auth. still. Qed.
Lemma still_disconnect : preserves still disconnect.
Proof. unfold disconnect. still. Qed.
Lemma still_restore_detached l : preserves still (restore_detached l).
Proof. unfold restore_detached. still. Qed.
Lemma still_bind : preserves still bind_router.
Proof. unfold bind_router. still. Qed.
Lemma still_rejecting e : preserves still (rejecting_oversized e).
Proof. unfold rejecting_oversized. destruct e; still. Qed.
#[local] Hint Resolve still_puback still_pubrec still_pubcomp still_suback still_unsuback still_pingresp still_detach
  still_auth still_disconnect still_restore_detached still_bind still_rejecting still_publish still_subscribe
  still_unsubscribe still_add_observer still_remove_observer still_ping still_message_ack still_run_finally : frame.

Lemma still_idle (f : Engine -> Engine) :
  (forall s, f s = s \/ exists r, f s = set_e_replay r s /\ (r = NoSessionReplay \/ r = PersistentReplayIdle)) ->
  preserves still (modify f).
Proof.
  intros Hf. apply preserves_modify. intros s. destruct (Hf s) as [->|(r & -> & Hr)]; [done|]. split; cbn; auto.
Qed.
(** ** What a delivery comes to *)

Lemma deliver_effect r cb s :
  match _deliver r cb s with
  | (Ok None, s') => still s s' /\ exists f e, ir_request r = None /\ ir_subscription r = Some (f, e) /\
      queue_full (queue_of s (se_queue e)) = true
  | (Ok (Some _), s') => still s s' \/ exists f e s1, ir_request r = None /\ ir_subscription r = Some (f, e) /\
      queue_full (queue_of s (se_queue e)) = false /\ still s s1 /\ s' = (put_nowait (se_queue e) (ir_message r) s1).2
  | (Err _, s') => still s s'
  end.
Proof.
  unfold _deliver. destruct (ir_request r) as [c|] eqn:Er.
  - unfold mbind, M_bind. pose proof (still_complete c s) as H. destruct (complete c s) as [[]s']; [by left|exact H].
  - destruct (ir_subscription r) as [[f e]|] eqn:Es; [|by left].
    unfold mbind at 1, M_bind at 1, is_detached. cbn [asks]. destruct (bool_decide (se_ref e ∈ e_detached s)) eqn:Ed; [by left|].
    assert (exists s1, (match cb with Some cb => if se_auto_ack e then mret tt else set_callback (ir_message r) cb | None => mret tt end) s = (Ok tt, s1) /\
      still s s1 /\ e_detached s1 = e_detached s /\ e_queues s1 = e_queues s) as (s1 & E1 & Hs1 & Hd1 & Hq1).
    { destruct cb as [cb|]; [destruct (se_auto_ack e)|]; eexists; (split; [reflexivity|]); split_and!; try done; by split; cbn; auto. }
    unfold mbind at 1, M_bind at 1. rewrite E1. unfold mbind at 1, M_bind at 1. cbn [asks].
    assert (queue_of s1 (se_queue e) = queue_of s (se_queue e)) as -> by (unfold queue_of; by rewrite Hq1).
    destruct (queue_full _) eqn:Ef; [split; [done|]; by exists f, e|].
    unfold mbind, M_bind, after_put, is_detached. cbn [put_nowait modify asks].
    change (e_detached (set_e_queues ?x s1)) with (e_detached s1). unfold mbind, M_bind. cbn [asks]. 
    change (e_detached (set_e_queues ?x s1)) with (e_detached s1). rewrite Hd1, Ed. right. by exists f, e, s1.
Qed.


(** What [deliver_then] comes to: nothing is put in a queue, or the message is, or the loop waits with it. *)
Lemma deliver_then_effect r cb k s :
  let s' := (deliver_then r cb k s).2 in
  still s s' \/
  exists f e s1, ir_request r = None /\ ir_subscription r = Some (f, e) /\ still s s1 /\
    ((queue_full (queue_of s (se_queue e)) = false /\ still (put_nowait (se_queue e) (ir_message r) s1).2 s') \/
     (queue_full (queue_of s (se_queue e)) = true /\ s' = set_e_putting (Some (r, k)) s1)).
Proof.
  cbn zeta. unfold deliver_then. unfold mbind, M_bind. pose proof (deliver_effect r cb s) as H.
  destruct (_deliver r cb s) as [[[b|]|x] s1]; [| |by left].
  - pose proof (still_after_deliver k b s1) as Ha. destruct H as [H|(f & e & s0 & H1 & H2 & H3 & H4 & ->)].
    + left. by transitivity s1.
    + right. exists f, e, s0. split_and!; try done. by left.
  - destruct H as [H (f & e & H1 & H2 & H3)]. right. exists f, e, s1. split_and!; try done. right. done.
Qed.

(** The recipient's queue has room, or there is no queue. *)
Definition room (r : InboundRecipient) (s : Engine) : Prop :=
  forall f e, ir_request r = None -> ir_subscription r = Some (f, e) -> queue_full (queue_of s (se_queue e)) = false.

(** [s'] is [s] with the message of [r] in its queue. *)
Definition put_in (r : InboundRecipient) (s s' : Engine) : Prop :=
  exists f e s1, ir_request r = None /\ ir_subscription r = Some (f, e) /\ still s s1 /\
    still (put_nowait (se_queue e) (ir_message r) s1).2 s'.

Definition may_put (r : InboundRecipient) (s s' : Engine) : Prop := still s s' \/ put_in r s s'.

Lemma room_still r s s' : still s s' -> room r s -> room r s'.
Proof. intros H Hr f e H1 H2. unfold queue_of. rewrite (sl_queues _ _ H). by apply (Hr f e). Qed.

Lemma put_in_still r s1 s2 s3 : still s1 s2 -> put_in r s2 s3 -> put_in r s1 s3.
Proof. intros H (f & e & s & H1 & H2 & H3 & H4). exists f, e, s. split_and!; [done..|by transitivity s2|done]. Qed.

Lemma deliver_then_room r cb k s :
  room r s -> may_put r s (deliver_then r cb k s).2.
Proof.
  intros Hr. destruct (deliver_then_effect r cb k s) as [H|(f & e & s1 & H1 & H2 & H3 & [[H4 H5]|[H4 _]])]; [by left|..].
  - right. by exists f, e, s1.
  - rewrite (Hr _ _ H1 H2) in H4. done.
Qed.

Lemma deliver_replay_effect p r s :
  (p_qos p = EXACTLY_ONCE -> P r) -> room r s -> may_put r s (deliver_replay p r s).2.
Proof.
  intros HP Hr. unfold deliver_replay. destruct (p_qos p) eqn:Hq; [by apply deliver_then_room|..].
  all: unfold _deliver_qos1_publish, _accept_qos2_publish, require_packet_id; destruct (p_packet_id p) as [pid|]; [|by left];
    unfold mbind at 1, M_bind at 1; cbn [mret M_ret].
  - destruct (auto_ack r); by apply deliver_then_room.
  - assert (exists d, detached_recipient r s = (Ok d, s)) as [d Hd]
      by (unfold detached_recipient, is_detached; destruct (ir_subscription r) as [[]|]; eexists; reflexivity).
    unfold mbind at 1, M_bind at 1. rewrite Hd. destruct d; [by left|].
    destruct (auto_ack r); [left; by apply still_accept_flight, HP|]. unfold mbind, M_bind. cbn [modify_state modify].
    match goal with |- context [deliver_then r _ _ ?s1] => assert (still s s1) as H1 by (split; auto);
      destruct (deliver_then_room r (Some (AckPubrec pid r)) AfterNothing s1) as [H2|H2]; [by eapply room_still|..] end.
    + left. etransitivity; [exact H1|exact H2].
    + right. by eapply put_in_still.
Qed.

(** ** Selecting the recipient *)

Lemma claim_spec m s : exists r s1, claim m s = (Ok r, s1) /\ e_state s1 = e_state s.
Proof.
  unfold claim. unfold mbind at 1, M_bind at 1. cbn [asks].
  destruct (e_dispatcher s) as [d|]; [|by eexists _, _]. destruct (msg_properties m) as [props|]; [|by eexists _, _].
  destruct (pp_correlation_data props) as [data|]; [|by eexists _, _]. destruct (d_pending d !! _) as [p|]; [|by eexists _, _].
  unfold is_done, mbind, M_bind. cbn [asks]. destruct (_ || _); by eexists _, _.
Qed.

(** The subscription of a topic and identifier. *)
Definition chosen (s : Engine) (t : pystr) (i : option Z) : option (pystr * SubscriptionEntry) :=
  match i with
  | None => recipient (select (subscriptions (e_state s)) t)
  | Some i => recipient (select_by_identifier (subscriptions (e_state s)) t i)
  end.

(** The recipient is a request, or the subscription of the topic and identifier. *)
Lemma select_recipient_spec p s :
  exists r s1, select_recipient p s = (Ok r, s1) /\ msg_content (ir_message r) = pub_content p /\
    match ir_request r with
    | Some _ => ir_subscription r = None
    | None => ir_subscription r = chosen s (p_topic p) (publish_identifier p)
    end.
Proof.
  unfold select_recipient, _make_message, mbind, M_bind. cbn [new_ref modify mret M_ret].
  match goal with |- context [claim ?m ?s0] => destruct (claim_spec m s0) as (c & s1 & -> & Hs) end.
  destruct c as [c|]; [by eexists _, _|]. unfold _select_subscription, ask_state, mbind, M_bind. cbn [asks]. rewrite Hs.
  change (e_state (set_e_messages _ _)) with (e_state s). unfold chosen. destruct (publish_identifier p); by eexists _, _.
Qed.

Lemma on_topic_nil t (l : list Publish) : zlen (on_topic t l) = 0 -> forall p, p ∈ l -> p_topic p <> t.
Proof.
  intros Hz p Hp E. unfold zlen in Hz. destruct (on_topic t l) as [|x l'] eqn:El; [|cbn in Hz; lia].
  assert (In p (on_topic t l)) as Hin; [|by rewrite El in Hin].
  apply filter_In. split; [by apply list_elem_of_In|by apply bool_decide_eq_true].
Qed.

(** A message that is delivered at once overtakes none of its topic in the buffer; one that is not joins the end of the
    buffer, or is there already. *)
Lemma accept_buffered_spec b p r s :
  counts b (rb_publishes b) ->
  match accept_buffered b p r s with
  | (Ok (Some r', next), s') => r' = r /\ s' = s /\ next = PersistentReplayBuffered b /\
      (ir_request r = None -> forall p', p' ∈ rb_publishes b -> p_topic p' <> p_topic p)
  | (Ok (None, next), s') => s' = s /\ exists b', next = PersistentReplayBuffered b' /\
      (rb_publishes b' = rb_publishes b \/ rb_publishes b' = rb_publishes b ++ [p])
  | (Err _, s') => still s s'
  end.
Proof.
  intros Hb. unfold accept_buffered. destruct (ir_request r) as [c|] eqn:Er; [by cbn; split_and!|]. cbn [is_Some_b].
  destruct (is_Some_b (ir_subscription r) && negb (is_Some_b (rb_topics b !! p_topic p))) eqn:Ht.
  { cbn. split_and!; [done..|]. intros _. apply on_topic_nil. rewrite <-(ct_topics _ _ Hb).
    apply andb_true_iff in Ht as [_ Ht]. unfold topic_count. by destruct (rb_topics b !! _). }
  destruct (has_packet_id _ _); [cbn; split; [done|]; exists b; auto|].
  unfold mbind at 1, M_bind at 1. cbn [asks]. match goal with |- context [if ?b then _ else _] => destruct b end.
  - unfold mbind, M_bind. pose proof (still_abort None s) as Ha. by destruct (abort None s) as [[]s'].
  - split; [done|]. eexists. split; [reflexivity|]. by right.
Qed.

Lemma accept_spec p r s :
  replay_ok s ->
  match accept (e_replay s) p r s with
  | (Ok (Some r', next), s') => r' = r /\ s' = s /\ next = e_replay s /\
      (ir_request r = None -> forall p', p' ∈ buffered s -> p_topic p' <> p_topic p)
  | (Ok (None, next), s') => still s s' /\ e_replay s' = e_replay s /\ exists b', next = PersistentReplayBuffered b' /\
      (rb_publishes b' = buffered s \/ rb_publishes b' = buffered s ++ [p])
  | (Err _, s') => still s s'
  end.
Proof.
  intros Hok. unfold replay_ok, buffered in *. destruct (e_replay s) as [| |b] eqn:E; cbn [accept].
  - cbn. split_and!; [done..|]. by intros _ p' ?%not_elem_of_nil.
  - destruct (_ || _) eqn:Ho; [cbn; split_and!; [done..|]; by intros _ p' ?%not_elem_of_nil|].
    apply orb_false_iff in Ho as [H1 H2]. unfold mbind, M_bind. cbn [new_ref]. unfold accept_buffered. rewrite H1, H2. cbn [andb].
    assert (has_packet_id (replay_buffer_new (e_next_ref s)) (p_packet_id p) = false) as ->.
    { unfold has_packet_id. cbn. destruct (p_packet_id p); [|done]. apply bool_decide_eq_false_2, not_elem_of_empty. }
    pose proof (still_new_ref s) as Hn. cbn [new_ref snd] in Hn. set (s1 := set_e_next_ref _ s) in *.
    unfold mbind at 1, M_bind at 1. cbn [asks]. destruct (_ && _).
    + unfold mbind, M_bind. pose proof (still_abort None s1) as Ha. destruct (abort None s1) as [[]s']; exact (transitivity Hn Ha).
    + cbn. split; [done|]. split; [done|]. eexists. split; [done|]. by right.
  - destruct Hok as [Hc _]. pose proof (accept_buffered_spec b p r s Hc) as H.
    destruct (accept_buffered b p r s) as [[[[r'|] next]|e] s']; [done| |done]. destruct H as [-> H]. split_and!; [reflexivity|done..].
Qed.
End unmoved.

#[export] Hint Extern 3 (preserves (unmoved _) (modify _)) => unmoved_leaf : frame.
#[export] Hint Extern 3 (preserves (unmoved _) (modify_state _)) => unmoved_leaf : frame.
#[export] Hint Extern 2 (preserves (unmoved _) (on_error _ _)) => apply still_on_error; still; fail : frame.
#[export] Hint Resolve still_new_ref still_send still_resolve still_close still_acquire still_observe still_unobserve still_await still_send_packet still_abort still_complete still_claim still_resumed still_forget_sub still_forget_unsub still_remove_filters still_build still_sub_finish still_unsub_finish still_send_subscribe still_send_unsubscribe still_restore still_after_deliver still_complete_ack still_select_recipient still_hold still_puback still_pubrec still_pubcomp still_suback still_unsuback still_pingresp still_detach still_auth still_disconnect still_restore_detached still_bind still_rejecting still_publish still_subscribe still_unsubscribe still_add_observer still_remove_observer still_ping still_message_ack still_run_finally : frame.

(** ** Failures *)

(** An exception in the middle of a delivery means that the connection is lost or closed. *)
Definition fails_shut {A} (m : M A) : Prop := forall s e, (m s).1 = Err e -> ~ open (m s).2.

Create HintDb shut discriminated.
Lemma shut_ret {A} (a : A) : fails_shut (mret a).
Proof. by intros s e. Qed.
Lemma shut_asks {A} (f : Engine -> A) : fails_shut (asks f).
Proof. by intros s e. Qed.
Lemma shut_modify f : fails_shut (modify f).
Proof. by intros s e. Qed.
Lemma shut_bind {A B} (m : M A) (f : A -> M B) : fails_shut m -> (forall a, fails_shut (f a)) -> fails_shut (x ← m; f x).
Proof.
  intros Hm Hf s e. specialize (Hm s). unfold mbind, M_bind.
  destruct (m s) as [[a|e'] s']; [apply Hf|]. intros [= <-]. by apply (Hm e').
Qed.
Lemma shut_send p : sendable p -> fails_shut (send_packet p).
Proof.
  intros Hp s e. destruct (Hp (e_version s)) as [d Hd]. unfold send_packet, _encode, _send, mbind, M_bind.
  cbn [asks lift]. rewrite Hd. destruct (e_lost s || e_closed s) eqn:E; [|done]. intros _. cbn. by rewrite E.
Qed.
#[export] Hint Resolve shut_ret shut_asks shut_modify shut_send sendable_puback sendable_pubrec : shut.

Ltac shut_step :=
  first
  [ solve [auto with shut]
  | lazymatch goal with
    | |- forall _, _ => intro
    | |- fails_shut (mbind _ _) => apply shut_bind
    | |- fails_shut (if ?b then _ else _) => destruct b
    | |- fails_shut (match ?x with _ => _ end) => destruct x
    end ].
Ltac walk_shut := repeat shut_step.

Lemma shut_complete r : fails_shut (complete r).
Proof.
  assert (forall f m, fails_shut (unless_done f (set_result f m))) as H.
  { intros f m s e. unfold unless_done, is_done, set_result, resolve, mbind, M_bind. cbn [asks].
    destruct (fut_done (fut_state s f)) eqn:E; [done|]. by rewrite E. }
  unfold complete. walk_shut.
Qed.
#[export] Hint Resolve shut_complete : shut.

Lemma shut_deliver_then r cb k : cont_ok k -> fails_shut (deliver_then r cb k).
Proof.
  intros Hk. unfold deliver_then, _deliver, after_put, is_detached, set_callback, put_nowait, drop_head.
  assert (forall b, fails_shut (after_deliver k b)) by (intros b; unfold after_deliver, _complete; destruct k; walk_shut).
  walk_shut.
Qed.

Lemma shut_require {A} p pid (f : Z -> M A) :
  p_packet_id p = Some pid -> fails_shut (f pid) -> fails_shut (x ← require_packet_id p; f x).
Proof. intros Hp Hf s e. unfold require_packet_id. rewrite Hp. apply Hf. Qed.

Lemma shut_deliver_replay p r : publish_ok p -> fails_shut (deliver_replay p r).
Proof.
  intros Hp. unfold deliver_replay. destruct (p_qos p) eqn:Hq; [by apply shut_deliver_then|..].
  all: destruct Hp as [|(pid & Hpid & Hw)]; [congruence|].
  all: unfold _deliver_qos1_publish, _accept_qos2_publish; apply (shut_require _ _ _ Hpid).
  - destruct (auto_ack r); by apply shut_deliver_then.
  - unfold detached_recipient, is_detached, modify_state. pose proof (shut_deliver_then r (Some (AckPubrec pid r)) AfterNothing I). walk_shut.
Qed.
(** Draining fails only on a connection that is lost or closed. *)
Lemma shut_pending_loop pending kept : (forall p, p ∈ pending -> publish_ok p) -> fails_shut (deliver_pending_loop pending kept).
Proof.
  revert kept; induction pending as [|p pending IH]; intros kept Hok; cbn [deliver_pending_loop]; [apply shut_modify|].
  apply shut_bind; [intros s e; by destruct (select_recipient_spec p s) as (r & s1 & -> & _)|]. intros r.
  apply shut_bind; [intros s e; by destruct (must_wait_total r s) as [w ->]|]. intros [|]; [apply IH; set_solver|].
  intros s e. pose proof (shut_deliver_replay p r (Hok p (list_elem_of_here _ _)) s) as H.
  destruct (deliver_replay p r s) as [[[]|e'] s1]; cbn [fst snd] in H.
  - assert (fails_shut (_ ← modify_buffer (_discard p); deliver_pending_loop pending kept)) as Hl; [|apply Hl].
    apply shut_bind; [apply shut_modify|]. intros _. apply IH. set_solver.
  - intros _ Ho. apply (H e' eq_refl). revert Ho. unfold mbind, M_bind, modify_buffer. cbn. by destruct (e_replay s1).
Qed.

Lemma deliver_pending_fails s e :
  (forall p, p ∈ buffered s -> publish_ok p) -> (_deliver_pending s).1 = Err e -> ~ open (_deliver_pending s).2.
Proof.
  unfold _deliver_pending, buffered, asks, mbind, M_bind. destruct (e_replay s) as [| |b]; [done..|]. intros Hok.
  apply (shut_pending_loop (rb_publishes b) [] Hok).
Qed.

Lemma drain_fails s e :
  (forall p, p ∈ buffered s -> publish_ok p) -> (drain_replay s).1 = Err e -> ~ open (drain_replay s).2.
Proof.
  intros Hok. pose proof (deliver_pending_fails s) as H. unfold drain_replay, mbind, M_bind.
  destruct (_deliver_pending s) as [[[]|e'] s1]; [done|]. intros [= ->]. by apply (H e).
Qed.
