(* ===== verification/Ordering.v ===== *)
(** * The order of messages

    QoS 0 and QoS 1 messages of one topic and subscription identifier reach an application's queue, and
    leave it, in the order in which the broker sent them: through the queue and the read loop
    that waits for room in it.
    (A QoS 2 message is delivered when its exchange ends, or when it arrives if it is acknowledged
    by hand.)

    Theorem [messages_in_order]: on a connection that resumes no session, for every interleaving, as long as it is not lost or
    closed, what has been taken from a queue, and then what is on its way to it, is what was on its way before and then what
    has arrived, with some left out and none overtaken.  [whole_drains_in_order] has the same of a resumed session, whose messages
    may wait in the replay buffer, as long as no write suspends during a drain; [Draining] shows
    that a drain suspended in a PUBACK lets one message overtake another. *)

From S2P Require Import Prelude Properties Packets Codec Topic SubscriptionIndex State Engine Inbound Protocol Ownership Calls Failures Receiving Delivery.

(** ** What is on its way to a queue *)

Section flow.
(** A queue, a topic, a subscription identifier. *)
Context (q : nat) (t : pystr) (i : option Z).

Definition in_flow (c : content) : bool :=
  let '(topic, _, qos, _, properties) := c in
  bool_decide (topic = t) && negb (bool_decide (qos = EXACTLY_ONCE)) &&
  bool_decide ((p ← properties; pp_subscription_identifier p) = i).

Definition of_flow (l : list content) : list content := List.filter in_flow l.

Definition queued (s : Engine) : list content := of_flow (msg_content <$> q_items (queue_of s q)).

(** The message with which the read loop waits. *)
Definition blocked (s : Engine) : list content :=
  match e_putting s with
  | Some (r, _) =>
    match ir_subscription r with
    | Some (_, entry) => if (se_queue entry =? q)%nat then of_flow [msg_content (ir_message r)] else []
    | None => []
    end
  | None => []
  end.

Definition pipe (l : list Publish) (s : Engine) : list content := queued s ++ blocked s ++ of_flow (pub_content <$> l).
Definition pipeline (s : Engine) : list content := pipe (buffered s) s.

(** What the application has taken from the queue. *)
Fixpoint taken (sys : System) (evs : list event) : list content :=
  match evs with
  | [] => []
  | ev :: evs' =>
    match ev with
    | EvTake q' => if (q' =? q)%nat then of_flow (msg_content <$> take 1 (q_items (queue_of (engine sys) q))) else []
    | _ => []
    end ++ taken (engine_step sys ev) evs'
  end.

(** The messages that have come. *)
Definition arrived (evs : list event) : list content :=
  of_flow (omap (fun ev => match ev with EvReceive (PPublish p) => Some (pub_content p) | _ => None end) evs).

Lemma of_flow_app l l' : of_flow (l ++ l') = of_flow l ++ of_flow l'.
Proof. apply List.filter_app. Qed.
End flow.

(** With the messages [l] in the buffer: the message that blocks the read loop has overtaken none of them; a QoS 2 exchange that will deliver
    at its end holds a QoS 2 message. *)
Record flow_ordered (l : list Publish) (s : Engine) : Prop := {
  oo_blocked : forall r k p, e_putting s = Some (r, k) -> msg_qos (ir_message r) <> EXACTLY_ONCE -> p ∈ l ->
    p_topic p <> msg_topic (ir_message r);
  oo_buffered : forall p, p ∈ l -> publish_ok p;
  oo_flights : forall pid fl, inflight_qos2_in (e_state s) !! pid = Some fl -> i2_delivered fl = false ->
    msg_qos (ir_message (i2_recipient fl)) = EXACTLY_ONCE
}.
Definition order_ok (s : Engine) : Prop := flow_ordered (buffered s) s.

(** A QoS 2 message. *)
Definition two_phase (r : InboundRecipient) : Prop := msg_qos (ir_message r) = EXACTLY_ONCE.
Abbreviation still := (unmoved two_phase).

(** ** What carries messages on *)

(** Nothing is overtaken; the messages [l] may have joined at the end. *)
Record carries (l : list content) (s s' : Engine) : Prop := {
  ca_open : open s' -> open s;
  ca_flow : open s' -> order_ok s ->
    order_ok s' /\ forall q t i, pipeline q t i s' `sublist_of` pipeline q t i s ++ of_flow t i l
}.

Lemma carries_weaken l s s' : carries [] s s' -> carries l s s'.
Proof.
  intros [H1 H2]. split; [done|]. intros Ho Hok. destruct (H2 Ho Hok) as [H3 H4]. split; [done|]. intros q t i.
  etransitivity; [apply H4|]. apply sublist_app; [done|]. apply sublist_nil_l.
Qed.

Lemma carries_trans_l l s1 s2 s3 : carries [] s1 s2 -> carries l s2 s3 -> carries l s1 s3.
Proof.
  intros [O1 F1] [O2 F2]. split; [auto|]. intros Ho Hok. destruct (F1 (O2 Ho) Hok) as [Hok2 P1], (F2 Ho Hok2) as [Hok3 P2].
  split; [done|]. intros q t i. etransitivity; [apply P2|]. apply sublist_app; [|done]. specialize (P1 q t i). by rewrite app_nil_r in P1.
Qed.

Lemma carries_trans_r l s1 s2 s3 : carries l s1 s2 -> carries [] s2 s3 -> carries l s1 s3.
Proof.
  intros [O1 F1] [O2 F2]. split; [auto|]. intros Ho Hok. destruct (F1 (O2 Ho) Hok) as [Hok2 P1], (F2 Ho Hok2) as [Hok3 P2].
  split; [done|]. intros q t i. etransitivity; [apply P2|]. by rewrite app_nil_r.
Qed.

#[export] Instance carries_preorder : PreOrder (carries []).
Proof.
  split; [|intros s1 s2 s3; apply carries_trans_l]. intros s. split; [done|]. intros _ Hok. split; [done|]. intros q t i. by rewrite app_nil_r.
Qed.

Lemma still_buffered s s' : still s s' -> buffered s' = buffered s \/ buffered s' = [].
Proof. intros H. unfold buffered. destruct (sl_replay _ _ H) as [->|[-> | ->]]; auto. Qed.

Lemma still_pipe q t i l s s' : still s s' -> pipe q t i l s' = pipe q t i l s.
Proof. intros [Hq Hp _ _ _]. unfold pipe, queued, blocked, queue_of. by rewrite Hq, Hp. Qed.

Lemma ordered_still l s s' : still s s' -> flow_ordered l s -> flow_ordered l s'.
Proof.
  intros [Hq Hp Hr Hf Ho] [H1 H2 H3]. split; [|done|].
  - intros r k p. rewrite Hp. apply H1.
  - intros pid fl Hl Hd. destruct (Hf _ _ Hl Hd); eauto.
Qed.

Lemma ordered_subset l l' s : (forall p, p ∈ l' -> p ∈ l) -> flow_ordered l s -> flow_ordered l' s.
Proof. intros Hl [H1 H2 H3]. split; eauto. Qed.

Lemma still_carries s s' : still s s' -> carries [] s s'.
Proof.
  intros H. split; [apply H|]. intros _ Hok. unfold order_ok, pipeline. destruct (still_buffered _ _ H) as [E|E]; rewrite E; split.
  - by eapply ordered_still.
  - intros q t i. by rewrite app_nil_r, (still_pipe _ _ _ _ _ _ H).
  - eapply ordered_still; [done|]. eapply ordered_subset; [|done]. by intros p ?%not_elem_of_nil.
  - intros q t i. rewrite app_nil_r, (still_pipe _ _ _ _ _ _ H). unfold pipe. apply sublist_app; [done|]. apply sublist_app; [done|]. apply sublist_nil_l.
Qed.

Lemma carries_of_still {A} (m : M A) : preserves still m -> preserves (carries []) m.
Proof. intros H s. apply still_carries, H. Qed.

(** *** Delivery *)

(** A message joins its queue, or waits for it: it comes last of what the queue gets of its flow. *)
Lemma put_pipe q t i l q0 m s :
  pipe q t i l (put_nowait q0 m s).2 =
    queued q t i s ++ (if (q0 =? q)%nat then of_flow t i [msg_content m] else []) ++ blocked q t i s ++ of_flow t i (pub_content <$> l).
Proof.
  unfold pipe, queued, blocked, queue_of. cbn [put_nowait modify snd set_e_queues e_queues e_putting].
  destruct (Nat.eqb_spec q0 q) as [->|Hne].
  - rewrite lookup_insert_eq. cbn [q_items]. rewrite fmap_app, of_flow_app, <-app_assoc. done.
  - by rewrite lookup_insert_ne.
Qed.

(** A flow whose topic the buffer has nothing of. *)
Lemma no_flow t i c (l : list Publish) :
  (forall p, p ∈ l -> p_topic p <> c.1.1.1.1) -> of_flow t i [c] = [] \/ of_flow t i (pub_content <$> l) = [].
Proof.
  intros Hl. destruct (in_flow t i c) eqn:E; [right|left; unfold of_flow; cbn; by rewrite E].
  destruct c as [[[[topic payload] qos] ret] props]. cbn in *. apply andb_true_iff in E as [[E _]%andb_true_iff _].
  apply bool_decide_eq_true in E as ->. unfold of_flow. induction l as [|p l IH]; [done|]. cbn.
  rewrite bool_decide_eq_false_2 by (apply Hl; by left). cbn. apply IH. intros p' Hp'. apply Hl. by right.
Qed.

Lemma flow_qos2 t i c : c.1.1.2 = EXACTLY_ONCE -> of_flow t i [c] = [].
Proof. destruct c as [[[[topic payload] qos] ret] props]. cbn. intros ->. unfold of_flow. cbn. by rewrite andb_false_r. Qed.

Lemma sublist_swap (a b c : list content) : b = [] \/ c = [] -> a ++ b ++ c `sublist_of` (a ++ c) ++ b.
Proof. intros [-> | ->]; by rewrite ?app_nil_r. Qed.

Lemma carries_deliver_then r cb k s :
  e_putting s = None ->
  (ir_request r = None -> msg_qos (ir_message r) <> EXACTLY_ONCE -> forall p, p ∈ buffered s -> p_topic p <> msg_topic (ir_message r)) ->
  carries [msg_content (ir_message r)] s (deliver_then r cb k s).2.
Proof.
  intros Hp Hb. destruct (deliver_then_effect (P := two_phase) r cb k s) as [H|(f & e & s1 & Hr & Hsub & Hs1 & H)]; [by apply carries_weaken, still_carries|].
  specialize (Hb Hr). eapply carries_trans_l; [by apply still_carries|].
  assert (e_putting s1 = None) as Hp1 by (by rewrite (sl_putting _ _ Hs1)).
  assert (msg_qos (ir_message r) <> EXACTLY_ONCE -> forall p, p ∈ buffered s1 -> p_topic p <> msg_topic (ir_message r)) as Hb1.
  { intros Hq p Hin. apply Hb; [done|]. unfold buffered in *. destruct (sl_replay _ _ Hs1) as [E|[E|E]]; rewrite E in Hin; [done|by apply not_elem_of_nil in Hin..]. }
  assert (forall t i, of_flow t i [msg_content (ir_message r)] = [] \/ of_flow t i (pub_content <$> buffered s1) = []) as Hflow.
  { intros t i. destruct (decide (msg_qos (ir_message r) = EXACTLY_ONCE)) as [E|Hne]; [left; by apply flow_qos2|].
    apply no_flow. by apply Hb1. }
  destruct H as [[_ Hput]|[_ ->]].
  - eapply carries_trans_r; [|by apply still_carries]. split; [done|]. intros _ [H1 H2 H3]. split; [by split|]. intros q t i.
    unfold pipeline. rewrite put_pipe. change (buffered (put_nowait _ _ s1).2) with (buffered s1). unfold pipe, blocked. rewrite Hp1. cbn [app]. destruct (se_queue e =? q)%nat; [by apply sublist_swap|].
    cbn [app]. apply sublist_inserts_r. done.
  - split; [done|]. intros _ [H1 H2 H3]. split; [split; [|done..]|].
    + intros r' k' p [= <- <-] Hq Hin. by apply Hb1.
    + intros q t i. unfold pipeline, pipe, blocked. cbn [set_e_putting e_putting]. rewrite Hsub, Hp1. cbn [app].
      change (queued q t i (set_e_putting (Some (r, k)) s1)) with (queued q t i s1). change (buffered (set_e_putting (Some (r, k)) s1)) with (buffered s1).
      destruct (se_queue e =? q)%nat; [by apply sublist_swap|]. cbn [app]. apply sublist_inserts_r. done.
Qed.

Lemma drop_queued q t i q0 s :
  queued q t i s = (if (q0 =? q)%nat then of_flow t i (msg_content <$> take 1 (q_items (queue_of s q))) else []) ++ queued q t i (drop_head q0 s).2.
Proof.
  unfold queued, queue_of. cbn [drop_head modify snd set_e_queues e_queues]. destruct (Nat.eqb_spec q0 q) as [->|Hne].
  - rewrite lookup_insert_eq. cbn [q_items]. unfold queue_of. destruct (e_queues s !! q) as [x|]; cbn; [|done]. by destruct (q_items x) as [|m l]; [|rewrite <-of_flow_app].
  - rewrite lookup_insert_ne by done. done.
Qed.

Lemma drop_pipeline q t i q0 s :
  pipeline q t i s = (if (q0 =? q)%nat then of_flow t i (msg_content <$> take 1 (q_items (queue_of s q))) else []) ++ pipeline q t i (drop_head q0 s).2.
Proof. unfold pipeline, pipe. rewrite (drop_queued q t i q0 s) at 1. by rewrite <-app_assoc. Qed.

Lemma carries_drop q0 : preserves (carries []) (drop_head q0).
Proof.
  intros s. split; [done|]. intros _ [H1 H2 H3]. split; [by split|]. intros q t i. rewrite app_nil_r, (drop_pipeline q t i q0 s). by apply sublist_inserts_l.
Qed.

Lemma carries_put_resume : preserves (carries []) put_resume.
Proof.
  intros s. unfold put_resume. unfold mbind at 1, M_bind at 1. cbn [asks]. destruct (e_putting s) as [[r k]|] eqn:Ep; [|done].
  destruct (ir_subscription r) as [[f e]|] eqn:Er; [|done].
  unfold mbind at 1, M_bind at 1. cbn [asks]. destruct (queue_full _); [done|].
  unfold mbind at 1, M_bind at 1. cbn [modify]. set (s0 := set_e_putting None s). unfold mbind at 1, M_bind at 1.
  change (put_nowait (se_queue e) (ir_message r) s0) with (Ok tt, (put_nowait (se_queue e) (ir_message r) s0).2). cbn beta iota.
  set (s1 := (put_nowait (se_queue e) (ir_message r) s0).2).
  assert (carries [] s s1) as H1.
  { split; [done|]. intros _ [H1 H2 H3]. split; [by split|]. intros q t i. subst s1. unfold pipeline. rewrite put_pipe, app_nil_r.
    unfold pipe, blocked. rewrite Ep, Er. done. }
  etransitivity; [exact H1|]. unfold mbind at 1, M_bind at 1, after_put, is_detached. unfold mbind at 1, M_bind at 1. cbn [asks].
  destruct (bool_decide _).
  - unfold mbind, M_bind. cbn [drop_head modify mret M_ret].
    etransitivity; [apply (carries_drop (se_queue e) s1)|]. apply still_carries, still_after_deliver.
  - apply still_carries, still_after_deliver.
Qed.

(** *** Arrival *)

(** The first half of the handlers of PUBLISH. *)
Lemma select_or_buffer_spec p s :
  receiving_ok s -> publish_ok p -> e_putting s = None ->
  match _select_recipient_or_buffer p s with
  | (Ok (Some r), s') => still s s' /\ msg_content (ir_message r) = pub_content p /\
      (ir_request r = None -> forall p', p' ∈ buffered s' -> p_topic p' <> msg_topic (ir_message r))
  | (_, s') => carries [pub_content p] s s'
  end.
Proof.
  intros Hok Hp Hput. unfold _select_recipient_or_buffer. unfold mbind at 1, M_bind at 1. cbn [asks].
  destruct (select_recipient_spec p s) as (r & s1 & E & Hc & _).
  pose proof (still_select_recipient (P := two_phase) p s) as Hs. pose proof (delivery_select_recipient p s) as Hd.
  unfold mbind at 1, M_bind at 1. rewrite E in *. cbn [snd] in *.
  destruct (steady_delivery _ _ Hd Hok) as [Hr1 _]. rewrite <-(df_replay _ _ Hd).
  pose proof (accept_spec (P := two_phase) p r s1 Hr1) as Ha. unfold mbind, M_bind.
  destruct (accept (e_replay s1) p r s1) as [[[[r'|] next]|e] s2].
  - destruct Ha as (-> & -> & -> & Ht). cbn [modify mret M_ret].
    assert (still s1 (set_e_replay (e_replay s1) s1)) as H1 by (split; cbn; auto).
    split; [by transitivity s1|]. split; [done|]. intros Hr p' Hin. injection Hc as Et _ _ _ _. rewrite Et. by apply Ht.
  - destruct Ha as (H2 & Hr2 & b' & -> & Hb). cbn [modify mret M_ret].
    eapply carries_trans_l; [apply still_carries; by transitivity s1|].
    assert (e_putting s2 = None) as Hput2 by (by rewrite (sl_putting _ _ H2), (sl_putting _ _ Hs)).
    assert (buffered s1 = buffered s2) as Hbuf. { unfold buffered. by rewrite Hr2. }
    rewrite Hbuf in Hb.
    split; [done|]. intros _ [O1 O2 O3]. unfold order_ok, pipeline. change (buffered (set_e_replay (PersistentReplayBuffered b') s2)) with (rb_publishes b').
    split.
    + split; [|..|done].
      * intros r' k p' Hr'. cbn in Hr'. by rewrite Hput2 in Hr'.
      * intros p' Hin. destruct Hb as [Hb|Hb]; rewrite Hb in Hin; [by apply O2|].
        apply elem_of_app in Hin as [Hin| ->%list_elem_of_singleton]; [by apply O2|done].
    + intros q t i. unfold pipe. change (queued q t i (set_e_replay _ s2)) with (queued q t i s2). change (blocked q t i (set_e_replay _ s2)) with (blocked q t i s2).
      destruct Hb as [-> | ->]; [by apply sublist_inserts_r|]. by rewrite fmap_app, of_flow_app, !app_assoc.
  - apply carries_weaken, still_carries. by transitivity s1.
Qed.

(** What is left of a handler once the recipient is known. *)
Definition joins (p : Publish) (f : InboundRecipient -> M unit) : Prop :=
  forall r s, e_putting s = None -> msg_content (ir_message r) = pub_content p ->
    (ir_request r = None -> forall p', p' ∈ buffered s -> p_topic p' <> msg_topic (ir_message r)) ->
    carries [pub_content p] s (f r s).2.

Lemma carries_select p f s :
  receiving_ok s -> publish_ok p -> e_putting s = None -> joins p f ->
  carries [pub_content p] s ((r ← _select_recipient_or_buffer p; match r with Some r => f r | None => mret tt end) s).2.
Proof.
  intros Hok Hp Hput Hf. pose proof (select_or_buffer_spec p s Hok Hp Hput) as H. unfold mbind, M_bind.
  destruct (_select_recipient_or_buffer p s) as [[[r|]|e] s1]; [|exact H..].
  destruct H as (H1 & H2 & H3). eapply carries_trans_l; [by apply still_carries|]. apply Hf; [|done..].
  by rewrite (sl_putting _ _ H1).
Qed.

Lemma joins_deliver p cb k : joins p (fun r => deliver_then r cb k).
Proof. intros r s H1 H2 H3. rewrite <-H2. apply carries_deliver_then; auto. Qed.

Lemma joins_qos1 p pid : p_packet_id p = Some pid -> joins p (_deliver_qos1_publish p).
Proof.
  intros Hp r s. unfold _deliver_qos1_publish, require_packet_id. rewrite Hp. unfold mbind, M_bind. cbn [mret M_ret].
  destruct (auto_ack r); apply joins_deliver.
Qed.

Lemma joins_qos2 p pid : p_packet_id p = Some pid -> p_qos p = EXACTLY_ONCE -> joins p (_accept_qos2_publish p).
Proof.
  intros Hp Hq r s H1 H2 H3. unfold _accept_qos2_publish, require_packet_id. rewrite Hp. unfold mbind at 1, M_bind at 1. cbn [mret M_ret].
  assert (msg_qos (ir_message r) = EXACTLY_ONCE) as Hm by (injection H2 as _ _ H2 _ _; congruence).
  assert (exists d, detached_recipient r s = (Ok d, s)) as [d Hd]
    by (unfold detached_recipient, is_detached; destruct (ir_subscription r) as [[]|]; eexists; reflexivity).
  unfold mbind at 1, M_bind at 1. rewrite Hd. destruct d; [by apply carries_weaken|].
  destruct (auto_ack r); [by apply carries_weaken, still_carries, still_accept_flight|].
  unfold mbind, M_bind. cbn [modify_state modify]. set (s1 := set_e_state _ s).
  eapply carries_trans_l; [apply (still_carries s s1); by split; auto|]. by apply joins_deliver.
Qed.

Lemma carries_handle_publish p s :
  receiving_ok s -> publish_ok p -> e_putting s = None -> carries [pub_content p] s (handle_publish p s).2.
Proof.
  intros Hok Hp Hput. unfold handle_publish. destruct (p_qos p) eqn:Hq.
  { apply carries_select; [done..|]. apply joins_deliver. }
  all: destruct Hp as [|(pid & Hpid & Hw)]; [congruence|].
  all: assert (publish_ok p) as Hp by (right; eauto).
  all: pose proof (still_hold (P := two_phase) pid s) as Hh; pose proof (steady_hold pid s Hok) as Hok1.
  all: unfold _handle_qos1_publish, _handle_qos2_publish, require_packet_id; rewrite Hpid; unfold mbind at 1, M_bind at 1; cbn [mret M_ret].
  all: unfold mbind at 1, M_bind at 1; destruct (_hold_receive_quota pid s) as [[[]|e] s1]; cbn [snd] in *;
    [|by apply carries_weaken, still_carries]; eapply carries_trans_l; [by apply still_carries|].
  all: pose proof (sl_putting _ _ Hh) as Hput1; rewrite Hput in Hput1.
  - unfold mbind at 1, M_bind at 1. cbn [asks]. destruct (contains_packet_id _ _); [by apply carries_weaken|].
    apply carries_select; [done..|]. by eapply joins_qos1.
  - do 2 (unfold mbind at 1, M_bind at 1; cbn [asks]). destruct (is_Some_b _); [apply carries_weaken, still_carries, still_send_packet|].
    destruct (bool_decide _); [by apply carries_weaken|]. destruct (contains_packet_id _ _); [by apply carries_weaken|].
    apply carries_select; [done..|]. by eapply joins_qos2.
Qed.

(** *** PUBREL *)

Lemma carries_given l s s' : (open s' -> open s) -> (order_ok s -> carries l s s') -> carries l s s'.
Proof. intros Ho H. split; [done|]. intros Ho' Hok. by apply H. Qed.

Lemma carries_nothing c s s' : msg_qos c = EXACTLY_ONCE -> carries [msg_content c] s s' -> carries [] s s'.
Proof.
  intros Hq [H1 H2]. split; [done|]. intros Ho Hok. destruct (H2 Ho Hok) as [H3 H4]. split; [done|]. intros q t i.
  specialize (H4 q t i). by rewrite flow_qos2 in H4.
Qed.

Lemma open_deliver_then r cb k s : open (deliver_then r cb k s).2 -> open s.
Proof.
  intros Ho. destruct (deliver_then_effect (P := two_phase) r cb k s) as [H|(f & e & s1 & _ & _ & H1 & [[_ H2]|[_ H2]])]; [by apply H|..].
  - by apply (sl_open _ _ H1), (sl_open _ _ H2).
  - rewrite H2 in Ho. by apply (sl_open _ _ H1).
Qed.

Lemma carries_handle_pubrel a s : e_putting s = None -> carries [] s (handle_pubrel a s).2.
Proof.
  intros Hput. unfold handle_pubrel. unfold mbind at 1, M_bind at 1, ask_state. cbn [asks].
  unfold mbind at 1, M_bind at 1. cbn [modify_state modify]. set (pid := a_packet_id a). set (s1 := set_e_state _ s).
  assert (still s s1) as H1.
  { split; cbn; auto. intros pid' fl [_ H]%lookup_delete_Some Hd. auto. }
  destruct (inflight_qos2_in (e_state s) !! pid) as [fl|] eqn:Ef.
  2: { apply still_carries. etransitivity; [exact H1|]. apply still_send_packet. }
  unfold mbind at 1, M_bind at 1. pose proof (still_complete_ack (P := two_phase) (PPubComp (ack_of pid)) pid s1) as H2.
  destruct (_complete _ pid s1) as [[[]|e] s2]; cbn [snd] in H2; [|apply still_carries; by transitivity s1].
  assert (still s s2) as H12 by (by transitivity s1). destruct (i2_delivered fl) eqn:Ed; [by apply still_carries|].
  apply carries_given; [intros Ho; by eapply (sl_open _ _ H12), open_deliver_then|].
  intros [_ _ O3]. eapply carries_trans_l; [by apply still_carries|]. specialize (O3 _ _ Ef Ed).
  eapply carries_nothing; [exact O3|]. apply carries_deliver_then; [by rewrite (sl_putting _ _ H12)|]. done.
Qed.

(** *** Draining *)

Lemma qos2_content p r : msg_content (ir_message r) = pub_content p -> p_qos p = EXACTLY_ONCE -> two_phase r.
Proof. intros Hc Hq. injection Hc as _ _ Hc _ _. unfold two_phase. congruence. Qed.


(** The messages of a flow cannot leave the buffer now. *)
Definition stuck (t : pystr) (i : option Z) (s : Engine) : Prop :=
  forall f e, chosen s t i = Some (f, e) -> queue_full (queue_of s (se_queue e)) = true.

Lemma full_put q q0 m s : queue_full (queue_of s q) = true -> queue_full (queue_of (put_nowait q0 m s).2 q) = true.
Proof.
  unfold put_nowait. cbn [modify snd]. unfold queue_of at 2. cbn [set_e_queues e_queues].
  destruct (decide (q0 = q)) as [->|]; [rewrite lookup_insert_eq|by rewrite lookup_insert_ne].
  unfold queue_full. cbn [q_maxsize q_items]. rewrite zlen_app. intros [H1 H2%Z.leb_le]%andb_true_iff. rewrite H1.
  apply Z.leb_le. change (zlen [m]) with 1. lia.
Qed.

Lemma stuck_step t i r s s' :
  may_put (P := two_phase) r s s' -> subscriptions (e_state s') = subscriptions (e_state s) -> stuck t i s -> stuck t i s'.
Proof.
  intros H Hs Hst f e. unfold chosen. rewrite Hs. intros Hc. specialize (Hst f e Hc). destruct H as [H|(f' & e' & s1 & _ & _ & H1 & H2)].
  - unfold queue_of. by rewrite (sl_queues _ _ H).
  - unfold queue_of. rewrite (sl_queues _ _ H2). apply full_put. unfold queue_of. by rewrite (sl_queues _ _ H1).
Qed.

Lemma in_flow_pub t i p :
  in_flow t i (pub_content p) = true -> p_topic p = t /\ p_qos p <> EXACTLY_ONCE /\ publish_identifier p = i.
Proof. cbn. intros [[H1%bool_decide_eq_true H2%negb_true_iff%bool_decide_eq_false]%andb_true_iff H3%bool_decide_eq_true]%andb_true_iff. done. Qed.

Lemma of_flow_cons t i c l : of_flow t i (c :: l) = (if in_flow t i c then [c] else []) ++ of_flow t i l.
Proof. unfold of_flow. cbn. by destruct (in_flow t i c). Qed.

Lemma blocked_other q t i l p s :
  flow_ordered l s -> p ∈ l -> in_flow t i (pub_content p) = true -> blocked q t i s = [].
Proof.
  intros [H1 _ _] Hp (Ht & _ & _)%in_flow_pub. unfold blocked. destruct (e_putting s) as [[r k]|]; [|done].
  destruct (ir_subscription r) as [[f e]|]; [|done]. destruct (se_queue e =? q)%nat; [|done].
  rewrite of_flow_cons. destruct (in_flow t i _) eqn:E; [|done]. unfold msg_content in E. cbn in E.
  apply andb_true_iff in E as [[E1%bool_decide_eq_true E2%negb_true_iff%bool_decide_eq_false]%andb_true_iff _].
  exfalso. apply (H1 r k p); congruence.
Qed.

(** A message leaves the buffer for its queue: none of its flow is kept before it, and none blocks the read loop. *)
Lemma delivered_pipe q t i p r s s' kept pending :
  may_put (P := two_phase) r s s' -> msg_content (ir_message r) = pub_content p ->
  (ir_request r = None -> ir_subscription r = chosen s (p_topic p) (publish_identifier p)) -> room r s ->
  flow_ordered (kept ++ p :: pending) s -> of_flow t i (pub_content <$> kept) = [] \/ stuck t i s ->
  pipe q t i (kept ++ pending) s' `sublist_of` pipe q t i (kept ++ p :: pending) s.
Proof.
  intros Hput Hc Hch Hroom Hok Hk.
  assert (pipe q t i (kept ++ pending) s `sublist_of` pipe q t i (kept ++ p :: pending) s) as Hless.
  { unfold pipe. rewrite !fmap_app, !of_flow_app, fmap_cons, of_flow_cons. do 3 (apply sublist_app; [done|]). by apply sublist_inserts_l. }
  destruct Hput as [H|(f & e & s1 & H1 & H2 & H3 & H4)]; [by rewrite (still_pipe _ _ _ _ _ _ H)|].
  rewrite (still_pipe _ _ _ _ _ _ H4), put_pipe, Hc.
  change (queued q t i s1 ++ ?x) with (queued q t i s1 ++ x).
  assert (queued q t i s1 = queued q t i s /\ blocked q t i s1 = blocked q t i s) as [-> ->]
    by (unfold queued, blocked, queue_of; by rewrite (sl_queues _ _ H3), (sl_putting _ _ H3)).
  destruct (se_queue e =? q)%nat; [|exact Hless]. rewrite of_flow_cons. destruct (in_flow t i (pub_content p)) eqn:Ef; [|exact Hless].
  assert (of_flow t i (pub_content <$> kept) = []) as Hk0.
  { destruct Hk as [Hk|Hk]; [done|]. apply in_flow_pub in Ef as (<- & _ & <-). rewrite H2 in Hch. specialize (Hk f e (eq_sym (Hch H1))).
    by rewrite (Hroom _ _ H1 H2) in Hk. }
  unfold pipe. rewrite (blocked_other q t i _ p s Hok) by (set_solver || done).
  rewrite !fmap_app, !of_flow_app, fmap_cons, of_flow_cons, Ef, Hk0. cbn. done.
Qed.

Lemma ordered_put l r s s' : may_put (P := two_phase) r s s' -> flow_ordered l s -> flow_ordered l s'.
Proof.
  intros [H|(f & e & s1 & _ & _ & H1 & H2)]; [by apply ordered_still|]. intros Hok.
  eapply ordered_still; [exact H2|]. destruct (ordered_still l _ _ H1 Hok) as [O1 O2 O3]. by split.
Qed.

Lemma open_put r s s' : may_put (P := two_phase) r s s' -> open s' -> open s.
Proof. intros [H|(f & e & s1 & _ & _ & H1 & H2)] Ho; [by apply H|]. by apply (sl_open _ _ H1), (sl_open _ _ H2). Qed.

Lemma wait_stuck t i p r s :
  match ir_request r with Some _ => ir_subscription r = None | None => ir_subscription r = chosen s (p_topic p) (publish_identifier p) end ->
  if (must_wait r s).1 is Ok true then in_flow t i (pub_content p) = true -> stuck t i s else room r s.
Proof.
  unfold must_wait. destruct (ir_request r) as [c|] eqn:Er; [intros ->; intros f e; congruence|].
  destruct (ir_subscription r) as [[f e]|] eqn:Es; cbn.
  - intros Hc. destruct (queue_full _) eqn:Hf; [|by intros f' e' _; rewrite Es; intros [= <- <-]].
    intros (<- & _ & <-)%in_flow_pub f' e'. rewrite <-Hc. by intros [= <- <-].
  - intros Hc (<- & _ & <-)%in_flow_pub f' e'. by rewrite <-Hc.
Qed.

Lemma of_flow_kept t i kept p s :
  of_flow t i (pub_content <$> kept) = [] \/ stuck t i s -> (in_flow t i (pub_content p) = true -> stuck t i s) ->
  of_flow t i (pub_content <$> kept ++ [p]) = [] \/ stuck t i s.
Proof.
  intros [H|H] Hp; [|by right]. rewrite fmap_app, of_flow_app, H. cbn [fmap list_fmap]. rewrite of_flow_cons.
  destruct (in_flow t i (pub_content p)); [right|left]; auto.
Qed.

Lemma pending_loop_flow pending kept s b s' :
  e_replay s = PersistentReplayBuffered b -> flow_ordered (kept ++ pending) s ->
  (deliver_pending_loop pending kept s).2 = s' -> open s' ->
  order_ok s' /\
  forall q t i, of_flow t i (pub_content <$> kept) = [] \/ stuck t i s -> pipeline q t i s' `sublist_of` pipe q t i (kept ++ pending) s.
Proof.
  revert kept s b; induction pending as [|p pending IH]; intros kept s b E Hok; cbn [deliver_pending_loop].
  { intros <- _. unfold modify_buffer. cbn. rewrite E. rewrite app_nil_r in *. split; [by destruct Hok|done]. }
  destruct (select_recipient_spec p s) as (r & s1 & E1 & Hc & Hr). unfold mbind at 1, M_bind at 1.
  pose proof (still_select_recipient (P := two_phase) p s) as H1. pose proof (df_replay _ _ (delivery_select_recipient p s)) as Hr1.
  pose proof (if_subscriptions _ _ (frame_select_recipient p s)) as Hs1. rewrite E1 in *. cbn [snd] in *.
  assert (forall t i, chosen s1 t i = chosen s t i) as Hch by (intros t i; unfold chosen; by rewrite Hs1).
  assert (forall t i, stuck t i s -> stuck t i s1) as Hst by (intros t i; by apply (stuck_step t i r), Hs1; left).
  rewrite <-Hch in Hr. assert (flow_ordered (kept ++ p :: pending) s1) as Hok1 by (by eapply ordered_still).
  unfold mbind at 1, M_bind at 1. destruct (must_wait_total r s1) as [w Ew]. rewrite Ew. destruct w.
  - intros He Ho. destruct (IH (kept ++ [p]) s1 b ltac:(congruence) ltac:(by rewrite <-app_assoc) He Ho) as [H2 H3].
    split; [done|]. intros q t i Hk. rewrite <-(still_pipe q t i _ _ _ H1). rewrite <-app_assoc in H3. apply H3, of_flow_kept; [naive_solver|].
    pose proof (wait_stuck t i p r s1 Hr) as Hw. by rewrite Ew in Hw.
  - assert (room r s1) as Hroom by (pose proof (wait_stuck (p_topic p) None p r s1 Hr) as Hw; by rewrite Ew in Hw).
    pose proof (deliver_replay_effect p r s1 (qos2_content p r Hc) Hroom) as H2. pose proof (df_replay _ _ (delivery_deliver_replay p r s1)) as Hr2.
    pose proof (if_subscriptions _ _ (frame_deliver_replay p r s1)) as Hs2.
    pose proof (shut_deliver_replay p r ltac:(apply (oo_buffered _ _ Hok1); set_solver) s1) as Hshut.
    destruct (deliver_replay p r s1) as [[[]|e] s2]; cbn [snd fst] in *.
    + unfold mbind at 1, M_bind at 1. cbn [modify_buffer modify]. rewrite Hr2, Hr1, E. intros He Ho.
      destruct (IH kept (set_e_replay (PersistentReplayBuffered (_discard p b)) s2) (_discard p b)) as [H3 H4]; [done| |exact He|exact Ho|].
      { assert (flow_ordered (kept ++ pending) s2) as []; [|by split]. eapply ordered_put; [exact H2|]. eapply ordered_subset; [|exact Hok1]. set_solver. }
      split; [done|]. intros q t i Hk. etransitivity; [apply H4|].
      * destruct Hk as [Hk|Hk]; [by left|right]. apply (stuck_step t i r s1 s2 H2 Hs2 (Hst _ _ Hk)).
      * rewrite <-(still_pipe q t i _ _ _ H1). apply (delivered_pipe q t i p r s1 s2); [exact H2|exact Hc| |exact Hroom|exact Hok1|naive_solver].
        intros H. by rewrite H in Hr.
    + intros <- Ho. exfalso. apply (Hshut e eq_refl). revert Ho. unfold mbind, M_bind, modify_buffer. cbn. by destruct (e_replay s2).
Qed.

Lemma open_drained pending kept s s' :
  (deliver_pending_loop pending kept s).2 = s' -> open s' -> open s.
Proof.
  assert (forall f s, open (modify_buffer f s).2 -> open s) as Hbuf
    by (intros f s0; unfold modify_buffer; cbn; by destruct (e_replay s0)).
  revert kept s; induction pending as [|p pending IH]; intros kept s; cbn [deliver_pending_loop]; [intros <-; apply Hbuf|].
  destruct (select_recipient_spec p s) as (r & s1 & E1 & Hc & Hr). pose proof (still_select_recipient (P := two_phase) p s) as H1.
  pose proof (if_subscriptions _ _ (frame_select_recipient p s)) as Hs1.
  unfold mbind at 1, M_bind at 1. rewrite E1 in *. cbn [snd] in *.
  assert (chosen s (p_topic p) (publish_identifier p) = chosen s1 (p_topic p) (publish_identifier p)) as Hch by (unfold chosen; by rewrite Hs1).
  rewrite Hch in Hr. unfold mbind at 1, M_bind at 1. destruct (must_wait_total r s1) as [w Ew]. rewrite Ew.
  intros He Ho. apply (sl_open _ _ H1). destruct w; [exact (IH _ _ He Ho)|].
  assert (room r s1) as Hroom by (pose proof (wait_stuck (p_topic p) None p r s1 Hr) as Hw; by rewrite Ew in Hw).
  apply (open_put _ _ _ (deliver_replay_effect p r s1 (qos2_content p r Hc) Hroom)).
  destruct (deliver_replay p r s1) as [[[]|e] s2]; cbn [snd] in *; unfold mbind, M_bind in He.
  - pose proof (Hbuf (_discard p) s2) as Hb. destruct (modify_buffer (_discard p) s2) as [[[]|e] s3] eqn:E3; [|done]. by eapply Hb, IH.
  - subst s'. exact (Hbuf (set_publishes (kept ++ p :: pending)) s2 Ho).
Qed.

Lemma carries_deliver_pending : preserves (carries []) _deliver_pending.
Proof.
  intros s. unfold _deliver_pending. unfold mbind at 1, M_bind at 1. cbn [asks].
  destruct (e_replay s) as [| |b] eqn:E; [done..|]. unfold mbind at 1, M_bind at 1. cbn [modify_buffer modify]. rewrite E.
  set (s1 := set_e_replay _ s). split; [intros Ho; by apply (open_drained (rb_publishes b) [] s1 _ eq_refl)|].
  intros Ho Hok. assert (buffered s = rb_publishes b) as Hb by (unfold buffered; by rewrite E).
  unfold order_ok in Hok. rewrite Hb in Hok.
  destruct (pending_loop_flow (rb_publishes b) [] s1 (set_publishes [] b) _ eq_refl ltac:(by destruct Hok) eq_refl Ho) as [H1 H2].
  split; [done|]. intros q t i. rewrite app_nil_r. unfold pipeline at 2. rewrite Hb. apply H2. by left.
Qed.

Lemma carries_drain : preserves (carries []) drain_replay.
Proof.
  unfold drain_replay. apply preserves_bind; [apply _|apply carries_deliver_pending|]. intros _. apply carries_of_still, still_idle.
  intros s. destruct (e_replay s); try (by left). case_match; [right; eauto|by left].
Qed.

Lemma carries_expire ref : preserves (carries []) (expire_after_timeout ref).
Proof.
  assert (preserves (carries []) (expire_replay ref)) as H.
  { unfold expire_replay. apply preserves_bind; [apply _|apply carries_of_still; preserve|]. intros replay.
    destruct replay as [| |b]; [apply carries_of_still; preserve..|]. case_if; [|apply carries_of_still; preserve].
    apply preserves_bind; [apply _|apply carries_deliver_pending|]. intros _. apply carries_of_still, still_idle.
    intros s. destruct (e_replay s); try (by left). right. eexists. split; [done|]. unfold expired. case_match; auto. }
  intros s. unfold expire_after_timeout. specialize (H s). destruct (expire_replay ref s) as [[|e] s']; [exact H|].
  eapply carries_trans_r; [exact H|]. apply still_carries. unfold suppress. apply still_abort.
Qed.

(** *** Every event *)

Definition joining (ev : event) : list content := match ev with EvReceive (PPublish p) => [pub_content p] | _ => [] end.

(** The broker's packets are those a decoder returns. *)
Definition decoded (ev : event) : Prop := match ev with EvReceive p => received_ok p | _ => True end.

Lemma carries_dispatch p s :
  receiving_ok s -> received_ok p -> e_putting s = None -> carries (joining (EvReceive p)) s (_dispatch p s).2.
Proof.
  intros Hok Hp Hput. destruct p; cbn [_dispatch joining received_ok] in *;
    try match goal with |- carries [] s (?m s).2 => assert (preserves still m) as Hm by preserve; apply still_carries, Hm end.
  - by apply carries_handle_publish.
  - by apply carries_handle_pubrel.
Qed.

Lemma carries_task_finish t thrown : preserves (carries []) (task_finish t thrown).
Proof.
  apply carries_of_still, still_task_finish.
Qed.

Lemma step_carries sys ev :
  receiving_ok (engine sys) -> decoded ev -> carries (joining ev) (engine sys) (engine (engine_step sys ev)).
Proof.
  intros Hok Hev. assert (forall n t thrown, carries [] (engine sys)
      (engine (let '(r, s) := task_finish t thrown (engine sys) in settle n r s sys))) as Hfin.
  { intros n t thrown. rewrite (proj1 (finish_2 n t thrown sys)). apply carries_task_finish. }
  assert (forall s, still (engine sys) s -> carries [] (engine sys) s) as Hq by (intros s H; by apply still_carries).
  destruct ev; cbn [engine_step run_unit with_engine engine decoded] in *;
    try (change (joining _) with (@nil content)); rewrite ?(proj1 (new_call_2 _ _)).
  all: try match goal with |- carries _ ?s (?m ?s).2 => assert (preserves still m) as Hm by preserve; apply Hq, Hm end.
  - case_match; [|by apply Hq]. rewrite (proj1 (run_reader_2 _ _)). apply Hq, still_connack.
  - destruct (reading sys && _) eqn:E; [|by apply carries_weaken]. rewrite (proj1 (run_reader_2 _ _)).
    apply carries_dispatch; [done..|]. apply andb_true_iff in E as [_ E]. by destruct (e_putting (engine sys)).
  - case_match; [|by apply Hq]. rewrite (proj1 (run_reader_2 _ _)). apply Hq, still_rejecting.
  - case_match; [|by apply Hq]. rewrite (proj1 (run_reader_2 _ _)). apply carries_put_resume.
  - apply carries_drop.
  - apply carries_drain.
  - apply carries_expire.
  - destruct (calls sys !! call); [|by apply Hq]. case_match; [apply Hfin|]. apply Hq. by split; auto.
  - destruct (calls sys !! call); [|by apply Hq]. case_match; [apply Hfin|by apply Hq].
  - destruct (calls sys !! call); [|by apply Hq]. case_match; [apply Hfin|by apply Hq].
  - apply Hq. split; cbn; auto. done.
  - case_match; [by apply Hq|]. apply Hq, still_run_finally.
Qed.

(** ** The theorem *)

Lemma arrived_cons t i ev evs : arrived t i (ev :: evs) = of_flow t i (joining ev) ++ arrived t i evs.
Proof.
  unfold arrived. rewrite <-of_flow_app. f_equal. destruct ev as [| | | | | | | | | |p| | | | | | | | | | | | | |]; try done. by destruct p.
Qed.

Lemma run_open evs sys :
  reachable sys -> Forall decoded evs -> open (engine (run_events sys evs)) -> open (engine sys).
Proof.
  revert sys; induction evs as [|ev evs IH]; intros sys Hr Hev Ho; [done|]. apply Forall_cons in Hev as [Hev Hevs].
  apply (ca_open _ _ _ (step_carries sys ev (reachable_receiving _ Hr) Hev)), IH; [by apply reachable_step|done..].
Qed.

(** What one event takes from the queue. *)
Definition takes (q : nat) (t : pystr) (i : option Z) (s : Engine) (ev : event) : list content :=
  match ev with
  | EvTake q' => if (q' =? q)%nat then of_flow t i (msg_content <$> take 1 (q_items (queue_of s q))) else []
  | _ => []
  end.

Lemma step_pipeline q t i ev sys :
  reachable sys -> decoded ev -> open (engine (engine_step sys ev)) -> order_ok (engine sys) ->
  takes q t i (engine sys) ev ++ pipeline q t i (engine (engine_step sys ev)) `sublist_of`
    pipeline q t i (engine sys) ++ of_flow t i (joining ev).
Proof.
  intros Hr Hev Ho Hok. destruct (ca_flow _ _ _ (step_carries sys ev (reachable_receiving _ Hr) Hev) Ho Hok) as [_ H].
  destruct ev; try apply H. rewrite app_nil_r, (drop_pipeline q t i queue (engine sys)). reflexivity.
Qed.

Lemma run_in_order evs sys q t i :
  reachable sys -> Forall decoded evs -> open (engine (run_events sys evs)) -> order_ok (engine sys) ->
  taken q t i sys evs ++ pipeline q t i (engine (run_events sys evs)) `sublist_of`
    pipeline q t i (engine sys) ++ arrived t i evs.
Proof.
  revert sys; induction evs as [|ev evs IH]; intros sys Hr Hev Ho Hok; [by rewrite app_nil_r|].
  apply Forall_cons in Hev as [Hev Hevs]. change (run_events sys (ev :: evs)) with (run_events (engine_step sys ev) evs) in *.
  assert (open (engine (engine_step sys ev))) as Ho1 by (eapply run_open; [by apply reachable_step|done..]).
  destruct (ca_flow _ _ _ (step_carries sys ev (reachable_receiving _ Hr) Hev) Ho1 Hok) as [Hok1 _].
  specialize (IH _ (reachable_step _ ev Hr) Hevs Ho Hok1). pose proof (step_pipeline q t i ev sys Hr Hev Ho1 Hok) as Hs.
  change (taken q t i sys (ev :: evs)) with (takes q t i (engine sys) ev ++ taken q t i (engine_step sys ev) evs).
  rewrite <-app_assoc, arrived_cons. etransitivity; [apply sublist_app; [reflexivity|exact IH]|].
  rewrite !(app_assoc _ _ (arrived t i evs)). by apply sublist_app.
Qed.

(** As long as no write suspends during a drain of the replay buffer, the same holds of what is in the buffer: the
    QoS 0 and QoS 1 messages of one topic and subscription identifier that the application has taken from a queue, then
    those still in the queue, then the one with which the read loop waits for room, then those in the replay
    buffer are, in this order, the messages that were in the queue and those that arrived, with some left out
    and none before an earlier one.  ([Draining.drain_overtakes]: not so when a drain is suspended in a PUBACK.) *)
Lemma whole_drains_in_order v prefixes keepalive limit size d queues next evs q t i :
  let sys := system_new (engine_new v prefixes keepalive limit size d queues next) in
  let s' := engine (run_events sys evs) in
  dispatcher_below d next -> Forall decoded evs -> e_lost s' || e_closed s' = false ->
  taken q t i sys evs ++ queued q t i s' ++ blocked q t i s' ++ of_flow t i (pub_content <$> buffered s') `sublist_of`
    queued q t i (engine sys) ++ arrived t i evs.
Proof.
  intros sys s' Hd Hev Ho.
  assert (pipeline q t i (engine sys) = queued q t i (engine sys)) as <- by (unfold pipeline, pipe; cbn; by rewrite app_nil_r).
  apply (run_in_order evs sys q t i); [by apply reachable_new|done..|]. split; cbn.
  - intros r k p [=].
  - by intros p ?%not_elem_of_nil.
  - intros pid fl Hl. by rewrite lookup_empty in Hl.
Qed.

(** ** A connection that resumes no session *)

(** Nothing is buffered. *)
Definition unbuffered (s s' : Engine) : Prop := e_replay s = NoSessionReplay -> e_replay s' = NoSessionReplay.

#[export] Instance unbuffered_preorder : PreOrder unbuffered.
Proof. split; unfold unbuffered; intros *; auto. Qed.

Lemma unbuffered_of_delivery {A} (m : M A) : preserves delivery_frame m -> preserves unbuffered m.
Proof. intros H s E. by rewrite (df_replay _ _ (H s)). Qed.
#[local] Hint Extern 2 (preserves unbuffered _) => apply unbuffered_of_delivery; solve [preserve] : frame.

Lemma unbuffered_quota pid : preserves unbuffered (_hold_receive_quota pid).
Proof.
  unfold _hold_receive_quota. apply preserves_bind; [apply _|apply preserves_modify; intros s E; exact E|]. intros _. preserve.
Qed.
Lemma unbuffered_select_or_buffer p : preserves unbuffered (_select_recipient_or_buffer p).
Proof.
  intros s E. unfold _select_recipient_or_buffer, mbind, M_bind. cbn [asks].
  pose proof (df_replay _ _ (delivery_select_recipient p s)) as Hr. destruct (select_recipient p s) as [[r|e] s1]; cbn [snd] in Hr.
  - rewrite E. reflexivity.
  - by rewrite <-E.
Qed.
#[local] Hint Resolve unbuffered_quota unbuffered_select_or_buffer : frame.

Lemma unbuffered_handle_publish p : preserves unbuffered (handle_publish p).
Proof. unfold handle_publish, _handle_qos1_publish, _handle_qos2_publish, require_packet_id. preserve. Qed.
#[local] Hint Resolve unbuffered_handle_publish : frame.
Lemma unbuffered_dispatch p : preserves unbuffered (_dispatch p).
Proof. unfold _dispatch, _handle_suback, _handle_unsuback, _handle_pingresp, set_result. destruct p; preserve. Qed.
Lemma unbuffered_run_finally : preserves unbuffered run_finally.
Proof. unfold run_finally, _cancel_pending. preserve. by intros s _. Qed.

(** Nothing is there to drain or to expire. *)
Lemma drain_unbuffered s : e_replay s = NoSessionReplay -> drain_replay s = (Ok tt, s).
Proof. intros E. unfold drain_replay, _deliver_pending, mbind, M_bind. cbn [asks]. rewrite E. cbn [mret M_ret]. unfold modify. by rewrite E. Qed.
Lemma expire_unbuffered ref s : e_replay s = NoSessionReplay -> expire_after_timeout ref s = (Ok tt, s).
Proof. intros E. unfold expire_after_timeout, expire_replay, mbind, M_bind. cbn [asks]. by rewrite E. Qed.

(** The CONNACK does not say that the broker has a session. *)
Definition clean (ev : event) : Prop :=
  match ev with EvConnAck (PConnAck p) => ca_session_present p = false | _ => True end.

Lemma unbuffered_connack p : ca_session_present p = false -> preserves unbuffered (handle_connack (PConnAck p)).
Proof.
  intros Hp. cbn [handle_connack]. rewrite Hp. unfold begin_session. preserve; apply preserves_modify; done.
Qed.

Lemma unbuffered_step sys ev : clean ev -> unbuffered (engine sys) (engine (engine_step sys ev)).
Proof.
  intros Hev. assert (forall n t thrown, unbuffered (engine sys)
    (engine (let '(r, s) := task_finish t thrown (engine sys) in settle n r s sys))) as Hfin.
  { intros n t thrown. rewrite (proj1 (finish_2 n t thrown sys)). apply unbuffered_of_delivery, delivery_task_finish. }
  destruct ev; cbn [engine_step run_unit with_engine engine clean] in *; rewrite ?(proj1 (new_call_2 _ _));
    try match goal with |- unbuffered ?s (?m ?s).2 => assert (preserves unbuffered m) as Hm by preserve; apply Hm end.
  - destruct (reading sys); [|by intros E]. rewrite (proj1 (run_reader_2 _ _)). apply preserves_bind; [apply _| |intros a; by intros s].
    destruct packet; try by apply unbuffered_connack. all: apply unbuffered_of_delivery; cbn [handle_connack]; preserve.
  - case_match; [|by intros E]. rewrite (proj1 (run_reader_2 _ _)). apply unbuffered_dispatch.
  - case_match; [|by intros E]. rewrite (proj1 (run_reader_2 _ _)). apply unbuffered_of_delivery. unfold rejecting_oversized. destruct e; preserve.
  - case_match; [|by intros E]. rewrite (proj1 (run_reader_2 _ _)). apply unbuffered_of_delivery, delivery_put_resume.
  - intros E. by rewrite drain_unbuffered.
  - intros E. by rewrite expire_unbuffered.
  - destruct (calls sys !! call); [|by intros E]. case_match; [apply Hfin|by intros E].
  - destruct (calls sys !! call); [|by intros E]. case_match; [apply Hfin|by intros E].
  - destruct (calls sys !! call); [|by intros E]. case_match; [apply Hfin|by intros E].
  - by intros E.
  - case_match; [by intros E|]. apply unbuffered_run_finally.
Qed.

Lemma run_unbuffered evs sys : Forall clean evs -> unbuffered (engine sys) (engine (run_events sys evs)).
Proof.
  revert sys; induction evs as [|ev evs IH]; intros sys Hev; [by intros E|]. apply Forall_cons in Hev as [Hev Hevs].
  change (run_events sys (ev :: evs)) with (run_events (engine_step sys ev) evs).
  transitivity (engine (engine_step sys ev)); [by apply unbuffered_step|by apply IH].
Qed.

(** C16: messages are not overtaken.  Take a new connection to a broker that resumes no session, and any interleaving of
    incoming packets, calls, acknowledgements and takes, after which it is neither lost nor closed.  No message is
    in a replay buffer, and the QoS 0 and QoS 1 messages of one topic and subscription identifier that the application has taken from a queue, then
    those still in the queue, then the one with which the read loop waits for room are, in this order, the messages that
    were in the queue and those that arrived, with some left out (they went to another queue, or to nobody)
    and none before an earlier one. *)
Theorem messages_in_order v prefixes keepalive limit size d queues next evs q t i :
  let sys := system_new (engine_new v prefixes keepalive limit size d queues next) in
  let s' := engine (run_events sys evs) in
  dispatcher_below d next -> Forall decoded evs -> Forall clean evs -> e_lost s' || e_closed s' = false ->
  e_replay s' = NoSessionReplay /\
  taken q t i sys evs ++ queued q t i s' ++ blocked q t i s' `sublist_of` queued q t i (engine sys) ++ arrived t i evs.
Proof.
  intros sys s' Hd Hev Hc Ho. assert (e_replay s' = NoSessionReplay) as E by (by apply (run_unbuffered evs sys Hc)). split; [done|].
  pose proof (whole_drains_in_order v prefixes keepalive limit size d queues next evs q t i Hd Hev Ho) as H. cbv zeta in H.
  fold sys s' in H. unfold buffered in H. rewrite E in H. by rewrite app_nil_r in H.
Qed.

(** The queue takes two; the read loop waits with the third message, and is released. *)
Definition ordering_events : list event :=
  let pub (pid : Z) (payload : bytes) := EvReceive (PPublish (mkPublish (py "a/b") payload AT_LEAST_ONCE false false (Some pid) None)) in
  [EvConnAck (PConnAck (mkConnAck false 0 None)); pub 1 [Byte.x01];
   EvSubscribe [observer_request (py "a/+")] 0 true None; pub 2 [Byte.x02];
   EvReceive (PSubAck (mkSubAck 1 [0] None)); EvResume 0; EvDrain; pub 3 [Byte.x03]; pub 4 [Byte.x04]; EvTake 0; EvPutResume; pub 5 [Byte.x05];
   EvTake 0].

Lemma messages_in_order_witness :
  let sys := system_new (engine_new V50 [] 60 None 1000 None {[ 0%nat := mkQueue 2 [] ]} 8) in
  let s' := engine (run_events sys ordering_events) in
  let payloads := fmap (fun c : content => c.1.1.1.2) in
  payloads (taken 0 (py "a/b") None sys ordering_events) = [[Byte.x02]; [Byte.x03]] /\
  payloads (queued 0 (py "a/b") None s') = [[Byte.x04]] /\ payloads (blocked 0 (py "a/b") None s') = [[Byte.x05]] /\
  taken 0 (py "a/b") None sys ordering_events `sublist_of` arrived (py "a/b") None ordering_events.
Proof.
  intros sys s' payloads. split; [vm_compute; reflexivity|]. split; [vm_compute; reflexivity|]. split; [vm_compute; reflexivity|].
  pose proof (messages_in_order V50 [] 60 None 1000 None {[ 0%nat := mkQueue 2 [] ]} 8 ordering_events 0 (py "a/b") None) as H.
  cbv zeta in H. fold sys in H. assert (queued 0 (py "a/b") None (engine sys) = []) as E by reflexivity. rewrite E in H.
  etransitivity; [|apply H].
  - apply sublist_inserts_r. done.
  - apply dispatcher_below_none.
  - unfold ordering_events. repeat apply Forall_cons_2; try exact I; [..|apply Forall_nil_2];
      (right; eexists; split; [reflexivity|vm_compute; split; discriminate]).
  - unfold ordering_events. repeat apply Forall_cons_2; try exact I; [reflexivity|apply Forall_nil_2].
  - vm_compute. reflexivity.
Defined.
