(* ===== verification/Draining.v ===== *)
(** * Draining the replay buffer, with writes that suspend ([_PersistentReplayBuffered] of [_internal/inbound.py])

    [_deliver_pending] awaits [deliver_replay] for each message, and the acknowledgement that ends it is a write,
    which may suspend ([StreamTransport.write] awaits [drain]).  Meanwhile anything else goes on: messages arrive and
    are buffered, the application takes messages, subscriptions come and go, the connection ends and the buffer is
    cleared; and the write may fail, or the call that drains may be cancelled.  The machine below has a drain that is
    suspended in a write; [_delivery_lock] is held as long, so that other drains and the expiry come later.

    Theorems: when every write ends at once, the machine does what [Inbound.drain_replay] does in one step; in every interleaving,
    failures and cancellations included, the counters, topics and identifiers of the buffer
    are those of the messages that are held, none of them twice, in the order in which they came.  Four executions show
    what a suspended write does: a message overtaken, a message delivered twice, one never acknowledged, and a drain that raises [KeyError]. *)

From S2P Require Import Prelude Properties Packets Codec Topic SubscriptionIndex State Engine Inbound Protocol Ownership Calls Failures Receiving Delivery Ordering.

(** ** The machine *)

(** A suspended drain, or expiry: the local variables of [_deliver_pending].  The acknowledgement of
    [dn_current] is being written. *)
Record Drain : Type := mkDrain {
  dn_expiry : bool;
  dn_unmatched : list Publish;
  dn_current : Publish;
  dn_pending : list Publish
}.

(** [dm_ends] records how drains and expiries have ended. *)
Record Machine : Type := mkMachine {
  dm_system : System;
  dm_drain : option Drain;
  dm_ends : list (res unit)
}.

(** The [finally] clause of [_deliver_pending], with the [unmatched] and [pending] messages [l]. *)
Definition give_back (l : list Publish) : M unit := modify_buffer (fun b => set_publishes (l ++ rb_publishes b) b).

(** The inner loop, up to the first message whose delivery writes, with the messages after it; or to its end. *)
Fixpoint deliver_pass (pending unmatched : list Publish) : M (list Publish * option (Publish * list Publish)) :=
  match pending with
  | [] => mret (unmatched, None)
  | publish :: pending' =>
    r ← select_recipient publish;
    wait ← must_wait r;
    if wait : bool then deliver_pass pending' (unmatched ++ [publish])
    else fun s =>
      match deliver_replay publish r s with
      | (Ok _, s') =>
        if (length (e_sent s) <? length (e_sent s'))%nat then (Ok (unmatched, Some (publish, pending')), s')
        else (_ ← modify_buffer (_discard publish); deliver_pass pending' unmatched) s'
      | (Err e, s') => (_ ← give_back (unmatched ++ publish :: pending'); throw e) s'
      end
  end.

(** The outer loop: once more for the messages that came while the drain was suspended.  (The second pass meets no new ones.) *)
Definition deliver_rest (pending unmatched : list Publish) : M (list Publish * option (Publish * list Publish)) :=
  '(unmatched, suspended) ← deliver_pass pending unmatched;
  match suspended with
  | Some _ => mret (unmatched, suspended)
  | None =>
    publishes ← asks buffered;
    _ ← modify_buffer (set_publishes []);
    deliver_pass publishes unmatched
  end.

(** The loop is over: the end of [drain] or [expire], and of their callers.  (While a drain is under way a buffered state is still its own.) *)
Definition end_drain (expiry : bool) (unmatched : list Publish) : M unit :=
  _ ← give_back unmatched;
  modify (fun s => match e_replay s with
                   | PersistentReplayBuffered b =>
                     if expiry then set_e_replay (expired b) s
                     else if drained b then set_e_replay PersistentReplayIdle s else s
                   | _ => s
                   end).

Definition drain_over (sys : System) (r : res unit) (m : Machine) : Machine := mkMachine sys None (dm_ends m ++ [r]).

(** The loop has raised; [_expire_after_timeout] suppresses that and aborts. *)
Definition drain_raises (expiry : bool) (e : exn) (sys : System) (m : Machine) : Machine :=
  if expiry then drain_over (if is_exception e then run_unit (suppress (abort None)) sys else sys) (Ok tt) m
  else drain_over sys (Err e) m.

(** Run a part of [_deliver_pending]. *)
Definition drain_part (expiry : bool) (part : M (list Publish * option (Publish * list Publish))) (m : Machine) : Machine :=
  let sys := dm_system m in
  match part (engine sys) with
  | (Ok (unmatched, Some (publish, pending)), s) => mkMachine (with_engine s sys) (Some (mkDrain expiry unmatched publish pending)) (dm_ends m)
  | (Ok (unmatched, None), s) => drain_over (with_engine (end_drain expiry unmatched s).2 sys) (Ok tt) m
  | (Err e, s) => drain_raises expiry e (with_engine s sys) m
  end.

Inductive drain_event : Type :=
| DDrain                 (** [InboundPublishFlow.drain], with the lock free *)
| DExpire (ref : nat)    (** [expire_replay], at the timeout of that buffer *)
| DWritten               (** the write has ended *)
| DFails (e : exn)       (** it raises, or the call that drains is cancelled *)
| DEngine (ev : event).  (** anything else *)

(** The drains are those above; a drain is under way only after the handshake. *)
Definition meanwhile (m : Machine) (ev : event) : bool :=
  match ev with
  | EvDrain | EvExpire _ => false
  | EvConnAck _ => negb (is_Some_b (dm_drain m))
  | _ => true
  end.

(** An event that is not possible changes nothing. *)
Definition drain_step (m : Machine) (ev : drain_event) : Machine :=
  let sys := dm_system m in
  match ev, dm_drain m with
  | DDrain, None => drain_part false (deliver_rest [] []) m
  | DExpire ref, None =>
    match e_replay (engine sys) with
    | PersistentReplayBuffered b => if (rb_ref b =? ref)%nat then drain_part true (deliver_rest [] []) m else m
    | _ => m
    end
  | DWritten, Some d =>
    match e_replay (engine sys) with
    | PersistentReplayBuffered b =>
      drain_part (dn_expiry d) (_ ← modify_buffer (_discard (dn_current d)); deliver_rest (dn_pending d) (dn_unmatched d)) m
    | _ => drain_raises (dn_expiry d) KeyError sys m   (* the buffer was cleared: [_discard] finds no topic *)
    end
  | DFails e, Some d =>
    drain_raises (dn_expiry d) e (run_unit (give_back (dn_unmatched d ++ dn_current d :: dn_pending d)) sys) m
  | DEngine ev, _ => if meanwhile m ev then mkMachine (engine_step sys ev) (dm_drain m) (dm_ends m) else m
  | _, _ => m
  end.

Definition drain_steps (m : Machine) (evs : list drain_event) : Machine := fold_left drain_step evs m.
Definition machine_new (sys : System) : Machine := mkMachine sys None [].

(** ** When no write suspends *)

Lemma set_replay_same s : set_e_replay (e_replay s) s = s.
Proof. by destruct s. Qed.

Lemma set_publishes_same b : set_publishes (rb_publishes b) b = b.
Proof. by destruct b. Qed.

Lemma modify_buffer_eq f b s : e_replay s = PersistentReplayBuffered b ->
  modify_buffer f s = (Ok tt, set_e_replay (PersistentReplayBuffered (f b)) s).
Proof. intros E. unfold modify_buffer, modify. by rewrite E. Qed.

(** A pass leaves alone the messages that came after those it is about, unless it raises. *)
Lemma pass_publishes pending unmatched s b :
  e_replay s = PersistentReplayBuffered b ->
  match deliver_pass pending unmatched s with
  | (Ok _, s') => exists b', e_replay s' = PersistentReplayBuffered b' /\ rb_publishes b' = rb_publishes b
  | (Err _, _) => True
  end.
Proof.
  revert unmatched s b; induction pending as [|p pending IH]; intros unmatched s b E; cbn [deliver_pass]; [by exists b|].
  destruct (select_recipient_total p s) as (r & s1 & E1). unfold mbind at 1, M_bind at 1. rewrite E1.
  pose proof (df_replay _ _ (delivery_select_recipient p s)) as Hr. rewrite E1 in Hr. cbn [snd] in Hr. rewrite E in Hr.
  destruct (must_wait_total r s1) as [w Ew]. unfold mbind at 1, M_bind at 1. rewrite Ew. destruct w; [by apply IH|].
  pose proof (df_replay _ _ (delivery_deliver_replay p r s1)) as Hr2. destruct (deliver_replay p r s1) as [[[]|e] s2]; cbn [snd] in Hr2.
  - rewrite Hr in Hr2. destruct (_ <? _)%nat; [by exists b|]. unfold mbind at 1, M_bind at 1. rewrite (modify_buffer_eq _ b s2 Hr2).
    by apply (IH unmatched (set_e_replay (PersistentReplayBuffered (_discard p b)) s2) (_discard p b)).
  - unfold mbind, M_bind. by destruct (give_back _ s2) as [[]].
Qed.

(** With no new messages there is no second pass. *)
Lemma rest_settled pending unmatched s b :
  e_replay s = PersistentReplayBuffered b -> rb_publishes b = [] -> deliver_rest pending unmatched s = deliver_pass pending unmatched s.
Proof.
  intros E Hb. unfold deliver_rest, mbind at 1, M_bind at 1. pose proof (pass_publishes pending unmatched s b E) as H.
  destruct (deliver_pass pending unmatched s) as [[[u [[p l]|]]|e] s']; [done| |done].
  destruct H as (b' & E' & Hb'). rewrite Hb in Hb'. unfold mbind, M_bind. cbn [asks]. unfold buffered. rewrite E'.
  rewrite (modify_buffer_eq _ b' s' E'), Hb'. replace (set_publishes [] b') with b' by (rewrite <-Hb'; by rewrite set_publishes_same).
  by rewrite <-E', set_replay_same.
Qed.

(** The end of the loop, as [Inbound.drain_replay] has it. *)
Definition drain_finish (r : res unit) (s : Engine) (sys : System) (m : Machine) : Machine :=
  match r with
  | Ok _ => drain_over (with_engine (modify (fun s => match e_replay s with
                   | PersistentReplayBuffered b => if drained b then set_e_replay PersistentReplayIdle s else s
                   | _ => s
                   end) s).2 sys) (Ok tt) m
  | Err e => drain_over (with_engine s sys) (Err e) m
  end.

Lemma written_idle n m : dm_drain m = None -> drain_steps m (repeat DWritten n) = m.
Proof. intros E. induction n as [|n IH]; [done|]. cbn [repeat drain_steps fold_left drain_step]. rewrite E. apply IH. Qed.

(** What a part does depends on what it finds in the engine. *)
Lemma drain_part_eq expiry part part' m m' :
  part (engine (dm_system m)) = part' (engine (dm_system m')) -> (forall s, with_engine s (dm_system m) = with_engine s (dm_system m')) ->
  dm_ends m = dm_ends m' -> drain_part expiry part m = drain_part expiry part' m'.
Proof.
  intros E Hs He. unfold drain_part. rewrite E. destruct (part' _) as [[[u [[p l]|]]|e] s]; rewrite Hs; [by rewrite He|..].
  - unfold drain_over. by rewrite He.
  - unfold drain_raises, drain_over. by rewrite He.
Qed.

(** The machine, from a pass to the end of its drain, and [Inbound.deliver_pending_loop]. *)
Lemma whole_pass pending unmatched sys s b m n :
  e_replay s = PersistentReplayBuffered b -> rb_publishes b = [] -> (length pending <= n)%nat ->
  drain_steps (drain_part false (fun _ => deliver_pass pending unmatched s) (mkMachine sys None m)) (repeat DWritten n) =
  let '(r, s') := deliver_pending_loop pending unmatched s in drain_finish r s' sys (mkMachine sys None m).
Proof.
  revert unmatched sys s b n; induction pending as [|p pending IH]; intros unmatched sys s b n E Hb Hn; cbn [deliver_pass deliver_pending_loop].
  - unfold drain_part. cbn [mret M_ret]. rewrite written_idle by done. rewrite (modify_buffer_eq _ b s E). unfold drain_finish, end_drain, give_back.
    unfold mbind, M_bind. rewrite (modify_buffer_eq _ b s E), Hb, app_nil_r. reflexivity.
  - destruct (select_recipient_total p s) as (r & s1 & E1). unfold mbind, M_bind. unfold mbind, M_bind. rewrite E1.
    pose proof (df_replay _ _ (delivery_select_recipient p s)) as Hr. rewrite E1 in Hr. cbn [snd] in Hr. rewrite E in Hr.
    destruct (must_wait_total r s1) as [w Ew]. rewrite Ew. destruct w; [apply (IH _ _ _ b); [done..|cbn in Hn; lia]|].
    pose proof (df_replay _ _ (delivery_deliver_replay p r s1)) as Hr2. destruct (deliver_replay p r s1) as [[[]|e] s2]; cbn [snd] in Hr2; rewrite Hr in Hr2.
    + rewrite (modify_buffer_eq _ b s2 Hr2). set (s3 := set_e_replay (PersistentReplayBuffered (_discard p b)) s2). destruct (_ <? _)%nat.
      * destruct n as [|n]; [cbn in Hn; lia|]. cbn [repeat drain_steps fold_left]. unfold drain_part at 1. cbn [dm_system dm_ends].
        cbn [drain_step dm_drain dm_system dn_expiry dn_current dn_pending dn_unmatched]. unfold with_engine at 1 2. cbn [engine]. rewrite Hr2.
        rewrite (drain_part_eq _ _ (fun _ => deliver_pass pending unmatched s3) _ (mkMachine sys None m)); [|..|done|done].
        { apply (IH _ _ s3 (_discard p b)); [done|done|cbn in Hn; lia]. }
        cbn [dm_system engine with_engine]. unfold mbind, M_bind. rewrite (modify_buffer_eq _ b s2 Hr2). by apply (rest_settled _ _ s3 (_discard p b)).
      * apply (IH _ _ s3 (_discard p b)); [done|done|cbn in Hn; lia].
    + unfold drain_part, give_back. rewrite (modify_buffer_eq _ b s2 Hr2), Hb, app_nil_r. cbn [throw]. rewrite written_idle by done.
      rewrite (modify_buffer_eq _ b s2 Hr2). reflexivity.
Qed.

(** A drain whose writes all end at once is [drain_replay]: the machine, after as many [DWritten] as there are messages,
    has its engine and its outcome. *)
Theorem whole_drain sys ends n :
  (length (buffered (engine sys)) <= n)%nat ->
  drain_steps (mkMachine sys None ends) (DDrain :: repeat DWritten n) =
  let '(r, s) := drain_replay (engine sys) in mkMachine (with_engine s sys) None (ends ++ [r]).
Proof.
  intros Hn. change (drain_steps ?m (DDrain :: ?l)) with (drain_steps (drain_step m DDrain) l). cbn [drain_step dm_drain]. unfold drain_replay, _deliver_pending. unfold mbind, M_bind. cbn [asks].
  destruct (e_replay (engine sys)) as [| |b] eqn:E.
  1,2: rewrite written_idle; unfold drain_part, deliver_rest, end_drain, give_back, buffered, modify_buffer, modify, mbind, M_bind; cbn; by repeat (rewrite E; cbn).
  unfold buffered in Hn. rewrite E in Hn. rewrite (modify_buffer_eq _ b _ E).
  set (s := set_e_replay (PersistentReplayBuffered (set_publishes [] b)) (engine sys)).
  rewrite (drain_part_eq _ _ (fun _ => deliver_pass (rb_publishes b) [] s) _ (mkMachine sys None ends)); [|..|done|done].
  - etransitivity; [by apply (whole_pass (rb_publishes b) [] sys s (set_publishes [] b))|].
    destruct (deliver_pending_loop (rb_publishes b) [] s) as [[[]|e] s']; reflexivity.
  - unfold deliver_rest, mbind, M_bind. cbn [deliver_pass mret M_ret asks dm_system]. unfold buffered. rewrite E. by rewrite (modify_buffer_eq _ b _ E).
Qed.

(** ** What is held *)

(** A buffer of at most the configured size that accounts for the messages [l]. *)
Definition accounts_for (b : ReplayBuffer) (l : list Publish) (s : Engine) : Prop :=
  counts b l /\ (0 < e_replay_buffer_size s -> rb_message_count b <= e_replay_buffer_size s).

(** The messages a drain holds, with those that came meanwhile. *)
Definition held_by (d : option Drain) (publishes : list Publish) : list Publish :=
  match d with
  | Some d => dn_unmatched d ++ dn_current d :: dn_pending d ++ publishes
  | None => publishes
  end.
Definition held (m : Machine) : list Publish :=
  match e_replay (engine (dm_system m)) with PersistentReplayBuffered b => held_by (dm_drain m) (rb_publishes b) | _ => [] end.

Definition drain_ok (m : Machine) : Prop :=
  match e_replay (engine (dm_system m)) with
  | PersistentReplayBuffered b => accounts_for b (held m) (engine (dm_system m))
  | NoSessionReplay => True
  | PersistentReplayIdle => dm_drain m = None
  end.

Lemma accounts_size b l s s' : e_replay_buffer_size s' = e_replay_buffer_size s -> accounts_for b l s -> accounts_for b l s'.
Proof. unfold accounts_for. by intros ->. Qed.

Lemma accounts_discard b l1 p l2 s : accounts_for b (l1 ++ p :: l2) s -> accounts_for (_discard p b) (l1 ++ l2) s.
Proof. intros [H1 H2]. split; [by apply counts_discard|]. cbn. intros Hp. specialize (H2 Hp). lia. Qed.

(** The list counted is the same up to where it is kept. *)
Lemma accounts_publishes b l k s : accounts_for b l s -> accounts_for (set_publishes k b) l s.
Proof. intros [[] H]. by split. Qed.

(** A pass over [pending] keeps the account, and the order. *)
Lemma pass_accounts pending unmatched s b :
  e_replay s = PersistentReplayBuffered b -> accounts_for b (unmatched ++ pending ++ rb_publishes b) s ->
  let '(r, s') := deliver_pass pending unmatched s in
  e_replay_buffer_size s' = e_replay_buffer_size s /\
  exists b', e_replay s' = PersistentReplayBuffered b' /\
    let l := match r with
             | Ok (u, Some (p, pending')) => u ++ p :: pending' ++ rb_publishes b'
             | Ok (u, None) => u ++ rb_publishes b'
             | Err _ => rb_publishes b'
             end in
    accounts_for b' l s' /\ l `sublist_of` unmatched ++ pending ++ rb_publishes b.
Proof.
  revert unmatched s b; induction pending as [|p pending IH]; intros unmatched s b E Ha; cbn [deliver_pass]; [by split; [|exists b]|].
  destruct (select_recipient_total p s) as (r & s1 & E1). unfold mbind at 1, M_bind at 1. rewrite E1.
  pose proof (delivery_select_recipient p s) as Hd1. rewrite E1 in Hd1. cbn [snd] in Hd1.
  pose proof (df_replay _ _ Hd1) as Hr1. pose proof (df_size _ _ Hd1) as Hs1. rewrite E in Hr1.
  destruct (must_wait_total r s1) as [w Ew]. unfold mbind at 1, M_bind at 1. rewrite Ew. destruct w.
  - specialize (IH (unmatched ++ [p]) s1 b Hr1). rewrite <-!app_assoc in IH. specialize (IH (accounts_size _ _ _ _ Hs1 Ha)).
    destruct (deliver_pass pending (unmatched ++ [p]) s1) as [r' s']. by rewrite <-Hs1.
  - pose proof (delivery_deliver_replay p r s1) as Hd2. pose proof (df_replay _ _ Hd2) as Hr2. pose proof (df_size _ _ Hd2) as Hs2.
    destruct (deliver_replay p r s1) as [[[]|e] s2]; cbn [snd] in Hr2, Hs2; rewrite Hr1 in Hr2; rewrite Hs1 in Hs2;
      pose proof (accounts_size _ _ _ _ Hs2 Ha) as Ha2.
    + destruct (_ <? _)%nat; [by split; [|exists b]|]. unfold mbind at 1, M_bind at 1. rewrite (modify_buffer_eq _ b s2 Hr2).
      set (s3 := set_e_replay (PersistentReplayBuffered (_discard p b)) s2).
      specialize (IH unmatched s3 (_discard p b) eq_refl (accounts_discard _ _ _ _ _ Ha2)).
      destruct (deliver_pass pending unmatched s3) as [r' s']. destruct IH as (Hs & b' & Hb' & Ha' & Hl). split; [by rewrite Hs|].
      exists b'. split; [done|]. split; [done|]. etransitivity; [exact Hl|]. apply sublist_app; [done|]. by apply sublist_cons.
    + unfold give_back, mbind, M_bind. rewrite (modify_buffer_eq _ b s2 Hr2). cbn [throw]. split; [done|]. eexists. split; [reflexivity|].
      cbn [rb_publishes set_publishes]. rewrite <-app_assoc. split; [|done]. by apply accounts_publishes.
Qed.

(** So does the rest of the loop. *)
Lemma rest_accounts pending unmatched s b :
  e_replay s = PersistentReplayBuffered b -> accounts_for b (unmatched ++ pending ++ rb_publishes b) s ->
  let '(r, s') := deliver_rest pending unmatched s in
  e_replay_buffer_size s' = e_replay_buffer_size s /\
  exists b', e_replay s' = PersistentReplayBuffered b' /\
    let l := match r with
             | Ok (u, Some (p, pending')) => u ++ p :: pending' ++ rb_publishes b'
             | Ok (u, None) => u ++ rb_publishes b'
             | Err _ => rb_publishes b'
             end in
    accounts_for b' l s' /\ l `sublist_of` unmatched ++ pending ++ rb_publishes b.
Proof.
  intros E Ha. pose proof (pass_accounts pending unmatched s b E Ha) as H. unfold deliver_rest, mbind at 1, M_bind at 1.
  destruct (deliver_pass pending unmatched s) as [[[u [[p l]|]]|e] s']; [exact H| |exact H]. destruct H as (Hs & b' & E' & Ha' & Hl).
  unfold mbind, M_bind. cbn [asks]. unfold buffered. rewrite E', (modify_buffer_eq _ b' s' E').
  set (s1 := set_e_replay (PersistentReplayBuffered (set_publishes [] b')) s').
  pose proof (pass_accounts (rb_publishes b') u s1 (set_publishes [] b') eq_refl) as H. cbn [rb_publishes set_publishes] in H. rewrite app_nil_r in H.
  specialize (H (accounts_publishes _ _ _ _ Ha')). destruct (deliver_pass (rb_publishes b') u s1) as [r s2].
  destruct H as (Hs2 & b2 & E2 & Ha2 & Hl2). split; [by rewrite Hs2|]. exists b2. split; [done|]. split; [done|]. by etransitivity.
Qed.

(** *** What else happens to the buffer *)

Definition same_replay (s s' : Engine) : Prop := e_replay s' = e_replay s /\ e_replay_buffer_size s' = e_replay_buffer_size s.
#[export] Instance same_replay_preorder : PreOrder same_replay.
Proof. split; [done|]. intros s1 s2 s3 [] []. split; congruence. Qed.

Lemma same_delivery s s' : delivery_frame s s' -> same_replay s s'.
Proof. intros []. by split. Qed.
Lemma same_of_delivery {A} (m : M A) : preserves delivery_frame m -> preserves same_replay m.
Proof. intros H s. apply same_delivery, H. Qed.
#[local] Hint Extern 2 (preserves same_replay _) => apply same_of_delivery; solve [preserve] : frame.

Lemma same_quota pid : preserves same_replay (_hold_receive_quota pid).
Proof. unfold _hold_receive_quota. apply preserves_bind; [apply _|by intros s|]. intros _. preserve. Qed.
#[local] Hint Resolve same_quota : frame.

(** Nothing, or it is gone, or the message [joined] has been buffered, perhaps in a new buffer. *)
Definition replay_step (joined : option Publish) (s s' : Engine) : Prop :=
  e_replay_buffer_size s' = e_replay_buffer_size s /\
  (e_replay s' = e_replay s \/ e_replay s' = NoSessionReplay \/
   exists b p, joined = Some p /\ e_replay s' = PersistentReplayBuffered (buffer_publish b p) /\
     (e_replay s = PersistentReplayBuffered b \/ e_replay s = PersistentReplayIdle /\ exists ref, b = replay_buffer_new ref) /\
     has_packet_id b (p_packet_id p) = false /\ (0 < e_replay_buffer_size s -> rb_message_count b + 1 <= e_replay_buffer_size s)).

Lemma replay_step_same j s s' : same_replay s s' -> replay_step j s s'.
Proof. intros [H1 H2]. split; [done|by left]. Qed.
Lemma replay_step_after j s s1 s2 : same_replay s s1 -> replay_step j s1 s2 -> replay_step j s s2.
Proof. intros [E1 E2] [H1 H2]. split; [congruence|]. by rewrite <-E1, <-E2. Qed.
Lemma replay_step_before j s s1 s2 : replay_step j s s1 -> same_replay s1 s2 -> replay_step j s s2.
Proof. intros [H1 H2] [E1 E2]. split; [congruence|]. by rewrite E1. Qed.

Lemma replay_bind {A B} j (m : M A) (f : A -> M B) s :
  replay_step j s (m s).2 -> (forall a, preserves same_replay (f a)) -> replay_step j s ((m ≫= f) s).2.
Proof.
  intros Hm Hf. unfold mbind, M_bind. destruct (m s) as [[a|e] s1]; [|exact Hm]. eapply replay_step_before; [exact Hm|apply Hf].
Qed.
Lemma replay_bind_same {A B} j (m : M A) (f : A -> M B) s :
  preserves same_replay m -> (forall a s1, replay_step j s1 (f a s1).2) -> replay_step j s ((m ≫= f) s).2.
Proof.
  intros Hm Hf. specialize (Hm s). unfold mbind, M_bind. destruct (m s) as [[a|e] s1]; [|by apply replay_step_same].
  eapply replay_step_after; [exact Hm|apply Hf].
Qed.

(** The message joins [b], or [b] stays: unless it is new, the message has a recipient or is in it already. *)
Definition takes_in (b : ReplayBuffer) (p : Publish) (r : InboundRecipient) (s : Engine) (next : ReplayState) : Prop :=
  next = PersistentReplayBuffered b /\ is_Some_b (ir_request r) || is_Some_b (ir_subscription r) || has_packet_id b (p_packet_id p) = true \/
  next = PersistentReplayBuffered (buffer_publish b p) /\ has_packet_id b (p_packet_id p) = false /\
    (0 < e_replay_buffer_size s -> rb_message_count b + 1 <= e_replay_buffer_size s).

Lemma accept_buffered_step b p r s :
  match accept_buffered b p r s with
  | (Ok (_, next), s') => s' = s /\ takes_in b p r s next
  | (Err _, s') => same_replay s s'
  end.
Proof.
  unfold accept_buffered, takes_in. destruct (is_Some_b (ir_request r)); [by split; [|left]|].
  destruct (is_Some_b (ir_subscription r)); cbn [orb andb].
  all: try (destruct (negb _); [by split; [|left]|]). all: destruct (has_packet_id b (p_packet_id p)); [by split; [|left]|].
  all: unfold mbind at 1, M_bind at 1; cbn [asks].
  all: destruct (negb (e_replay_buffer_size s =? 0) && (e_replay_buffer_size s <=? rb_message_count b)) eqn:Hfull.
  1, 3: unfold mbind, M_bind; pose proof (same_delivery _ _ (delivery_abort None s)) as Ha; by destruct (abort None s) as [[] s'].
  all: split; [done|right; split_and!; [done..|]]; intros Hpos;
    apply andb_false_iff in Hfull as [Hz%negb_false_iff%Z.eqb_eq|Hf%Z.leb_gt]; lia.
Qed.

Lemma accept_step p r s :
  match accept (e_replay s) p r s with
  | (Ok (_, next), s') => replay_step (Some p) s (set_e_replay next s')
  | (Err _, s') => replay_step (Some p) s s'
  end.
Proof.
  assert (forall s', same_replay s s' -> replay_step (Some p) s (set_e_replay (e_replay s) s')) as Hsame.
  { intros s' [_ H]. split; [exact H|by left]. }
  destruct (e_replay s) as [| |b] eqn:E; cbn [accept].
  - by apply Hsame.
  - destruct (_ || _) eqn:Ho; [by apply Hsame|]. unfold mbind, M_bind. cbn [new_ref]. set (s1 := set_e_next_ref _ s).
    assert (same_replay s s1) as H1 by done. pose proof (accept_buffered_step (replay_buffer_new (e_next_ref s)) p r s1) as H.
    destruct (accept_buffered _ p r s1) as [[[r' next]|e] s']; [|by apply replay_step_same; transitivity s1].
    destruct H as [-> [[_ H]|(-> & H2 & H3)]].
    + rewrite Ho in H. unfold has_packet_id in H. cbn in H. destruct (p_packet_id p); [|done]. by apply bool_decide_eq_true, not_elem_of_empty in H.
    + split; [done|]. right. right. eexists _, p. split_and!; [done..|right; eauto|done|done].
  - pose proof (accept_buffered_step b p r s) as H. destruct (accept_buffered b p r s) as [[[r' next]|e] s']; [|by apply replay_step_same].
    destruct H as [-> [[-> _]|(-> & H2 & H3)]]; [by apply Hsame|]. split; [done|]. right. right. eexists _, p. by split_and!; [..|left| |].
Qed.

Lemma buffer_step p s : replay_step (Some p) s (_select_recipient_or_buffer p s).2.
Proof.
  unfold _select_recipient_or_buffer. unfold mbind at 1, M_bind at 1. cbn [asks]. pose proof (same_delivery _ _ (delivery_select_recipient p s)) as H1.
  destruct (select_recipient_total p s) as (r & s1 & E1). unfold mbind at 1, M_bind at 1. rewrite E1 in *. cbn [snd] in H1.
  eapply replay_step_after; [exact H1|]. rewrite <-(proj1 H1). pose proof (accept_step p r s1) as H. unfold mbind, M_bind.
  by destruct (accept (e_replay s1) p r s1) as [[[r' next]|e] s2].
Qed.

(** Any other event. *)
Definition joined (ev : event) : option Publish := match ev with EvReceive (PPublish p) => Some p | _ => None end.

Lemma publish_step p s : replay_step (Some p) s (handle_publish p s).2.
Proof.
  assert (forall (k : option InboundRecipient -> M unit), (forall r, preserves delivery_frame (k r)) ->
    forall s, replay_step (Some p) s ((_select_recipient_or_buffer p ≫= k) s).2) as Hk.
  { intros k Hk s1. apply replay_bind; [apply buffer_step|]. intros a. by apply same_of_delivery. }
  unfold handle_publish, _handle_qos1_publish, _handle_qos2_publish, require_packet_id. destruct (p_qos p).
  - apply Hk. intros [r|]; preserve.
  - repeat (apply replay_bind_same; [preserve|intros ? ?]). case_match; [by apply replay_step_same|]. apply Hk. intros [r|]; preserve.
  - repeat (apply replay_bind_same; [preserve|intros ? ?]). case_match; [apply replay_step_same, (same_of_delivery (send_packet _)); preserve|].
    repeat (case_match; [by apply replay_step_same|]). apply Hk. intros [r|]; preserve.
Qed.

Lemma dispatch_step p s : replay_step (joined (EvReceive p)) s (_dispatch p s).2.
Proof.
  destruct p; cbn [_dispatch joined]; try apply publish_step; apply replay_step_same;
    match goal with |- same_replay s (?m s).2 => assert (preserves same_replay m) as H; [|apply H] end;
    unfold _handle_suback, _handle_unsuback, _handle_pingresp, set_result; preserve.
Qed.

Lemma finally_step s : replay_step None s (run_finally s).2.
Proof. split; [done|]. right. by left. Qed.

Lemma event_step m ev :
  meanwhile m ev = true -> (forall p, ev <> EvConnAck p) -> replay_step (joined ev) (engine (dm_system m)) (engine (engine_step (dm_system m) ev)).
Proof.
  set (sys := dm_system m). intros Hm Hc. assert (forall n t thrown, same_replay (engine sys)
    (engine (let '(r, s) := task_finish t thrown (engine sys) in settle n r s sys))) as Hfin.
  { intros n t thrown. rewrite (proj1 (finish_2 n t thrown sys)). apply same_of_delivery, delivery_task_finish. }
  assert (forall s j, same_replay (engine sys) s -> replay_step j (engine sys) s) as Hs by (intros s j; apply replay_step_same).
  destruct ev; try discriminate; try (by destruct (Hc packet)); cbn [engine_step run_unit with_engine engine] in *; rewrite ?(proj1 (new_call_2 _ _));
    try match goal with |- replay_step _ ?s (?m ?s).2 => assert (preserves same_replay m) as H by preserve; apply Hs, H end.
  - destruct (_ && _); [|by apply Hs]. rewrite (proj1 (run_reader_2 _ _)). apply (dispatch_step packet).
  - destruct (_ && _); [|by apply Hs]. rewrite (proj1 (run_reader_2 _ _)). apply Hs, same_of_delivery. unfold rejecting_oversized. destruct e; preserve.
  - destruct (reading sys); [|by apply Hs]. rewrite (proj1 (run_reader_2 _ _)). apply Hs, same_of_delivery, delivery_put_resume.
  - apply Hs. destruct (calls sys !! call); [|done]. case_match; [apply Hfin|done].
  - apply Hs. destruct (calls sys !! call); [|done]. case_match; [apply Hfin|done].
  - apply Hs. destruct (calls sys !! call); [|done]. case_match; [apply Hfin|done].
  - by apply Hs.
  - destruct (e_dead _); [by apply Hs|apply finally_step].
Qed.

Definition same_size (s s' : Engine) : Prop := e_replay_buffer_size s' = e_replay_buffer_size s.
#[local] Instance same_size_preorder : PreOrder same_size.
Proof. split; [done|]. unfold same_size. intros s1 s2 s3. congruence. Qed.

Lemma connack_size p s : e_replay_buffer_size ((_ ← handle_connack p; mret tt) s).2 = e_replay_buffer_size s.
Proof.
  assert (preserves same_size (_ ← handle_connack p; mret tt)) as H; [|apply H].
  unfold handle_connack, begin_session. preserve; by apply preserves_modify.
Qed.

(** *** Every interleaving *)

(** What comes with an event. *)
Definition came (ev : drain_event) : list Publish := match ev with DEngine ev => option_list (joined ev) | _ => [] end.

(** What a step keeps. *)
Definition accounted (l : list Publish) (m : Machine) : Prop := drain_ok m /\ held m `sublist_of` l.

Lemma held_by_snoc d l p : held_by d (l ++ [p]) = held_by d l ++ [p].
Proof. destruct d as [[]|]; cbn; [|done]. by rewrite <-app_assoc, <-app_comm_cons, <-app_assoc. Qed.

(** A machine whose buffer is as before, or gone, or which has a new state without messages. *)
Lemma accounted_same m m' l :
  drain_ok m -> dm_drain m' = dm_drain m -> e_replay_buffer_size (engine (dm_system m')) = e_replay_buffer_size (engine (dm_system m)) ->
  e_replay (engine (dm_system m')) = e_replay (engine (dm_system m)) \/ e_replay (engine (dm_system m')) = NoSessionReplay \/
    e_replay (engine (dm_system m')) = PersistentReplayIdle /\ dm_drain m = None ->
  accounted (held m ++ l) m'.
Proof.
  intros Hok Hd Hs He. unfold accounted, drain_ok, held in *. rewrite Hd. destruct He as [->|[->|[-> Hn]]].
  - split; [|by apply sublist_inserts_r]. destruct (e_replay (engine (dm_system m))); [done..|]. by eapply accounts_size.
  - split; [done|apply sublist_nil_l].
  - split; [done|apply sublist_nil_l].
Qed.

Lemma accounted_event m ev : drain_ok m -> accounted (held m ++ came (DEngine ev)) (drain_step m (DEngine ev)).
Proof.
  intros Hok. cbn [drain_step came]. destruct (meanwhile m ev) eqn:Hm; [|split; [by destruct (dm_drain m)|destruct (dm_drain m); by apply sublist_inserts_r]].
  replace (match dm_drain m with Some _ | _ => _ end) with (mkMachine (engine_step (dm_system m) ev) (dm_drain m) (dm_ends m)) by (by destruct (dm_drain m)).
  destruct (match ev with EvConnAck _ => true | _ => false end) eqn:Hc.
  - destruct ev; try discriminate. cbn in Hm. assert (dm_drain m = None) as Hn by (by destruct (dm_drain m)).
    pose proof (still_connack (P := two_phase) packet (engine (dm_system m))) as H. pose proof (connack_size packet (engine (dm_system m))) as Hs.
    apply accounted_same; [done|done|..]; cbn [dm_system engine_step]; (destruct (reading _); [rewrite (proj1 (run_reader_2 _ _))|auto]); [exact Hs|].
    destruct (sl_replay _ _ H) as [E|[E|E]]; rewrite E; auto.
  - assert (forall p, ev <> EvConnAck p) as Hev by (by intros p ->). destruct (event_step m ev Hm Hev) as [Hs [E|[E|(b & p & Hj & E & Hb & Hp & Hl)]]].
    + apply accounted_same; auto.
    + apply accounted_same; auto.
    + unfold accounted, drain_ok, held in *. cbn [dm_system dm_drain]. rewrite E, Hj. cbn [option_list rb_publishes buffer_publish].
      destruct Hb as [Hb|[Hb [ref ->]]]; rewrite Hb in Hok |- *.
      * rewrite held_by_snoc. split; [|done]. destruct Hok as [H1 H2]. split; [by apply counts_buffer|]. cbn. rewrite Hs. exact Hl.
      * rewrite Hok. cbn. split; [|done]. split; [by apply (counts_buffer _ [] p), Hp; apply counts_new|]. rewrite Hs. exact Hl.
Qed.

(** The end of the loop. *)
Lemma accounted_end expiry u s b l sys m :
  e_replay s = PersistentReplayBuffered b -> accounts_for b (u ++ rb_publishes b) s -> u ++ rb_publishes b `sublist_of` l ->
  accounted l (drain_over (with_engine (end_drain expiry u s).2 sys) (Ok tt) m).
Proof.
  intros E Ha Hl. unfold end_drain, give_back, mbind, M_bind. rewrite (modify_buffer_eq _ b s E). unfold accounted, drain_ok, held, drain_over. cbn.
  destruct expiry; [unfold expired; destruct (_ =? 0); (split; [done|apply sublist_nil_l])|].
  destruct (drained _); [split; [done|apply sublist_nil_l]|]. split; [by apply accounts_publishes|exact Hl].
Qed.

Lemma accounted_raises expiry e sys m l :
  (forall r, accounted l (drain_over sys r m)) -> accounted l (drain_raises expiry e sys m).
Proof.
  intros H. unfold drain_raises. destruct expiry; [|apply H]. destruct (is_exception e); [|apply H]. destruct (H (Ok tt)) as [H1 H2].
  pose proof (same_delivery _ _ (delivery_abort None (engine sys))) as [E1 E2]. unfold accounted, drain_ok, held, drain_over, run_unit, suppress, with_engine in *.
  cbn [dm_system dm_drain engine snd] in *. rewrite E1. split; [|exact H2]. destruct (e_replay (engine sys)); [done..|]. by eapply accounts_size.
Qed.

(** A part of the loop that starts with the messages [l]. *)
Lemma accounted_part expiry part m l :
  (let '(r, s') := part (engine (dm_system m)) in exists b', e_replay s' = PersistentReplayBuffered b' /\
    let l' := match r with
              | Ok (u, Some (p, pending')) => u ++ p :: pending' ++ rb_publishes b'
              | Ok (u, None) => u ++ rb_publishes b'
              | Err _ => rb_publishes b'
              end in
    accounts_for b' l' s' /\ l' `sublist_of` l) ->
  accounted l (drain_part expiry part m).
Proof.
  unfold drain_part. destruct (part _) as [[[u [[p pending]|]]|e] s']; intros (b' & E & Ha & Hl).
  - unfold accounted, drain_ok, held. cbn. rewrite E. by split.
  - by apply (accounted_end _ _ _ b').
  - apply accounted_raises. intros r. unfold accounted, drain_ok, held. cbn. rewrite E. by split.
Qed.

Lemma accounted_start expiry m : drain_ok m -> dm_drain m = None -> accounted (held m) (drain_part expiry (deliver_rest [] []) m).
Proof.
  intros Hok Hd. destruct (e_replay (engine (dm_system m))) as [| |b] eqn:E.
  3: { apply accounted_part. unfold drain_ok, held in *. rewrite E, Hd in *. pose proof (rest_accounts [] [] (engine (dm_system m)) b E Hok) as H.
       destruct (deliver_rest [] [] _) as [r s']. apply H. }
  all: assert (drain_part expiry (deliver_rest [] []) m = drain_over (with_engine (engine (dm_system m)) (dm_system m)) (Ok tt) m) as ->
    by (unfold drain_part, deliver_rest, end_drain, give_back, buffered, modify_buffer, modify, mbind, M_bind; cbn; by repeat (rewrite E; cbn)).
  all: unfold accounted, drain_ok, held; cbn; rewrite E; by split.
Qed.

Lemma accounted_step m ev : drain_ok m -> accounted (held m ++ came ev) (drain_step m ev).
Proof.
  intros Hok. assert (accounted (held m ++ []) m) as Hid by (by rewrite app_nil_r).
  destruct ev as [|ref| |e|ev]; [| | | |by apply accounted_event]; cbn [came]; cbn [drain_step].
  - destruct (dm_drain m) eqn:Ed; [done|]. rewrite app_nil_r. by apply accounted_start.
  - destruct (dm_drain m) eqn:Ed; [done|]. destruct (e_replay _); try done. case_match; [|done]. rewrite app_nil_r. by apply accounted_start.
  - destruct (dm_drain m) as [d|] eqn:Ed; [|done]. destruct (e_replay (engine (dm_system m))) as [| |b] eqn:E.
    1, 2: apply accounted_raises; intros r; unfold accounted, drain_ok, held; cbn; rewrite E; split; [done|apply sublist_nil_l].
    apply accounted_part. unfold drain_ok, held in *. rewrite E, Ed in *. cbn [held_by] in Hok |- *. rewrite app_nil_r.
    unfold mbind, M_bind. rewrite (modify_buffer_eq _ b _ E). set (s1 := set_e_replay _ _).
    pose proof (rest_accounts (dn_pending d) (dn_unmatched d) s1 (_discard (dn_current d) b) eq_refl (accounts_discard _ _ _ _ _ Hok)) as H.
    destruct (deliver_rest _ _ s1) as [r s']. destruct H as (_ & b' & Eb & Ha & Hl). exists b'. split; [done|]. split; [done|].
    etransitivity; [exact Hl|]. apply sublist_app; [done|]. by apply sublist_cons.
  - destruct (dm_drain m) as [d|] eqn:Ed; [|done]. apply accounted_raises. intros r. unfold accounted, drain_ok, held in *.
    unfold drain_over, run_unit, with_engine, give_back. cbn [dm_system dm_drain engine]. rewrite app_nil_r.
    destruct (e_replay (engine (dm_system m))) as [| |b] eqn:E; cbn [modify_buffer modify snd]; rewrite E.
    1, 2: cbn; rewrite E; by split.
    cbn. rewrite Ed in *. cbn [held_by] in *. split; [apply accounts_publishes|]; by rewrite <-app_assoc.
Qed.

(** The messages that have come. *)
Definition all_came (evs : list drain_event) : list Publish := concat (map came evs).

Lemma steps_accounted evs m : drain_ok m -> accounted (held m ++ all_came evs) (drain_steps m evs).
Proof.
  revert m; induction evs as [|ev evs IH]; intros m Hok; [by rewrite app_nil_r|]. destruct (accounted_step m ev Hok) as [H1 H2].
  destruct (IH _ H1) as [H3 H4]. split; [exact H3|]. etransitivity; [exact H4|]. unfold all_came. cbn [map concat]. rewrite app_assoc. by apply sublist_app.
Qed.

(** Whatever happens while drains are suspended: the buffer accounts for the messages that are held, the one being acknowledged
    and those that came meanwhile included; no two have the same packet identifier; they are in the order in which they came; and [_discard]
    finds the topic of the message it is about, unless the buffer has been cleared. *)
Theorem drain_accounts v prefixes keepalive limit size d queues next evs :
  let m := drain_steps (machine_new (system_new (engine_new v prefixes keepalive limit size d queues next))) evs in
  held m `sublist_of` all_came evs /\
  match e_replay (engine (dm_system m)) with
  | PersistentReplayBuffered b =>
    accounts_for b (held m) (engine (dm_system m)) /\ NoDup (buffered_ids (held m)) /\
    forall dr, dm_drain m = Some dr -> is_Some (rb_topics b !! p_topic (dn_current dr))
  | PersistentReplayIdle => dm_drain m = None
  | NoSessionReplay => True
  end.
Proof.
  intros m. destruct (steps_accounted evs (machine_new (system_new (engine_new v prefixes keepalive limit size d queues next))) I) as [Hok Hl].
  split; [exact Hl|]. unfold drain_ok in Hok. subst m. set (m := drain_steps _ _) in *. destruct (e_replay (engine (dm_system m))) as [| |b] eqn:E; [done..|].
  split; [done|]. destruct Hok as [Hc _]. split; [apply Hc|]. intros dr Hd. unfold held in Hc. rewrite E, Hd in Hc. cbn [held_by] in Hc.
  destruct (rb_topics b !! p_topic (dn_current dr)) eqn:Et; [done|]. pose proof (ct_topics _ _ Hc (p_topic (dn_current dr))) as H.
  unfold topic_count in H. rewrite Et, on_topic_app, zlen_app, on_topic_cons, decide_True in H by done. unfold zlen in H. lia.
Qed.

(** ** Executions *)

Definition replayed (topic : pystr) (payload : bytes) (qos : QoS) (pid : Z) : drain_event :=
  DEngine (EvReceive (PPublish (mkPublish topic payload qos false false (Some pid) None))).
Definition subscribed (n : nat) (filter : pystr) (queue : nat) : list drain_event :=
  DEngine <$> [EvSubscribe [observer_request filter] queue true None; EvReceive (PSubAck (mkSubAck 1 [2] None)); EvResume n].
Definition resumed_session : Machine :=
  drain_step (machine_new (system_new (engine_new V50 [] 60 None 1000 None {[ 0%nat := mkQueue 1 [] ]} 8))) (DEngine (EvConnAck (PConnAck (mkConnAck true 0 None)))).

(** A message overtaken.  Of three messages for a queue of one, and one for another queue, the first is delivered, the second finds the
    queue full; the PUBACK of that for the other queue suspends, the application takes the first message, and the third is delivered
    before the second. *)
Theorem drain_overtakes :
  let m := drain_steps resumed_session
    ([replayed (py "a") [Byte.x01] AT_LEAST_ONCE 1; replayed (py "a") [Byte.x02] AT_LEAST_ONCE 2; replayed (py "b") [] AT_LEAST_ONCE 3;
      replayed (py "a") [Byte.x03] AT_LEAST_ONCE 4] ++ subscribed 0 (py "a") 0 ++ subscribed 1 (py "b") 1 ++
     [DDrain; DWritten; DEngine (EvTake 0); DWritten; DWritten]) in
  dm_ends m = [Ok tt] /\ map msg_payload (q_items (queue_of (engine (dm_system m)) 0)) = [[Byte.x03]] /\
  map p_payload (buffered (engine (dm_system m))) = [[Byte.x02]].
Proof. vm_compute. split_and!; reflexivity. Qed.

(** A QoS 2 message delivered twice.  The call that drains is cancelled while PUBREC is being written, which leaves the message in the buffer; the
    exchange goes on, and the next drain begins another one. *)
Theorem cancelled_drain_delivers_twice :
  let pubrel := DEngine (EvReceive (PPubRel (mkAck 7 0 None))) in
  let m := drain_steps resumed_session
    ([replayed (py "a") [Byte.x01] EXACTLY_ONCE 7] ++ subscribed 0 (py "a") 1 ++
     [DDrain; DFails CancelledError; pubrel; DDrain; DWritten; pubrel]) in
  dm_ends m = [Err CancelledError; Ok tt] /\ failure (dm_system m) = None /\
  map msg_payload (q_items (queue_of (engine (dm_system m)) 1)) = [[Byte.x01]; [Byte.x01]].
Proof. vm_compute. split_and!; reflexivity. Qed.

(** A message never acknowledged.  While the PUBACK of a message is being written the broker uses its identifier for another message, which is
    taken for the one in the buffer. *)
Theorem reused_identifier_ignored :
  let m := drain_steps resumed_session
    ([replayed (py "a") [Byte.x01] AT_LEAST_ONCE 7] ++ subscribed 0 (py "a") 1 ++ [DDrain; replayed (py "a") [Byte.x02] AT_LEAST_ONCE 7; DWritten]) in
  dm_ends m = [Ok tt] /\ failure (dm_system m) = None /\ e_replay (engine (dm_system m)) = PersistentReplayIdle /\
  map msg_payload (q_items (queue_of (engine (dm_system m)) 1)) = [[Byte.x01]] /\ e_unacknowledged (engine (dm_system m)) = {[ 7 ]}.
Proof. vm_compute. split_and!; reflexivity. Qed.

(** A drain that raises [KeyError]: the connection ends, and the buffer is cleared, while a PUBACK is being written. *)
Theorem cleared_drain_raises :
  let m := drain_steps resumed_session
    ([replayed (py "a") [Byte.x01] AT_LEAST_ONCE 7] ++ subscribed 0 (py "a") 1 ++ [DDrain; DEngine EvRunEnds; DWritten]) in
  dm_ends m = [Err KeyError] /\ map msg_payload (q_items (queue_of (engine (dm_system m)) 1)) = [[Byte.x01]].
Proof. vm_compute. split_and!; reflexivity. Qed.
