(* ===== verification/Routing.v ===== *)
(** * Where messages go

    A message that is put in a queue is one the broker sent for a subscription of that queue: its topic matches a
    filter that was subscribed with the queue, or it carries the subscription identifier that was given
    with the queue.  (The engine trusts the broker's identifier and does not look at the filters of an identified
    subscription that does not match.)

    Theorem: for every interleaving, for each message in a queue and for the one with which the read loop waits. *)

From S2P Require Import Prelude Properties Packets Codec Topic SubscriptionIndex State Engine Inbound Protocol Ownership Calls Failures Receiving Delivery.

(** What a subscription asks for: the filter is the one that messages are matched with, without [$share] and
    stripped prefixes. *)
Record Grant : Type := mkGrant {
  g_queue : nat;
  g_filter : pystr;
  g_identifier : option Z
}.

Definition item_grant (it : item) : Grant := mkGrant (se_queue it.2) (item_filter it) (se_subscription_identifier it.2).

(** What an event subscribes; a filter that the client detached on an earlier connection counts with its old queue. *)
Definition granted (prefixes : list pystr) (ev : event) : list Grant :=
  match ev with
  | EvSubscribe requests q _ identifier =>
    map (fun r => let f := sr_topic_filter r in
      item_grant (f, mkSubscriptionEntry 0 q true (_shared_filter_to_actual f prefixes) identifier)) requests
  | EvRestoreDetached items => map item_grant items
  | _ => []
  end.

(** The filters are checked before they reach the engine ([MQTTClient.subscribe]). *)
Definition validated (ev : event) : Prop :=
  match ev with
  | EvSubscribe requests _ _ _ => Forall (fun r => validate_subscribe_topic (sr_topic_filter r) = Ok tt) requests
  | EvRestoreDetached items => Forall valid_item items
  | EvReceive p => received_ok p
  | _ => True
  end.

Definition msg_identifier (m : Message) : option Z := p ← msg_properties m; pp_subscription_identifier p.

Definition permits (topic : pystr) (identifier : option Z) (g : Grant) : Prop :=
  _topic_matches (g_filter g) topic = true \/ is_Some identifier /\ g_identifier g = identifier.

Lemma dict_set_elem {K V} `{EqDecision K} (d : dict K V) k v it : it ∈ dict_set d k v -> it = (k, v) \/ it ∈ d.
Proof.
  induction d as [|[k' v'] d IH]; cbn [dict_set]; [intros Hin%list_elem_of_singleton; by left|].
  case_decide as Hk; intros [->|Hin]%elem_of_cons; [left; congruence|right; by right|right; by left|]. destruct (IH Hin); [by left|right; by right].
Qed.

(** The subscriptions [G], and the messages that were in the queues at first. *)
Definition belongs (G : list Grant) (old : nat -> list Message) (q : nat) (m : Message) : Prop :=
  m ∈ old q \/ exists g, g ∈ G /\ g_queue g = q /\ permits (msg_topic m) (msg_identifier m) g.

Section routing.
(** Which entries may be registered, what a queue may hold, and which entries are detached. *)
Context (good : item -> Prop) (prefixes : list pystr) (may_hold : nat -> Message -> Prop) (dead : gset nat).
Context (good_holds : forall it m, good it -> permits (msg_topic m) (msg_identifier m) (item_grant it) ->
  se_ref it.2 ∈ dead \/ may_hold (se_queue it.2) m).
Context (dead_uniform : forall ref q m m', ref ∈ dead -> may_hold q m -> may_hold q m').

(** What an event registers is good. *)
Definition admitted (ev : event) : Prop :=
  match ev with
  | EvSubscribe requests q auto identifier => forall r ref, r ∈ requests ->
    let f := sr_topic_filter r in good (f, mkSubscriptionEntry ref q auto (_shared_filter_to_actual f prefixes) identifier)
  | EvRestoreDetached items => forall it, it ∈ items -> good it
  | _ => True
  end.

Definition addressed (r : InboundRecipient) : Prop :=
  forall f e, ir_subscription r = Some (f, e) -> se_ref e ∈ dead \/ may_hold (se_queue e) (ir_message r).

Definition index_good (idx : SubscriptionIndex) : Prop :=
  index_ok idx /\ forall it, it ∈ si_entries idx -> valid_item it /\ good it.

(** The messages of a state. *)
Record addressed_all (s : Engine) : Prop := {
  rt_queues : forall q m, m ∈ q_items (queue_of s q) -> may_hold q m;
  rt_putting : forall r k, e_putting s = Some (r, k) -> addressed r;
  rt_flights : forall pid fl, inflight_qos2_in (e_state s) !! pid = Some fl -> i2_delivered fl = false -> addressed (i2_recipient fl)
}.

Record routed (s : Engine) : Prop := {
  rt_prefixes : e_stripped_prefixes s = prefixes;
  rt_detached : dead ⊆ e_detached s;
  rt_index : index_good (subscriptions (e_state s));
  rt_messages : addressed_all s
}.

(** ** The recipient of a message *)

Lemma select_from_elem l it : recipient (_select_from l) = Some it -> it ∈ l.
Proof. pose proof (select_from_spec l) as H. destruct (_select_from l) as [[x|] b t]; cbn; [|done]. intros [= <-]. apply H. Qed.

Lemma selected_permits idx t it : index_good idx -> recipient (select idx t) = Some it -> good it /\ permits t None (item_grant it).
Proof.
  intros [Hok Hg] H. unfold select in H. rewrite match_refines in H; [|done|apply Forall_forall; intros x Hx; by apply Hg].
  apply select_from_elem, elem_of_sorted, elem_of_filter_b in H as [H1 H2]. split; [by apply Hg|by left].
Qed.

Lemma identified_permits idx t i it :
  index_good idx -> recipient (select_by_identifier idx t i) = Some it -> good it /\ permits t (Some i) (item_grant it).
Proof.
  intros Hi. unfold select_by_identifier. destruct (by_identifier idx i) as [|x l] eqn:E.
  { cbn [recipient]. intros [H1 [H2|[[? [=]] _]]]%selected_permits; [|done]. split; [done|by left]. }
  destruct Hi as [Hok Hg]. rewrite (ok_ids _ Hok) in E. intros H%select_from_elem.
  assert (it ∈ List.filter (has_identifier i) (si_entries idx)) as [H1 H2%bool_decide_eq_true]%elem_of_filter_b.
  { rewrite E. destruct (List.filter _ (x :: l)) eqn:Ef in H; [done|]. rewrite <-Ef in H. by apply elem_of_filter_b in H as [H _]. }
  split; [by apply Hg|]. right. split; [by eexists|done].
Qed.

Lemma chosen_addressed s p r :
  routed s -> msg_content (ir_message r) = pub_content p ->
  match ir_request r with Some _ => ir_subscription r = None | None => ir_subscription r = chosen s (p_topic p) (publish_identifier p) end ->
  addressed r.
Proof.
  intros Hs Hc Hr f e He. destruct (ir_request r); [congruence|]. rewrite He in Hr.
  assert (msg_topic (ir_message r) = p_topic p /\ msg_identifier (ir_message r) = publish_identifier p) as [E1 E2].
  { injection Hc as E1 _ _ _ E2. split; [done|]. unfold msg_identifier, publish_identifier. rewrite E2. by destruct (p_properties p). }
  symmetry in Hr. unfold chosen in Hr.
  destruct (publish_identifier p) as [i|]; [apply identified_permits in Hr as [H1 H2]|apply selected_permits in Hr as [H1 H2]];
    try apply Hs; apply (good_holds (f, e)); by rewrite ?E1, ?E2.
Qed.

(** ** What keeps the index *)

Definition keeps_index (s s' : Engine) : Prop :=
  e_stripped_prefixes s' = e_stripped_prefixes s /\ e_detached s ⊆ e_detached s' /\
  (index_good (subscriptions (e_state s)) -> index_good (subscriptions (e_state s'))).

#[local] Instance keeps_index_preorder : PreOrder keeps_index.
Proof using Type. split; [by intros s; split; [|split]|]. intros s1 s2 s3 (H1 & H2 & H3) (H4 & H5 & H6). split; [congruence|split; [by transitivity (e_detached s2)|by intros H%H3%H6]]. Qed.

Lemma index_good_subset idx idx' :
  index_ok idx' -> (forall it, it ∈ si_entries idx' -> it ∈ si_entries idx) -> index_good idx -> index_good idx'.
Proof. intros Hok H [_ Hg]. split; [done|auto]. Qed.

Lemma index_good_remove idx f : index_good idx -> index_good (remove idx f).2.
Proof.
  intros Hg. destruct (remove_ok idx f (proj1 Hg)) as (H1 & _ & H2 & _). eapply index_good_subset; [done| |done].
  rewrite H2. by intros it [H _]%elem_of_filter_b.
Qed.

Lemma index_good_add_many items idx :
  (forall it, it ∈ items -> valid_item it /\ good it) -> index_good idx -> index_good (add_many idx items).
Proof using Type.
  revert idx; unfold add_many. induction items as [|[f e] items IH]; intros idx Hi Hg; [done|]. cbn [fold_left fst snd].
  apply IH; [intros it Hit; apply Hi; by right|].
  destruct (add_ok idx f e (proj1 Hg)) as (H1 & H2 & _). split; [done|]. rewrite H2. intros it [[H _]%elem_of_filter_b|H]%elem_of_app; [by apply Hg|].
  apply Hi. apply list_elem_of_singleton in H as ->. by left.
Qed.

Ltac index_leaf := apply preserves_modify; intros ?; split; [|split]; cbn; solve [auto|set_solver].
#[local] Hint Extern 3 (preserves keeps_index (modify _)) => index_leaf : frame.
#[local] Hint Extern 3 (preserves keeps_index (modify_state _)) => index_leaf : frame.

Lemma index_new_ref : preserves keeps_index new_ref.
Proof. intros s. split; [|split]; cbn; auto. Qed.
Lemma index_send data : preserves keeps_index (_send data).
Proof. intros s. unfold _send. destruct (_ || _); (split; [|split]); cbn; auto. Qed.
Lemma index_resolve f st : preserves keeps_index (resolve f st).
Proof. intros s. unfold resolve. destruct (fut_done _); (split; [|split]); cbn; auto. Qed.
Lemma index_acquire : preserves keeps_index acquire_pid.
Proof. intros s. unfold acquire_pid. destruct (acquire _) as [[]|]; (split; [|split]); cbn; auto. Qed.
Lemma index_await f : preserves keeps_index (await_result f).
Proof. intros s. unfold await_result. destruct (fut_state s f); (split; [|split]); cbn; auto. Qed.
Lemma index_observe t : preserves keeps_index (observe t).
Proof.
  intros s. unfold observe, add_response_observer. case_decide; (split; [done|]; split; [done|]); cbn; [done|].
  intros Hg. eapply index_good_subset; [apply index_ok_observers, Hg| |exact Hg]. done.
Qed.
Lemma index_unobserve t : preserves keeps_index (unobserve t).
Proof.
  intros s. unfold unobserve, remove_response_observer. case_decide; (split; [done|]; split; [done|]); cbn; [|done].
  intros Hg. eapply index_good_subset; [apply index_ok_observers, Hg| |exact Hg]. done.
Qed.
Lemma index_on_error {A} (m : M A) fin : preserves keeps_index m -> preserves keeps_index fin -> preserves keeps_index (on_error m fin).
Proof.
  intros Hm Hf s. unfold on_error. specialize (Hm s). destruct (m s) as [[a|e] s']; [exact Hm|].
  specialize (Hf s'). destruct (fin s') as [[|] s'']; (etransitivity; [exact Hm|exact Hf]).
Qed.
#[local] Hint Resolve index_new_ref index_send index_resolve index_acquire index_await index_observe index_unobserve : frame.
Lemma index_remove_filters fs : preserves keeps_index (remove_filters fs).
Proof.
  induction fs as [|f fs IH]; cbn [remove_filters]; [preserve|]. apply preserves_bind; [apply _| |done].
  apply preserves_modify. intros s. split; [done|]. split; [done|]. apply index_good_remove.
Qed.
#[local] Hint Resolve index_remove_filters : frame.
#[local] Hint Extern 2 (preserves keeps_index (on_error _ _)) => apply index_on_error; unfold send_packet, _encode; preserve; fail : frame.

Lemma index_forget_sub pid : preserves keeps_index (forget_sub pid).
Proof. unfold forget_sub. still. Qed.
Lemma index_forget_unsub pid : preserves keeps_index (forget_unsub pid).
Proof. unfold forget_unsub. still. Qed.
Lemma index_resumed f thrown : preserves keeps_index (resumed f thrown).
Proof. still. Qed.
#[local] Hint Resolve index_forget_sub index_forget_unsub index_resumed : frame.
Lemma index_send_subscribe fs i : preserves keeps_index (send_subscribe_begin fs i).
Proof. unfold send_subscribe_begin. still. Qed.
Lemma index_send_unsubscribe fs : preserves keeps_index (send_unsubscribe_begin fs).
Proof. unfold send_unsubscribe_begin. still. Qed.
Lemma index_sub_finish fs pid f thrown : preserves keeps_index (send_subscribe_finish fs pid f thrown).
Proof. unfold send_subscribe_finish, as_suback. still. Qed.
Lemma index_unsub_finish pid f thrown : preserves keeps_index (send_unsubscribe_finish pid f thrown).
Proof. unfold send_unsubscribe_finish, as_unsuback. still. Qed.
#[local] Hint Resolve index_send_subscribe index_send_unsubscribe index_sub_finish index_unsub_finish : frame.
Lemma index_restore broker observed ack : preserves keeps_index (restore_begin broker observed ack).
Proof.
  unfold restore_begin. destruct observed as [|f fs]; [preserve|]. intros s.
  pose proof (index_send_subscribe (map observer_request (f :: fs)) None s) as H.
  by destruct (send_subscribe_begin _ _ s) as [[[pid g]|e] s'].
Qed.
#[local] Hint Resolve index_restore : frame.

(** The first halves of calls, other than [subscribe]. *)
Lemma index_publish p : preserves keeps_index (publish_begin p).
Proof. unfold publish_begin. still. Qed.
Lemma index_unsubscribe fs : preserves keeps_index (unsubscribe_begin fs).
Proof. unfold unsubscribe_begin. still. Qed.
Lemma index_add_observer t : preserves keeps_index (add_response_observer_begin t).
Proof. unfold add_response_observer_begin. still. Qed.
Lemma index_remove_observer t : preserves keeps_index (remove_response_observer_begin t).
Proof. unfold remove_response_observer_begin. still. Qed.
Lemma index_ping : preserves keeps_index ping_begin.
Proof. unfold ping_begin. still. Qed.
Lemma index_detach fs : preserves keeps_index (detach fs).
Proof.
  unfold detach. apply preserves_bind; [apply _|still|]. intros idx. apply preserves_modify. intros s. split; [done|split; [|done]].
  cbn. generalize (e_detached s) as d. induction fs as [|f fs IH]; intros d; cbn [fold_left]; [done|]. etransitivity; [|apply IH]. case_match; set_solver.
Qed.
Lemma index_auth p : preserves keeps_index (send_auth p).
Proof. unfold send_auth. still. Qed.
Lemma index_disconnect : preserves keeps_index disconnect.
Proof. unfold disconnect, transport_close. still. Qed.
Lemma index_bind : preserves keeps_index bind_router.
Proof. unfold bind_router. still. Qed.
Lemma index_rejecting e : preserves keeps_index (rejecting_oversized e).
Proof. unfold rejecting_oversized, transport_close. destruct e; still. Qed.
Lemma index_connack p : preserves keeps_index (_ ← handle_connack p; mret tt).
Proof. unfold handle_connack, begin_session. still. Qed.
Lemma index_message_ack m : preserves keeps_index (message_ack m).
Proof. unfold message_ack, run_callback, _complete. still. Qed.
Lemma index_run_finally : preserves keeps_index run_finally.
Proof. unfold run_finally, _cancel_pending, inbound_clear. still. Qed.

(** The inbound flow. *)
Lemma index_select_recipient p : preserves keeps_index (select_recipient p).
Proof. unfold select_recipient, _make_message, _select_subscription. still. Qed.
Lemma index_hold pid : preserves keeps_index (_hold_receive_quota pid).
Proof. unfold _hold_receive_quota, transport_close. still. Qed.
Lemma index_after_deliver k b : preserves keeps_index (after_deliver k b).
Proof. unfold after_deliver, _complete. still. Qed.
Lemma index_puback p : preserves keeps_index (_handle_puback p).
Proof. unfold _handle_puback. still. Qed.
Lemma index_pubrec p : preserves keeps_index (_handle_pubrec p).
Proof. unfold _handle_pubrec. still. Qed.
Lemma index_pubcomp p : preserves keeps_index (_handle_pubcomp p).
Proof. unfold _handle_pubcomp. still. Qed.
Lemma index_suback p : preserves keeps_index (_handle_suback p).
Proof. unfold _handle_suback. still. Qed.
Lemma index_unsuback p : preserves keeps_index (_handle_unsuback p).
Proof. unfold _handle_unsuback. still. Qed.
Lemma index_pingresp : preserves keeps_index _handle_pingresp.
Proof. unfold _handle_pingresp. still. Qed.
#[local] Hint Resolve index_publish index_unsubscribe index_add_observer index_remove_observer index_ping index_detach index_auth
  index_disconnect index_bind index_rejecting index_connack index_message_ack index_run_finally index_select_recipient index_hold
  index_after_deliver index_puback index_pubrec index_pubcomp index_suback index_unsuback index_pingresp : frame.

(** ** The invariant *)

Definition routing (s s' : Engine) : Prop := routed s -> routed s'.

#[local] Instance routing_preorder : PreOrder routing.
Proof. split; unfold routing; intros *; auto. Qed.

Lemma addressed_unmoved s s' : unmoved addressed s s' -> addressed_all s -> addressed_all s'.
Proof.
  intros [Hq Hp _ Hf _] [R3 R4 R5]. split.
  - intros q m. unfold queue_of. rewrite Hq. apply R3.
  - intros r k. rewrite Hp. apply R4.
  - intros pid fl Hl Hd. destruct (Hf _ _ Hl Hd); [by eapply R5|done].
Qed.

Lemma routing_unmoved s s' : unmoved addressed s s' -> keeps_index s s' -> routing s s'.
Proof.
  intros H (Hi1 & Hi2 & Hi3) [R1 R2 R3 R4]. split; [congruence|set_solver|auto|]. by eapply addressed_unmoved.
Qed.

Lemma routing_of {A} (m : M A) : preserves (unmoved addressed) m -> preserves keeps_index m -> preserves routing m.
Proof. intros H1 H2 s. by apply routing_unmoved. Qed.
#[local] Hint Extern 4 (preserves routing _) => apply routing_of; [solve [still]|solve [still]] : frame.

(** The replay buffer has no part in it. *)
Lemma routed_replay x s : routed s -> routed (set_e_replay x s).
Proof. intros [R1 R2 R3 []]. by split. Qed.
Lemma routing_modify_buffer f : preserves routing (modify_buffer f).
Proof. apply preserves_modify. intros s H. destruct (e_replay s); [done..|]. by apply routed_replay. Qed.
#[local] Hint Resolve routing_modify_buffer : frame.

(** *** Subscribing *)

Lemma build_entries_good fs q auto i acc s :
  e_stripped_prefixes s = prefixes ->
  Forall (fun r => validate_subscribe_topic (sr_topic_filter r) = Ok tt) fs ->
  admitted (EvSubscribe fs q auto i) ->
  (forall it, it ∈ acc -> valid_item it /\ good it) ->
  match (build_entries fs q auto i acc s).1 with
  | Ok l => forall it, it ∈ l -> valid_item it /\ good it
  | Err _ => True
  end.
Proof.
  revert acc s; induction fs as [|r fs IH]; intros acc s Hp Hv HG Ha; cbn [build_entries]; [exact Ha|].
  apply Forall_cons in Hv as [Hr Hv]. unfold mbind at 1, M_bind at 1. cbn [ask_state asks].
  assert (admitted (EvSubscribe fs q auto i)) as HG' by (intros r' ref Hr'; apply HG; by right).
  destruct (get _ _); [by apply IH|]. unfold mbind at 1, M_bind at 1. cbn [new_ref]. unfold mbind at 1, M_bind at 1. cbn [asks].
  change (e_stripped_prefixes (set_e_next_ref _ s)) with (e_stripped_prefixes s). rewrite Hp. apply IH; [done..|].
  intros it Hin%dict_set_elem. destruct Hin as [->|Hin]; [|by apply Ha]. split; [by eapply registered_valid|]. apply HG. by left.
Qed.

Lemma routing_subscribe fs q auto i s :
  Forall (fun r => validate_subscribe_topic (sr_topic_filter r) = Ok tt) fs ->
  admitted (EvSubscribe fs q auto i) ->
  routing s (subscribe_begin fs q auto i s).2.
Proof.
  intros Hv HG Hs. unfold subscribe_begin. unfold mbind at 1, M_bind at 1.
  pose proof (build_entries_good fs q auto i [] s (rt_prefixes _ Hs) Hv HG ltac:(by intros it ?%not_elem_of_nil)) as Hb.
  assert (routed (build_entries fs q auto i [] s).2) as H1.
  { apply (routing_of (build_entries fs q auto i [])); [preserve| |done]. generalize (@nil item). clear. induction fs; intros l; cbn [build_entries]; preserve. }
  destruct (build_entries fs q auto i [] s) as [[l|e] s1]; [|exact H1]. cbn [fst snd] in *.
  unfold mbind at 1, M_bind at 1. cbn [modify_index modify_state modify].
  set (s2 := set_e_state _ s1). assert (routed s2) as H2.
  { destruct H1 as [R1 R2 R3 []]. split; [done..| |done]. by apply index_good_add_many. }
  revert H2. generalize s2. clear -good_holds dead_uniform. match goal with |- forall s, _ -> routed (?m s).2 => assert (preserves routing m) as Hm; [|exact Hm] end.
  preserve.
Qed.

Lemma routing_restore_detached l :
  Forall valid_item l -> admitted (EvRestoreDetached l) -> preserves routing (restore_detached l).
Proof.
  intros Hv HG. unfold restore_detached. apply preserves_bind; [apply _| |intros _; preserve].
  apply preserves_modify. intros s [R1 R2 R3 []]. split; [done..| |done]. apply index_good_add_many; [|done].
  intros it Hit. split; [by eapply Forall_forall in Hv|by apply HG].
Qed.

(** *** Delivering *)

Lemma addressed_put s e r :
  may_hold (se_queue e) (ir_message r) -> addressed_all s -> addressed_all (put_nowait (se_queue e) (ir_message r) s).2.
Proof.
  intros Hr [R3 R4 R5]. split; try done. intros q m. unfold put_nowait. cbn [modify snd]. unfold queue_of at 1. cbn [set_e_queues e_queues].
  destruct (decide (se_queue e = q)) as [<-|Hne]; [rewrite lookup_insert_eq|rewrite lookup_insert_ne by done; apply R3].
  cbn [q_items]. intros [Hin| ->%list_elem_of_singleton]%elem_of_app; [by apply R3|done].
Qed.

Lemma addressed_drop q s : addressed_all s -> addressed_all (drop_head q s).2.
Proof.
  intros [R3 R4 R5]. split; try done. intros q' m. unfold drop_head. cbn [modify snd]. unfold queue_of at 1. cbn [set_e_queues e_queues].
  destruct (decide (q = q')) as [<-|Hne]; [rewrite lookup_insert_eq|rewrite lookup_insert_ne by done; apply R3].
  cbn [q_items]. intros Hin. apply R3. destruct (q_items (queue_of s q)); [done|by right].
Qed.

Lemma routing_drop q : preserves routing (drop_head q).
Proof. intros s [R1 R2 R3 R4]. split; [done..|]. by apply addressed_drop. Qed.

(** A message for a detached entry is put and taken back at once. *)
Lemma addressed_put_drop s e m ref :
  ref ∈ dead -> addressed_all s -> addressed_all (drop_head (se_queue e) (put_nowait (se_queue e) m s).2).2.
Proof.
  intros Href [R3 R4 R5]. split; try done. intros q m'. unfold drop_head, put_nowait. cbn [modify snd]. unfold queue_of at 1.
  cbn [set_e_queues e_queues]. destruct (decide (se_queue e = q)) as [<-|Hne].
  - rewrite lookup_insert_eq. cbn [q_items]. unfold queue_of at 1. cbn [set_e_queues e_queues]. rewrite lookup_insert_eq. cbn [default q_items].
    specialize (R3 (se_queue e)). destruct (q_items (queue_of s (se_queue e))) as [|x l]; cbn [app tail]; [by intros ?%not_elem_of_nil|].
    intros [Hin| ->%list_elem_of_singleton]%elem_of_app; [apply R3; by right|]. eapply dead_uniform; [done|]. apply (R3 x). by left.
  - rewrite lookup_insert_ne by done. intros H. apply R3. revert H. unfold queue_of. cbn. by rewrite lookup_insert_ne.
Qed.

Lemma deliver_then_detached r cb k f e s :
  ir_subscription r = Some (f, e) -> se_ref e ∈ e_detached s -> unmoved addressed s (deliver_then r cb k s).2.
Proof.
  intros He Hd. unfold deliver_then, _deliver. destruct (ir_request r) as [c|].
  - unfold mbind, M_bind. pose proof (still_complete (P := addressed) c s) as H. destruct (complete c s) as [[]s']; [|exact H].
    etransitivity; [exact H|]. apply still_after_deliver.
  - rewrite He. unfold mbind at 1, M_bind at 1, is_detached. unfold mbind at 1, M_bind at 1. cbn [asks]. rewrite bool_decide_true by done.
    apply still_after_deliver.
Qed.

Lemma index_deliver_then r cb k : preserves keeps_index (deliver_then r cb k).
Proof.
  unfold deliver_then, _deliver, after_put, is_detached, set_callback, put_nowait, drop_head, complete, unless_done, is_done, set_result. preserve.
Qed.
Lemma index_put_resume : preserves keeps_index put_resume.
Proof. unfold put_resume, after_put, is_detached, put_nowait, drop_head. preserve. Qed.

Lemma routing_deliver_then r cb k : addressed r -> preserves routing (deliver_then r cb k).
Proof.
  intros Hr s Hs. destruct (deliver_then_effect (P := addressed) r cb k s) as [H|(f & e & s1 & H1 & H2 & H3 & H)].
  { by eapply routing_unmoved; [exact H|apply index_deliver_then|]. }
  destruct (Hr f e H2) as [Hd|Hm].
  { eapply routing_unmoved; [|apply index_deliver_then|done]. eapply deliver_then_detached; [done|]. by apply (rt_detached _ Hs). }
  destruct (index_deliver_then r cb k s) as (Hi1 & Hi2 & Hi3). destruct Hs as [R1 R2 R0 R3]. split; [congruence|set_solver|auto|].
  apply (addressed_unmoved _ _ H3) in R3. destruct H as [[_ H]|[_ ->]].
  - eapply addressed_unmoved; [exact H|]. by eapply addressed_put.
  - destruct R3 as [Q1 Q2 Q3]. split; [done| |done]. intros r' k' [= <- <-]. exact Hr.
Qed.

Lemma routing_put_resume : preserves routing put_resume.
Proof.
  intros s Hs. destruct (index_put_resume s) as (Hi1 & Hi2 & Hi3). destruct Hs as [R1 R2 R0 R3]. split; [congruence|set_solver|auto|].
  clear Hi1 Hi2 Hi3 R1 R0. revert R3.
  unfold put_resume. unfold mbind at 1, M_bind at 1. cbn [asks]. destruct (e_putting s) as [[r k]|] eqn:Ep; [|done].
  destruct (ir_subscription r) as [[f e]|] eqn:Er; [|done]. unfold mbind at 1, M_bind at 1. cbn [asks]. destruct (queue_full _); [done|].
  intros R3. pose proof (rt_putting _ R3 _ _ Ep) as Hr. unfold mbind at 1, M_bind at 1. cbn [modify]. set (s0 := set_e_putting None s).
  assert (addressed_all s0) as H0 by (destruct R3; by split).
  unfold mbind at 1, M_bind at 1. change (put_nowait (se_queue e) (ir_message r) s0) with (@Ok unit tt, (put_nowait (se_queue e) (ir_message r) s0).2).
  cbn beta iota. set (s1 := (put_nowait (se_queue e) (ir_message r) s0).2). change (e_detached s) with (e_detached s1) in R2.
  unfold mbind at 1, M_bind at 1, after_put, is_detached. unfold mbind at 1, M_bind at 1. cbn [asks].
  destruct (bool_decide _) eqn:Ed; [unfold mbind at 1, M_bind at 1; cbn [drop_head modify mret M_ret]|];
    (eapply addressed_unmoved; [apply still_after_deliver|]); specialize (Hr f e Er) as [Hd|Hm].
  - by apply (addressed_put_drop s0 e (ir_message r) (se_ref e)).
  - by apply (addressed_drop (se_queue e)), addressed_put.
  - apply bool_decide_eq_false in Ed. by destruct Ed; apply R2.
  - by apply addressed_put.
Qed.

Lemma routing_accept_qos2 p r : addressed r -> preserves routing (_accept_qos2_publish p r).
Proof.
  intros Hr. unfold _accept_qos2_publish, require_packet_id, detached_recipient, is_detached. preserve.
  - apply routing_of; [by apply still_set_flight|still].
  - by apply routing_deliver_then.
Qed.

Lemma routing_deliver_qos1 p r : addressed r -> preserves routing (_deliver_qos1_publish p r).
Proof. intros Hr. unfold _deliver_qos1_publish, require_packet_id. preserve; by apply routing_deliver_then. Qed.

Lemma routing_deliver_replay p r : addressed r -> preserves routing (deliver_replay p r).
Proof.
  intros Hr. unfold deliver_replay. destruct (p_qos p); [by apply routing_deliver_then|by apply routing_deliver_qos1|by apply routing_accept_qos2].
Qed.

(** *** Arriving *)

Lemma routing_select p f s :
  receiving_ok s -> (forall r, addressed r -> preserves routing (f r)) ->
  routing s ((r ← _select_recipient_or_buffer p; match r with Some r => f r | None => mret tt end) s).2.
Proof.
  intros Hok Hf Hs. unfold _select_recipient_or_buffer.
  destruct (select_recipient_spec p s) as (r & s1 & E & Hc & Hr). pose proof (chosen_addressed s p r Hs Hc Hr) as Ha.
  pose proof (routing_of (select_recipient p) ltac:(preserve) ltac:(preserve) s Hs) as Hs1.
  pose proof (delivery_select_recipient p s) as Hd. rewrite E in *. cbn [snd] in *. pose proof (steady_delivery _ _ Hd Hok) as [Hr1 _].
  unfold mbind, M_bind. cbn [asks]. rewrite E. rewrite <-(df_replay _ _ Hd). pose proof (accept_spec (P := addressed) p r s1 Hr1) as H.
  assert (preserves keeps_index (accept (e_replay s1) p r)) as Hi by (unfold accept, accept_buffered; still). specialize (Hi s1).
  destruct (accept (e_replay s1) p r s1) as [[[[r'|] next]|e] s2]; cbn [snd] in Hi.
  - destruct H as (-> & -> & _). cbn [modify mret M_ret]. by apply Hf, routed_replay.
  - destruct H as (H & _). cbn [modify mret M_ret]. apply routed_replay. by eapply routing_unmoved.
  - by eapply routing_unmoved.
Qed.

Lemma routing_handle_publish p s : receiving_ok s -> routing s (handle_publish p s).2.
Proof.
  intros Hok. unfold handle_publish. destruct (p_qos p); [apply routing_select; [done|]; intros r; by apply routing_deliver_then|..].
  all: unfold _handle_qos1_publish, _handle_qos2_publish, require_packet_id; destruct (p_packet_id p) as [pid|]; [|done];
    unfold mbind at 1, M_bind at 1; cbn [mret M_ret].
  all: pose proof (routing_of (_hold_receive_quota pid) ltac:(preserve) ltac:(preserve) s) as Hh; pose proof (steady_hold pid s Hok) as Hok1;
    unfold mbind at 1, M_bind at 1; destruct (_hold_receive_quota pid s) as [[[]|e] s1]; cbn [snd] in *; [|exact Hh]; etransitivity; [exact Hh|].
  - unfold mbind at 1, M_bind at 1. cbn [asks]. destruct (contains_packet_id _ _); [done|].
    apply routing_select; [done|]. intros r. by apply routing_deliver_qos1.
  - do 2 (unfold mbind at 1, M_bind at 1; cbn [asks]). destruct (is_Some_b _); [apply routing_of; still|].
    destruct (bool_decide _); [done|]. destruct (contains_packet_id _ _); [done|].
    apply routing_select; [done|]. intros r. by apply routing_accept_qos2.
Qed.

Lemma routing_handle_pubrel a : preserves routing (handle_pubrel a).
Proof.
  intros s Hs. unfold handle_pubrel. unfold mbind at 1, M_bind at 1, ask_state. cbn [asks].
  unfold mbind at 1, M_bind at 1. cbn [modify_state modify]. set (pid := a_packet_id a). set (s1 := set_e_state _ s).
  assert (routed s1) as H1.
  { destruct Hs as [R1 R2 R3 [Q1 Q2 Q3]]. split; [done..|]. split; [done..|]. cbn. intros pid' fl [_ H]%lookup_delete_Some. by eapply Q3. }
  destruct (inflight_qos2_in (e_state s) !! pid) as [fl|] eqn:Ef; [|revert H1; apply routing_of; still].
  pose proof (routing_of (_complete (PPubComp (ack_of pid)) pid) ltac:(preserve) ltac:(unfold _complete; still) s1 H1) as H2.
  unfold mbind at 1, M_bind at 1. destruct (_complete _ pid s1) as [[[]|e] s2]; [|exact H2]. destruct (i2_delivered fl) eqn:Ed; [exact H2|].
  revert H2. apply routing_deliver_then. by eapply (rt_flights _ (rt_messages _ Hs)).
Qed.

(** *** Draining *)

Lemma routing_pending_loop pending kept : preserves routing (deliver_pending_loop pending kept).
Proof.
  revert kept; induction pending as [|p pending IH]; intros kept s Hs; cbn [deliver_pending_loop]; [by apply routing_modify_buffer|].
  destruct (select_recipient_spec p s) as (r & s1 & E & Hc & Hr). pose proof (chosen_addressed s p r Hs Hc Hr) as Ha.
  pose proof (routing_of (select_recipient p) ltac:(preserve) ltac:(preserve) s Hs) as Hs1. rewrite E in Hs1. cbn [snd] in Hs1.
  unfold mbind at 1, M_bind at 1. rewrite E. destruct (must_wait_total r s1) as [w Ew]. unfold mbind at 1, M_bind at 1. rewrite Ew.
  destruct w; [by apply IH|]. pose proof (routing_deliver_replay p r Ha s1 Hs1) as Hs2. destruct (deliver_replay p r s1) as [[[]|e] s2]; cbn [snd] in Hs2.
  - revert Hs2. apply preserves_bind; [apply _|apply routing_modify_buffer|]. intros _. apply IH.
  - revert Hs2. apply preserves_bind; [apply _|apply routing_modify_buffer|]. intros _. preserve.
Qed.

Lemma routing_deliver_pending : preserves routing _deliver_pending.
Proof.
  unfold _deliver_pending. apply preserves_bind; [apply _|by intros s|]. intros [| |b]; [by intros s..|].
  apply preserves_bind; [apply _|apply routing_modify_buffer|]. intros _. apply routing_pending_loop.
Qed.
#[local] Hint Resolve routing_deliver_pending : frame.

Lemma routing_replay (f : Engine -> Engine) : (forall s, f s = s \/ exists x, f s = set_e_replay x s) -> preserves routing (modify f).
Proof. intros Hf. apply preserves_modify. intros s Hs. destruct (Hf s) as [->|[x ->]]; [done|by apply routed_replay]. Qed.

Lemma routing_drain : preserves routing drain_replay.
Proof.
  unfold drain_replay. apply preserves_bind; [apply _|preserve|]. intros _. apply routing_replay. intros s. destruct (e_replay s); try (by left).
  case_match; [right; eauto|by left].
Qed.

Lemma routing_expire ref : preserves routing (expire_after_timeout ref).
Proof.
  assert (preserves routing (expire_replay ref)) as H.
  { unfold expire_replay. apply preserves_bind; [apply _|by intros s|]. intros [| |b]; [by intros s..|]. case_if; [|by intros s].
    apply preserves_bind; [apply _|preserve|]. intros _. apply routing_replay. intros s. destruct (e_replay s); try (by left). right. eauto. }
  intros s. unfold expire_after_timeout. specialize (H s). destruct (expire_replay ref s) as [[|e] s']; [exact H|].
  etransitivity; [exact H|]. apply (routing_of (suppress (abort None))); unfold transport_close; still.
Qed.

(** *** Every event *)

Lemma index_task_finish t thrown : preserves keeps_index (task_finish t thrown).
Proof.
  destruct t as [kind pid f]. destruct kind; cbn [task_finish]; unfold ping_finish; try solve [still].
  intros s. pose proof (index_sub_finish filters pid f thrown s) as H.
  destruct (send_subscribe_finish filters pid f thrown s) as [[a|e] s']; [exact H|]. by destruct (is_exception e).
Qed.

Lemma routing_task_finish t thrown : preserves routing (task_finish t thrown).
Proof.
  apply routing_of; [apply still_task_finish|apply index_task_finish].
Qed.

Lemma routing_dispatch p s : receiving_ok s -> routing s (_dispatch p s).2.
Proof.
  intros Hok. destruct p; cbn [_dispatch];
    try match goal with |- routing s (?m s).2 => assert (preserves routing m) as Hm by preserve; apply Hm end.
  - by apply routing_handle_publish.
  - apply routing_handle_pubrel.
Qed.

Lemma step_routing sys ev :
  receiving_ok (engine sys) -> validated ev -> admitted ev ->
  routing (engine sys) (engine (engine_step sys ev)).
Proof.
  intros Hok Hev HG. assert (forall n t thrown, routing (engine sys)
      (engine (let '(r, s) := task_finish t thrown (engine sys) in settle n r s sys))) as Hfin.
  { intros n t thrown. rewrite (proj1 (finish_2 n t thrown sys)). apply routing_task_finish. }
  assert (forall s, unmoved addressed (engine sys) s -> keeps_index (engine sys) s -> routing (engine sys) s) as Hq
    by (intros s; apply routing_unmoved).
  destruct ev; cbn [engine_step run_unit with_engine engine validated] in *; rewrite ?(proj1 (new_call_2 _ _)).
  all: try match goal with |- routing ?s (?m ?s).2 => assert (preserves routing m) as Hm by preserve; apply Hm end.
  - by apply routing_subscribe.
  - case_match; [|done]. rewrite (proj1 (run_reader_2 _ _)). by apply Hq; [apply still_connack|apply index_connack].
  - case_match; [|done]. rewrite (proj1 (run_reader_2 _ _)). by apply routing_dispatch.
  - case_match; [|done]. rewrite (proj1 (run_reader_2 _ _)). by apply Hq; [apply still_rejecting|apply index_rejecting].
  - case_match; [|done]. rewrite (proj1 (run_reader_2 _ _)). apply routing_put_resume.
  - apply routing_drop.
  - apply routing_drain.
  - apply routing_expire.
  - destruct (calls sys !! call); [|done]. case_match; [apply Hfin|]. apply Hq; [by split; auto|by split; [|split]].
  - destruct (calls sys !! call); [|done]. case_match; [apply Hfin|done].
  - destruct (calls sys !! call); [|done]. case_match; [apply Hfin|done].
  - apply Hq; [split; cbn; auto; done|by split; [|split]].
  - by apply routing_restore_detached.
  - case_match; [done|]. by apply Hq; [apply still_run_finally|apply index_run_finally].
Qed.

Lemma run_routing evs sys :
  reachable sys -> Forall validated evs -> Forall admitted evs ->
  routing (engine sys) (engine (run_events sys evs)).
Proof.
  revert sys; induction evs as [|ev evs IH]; intros sys Hr Hv HG; [done|]. apply Forall_cons in Hv as [Hv Hvs]. apply Forall_cons in HG as [HG HGs].
  etransitivity; [apply step_routing; [by apply reachable_receiving|done..]|]. by apply IH; [apply reachable_step|..].
Qed.
End routing.

(** The instance for what is subscribed: nothing is detached. *)
Definition granted_item (G : list Grant) (it : item) : Prop := item_grant it ∈ G.

Lemma granted_holds G old it m :
  granted_item G it -> permits (msg_topic m) (msg_identifier m) (item_grant it) -> se_ref it.2 ∈ (∅ : gset nat) \/ belongs G old (se_queue it.2) m.
Proof. intros Hg Hp. right. right. by exists (item_grant it). Qed.

Lemma granted_uniform G old ref q m m' : ref ∈ (∅ : gset nat) -> belongs G old q m -> belongs G old q m'.
Proof. by intros ?%not_elem_of_empty. Qed.

Lemma granted_admitted G prefixes ev : (forall g, g ∈ granted prefixes ev -> g ∈ G) -> admitted (granted_item G) prefixes ev.
Proof.
  destruct ev; try done; cbn; intros H; [intros r ref Hr|intros it Hit]; apply H; [|by apply list_elem_of_fmap_2].
  apply list_elem_of_fmap. by exists r.
Qed.

(** Messages go where they were asked for.  Take a new connection and any interleaving of incoming packets, calls, drains and
    expiry of the replay buffer, acknowledgements and takes.  Each message in a queue, and the message with which the
    read loop waits for room in one, either was there at first, or its topic matches a filter that was subscribed with this
    queue, or it carries the subscription identifier that was subscribed with this queue. *)
Theorem messages_addressed v prefixes keepalive limit size d queues next evs :
  let s0 := engine_new v prefixes keepalive limit size d queues next in
  let s := engine (run_events (system_new s0) evs) in
  let asked q m := m ∈ q_items (queue_of s0 q) \/
    exists ev g, ev ∈ evs /\ g ∈ granted prefixes ev /\ g_queue g = q /\ permits (msg_topic m) (msg_identifier m) g in
  dispatcher_below d next -> Forall validated evs ->
  (forall q m, m ∈ q_items (queue_of s q) -> asked q m) /\
  (forall r k f e, e_putting s = Some (r, k) -> ir_subscription r = Some (f, e) -> asked (se_queue e) (ir_message r)).
Proof.
  intros s0 s asked Hd Hv. set (old := fun q => q_items (queue_of s0 q)). set (G := concat (map (granted prefixes) evs)).
  assert (forall ev g, ev ∈ evs -> g ∈ granted prefixes ev -> g ∈ G) as HG.
  { intros ev g He Hg. apply list_elem_of_In, in_concat. exists (granted prefixes ev). split; [by apply in_map, list_elem_of_In|by apply list_elem_of_In]. }
  assert (forall q m, belongs G old q m -> asked q m) as Hb.
  { intros q m [Ho|(g & Hg & Hq & Hp)]; [by left|right]. apply list_elem_of_In, in_concat in Hg as (l & Hl & Hg).
    apply in_map_iff in Hl as (ev & <- & Hev). exists ev, g. by rewrite !list_elem_of_In. }
  assert (routed (granted_item G) prefixes (belongs G old) ∅ s) as [_ _ _ [R1 R2 _]].
  { apply (run_routing _ _ _ _ (granted_holds G old) (granted_uniform G old) evs (system_new s0)); [by apply reachable_new|done| |].
    - apply Forall_forall. intros ev Hev. apply granted_admitted. intros g. by apply HG.
    - split; [done|done| |].
      + split; [apply index_new_ok|]. by intros it ?%not_elem_of_nil.
      + split; [by left| |]; cbn; [done|]. intros pid fl H. by rewrite lookup_empty in H. }
  split; [auto|]. intros r k f e Hp He. apply Hb. destruct (R2 r k Hp f e He) as [H|H]; [by apply not_elem_of_empty in H|exact H].
Qed.

Definition routing_events : list event :=
  let pub (topic : pystr) (identifier : option Z) :=
    EvReceive (PPublish (mkPublish topic [] AT_MOST_ONCE false false None
      (Some (mkPublishProperties None None None None None identifier None [])))) in
  [EvSubscribe [observer_request (py "a/+")] 0 true None; EvSubscribe [observer_request (py "$share/g/b/#")] 1 true (Some 7);
   pub (py "a/x") None; pub (py "b/y") None; pub (py "c") None; pub (py "c") (Some 7)].

Lemma messages_addressed_witness :
  let s := engine (run_events (system_new (engine_new V50 [] 60 None 1000 None ∅ 8)) routing_events) in
  map msg_topic (q_items (queue_of s 0)) = [py "a/x"] /\ map msg_topic (q_items (queue_of s 1)) = [py "b/y"; py "c"] /\
  forall m, m ∈ q_items (queue_of s 1) -> exists ev g, ev ∈ routing_events /\ g ∈ granted [] ev /\ g_queue g = 1%nat /\
    permits (msg_topic m) (msg_identifier m) g.
Proof.
  split; [vm_compute; reflexivity|]. split; [vm_compute; reflexivity|]. intros m Hm.
  destruct (messages_addressed V50 [] 60 None 1000 None ∅ 8 routing_events) as [H _].
  - apply dispatcher_below_none.
  - unfold routing_events. repeat apply Forall_cons_2; try apply Forall_nil_2; try exact (or_introl eq_refl); vm_compute; reflexivity.
  - destruct (H 1%nat m Hm) as [Ho|Ho]; [|exact Ho]. by apply not_elem_of_nil in Ho.
Defined.
