(* ===== verification/Running.v ===== *)
(** * The life of [run] ([run], [_ping_loop], [_read_loop] of [_internal/protocol.py])

    [run] gathers two tasks: the read loop ([Connection]) and the ping loop, which sleeps for the
    keepalive interval, writes PINGREQ and waits for PINGRESP.  The write takes time: [drain] waits for
    room in the buffer of the socket, up to the write timeout of [transport/base.py] (30 s), and only
    then does the ping timeout start.  Time is that of the event loop: it passes while no loop can
    go on, and a timer fires when it is due; an application that keeps the event loop busy past
    that is not modelled.

    Theorems: the times of the PINGREQs; a broker that does not answer is noticed in time; and
    which exceptions end [run], and why. *)

From S2P Require Import Prelude Properties Packets Codec Reader Topic SubscriptionIndex State Engine Inbound Protocol Ownership Calls Connection Failures.

(** ** States *)

Inductive ping_phase : Type :=
| PSleeping (due : Z)               (** in [asyncio.sleep] *)
| PWriting (call : nat) (due : Z)   (** in [ping], in the drain of its write: the call of the engine, the end of the write's timeout *)
| PWaiting (call : nat) (due : Z)   (** in [ping], in [wait_for]: the end of the ping's timeout *)
| PReturned
| PRaised (e : exn).                (** or was cancelled *)

Inductive stage : Type :=
| Running
| Stopping (result : res unit)      (** the [finally] clause waits for the cancelled tasks *)
| Over (result : res unit).

(** [r_first] is the exception [gather] raises, that of the task that failed first; [r_pings] records
    when PINGREQ was sent. *)
Record Run : Type := mkRun {
  r_conn : Connection;
  r_ping : ping_phase;
  r_now : Z;
  r_first : option exn;
  r_stage : stage;
  r_death_cause : option exn;
  r_started : bool;
  r_pings : list Z
}.

Definition r_system (r : Run) : System := c_system (r_conn r).
Definition r_engine (r : Run) : Engine := engine (r_system r).

Definition set_conn (c : Connection) (r : Run) : Run :=
  mkRun c (r_ping r) (r_now r) (r_first r) (r_stage r) (r_death_cause r) (r_started r) (r_pings r).
Definition set_ping (p : ping_phase) (r : Run) : Run :=
  mkRun (r_conn r) p (r_now r) (r_first r) (r_stage r) (r_death_cause r) (r_started r) (r_pings r).
Definition set_now (t : Z) (r : Run) : Run :=
  mkRun (r_conn r) (r_ping r) t (r_first r) (r_stage r) (r_death_cause r) (r_started r) (r_pings r).
Definition set_first (e : option exn) (r : Run) : Run :=
  mkRun (r_conn r) (r_ping r) (r_now r) e (r_stage r) (r_death_cause r) (r_started r) (r_pings r).
Definition set_stage (s : stage) (r : Run) : Run :=
  mkRun (r_conn r) (r_ping r) (r_now r) (r_first r) s (r_death_cause r) (r_started r) (r_pings r).
Definition set_death_cause (e : option exn) (r : Run) : Run :=
  mkRun (r_conn r) (r_ping r) (r_now r) (r_first r) (r_stage r) e (r_started r) (r_pings r).
Definition set_started (b : bool) (r : Run) : Run :=
  mkRun (r_conn r) (r_ping r) (r_now r) (r_first r) (r_stage r) (r_death_cause r) b (r_pings r).
Definition set_pings (ts : list Z) (r : Run) : Run :=
  mkRun (r_conn r) (r_ping r) (r_now r) (r_first r) (r_stage r) (r_death_cause r) (r_started r) ts.

Inductive run_event : Type :=
| RConn (ev : conn_event)   (** the read loop, or anything else *)
| RTick (d : Z)
| RWake                     (** the sleep of the ping loop is over *)
| RWritten                  (** the write of PINGREQ ends *)
| RWriteFails               (** it raises: the drain does, or its timeout is over *)
| RPong                     (** the ping loop resumes in [ping]: its future is done *)
| RTimeout                  (** the timeout of [ping] *)
| RCancel                   (** [task.cancel()] of [run] *)
| RStop                     (** [gather] returns or raises in [run] *)
| RFinish.                  (** the cancelled tasks have ended *)

(** ** The two tasks *)

Section run.
(** The clock's ticks in a second; [_DRAIN_TIMEOUT_SECONDS] and [ping_timeout] in ticks. *)
Context (second write_timeout ping_timeout : Z).

(** [await asyncio.sleep(self._effective_keepalive)] *)
Definition sleep_again (r : Run) : Run :=
  set_ping (PSleeping (r_now r + second * e_effective_keepalive (r_engine r))) r.

(** The first exception of a task is the one [gather] raises. *)
Definition note_failure (e : option exn) (r : Run) : Run :=
  match r_first r with None => set_first e r | Some _ => r end.

Definition ping_raises (e : exn) (r : Run) : Run := note_failure (Some e) (set_ping (PRaised e) r).

(** The call of the ping loop, which nothing else resumes or cancels. *)
Definition own_call (r : Run) (n : nat) : bool :=
  match r_ping r with PWriting m _ | PWaiting m _ => (m =? n)%nat | _ => false end.

Definition is_running (r : Run) : bool := match r_stage r with Running => true | _ => false end.

(** Steps of the read loop end with it; the end of [run] is [RFinish]. *)
Definition permitted (r : Run) (ev : conn_event) : bool :=
  match ev with
  | CNext | CRead _ | CReadFails _ | CEngine EvPutResume => is_running r
  | CEngine EvRunEnds => false
  | CEngine (EvCancel n) | CEngine (EvTimeout n) | CEngine (EvResume n) => negb (own_call r n)
  | CEngine _ => true
  end.

(** The ping loop runs on after the sleep: [ping], up to the drain of its write. *)
Definition wake (r : Run) : Run :=
  let n := next_call (r_system r) in
  let r' := set_conn (engine_event EvPing (r_conn r)) r in
  match (ping_begin (r_engine r)).1 with
  | Ok _ => set_pings (r_pings r ++ [r_now r]) (set_ping (PWriting n (r_now r + write_timeout)) r')
  | Err e => ping_raises e r'
  end.

(** The write of PINGREQ fails, which ends [ping]; its future stays with the engine, as when it is cancelled. *)
Definition ping_write_fails (n : nat) (r : Run) : Run :=
  ping_raises (MQTTDisconnectedError "Connection lost") (set_conn (engine_event (EvCancel n) (r_conn r)) r).

(** It resumes in [ping]: the loop goes round, or the exception ends it. *)
Definition resume_ping (n : nat) (thrown : option exn) (ev : event) (r : Run) : Run :=
  match calls (r_system r) !! n with
  | Some t =>
    let r' := set_conn (engine_event ev (r_conn r)) r in
    match (task_finish t thrown (r_engine r)).1 with
    | Ok _ => sleep_again r'
    | Err e => ping_raises e r'
    end
  | None => r
  end.

Definition ping_pending (r : Run) (n : nat) : bool :=
  match calls (r_system r) !! n with
  | Some t => negb (fut_done (fut_state (r_engine r) (t_future t)))
  | None => false
  end.

(** [gather] has a result. *)
Definition gathered (r : Run) : option (res unit) :=
  match r_first r, r_ping r, c_phase (r_conn r) with
  | Some e, _, _ => Some (Err e)
  | None, PReturned, REnded => Some (Ok tt)
  | _, _, _ => None
  end.

(** Time passes up to [t] while [run] waits. *)
Definition may_wait (t : Z) (r : Run) : bool :=
  match r_stage r with
  | Running =>
    match gathered r with
    | Some _ => false
    | None =>
      match r_ping r with
      | PSleeping due | PWriting _ due => t <=? due
      | PWaiting n due => (t <=? due) && ping_pending r n
      | PReturned | PRaised _ => true
      end
    end
  | Stopping _ => false
  | Over _ => true
  end.

(** The [except] clauses, and the [finally] clause up to its [gather]: the ping loop and the read loop
    are cancelled wherever they wait. *)
Definition stop_run (result : res unit) (r : Run) : Run :=
  let r := match result with
           | Err e => if is_exception e then set_death_cause (Some e) r else r
           | Ok _ => r
           end in
  let r := match r_ping r with
           | PSleeping _ => set_ping (PRaised CancelledError) r
           | PWriting n _ | PWaiting n _ => set_ping (PRaised CancelledError) (set_conn (engine_event (EvCancel n) (r_conn r)) r)
           | PReturned | PRaised _ => r
           end in
  set_stage (Stopping result) r.

Definition run_step (r : Run) (ev : run_event) : Run :=
  match ev with
  | RConn ev =>
    if permitted r ev then
      let r := set_conn (conn_step (r_conn r) ev) r in
      if is_running r then note_failure (failure (r_system r)) r else r
    else r
  | RTick d => if (0 <=? d) && may_wait (r_now r + d) r then set_now (r_now r + d) r else r
  | RWake =>
    match r_stage r, r_ping r with
    | Running, PSleeping due => if due <=? r_now r then wake r else r
    | _, _ => r
    end
  | RWritten =>
    match r_stage r, r_ping r with
    | Running, PWriting n _ => set_ping (PWaiting n (r_now r + ping_timeout)) r
    | _, _ => r
    end
  | RWriteFails =>
    match r_stage r, r_ping r with
    | Running, PWriting n _ => ping_write_fails n r
    | _, _ => r
    end
  | RPong =>
    match r_stage r, r_ping r with
    | Running, PWaiting n _ => if ping_pending r n then r else resume_ping n None (EvResume n) r
    | _, _ => r
    end
  | RTimeout =>
    match r_stage r, r_ping r with
    | Running, PWaiting n due =>
      if due <=? r_now r then resume_ping n (Some (MQTTTimeoutError "")) (EvTimeout n) r else r
    | _, _ => r
    end
  | RCancel => if is_running r then stop_run (Err CancelledError) r else r
  | RStop => if is_running r then match gathered r with Some result => stop_run result r | None => r end else r
  | RFinish =>
    match r_stage r with
    | Stopping result =>
      set_stage (Over result) (set_started false (set_conn (engine_event EvRunEnds (r_conn r)) r))
    | _ => r
    end
  end.

Definition run_steps (r : Run) (evs : list run_event) : Run := foldl run_step r evs.

(** [run] is called: both tasks start. *)
Definition run_begin (now : Z) (c : Connection) : Run :=
  let r := mkRun c PReturned now None Running None true [] in
  if e_effective_keepalive (r_engine r) =? 0 then r else sleep_again r.
End run.

(** ** The call of the ping loop *)

Section ping_call.
Context (calls0 : gmap nat task) (n : nat) (t : task).
Hypothesis Hcall : calls0 !! n = Some t.
Hypothesis Hping : is_ping t = true.

Lemma slot_of_ping : slot_of t = SPing.
Proof. destruct t as [[]]; done. Qed.

(** Futures of other slots are other futures. *)
Lemma other_slot s sl f : linked calls0 s -> holds s sl f -> sl <> SPing -> t_future t <> f.
Proof.
  intros Hl Hh Hne <-. apply (lk_slot _ _ Hl n t) in Hh; [|done]. by rewrite slot_of_ping in Hh.
Qed.

Lemma quiet_future s s' : linked calls0 s -> quiet s s' -> fut_state s' (t_future t) = fut_state s (t_future t).
Proof.
  intros Hl Hq. destruct (qt_futures _ _ Hq (t_future t)) as [|Hr]; [by eapply lk_call|done|].
  by destruct (linked_no_request _ _ _ _ Hl Hcall).
Qed.

Lemma settled_future s s1 sl f st :
  linked calls0 s -> holds s sl f -> sl <> SPing -> e_futures s1 = e_futures s ->
  fut_state (settled f st s1) (t_future t) = fut_state s (t_future t).
Proof.
  intros Hl Hh Hne Ef. pose proof (other_slot s sl f Hl Hh Hne). rewrite fut_state_settled, decide_False by done.
  unfold fut_state. by rewrite Ef.
Qed.

(** [set_result] without looking whether the future is done. *)
Lemma set_result_future s sl f v :
  linked calls0 s -> holds s sl f -> sl <> SPing ->
  fut_state (set_result f v s).2 (t_future t) = fut_state s (t_future t).
Proof.
  intros Hl Hh Hne. pose proof (settled_future s s sl f (FResult v) Hl Hh Hne eq_refl) as H.
  unfold set_result, resolve. unfold settled in H. by destruct (fut_done (fut_state s f)).
Qed.

(** Only PINGRESP resolves the future of a ping. *)
Lemma dispatch_future s p :
  linked calls0 s ->
  fut_state (_dispatch p s).2 (t_future t) = fut_state s (t_future t) \/
  (p = PPingResp /\ fut_state (_dispatch p s).2 (t_future t) = FResult VNone).
Proof.
  intros Hl. assert (forall (m : M unit), preserves inbound_frame m -> fut_state (m s).2 (t_future t) = fut_state s (t_future t)) as Hin.
  { intros m Hm. destruct (if_futures _ _ (Hm s) (t_future t)) as [|Hr]; [done|]. by destruct (linked_no_request _ _ _ _ Hl Hcall). }
  destruct p as [| |p|a|a|a|a| |p| |p| | | |]; cbn [_dispatch]; try (left; done); try (left; apply Hin; solve [auto with frame]).
  - left. unfold _handle_puback, ask_state, set_result. unfold mbind at 1, M_bind at 1. cbn [asks].
    destruct (inflight_qos1 (e_state s) !! a_packet_id a) as [fl|] eqn:E; [|done].
    unfold mbind, M_bind. cbn [modify_state modify release_pid]. rewrite unless_done_eq. cbn [snd].
    apply (settled_future s _ (SPubAck (a_packet_id a))); try done. by exists fl.
  - left. unfold _handle_pubrec, ask_state, set_exception. unfold mbind at 1, M_bind at 1. cbn [asks].
    destruct (inflight_qos2_out (e_state s) !! a_packet_id a) as [fl|] eqn:E; [|done].
    case_decide; [|done]. destruct (_ <=? _).
    + unfold mbind, M_bind. cbn [modify_state modify release_pid]. rewrite unless_done_eq. cbn [snd].
      apply (settled_future s _ (SPubComp (a_packet_id a))); try done. by exists fl.
    + unfold mbind at 1, M_bind at 1. cbn [modify_state modify].
      match goal with |- context [send_packet ?q ?s1] => pose proof (if_futures _ _ (frame_send_packet q s1) (t_future t)) as Hs end.
      destruct Hs as [->|(d & k & q & Hd & Hk & Hf)]; [done|]. by destruct (linked_no_request _ _ _ _ Hl Hcall); exists d, k, q.
  - left. unfold _handle_pubcomp, ask_state, set_result. unfold mbind at 1, M_bind at 1. cbn [asks].
    destruct (inflight_qos2_out (e_state s) !! a_packet_id a) as [fl|] eqn:E; [|done].
    unfold mbind, M_bind. cbn [modify_state modify release_pid]. rewrite unless_done_eq. cbn [snd].
    apply (settled_future s _ (SPubComp (a_packet_id a))); try done. by exists fl.
  - left. unfold _handle_suback, ask_state. unfold mbind, M_bind. cbn [asks].
    destruct (pending_subs (e_state s) !! sa_packet_id p) as [f|] eqn:E; [|done].
    by apply (set_result_future s (SSubAck (sa_packet_id p))).
  - left. unfold _handle_unsuback, ask_state. unfold mbind, M_bind. cbn [asks].
    destruct (pending_unsubs (e_state s) !! ua_packet_id p) as [f|] eqn:E; [|done].
    by apply (set_result_future s (SUnsubAck (ua_packet_id p))).
  - unfold _handle_pingresp, set_result. unfold mbind, M_bind. cbn [asks].
    destruct (e_ping_waiters s) as [|f rest]; [by left|]. cbn [modify]. rewrite unless_done_eq. cbn [snd].
    rewrite fut_state_settled. case_decide as E; [|by left]. subst f.
    change (fut_state (set_e_ping_waiters rest s) (t_future t)) with (fut_state s (t_future t)).
    destruct (fut_done (fut_state s (t_future t))); [by left|by right].
  - left. apply Hin. preserve.
Qed.
End ping_call.

(** The event is about this call. *)
Definition concerns (n : nat) (ev : event) : bool :=
  match ev with EvCancel m | EvTimeout m | EvResume m => (n =? m)%nat | _ => false end.

(** While [run] runs, the call of the ping loop waits, whatever happens, and only PINGRESP ends that. *)
Lemma ping_call_step sys ev n t :
  system_ok sys -> while_running ev -> concerns n ev = false ->
  calls sys !! n = Some t -> is_ping t = true ->
  let sys' := engine_step sys ev in
  calls sys' !! n = Some t /\
  (fut_state (engine sys') (t_future t) = fut_state (engine sys) (t_future t) \/
   (ev = EvReceive PPingResp /\ fut_state (engine sys') (t_future t) = FResult VNone)).
Proof.
  intros Hok Hev Hc Ht Hp. pose proof (ow_linked _ _ _ (so_owned _ Hok)) as Hl.
  assert (n < next_call sys)%nat as Hn.
  { destruct (Nat.lt_ge_cases n (next_call sys)) as [|Hge]; [done|]. by rewrite (so_fresh _ Hok n Hge) in Ht. }
  assert (forall s, quiet (engine sys) s -> fut_state s (t_future t) = fut_state (engine sys) (t_future t)) as Hq
    by (intros s Hs; by eapply quiet_future).
  assert (forall m u thrown, (n =? m)%nat = false ->
    let sys' := let '(r, s) := task_finish u thrown (engine sys) in settle m r s sys in
    calls sys' !! n = Some t /\ fut_state (engine sys') (t_future t) = fut_state (engine sys) (t_future t)) as Hfin.
  { intros m u thrown Hm%Nat.eqb_neq. cbn zeta. pose proof (Hq _ (quiet_task_finish u thrown (engine sys))) as Hs.
    destruct (task_finish u thrown (engine sys)) as [[[]|] s]; cbn [settle calls engine snd] in *;
      rewrite ?lookup_delete_ne, ?lookup_insert_ne by done; done. }
  assert (forall m, preserves quiet m -> let sys' := new_call m sys in
    calls sys' !! n = Some t /\ fut_state (engine sys') (t_future t) = fut_state (engine sys) (t_future t)) as Hnew.
  { intros m Hm. cbn zeta. pose proof (Hq _ (Hm (engine sys))) as Hs. unfold new_call.
    destruct (m (engine sys)) as [[[]|] s]; cbn [settle calls engine snd] in *;
      rewrite ?lookup_delete_ne, ?lookup_insert_ne by lia; done. }
  assert (forall m, preserves quiet m -> let sys' := run_reader m sys in
    calls sys' !! n = Some t /\ fut_state (engine sys') (t_future t) = fut_state (engine sys) (t_future t)) as Hread.
  { intros m Hm. cbn zeta. rewrite (proj1 (run_reader_2 m sys)). rewrite (Hq _ (Hm _)). unfold run_reader.
    by destruct (m (engine sys)) as [[]]. }
  cbn zeta. destruct ev; cbn [engine_step]; try done; cbn [concerns] in Hc;
    try (edestruct Hnew as [H1 H2]; [|split; [exact H1|left; exact H2]]; solve [auto with frame]);
    try (split; [done|left; apply Hq;
      match goal with |- quiet ?s (engine (run_unit ?m _)) => assert (preserves quiet m) as Hm by preserve; apply Hm end]; fail).
  - case_match; [|by auto]. unfold run_reader. destruct (dispatch_future _ _ _ Ht Hp (engine sys) packet Hl) as [E|[-> E]];
      destruct (_dispatch _ (engine sys)) as [[]]; cbn in *; auto.
  - case_match; [|by auto]. destruct (Hread (rejecting_oversized e)) as [H1 H2]; [auto with frame|auto].
  - case_match; [|by auto]. destruct (Hread put_resume) as [H1 H2]; [auto with frame|auto].
  - destruct (calls sys !! call) as [u|] eqn:E; [|by auto]. case_match; [destruct (Hfin call u (Some CancelledError) Hc); auto|].
    split; [done|]. left. unfold cancel_future. cbn [engine with_engine]. rewrite fut_state_insert, decide_False; [done|].
    intros Ef. apply (lk_inj _ _ Hl call n) in Ef; [|done..]. subst. by rewrite Nat.eqb_refl in Hc.
  - destruct (calls sys !! call) as [u|] eqn:E; [|by auto].
    case_match; [destruct (Hfin call u (Some (MQTTTimeoutError "")) Hc); auto|auto].
  - destruct (calls sys !! call) as [u|] eqn:E; [|by auto]. case_match; [destruct (Hfin call u None Hc); auto|auto].
  - split; [done|]. left. apply Hq. by apply quiet_same.
  - split; [done|]. left. destruct (disconnect_calm (engine sys)) as [_ H]. apply (Hq _ H).
Qed.

(** ** The connection under [run] *)

Definition conn_good (c : Connection) : Prop := exists v limit sys b, conn_ok v limit sys b c.

Lemma conn_good_event c ev : conn_good c -> received_packets [ev] = [] -> conn_good (engine_event ev c).
Proof. intros (v & l & sys & b & Hc) He. exists v, l, sys, b. by apply conn_ok_event. Qed.

Lemma iter_next_events c :
  conn_good c ->
  match (iter_next (c_buffer c)).1 with
  | Ok (Some p) => received_ok p
  | Ok None => True
  | Err e => parse_error e = true
  end.
Proof.
  intros (v & l & sys & b & Hc). destruct (co_buffer _ _ _ _ _ Hc) as (Hw & Hv & Hl).
  pose proof (iter_next_spec v l _ Hw Hv Hl) as Hn. pose proof (decode_tame (pending (c_buffer c)) v l) as Ht.
  destruct (decode (pending (c_buffer c)) v l) as [[[p n]|]|e] eqn:Hd.
  - destruct Hn as (b' & -> & _). cbn. by eapply decode_received_ok.
  - by destruct Hn as (-> & _).
  - by destruct Hn as (-> & _).
Qed.

(** What a step of the connection is to the engine. *)
Definition step_event (ev : conn_event) (e : event) : Prop :=
  match e with
  | EvReceive p => received_ok p
  | EvReadFails x => parse_error x = true \/ ev = CReadFails x
  | EvConnAck _ => False
  | _ => ev = CEngine e
  end.

Lemma conn_step_cases c ev :
  conn_good c -> let c' := conn_step c ev in
  conn_good c' /\
  ((c_system c' = c_system c /\ c_events c' = c_events c) \/
   exists e, c_system c' = engine_step (c_system c) e /\ c_events c' = c_events c ++ [e] /\ step_event ev e) /\
  (c_phase c' = REnded -> c_phase c = REnded \/ e_disconnecting (engine (c_system c)) = true).
Proof.
  intros Hg c'. split; [|split].
  - destruct Hg as (v & l & sys & b & Hc). exists v, l, sys, b. by apply conn_step_ok.
  - pose proof (iter_next_events c Hg) as Hn. subst c'. destruct ev as [|data|e|ev]; cbn [conn_step].
    + destruct (loop_free c && _); [|by left].
      destruct (iter_next (c_buffer c)) as [[[p|]|e] b]; cbn [fst] in Hn; [|by left|].
      * right. by exists (EvReceive p).
      * right. exists (EvReadFails e). split_and!; [done..|by left].
    + destruct (loop_free c && bool_decide (c_phase c = RReading)) eqn:E; [|by left].
      apply andb_true_iff in E as [_ E%bool_decide_eq_true]. destruct Hg as (v & l & sys & b & Hc).
      destruct (co_waits _ _ _ _ _ Hc) as [Hr _]; [by rewrite E|].
      destruct (feed_at_rest v l _ data Hr) as (b' & -> & _). by left.
    + destruct (loop_free c && _); [|by left]. destruct (is_disconnected e && _); [by left|].
      right. exists (EvReadFails e). split_and!; [done..|by right].
    + destruct (is_reader_event ev) eqn:E; [by left|]. right. exists ev. split_and!; [done..|]. by destruct ev.
  - subst c'. destruct ev as [|data|e|ev]; cbn [conn_step].
    + destruct (loop_free c && _); [|by left]. by destruct (iter_next (c_buffer c)) as [[[p|]|e] b]; cbn; auto.
    + destruct (loop_free c && _); [|by left]. destruct (feed _ _); cbn; auto. done.
    + destruct (loop_free c && _); [|by left]. destruct (is_disconnected e && _) eqn:E; cbn; [|by left].
      apply andb_true_iff in E as [_ E]. by right.
    + destruct (is_reader_event ev); cbn; by left.
Qed.

(** ** The invariant *)

Section invariant.
(** Keepalive in seconds, and when [run] was called. *)
Context (second write_timeout ping_timeout k start : Z).
Hypothesis Hsecond : 0 < second.
Hypothesis Hwrite : 0 <= write_timeout.
Hypothesis Htimeout : 0 <= ping_timeout.
Hypothesis Hk : 0 <= k.

Definition interval_min : Z := second * k.
Definition interval_max : Z := second * k + write_timeout + ping_timeout.

Fixpoint spaced (t : Z) (ts : list Z) : Prop :=
  match ts with
  | [] => True
  | t' :: ts' => interval_min <= t' - t <= interval_max /\ spaced t' ts'
  end.

Fixpoint last_after (t : Z) (ts : list Z) : Z :=
  match ts with [] => t | t' :: ts' => last_after t' ts' end.

Definition last_ping (ts : list Z) : Z := last_after start ts.

(** The exceptions of the ping loop. *)
Definition ping_error (e : exn) : Prop :=
  e = MQTTDisconnectedError "Connection lost" \/ e = MQTTTimeoutError "PINGRESP not received within timeout" \/
  e = ValueError "list.remove(x): x not in list".

Definition ping_ok (r : Run) : Prop :=
  let last := last_ping (r_pings r) in
  match r_ping r with
  | PSleeping due =>
    k <> 0 /\ interval_min <= due - last <= interval_max /\ last <= r_now r <= due /\ due <= r_now r + interval_min
  | PWriting n due =>
    k <> 0 /\ due = last + write_timeout /\ last <= r_now r <= due /\
    exists t, calls (r_system r) !! n = Some t /\ is_ping t = true /\
      (fut_state (r_engine r) (t_future t) = FPending \/ fut_state (r_engine r) (t_future t) = FResult VNone)
  | PWaiting n due =>
    k <> 0 /\ due <= last + write_timeout + ping_timeout /\ last <= r_now r <= due /\ due <= r_now r + ping_timeout /\
    exists t, calls (r_system r) !! n = Some t /\ is_ping t = true /\
      (fut_state (r_engine r) (t_future t) = FPending \/ fut_state (r_engine r) (t_future t) = FResult VNone)
  | PReturned => k = 0
  | PRaised e => ping_error e /\ is_Some (r_first r) /\ r_now r <= last + interval_max
  end.

Record active (r : Run) : Prop := {
  ac_system : system_ok (r_system r);
  ac_putting : putting_ok (r_engine r);
  ac_keepalive : e_effective_keepalive (r_engine r) = k;
  ac_dead : e_dead (r_engine r) = false;
  ac_ended : c_phase (r_conn r) = REnded -> e_disconnecting (r_engine r) = true;
  ac_failure : r_first r = None -> failure (r_system r) = None;
  ac_now : last_ping (r_pings r) <= r_now r;
  ac_ping : ping_ok r
}.

(** What reads of the transport may raise, and whether [run] may be cancelled. *)
Context (reads : exn -> Prop) (cancelled : Prop).

Definition run_error (e : exn) : Prop :=
  handler_error e = true \/ (parse_error e = true /\ too_large e = false) \/ reads e \/ ping_error e.

Definition stopped_ok (r : Run) (result : res unit) : Prop :=
  match result with
  | Ok _ => k = 0 /\ e_disconnecting (r_engine r) = true
  | Err e => (e = CancelledError /\ cancelled) \/ (run_error e /\ (is_exception e = true -> r_death_cause r = Some e))
  end.

Record run_ok (r : Run) : Prop := {
  rn_conn : conn_good (r_conn r);
  rn_spaced : spaced start (r_pings r);
  rn_none : k = 0 -> r_pings r = [];
  rn_first : forall e, r_first r = Some e -> run_error e;
  rn_stage : match r_stage r with
             | Running => active r
             | Stopping result => stopped_ok r result
             | Over result => stopped_ok r result /\ e_dead (r_engine r) = true
             end
}.

(** *** Entering a state of the ping loop *)

Lemma spaced_snoc t ts t' : spaced t (ts ++ [t']) <-> spaced t ts /\ interval_min <= t' - last_after t ts <= interval_max.
Proof. revert t; induction ts as [|x ts IH]; intros t; cbn; [tauto|]. rewrite IH. tauto. Qed.

Lemma last_ping_snoc ts t : last_ping (ts ++ [t]) = t.
Proof. unfold last_ping. generalize start as u. induction ts as [|x ts IH]; intros u; [done|apply IH]. Qed.

(** The first half of [ping]. *)
Lemma ping_begin_spec s :
  match ping_begin s with
  | (Ok (Suspended t), s') => is_ping t = true /\ fut_state s' (t_future t) = FPending
  | (Ok (Returned _), _) => False
  | (Err e, _) => e = MQTTDisconnectedError "Connection lost"
  end.
Proof.
  set (s1 := (create_future s).2). unfold ping_begin. unfold mbind at 1, M_bind at 1.
  change (create_future s) with (Ok (e_next_ref s), s1). cbn beta iota.
  assert (fut_state s1 (e_next_ref s) = FPending) as Hp.
  { unfold fut_state. change (e_futures s1) with (<[e_next_ref s := FPending]> (e_futures s)). by rewrite lookup_insert_eq. }
  unfold mbind, M_bind, send_packet, _encode, _send, mbind, M_bind. cbn [modify asks lift encode]. cbn beta iota.
  match goal with |- context [if ?b then _ else _] => destruct b end; done.
Qed.

(** The second half: with PINGRESP, and at the timeout. *)
Lemma ping_finish_pong t s :
  is_ping t = true -> fut_state s (t_future t) = FResult VNone -> (task_finish t None s).1 = Ok (Returned RNone).
Proof.
  destruct t as [[]]; try done. intros _ Hf. cbn [task_finish ping_finish] in *. cbn in Hf. unfold resumed, await_result, mbind, M_bind.
  by rewrite Hf.
Qed.

Lemma ping_finish_timeout t s msg :
  is_ping t = true -> exists e, (task_finish t (Some (MQTTTimeoutError msg)) s).1 = Err e /\
    (e = MQTTTimeoutError "PINGRESP not received within timeout" \/ e = ValueError "list.remove(x): x not in list").
Proof.
  destruct t as [[]]; try done. intros _. cbn [task_finish ping_finish]. unfold mbind at 1, M_bind at 1. cbn [asks].
  case_bool_decide; (eexists; split; [reflexivity|]); auto.
Qed.

(** *** A step of the connection *)

Lemma note_failure_same e r :
  r_conn (note_failure e r) = r_conn r /\ r_ping (note_failure e r) = r_ping r /\ r_now (note_failure e r) = r_now r /\
  r_stage (note_failure e r) = r_stage r /\ r_death_cause (note_failure e r) = r_death_cause r /\
  r_pings (note_failure e r) = r_pings r.
Proof. unfold note_failure. by destruct (r_first r). Qed.

Lemma note_failure_first e r x :
  r_first (note_failure e r) = Some x -> r_first r = Some x \/ (r_first r = None /\ e = Some x).
Proof. unfold note_failure. destruct (r_first r) eqn:E; [|by right]. rewrite E. by left. Qed.

Lemma note_failure_none e r : r_first (note_failure e r) = None -> r_first r = None /\ e = None.
Proof. unfold note_failure. destruct (r_first r) eqn:E; [congruence|done]. Qed.

(** The ping loop waits on. *)
Lemma ping_ok_step r c e :
  system_ok (r_system r) -> while_running e -> (forall n, own_call r n = true -> concerns n e = false) ->
  c_system c = engine_step (r_system r) e -> ping_ok r -> ping_ok (set_conn c r).
Proof.
  intros Hok He Hown Hc Hp. unfold ping_ok, own_call in *. cbn [set_conn r_ping r_pings r_now r_first] in *.
  assert (forall n, (forall m, (n =? m)%nat = true -> concerns m e = false) ->
    (exists t, calls (r_system r) !! n = Some t /\ is_ping t = true /\
       (fut_state (r_engine r) (t_future t) = FPending \/ fut_state (r_engine r) (t_future t) = FResult VNone)) ->
    exists t, calls (r_system (set_conn c r)) !! n = Some t /\ is_ping t = true /\
      (fut_state (r_engine (set_conn c r)) (t_future t) = FPending \/ fut_state (r_engine (set_conn c r)) (t_future t) = FResult VNone)) as Hcall.
  { intros n Hn (t & Ht & Hpt & Hft). exists t. unfold r_system, r_engine, r_system in *. cbn [set_conn r_conn]. rewrite Hc.
    destruct (ping_call_step _ e n t Hok He) as [Ht' Hft']; [apply Hn, Nat.eqb_refl|done..|].
    split; [done|]. split; [done|]. destruct Hft' as [->|[_ ->]]; auto. }
  destruct (r_ping r) as [due|n due|n due| |x] eqn:E; [done| | |done|done].
  - destruct Hp as (H1 & H2 & H3 & Hp). split_and!; [done..|lia|lia|]. by apply Hcall.
  - destruct Hp as (H1 & H2 & H3 & H4 & Hp). split_and!; [done..|lia|lia|lia|]. by apply Hcall.
Qed.

Lemma active_conn r ev :
  conn_good (r_conn r) -> active r -> permitted r ev = true -> (forall e, ev = CReadFails e -> reads e) ->
  (forall e, r_first r = Some e -> run_error e) ->
  let r' := note_failure (failure (c_system (conn_step (r_conn r) ev))) (set_conn (conn_step (r_conn r) ev) r) in
  active r' /\ (forall e, r_first r' = Some e -> run_error e).
Proof.
  intros Hc [Hsys Hput Hkeep Hdead Hend Hfail Hnow Hping] Hperm Hr Hf r'.
  destruct (conn_step_cases (r_conn r) ev Hc) as (_ & Hstep & Hended). cbn zeta in *. set (c' := conn_step (r_conn r) ev) in *.
  assert (Hown : forall e, step_event ev e -> forall n, own_call r n = true -> concerns n e = false).
  { intros e He n Hn. destruct e; cbn in *; try done; subst ev; cbn in Hperm; unfold own_call in *;
      (destruct (r_ping r) as [|m d|m d| |]; [done| | |done|done]); apply Nat.eqb_eq in Hn as ->; by apply negb_true_iff in Hperm. }
  assert (while_run : forall e, step_event ev e -> while_running e).
  { intros [] He; cbn in *; try done. subst ev. done. }
  assert (Hcalm : calm_step (r_engine r) (engine (c_system c'))).
  { destruct Hstep as [[-> _]|(e & -> & _ & He)]; [by split|]. by apply engine_step_calm, while_run. }
  assert (Hfail' : forall e, failure (c_system c') = Some e -> failure (r_system r) = Some e \/ run_error e).
  { intros e He. destruct Hstep as [[Es _]|(e' & Es & _ & He')]; rewrite Es in He; [by left|].
    apply engine_step_failure in He as [He|[He|[-> Hl]]]; [by left|right; by left|right|by apply while_run|done].
    destruct He' as [H| ->]; [right; by left|right; right; left; by apply Hr]. }
  destruct (note_failure_same (failure (c_system c')) (set_conn c' r)) as (E1 & E2 & E3 & E4 & E5 & E6).
  fold r' in E1, E2, E3, E4, E5, E6. cbn [set_conn r_conn r_ping r_now r_stage r_death_cause r_pings] in *.
  assert (Es : r_system r' = c_system c') by (unfold r_system; by rewrite E1).
  assert (Ee : r_engine r' = engine (c_system c')) by (unfold r_engine; by rewrite Es).
  split; [split; rewrite ?Es, ?Ee|].
  - destruct Hstep as [[-> _]|(e & -> & _ & _)]; [done|by apply engine_step_ok].
  - by apply Hcalm.
  - by rewrite (cs_keepalive _ _ Hcalm).
  - by rewrite (cs_dead _ _ Hcalm).
  - rewrite E1. intros [H|H]%Hended; apply Hcalm; [by apply Hend|done].
  - by intros [_ H]%note_failure_none.
  - by rewrite E3, E6.
  - assert (ping_ok (set_conn c' r)) as Hp.
    { destruct Hstep as [[Es' _]|(e & Es' & _ & He)]; [|eapply ping_ok_step; eauto].
      revert Hping. unfold ping_ok, r_engine, r_system. cbn [set_conn r_ping r_pings r_now r_conn r_first]. by rewrite Es'. }
    revert Hp. unfold ping_ok. rewrite E2, E3, E6, Es, Ee. cbn [set_conn r_ping r_pings r_now r_first].
    destruct (r_ping r); try done. intros (H1 & [x H2] & H3). split; [done|]. split; [|done].
    subst r'. unfold note_failure. cbn [set_conn r_first]. rewrite H2. by exists x.
  - intros e [H|[Hn H]]%note_failure_first; [by apply Hf|]. apply Hfail' in H as [H|H]; [|done].
    by rewrite (Hfail Hn) in H.
Qed.

Lemma run_ok_conn r ev :
  run_ok r -> permitted r ev = true -> (forall e, ev = CReadFails e -> reads e) ->
  run_ok (run_step second write_timeout ping_timeout r (RConn ev)).
Proof.
  intros [Hc Hs Hz Hf Hst] Hp Hr. cbn [run_step]. rewrite Hp.
  destruct (conn_step_cases (r_conn r) ev Hc) as (Hc' & Hstep & _). cbn zeta in *.
  unfold is_running. cbn [set_conn r_stage]. destruct (r_stage r) as [|res|res] eqn:Est.
  - destruct (active_conn r ev Hc Hst Hp Hr Hf) as [Ha Hf'].
    match type of Ha with active ?x => change (run_ok x) end.
    destruct (note_failure_same (failure (c_system (conn_step (r_conn r) ev))) (set_conn (conn_step (r_conn r) ev) r))
      as (E1 & _ & _ & E4 & _ & E6).
    split; [by rewrite E1|by rewrite E6|by rewrite E6|done|]. rewrite E4. cbn. by rewrite Est.
  - assert (calm_step (r_engine r) (engine (c_system (conn_step (r_conn r) ev)))) as Hcalm.
    { destruct Hstep as [[-> _]|(e & -> & _ & He)]; [by split|]. apply engine_step_calm. destruct e; cbn in *; try done. by subst ev. }
    split; cbn; try done. rewrite Est. destruct res; [|exact Hst]. split; [apply Hst|]. by apply Hcalm, Hst.
  - assert (calm_step (r_engine r) (engine (c_system (conn_step (r_conn r) ev)))) as Hcalm.
    { destruct Hstep as [[-> _]|(e & -> & _ & He)]; [by split|]. apply engine_step_calm. destruct e; cbn in *; try done. by subst ev. }
    split; cbn; try done. rewrite Est. destruct Hst as [Hst Hd]. split; [|by etransitivity; [apply Hcalm|]].
    destruct res; [|exact Hst]. split; [apply Hst|]. by apply Hcalm, Hst.
Qed.

(** The events of the ping loop. *)
Definition ping_event (e : event) : bool :=
  match e with EvPing | EvCancel _ | EvTimeout _ | EvResume _ => true | _ => false end.

Lemma ping_event_failure sys e : ping_event e = true -> failure (engine_step sys e) = failure sys.
Proof.
  destruct e; try done; intros _; cbn [engine_step]; [apply new_call_2|..];
    (destruct (calls sys !! call); [|done]); (case_match; [apply finish_2|done]).
Qed.

(** The engine steps, and the loop goes on in a new phase. *)
Lemma active_ping r e r' :
  conn_good (r_conn r) -> active r -> ping_event e = true ->
  r_conn r' = engine_event e (r_conn r) -> (r_first r' = None -> r_first r = None) ->
  last_ping (r_pings r') <= r_now r' -> ping_ok r' -> conn_good (r_conn r') /\ active r'.
Proof.
  intros Hc [Hsys Hput Hkeep Hdead Hend Hfail Hnow Hping] Hev Ec Ef Hnow' Hp'.
  assert (He : while_running e) by (by destruct e).
  pose proof (engine_step_calm (r_system r) e He) as Hcalm.
  assert (Es : r_system r' = engine_step (r_system r) e) by (unfold r_system at 1; by rewrite Ec).
  assert (Ee : r_engine r' = engine (engine_step (r_system r) e)) by (unfold r_engine; by rewrite Es).
  split; [rewrite Ec; apply conn_good_event; [done|by destruct e]|].
  split; rewrite ?Es, ?Ee; try done.
  - by apply engine_step_ok.
  - by apply Hcalm.
  - by rewrite (cs_keepalive _ _ Hcalm).
  - by rewrite (cs_dead _ _ Hcalm).
  - rewrite Ec. cbn. intros H. by apply Hcalm, Hend.
  - intros Hn. rewrite ping_event_failure by done. by apply Hfail, Ef.
Qed.

(** It ends in an exception. *)
Lemma run_ok_raises r e x :
  run_ok r -> r_stage r = Running -> active r -> ping_event e = true -> ping_error x ->
  r_now r <= last_ping (r_pings r) + interval_max ->
  run_ok (ping_raises x (set_conn (engine_event e (r_conn r)) r)).
Proof.
  intros [Hc Hs Hz Hf Hst] Est Ha He Hx Hlate. unfold ping_raises.
  set (r1 := set_ping (PRaised x) (set_conn (engine_event e (r_conn r)) r)).
  destruct (note_failure_same (Some x) r1) as (E1 & E2 & E3 & E4 & E5 & E6).
  assert (is_Some (r_first (note_failure (Some x) r1))) as Hsome.
  { unfold note_failure. destruct (r_first r1) eqn:E; [rewrite E|]; by eexists. }
  destruct (active_ping r e (note_failure (Some x) r1)) as [Hg Ha']; try done.
  - by intros [_ H]%note_failure_none.
  - rewrite E3, E6. apply Ha.
  - unfold ping_ok. rewrite E2, E3, E6. done.
  - split; [done|by rewrite E6|by rewrite E6|..|rewrite E4; cbn; by rewrite Est].
    intros y [H|[_ [= <-]]]%note_failure_first; [by apply Hf|]. by do 3 right.
Qed.

Lemma run_ok_wake r due :
  run_ok r -> r_stage r = Running -> r_ping r = PSleeping due -> due <= r_now r -> run_ok (wake write_timeout r).
Proof.
  intros Hok Est Ep Hdue. pose proof (rn_stage _ Hok) as Ha. rewrite Est in Ha. pose proof (ac_ping _ Ha) as Hp.
  unfold ping_ok in Hp. rewrite Ep in Hp. destruct Hp as (H1 & H2 & H3 & H4).
  pose proof (ping_begin_spec (r_engine r)) as Hb. unfold wake.
  destruct (ping_begin (r_engine r)) as [[[v|t]|x] s'] eqn:Eb; cbn [fst]; [done| |].
  - destruct Hok as [Hc Hs Hz Hf _].
    match goal with |- run_ok ?r1 => set (r' := r1) end.
    destruct (active_ping r EvPing r') as [Hg Ha']; try done.
    + subst r'. cbn. rewrite last_ping_snoc. lia.
    + unfold ping_ok. subst r'. cbn [r_ping set_pings set_ping r_pings r_now]. rewrite last_ping_snoc.
      split_and!; [done|done|cbn; lia|cbn; lia|]. exists t. unfold r_system, r_engine, r_system. cbn [set_conn set_ping set_pings r_conn engine_event c_system].
      cbn [engine_step]. unfold new_call. change (engine (c_system (r_conn r))) with (r_engine r). rewrite Eb. cbn [settle calls engine].
      rewrite lookup_insert_eq. destruct Hb as [Hb1 Hb2]. auto.
    + split; [done| |by intros|done|]; subst r'; cbn [r_stage set_pings set_ping set_conn r_pings].
      * apply spaced_snoc. split; [done|]. unfold last_ping in *. lia.
      * by rewrite Est.
  - subst x. apply run_ok_raises; try done; [by left|lia].
Qed.

Lemma run_ok_written r n due :
  run_ok r -> r_stage r = Running -> r_ping r = PWriting n due -> run_ok (set_ping (PWaiting n (r_now r + ping_timeout)) r).
Proof.
  intros [Hc Hs Hz Hf Hst] Est Ep. split; try done. cbn [set_ping r_stage]. rewrite Est in *.
  destruct Hst as [H1 H2 H3 H4 H5 H6 H7 H8]. split; try done. unfold ping_ok in *. rewrite Ep in H8. cbn [set_ping r_ping r_pings r_now].
  destruct H8 as (E1 & E2 & E3 & t & Ht). split_and!; [done|lia..|]. by exists t.
Qed.

Lemma run_ok_write_fails r n due :
  run_ok r -> r_stage r = Running -> r_ping r = PWriting n due -> run_ok (ping_write_fails n r).
Proof.
  intros Hok Est Ep. pose proof (rn_stage _ Hok) as Ha. rewrite Est in Ha. pose proof (ac_ping _ Ha) as Hp.
  unfold ping_ok in Hp. rewrite Ep in Hp. destruct Hp as (H1 & H2 & H3 & _). apply run_ok_raises; try done; [by left|].
  unfold interval_max. nia.
Qed.

Lemma run_ok_resume r n due thrown e :
  run_ok r -> r_stage r = Running -> r_ping r = PWaiting n due -> ping_event e = true ->
  (thrown = None /\ ping_pending r n = false \/ exists msg, thrown = Some (MQTTTimeoutError msg)) ->
  run_ok (resume_ping second n thrown e r).
Proof.
  intros Hok Est Ep He Hth. pose proof (rn_stage _ Hok) as Ha. rewrite Est in Ha. pose proof (ac_ping _ Ha) as Hp.
  unfold ping_ok in Hp. rewrite Ep in Hp. destruct Hp as (H1 & H2 & H3 & H4 & t & Ht & Hpt & Hft). unfold resume_ping. rewrite Ht.
  destruct Hth as [[-> Hpend]|[msg ->]].
  - unfold ping_pending in Hpend. rewrite Ht in Hpend. apply negb_false_iff in Hpend.
    destruct Hft as [Hft|Hft]; [by rewrite Hft in Hpend|]. rewrite (ping_finish_pong t _ Hpt Hft).
    destruct Hok as [Hc Hs Hz Hf _]. match goal with |- run_ok ?r1 => set (r' := r1) end.
    assert (e_effective_keepalive (engine (engine_step (r_system r) e)) = k) as Hkeep.
    { rewrite (cs_keepalive _ _ (engine_step_calm (r_system r) e ltac:(by destruct e))). apply Ha. }
    destruct (active_ping r e r') as [Hg Ha']; try done.
    + subst r'. cbn. apply Ha.
    + unfold ping_ok. subst r'. cbn [r_ping sleep_again set_ping set_conn r_pings r_now].
      unfold r_engine, r_system. cbn [set_conn r_conn engine_event c_system]. unfold r_system in Hkeep. rewrite Hkeep.
      unfold interval_min, interval_max. split_and!; [done|lia..].
    + split; [done..|]. subst r'. cbn. by rewrite Est.
  - destruct (ping_finish_timeout t (r_engine r) msg Hpt) as (x & -> & Hx). apply run_ok_raises; try done; [by right|].
    unfold interval_max. nia.
Qed.

Lemma run_ok_stop r result :
  run_ok r -> r_stage r = Running -> active r ->
  (forall r', e_disconnecting (r_engine r') = e_disconnecting (r_engine r) ->
    r_death_cause r' = (match result with Err e => if is_exception e then Some e else r_death_cause r | Ok _ => r_death_cause r end) ->
    stopped_ok r' result) ->
  run_ok (stop_run result r).
Proof.
  intros [Hc Hs Hz Hf _] Est Ha Hres. unfold stop_run.
  set (r1 := match result with Err e => _ | Ok _ => r end).
  assert (r_conn r1 = r_conn r /\ r_pings r1 = r_pings r /\ r_first r1 = r_first r /\ r_ping r1 = r_ping r /\
    r_death_cause r1 = (match result with Err e => if is_exception e then Some e else r_death_cause r | Ok _ => r_death_cause r end))
    as (E1 & E2 & E3 & E4 & E5) by (subst r1; destruct result as [[]|e]; [|destruct (is_exception e)]; done).
  clearbody r1. rewrite E4.
  destruct (r_ping r) as [due|n due|n due| |x] eqn:Ep.
  2-3: split; cbn; rewrite ?E1, ?E2, ?E3; [by apply conn_good_event|done..|]; apply Hres; [|exact E5];
    change (e_disconnecting (engine (engine_step (r_system r) (EvCancel n))) = e_disconnecting (engine (r_system r)));
    set (sys := r_system r); cbn [engine_step]; (destruct (calls sys !! n) as [t|]; [|done]);
    (destruct (_ || _); [|done]); rewrite (proj1 (finish_2 n t (Some CancelledError) sys)); apply quiet_task_finish.
  all: split; cbn; rewrite ?E1, ?E2, ?E3; try done; apply Hres; try done;
    unfold r_engine, r_system; cbn [set_stage set_ping set_conn r_conn]; by rewrite E1.
Qed.

Lemma run_finally_same s : e_disconnecting (run_finally s).2 = e_disconnecting s /\ e_dead (run_finally s).2 = true.
Proof. done. Qed.

Theorem run_step_ok r ev :
  run_ok r -> (forall e, ev = RConn (CReadFails e) -> reads e) -> (ev = RCancel -> cancelled) ->
  run_ok (run_step second write_timeout ping_timeout r ev).
Proof.
  intros Hok Hr Hcan. pose proof (rn_stage _ Hok) as Hst. destruct ev as [ev|d| | | | | | | |].
  - destruct (permitted r ev) eqn:Hp; [|cbn; by rewrite Hp]. apply run_ok_conn; [done..|]. intros e ->. by apply Hr.
  - cbn [run_step]. destruct ((0 <=? d) && may_wait (r_now r + d) r) eqn:E; [|done].
    apply andb_true_iff in E as [Hd%Z.leb_le Hm]. destruct Hok as [Hc Hs Hz Hf _]. split; try done.
    cbn [set_now r_stage]. unfold may_wait in Hm. destruct (r_stage r) eqn:Est; [|done|exact Hst].
    destruct Hst as [H1 H2 H3 H4 H5 H6 H7 H8]. split; try done; [change (last_ping (r_pings r) <= r_now r + d); lia|].
    revert H8. unfold ping_ok in *. cbn [set_now r_ping r_pings r_now r_first]. destruct (gathered r) eqn:Eg; [done|].
    destruct (r_ping r) as [due|n due|n due| |x]; try done.
    + apply Z.leb_le in Hm. intros (? & ? & ? & ?). split_and!; [done|lia..].
    + apply Z.leb_le in Hm. intros (? & ? & ? & t & ? & ? & ?). split_and!; [done|lia..|]. by exists t.
    + apply andb_true_iff in Hm as [Hm%Z.leb_le _]. intros (? & ? & ? & ? & t & ? & ? & ?). split_and!; [done|lia..|]. by exists t.
    + intros (_ & [y Hy] & _). unfold gathered in Eg. by rewrite Hy in Eg.
  - cbn [run_step]. destruct (r_stage r) eqn:Est; [|done..]. destruct (r_ping r) as [due| | | |] eqn:Ep; [|done..].
    destruct (due <=? r_now r) eqn:E; [|done]. apply Z.leb_le in E. by eapply run_ok_wake.
  - cbn [run_step]. destruct (r_stage r) eqn:Est; [|done..]. destruct (r_ping r) as [|n due| | |] eqn:Ep; try done. by eapply run_ok_written.
  - cbn [run_step]. destruct (r_stage r) eqn:Est; [|done..]. destruct (r_ping r) as [|n due| | |] eqn:Ep; try done. by eapply run_ok_write_fails.
  - cbn [run_step]. destruct (r_stage r) eqn:Est; [|done..]. destruct (r_ping r) as [| |n due| |] eqn:Ep; try done.
    destruct (ping_pending r n) eqn:E; [done|]. eapply run_ok_resume; eauto.
  - cbn [run_step]. destruct (r_stage r) eqn:Est; [|done..]. destruct (r_ping r) as [| |n due| |] eqn:Ep; try done.
    destruct (due <=? r_now r) eqn:E; [|done]. eapply run_ok_resume; eauto.
  - cbn [run_step]. unfold is_running. destruct (r_stage r) eqn:Est; [|done..]. apply run_ok_stop; try done. intros; left. auto.
  - cbn [run_step]. unfold is_running. destruct (r_stage r) eqn:Est; [|done..]. destruct (gathered r) as [res|] eqn:Eg; [|done].
    apply run_ok_stop; try done. intros r' E1 E2. unfold gathered in Eg. destruct (r_first r) as [e|] eqn:Ef.
    + injection Eg as <-. right. split; [by apply (rn_first _ Hok)|]. intros He. by rewrite E2, He.
    + destruct (r_ping r) eqn:Ep, (c_phase (r_conn r)) eqn:Ec; try done. injection Eg as <-. cbn.
      pose proof (ac_ping _ Hst) as Hp. unfold ping_ok in Hp. rewrite Ep in Hp. split; [done|]. rewrite E1. by apply Hst.
  - cbn [run_step]. destruct (r_stage r) eqn:Est; [done| |done]. destruct Hok as [Hc Hs Hz Hf _].
    split; cbn; try done; [by apply conn_good_event|].
    assert (forall sys, e_disconnecting (engine (engine_step sys EvRunEnds)) = e_disconnecting (engine sys) /\
      e_dead (engine (engine_step sys EvRunEnds)) = true) as Hend.
    { intros sys. cbn [engine_step]. destruct (e_dead (engine sys)) eqn:E; done. }
    destruct (Hend (r_system r)) as [E1 E2]. split; [|exact E2].
    destruct result as [[]|e]; [|exact Hst]. split; [apply Hst|]. by etransitivity; [exact E1|apply Hst].
Qed.

Lemma run_steps_ok r evs :
  run_ok r -> (forall e, RConn (CReadFails e) ∈ evs -> reads e) -> (RCancel ∈ evs -> cancelled) ->
  run_ok (run_steps second write_timeout ping_timeout r evs).
Proof.
  revert r; induction evs as [|ev evs IH]; intros r Hok Hr Hcan; [done|]. cbn. apply IH.
  - apply run_step_ok; [done| |]; [intros e ->; apply Hr|intros ->; apply Hcan]; by left.
  - intros e He. apply Hr. by right.
  - intros He. apply Hcan. by right.
Qed.

(** *** The start *)

(** A connection after its handshake, before anything ran. *)
Record ready (c : Connection) : Prop := {
  rd_conn : conn_good c;
  rd_system : reachable (c_system c);
  rd_putting : e_putting (engine (c_system c)) = None;
  rd_dead : e_dead (engine (c_system c)) = false;
  rd_failure : failure (c_system c) = None;
  rd_phase : c_phase c = RIterating;
  rd_keepalive : e_effective_keepalive (engine (c_system c)) = k
}.

Lemma run_begin_ok c : ready c -> run_ok (run_begin second start c).
Proof.
  intros [H1 H2 H3 H4 H5 H6 H7]. unfold run_begin, r_engine, r_system. cbn [r_conn]. rewrite H7.
  assert (forall p, ping_ok (mkRun c p start None Running None true []) -> run_ok (mkRun c p start None Running None true [])) as H.
  { intros p Hp. split; try done. cbn. split; try done.
    - by apply reachable_ok.
    - intros r x. unfold r_engine, r_system. cbn. by rewrite H3.
    - cbn. by rewrite H6. }
  destruct (k =? 0) eqn:E; zbool; apply H; [by cbn|]. unfold ping_ok. cbn. unfold r_engine, r_system. cbn. rewrite H7.
  unfold interval_min, interval_max. split_and!; [done|lia..].
Qed.
End invariant.

(** ** The first PINGREQ *)

Section first_ping.
Context (second write_timeout ping_timeout k start : Z).
Hypothesis Hsecond : 0 < second.
Hypothesis Hwrite : 0 <= write_timeout.
Hypothesis Htimeout : 0 <= ping_timeout.
Hypothesis Hk : 0 <= k.
Context (reads : exn -> Prop) (cancelled : Prop).

(** It is sent when the first sleep is over. *)
Definition first_ok (r : Run) : Prop :=
  (forall t ts, r_pings r = t :: ts -> t = start + second * k) /\
  match r_ping r with
  | PSleeping due => r_pings r = [] -> due = start + second * k
  | PWriting _ _ | PWaiting _ _ => r_pings r <> []
  | PReturned | PRaised _ => True
  end.

Lemma first_same r r' : r_pings r' = r_pings r -> r_ping r' = r_ping r -> first_ok r -> first_ok r'.
Proof. unfold first_ok. by intros -> ->. Qed.

Lemma first_raised r x e c : first_ok r -> first_ok (note_failure e (set_ping (PRaised x) (set_conn c r))).
Proof. intros [H _]. unfold first_ok. destruct (note_failure_same e (set_ping (PRaised x) (set_conn c r))) as (_ & -> & _ & _ & _ & ->). by split. Qed.

Lemma first_stop result r : first_ok r -> first_ok (stop_run result r).
Proof.
  intros [H1 H2]. unfold stop_run. set (r1 := match result with Err e => _ | Ok _ => r end).
  assert (r_pings r1 = r_pings r /\ r_ping r1 = r_ping r) as [E1 E2] by (subst r1; destruct result as [|e]; [|destruct (is_exception e)]; done).
  clearbody r1. unfold first_ok. destruct (r_ping r1) eqn:E; cbn; rewrite ?E, ?E1; split; try done; by rewrite <-E2, E in H2.
Qed.

Lemma first_step r ev :
  run_ok second write_timeout ping_timeout k start reads cancelled r -> first_ok r ->
  first_ok (run_step second write_timeout ping_timeout r ev).
Proof.
  intros Hok Hf. pose proof (rn_stage _ _ _ _ _ _ _ _ Hok) as Hst.
  assert (forall n due thrown e, r_ping r = PWaiting n due -> first_ok (resume_ping second n thrown e r)) as Hres.
  { intros n due thrown e Ep. destruct Hf as [H1 H2]. rewrite Ep in H2. unfold resume_ping. destruct (calls _ !! n); [|split; [done|by rewrite Ep]].
    destruct (task_finish _ _ _).1; [split; [done|by cbn; intros E%H2]|]. unfold ping_raises. apply first_raised. split; [done|by rewrite Ep]. }
  destruct ev as [ev|d| | | | | | | |]; cbn [run_step].
  - destruct (permitted r ev); [|done]. unfold is_running. cbn [set_conn r_stage]. destruct (r_stage r); [|by apply (first_same r)..].
    match goal with |- first_ok (note_failure ?e ?r1) => destruct (note_failure_same e r1) as (_ & E1 & _ & _ & _ & E2) end. by apply (first_same r).
  - destruct (_ && _); [|done]. by apply (first_same r).
  - destruct (r_stage r) eqn:Est; [|done..]. destruct (r_ping r) as [due| | | |] eqn:Ep; [|done..]. destruct (due <=? r_now r) eqn:E; [|done].
    apply Z.leb_le in E. pose proof (ac_ping _ _ _ _ _ _ Hst) as Hp. unfold ping_ok in Hp. rewrite Ep in Hp. destruct Hp as (_ & _ & Hp & _).
    pose proof Hf as [H1 H2]. rewrite Ep in H2. unfold wake. destruct (ping_begin _).1 as [t|x].
    + split; cbn [r_pings set_pings r_ping set_ping]; [|by destruct (r_pings r)]. cbn [set_conn r_pings r_now]. destruct (r_pings r) as [|t0 ts0]; intros u us [= <- _]; [|by eapply H1].
      specialize (H2 eq_refl). lia.
    + unfold ping_raises. by apply first_raised.
  - destruct (r_stage r); [|done..]. pose proof Hf as [H1 H2]. destruct (r_ping r) as [|n due| | |] eqn:Ep; done.
  - destruct (r_stage r); [|done..]. destruct (r_ping r) as [|n due| | |] eqn:Ep; try done. unfold ping_write_fails, ping_raises. by apply first_raised.
  - destruct (r_stage r); [|done..]. destruct (r_ping r) as [| |n due| |] eqn:Ep; try done. destruct (ping_pending r n); [done|]. by eapply Hres.
  - destruct (r_stage r); [|done..]. destruct (r_ping r) as [| |n due| |] eqn:Ep; try done. destruct (due <=? r_now r); [|done]. by eapply Hres.
  - destruct (is_running r); [|done]. by apply first_stop.
  - destruct (is_running r); [|done]. destruct (gathered r); [|done]. by apply first_stop.
  - destruct (r_stage r); [done| |done]. by apply (first_same r).
Qed.

Lemma first_steps r evs :
  run_ok second write_timeout ping_timeout k start reads cancelled r -> first_ok r ->
  (forall e, RConn (CReadFails e) ∈ evs -> reads e) -> (RCancel ∈ evs -> cancelled) ->
  first_ok (run_steps second write_timeout ping_timeout r evs).
Proof.
  revert r; induction evs as [|ev evs IH]; intros r Hok Hf Hr Hcan; [done|]. cbn. apply IH.
  - apply run_step_ok; try done; [intros e ->; apply Hr|intros ->; apply Hcan]; by left.
  - by apply first_step.
  - intros e He. apply Hr. by right.
  - intros He. apply Hcan. by right.
Qed.

Lemma first_begin c : e_effective_keepalive (engine (c_system c)) = k -> first_ok (run_begin second start c).
Proof.
  intros E. unfold run_begin, r_engine, r_system. cbn [r_conn]. rewrite E. unfold first_ok. destruct (k =? 0); [done|].
  cbn. unfold r_engine, r_system. cbn. by rewrite E.
Qed.
End first_ping.

(** ** A broker that does not answer *)

Section silence.
Context (second write_timeout ping_timeout k start : Z).
Hypothesis Hsecond : 0 < second.
Hypothesis Hwrite : 0 <= write_timeout.
Hypothesis Htimeout : 0 <= ping_timeout.
Hypothesis Hk : 0 < k.
Context (reads : exn -> Prop) (cancelled : Prop).
Abbreviation run_ok' := (run_ok second write_timeout ping_timeout k start reads cancelled).

Definition is_pong (e : event) : bool := match e with EvReceive PPingResp => true | _ => false end.

(** How many PINGRESPs the read loop has dispatched. *)
Definition pongs (r : Run) : nat := length (List.filter is_pong (c_events (r_conn r))).

(** What is left of the timeout of a PINGREQ that is being written: it may have been answered already. *)
Definition writing_left (r : Run) : Z := match r_ping r with PWriting _ due => due - r_now r | _ => 0 end.

(** No PINGRESP has been dispatched since [since - left]; a write that was under way then has had [left]. *)
Definition unanswered (since : Z) (r : Run) : Prop :=
  r_stage r = Running ->
  match r_ping r with
  | PSleeping due => due <= since + second * k
  | PWriting n due =>
    due <= since + second * k + write_timeout /\ (ping_pending r n = false -> due <= since)
  | PWaiting n due =>
    due <= since + second * k + write_timeout + ping_timeout /\ (ping_pending r n = false -> r_now r <= since)
  | PReturned => False
  | PRaised _ => r_now r <= since + second * k + write_timeout + ping_timeout
  end.

Lemma pongs_event e r c : c_events c = c_events (r_conn r) ++ [e] -> pongs (set_conn c r) = (pongs r + Nat.b2n (is_pong e))%nat.
Proof.
  intros E. unfold pongs. cbn [set_conn r_conn]. rewrite E, List.filter_app, length_app. cbn. by destruct (is_pong e).
Qed.

Lemma unanswered_conn since r ev :
  run_ok' r -> r_stage r = Running -> permitted r ev = true -> unanswered since r ->
  pongs (set_conn (conn_step (r_conn r) ev) r) = pongs r -> unanswered since (set_conn (conn_step (r_conn r) ev) r).
Proof.
  intros Hok Est Hperm Hu Hpong _. specialize (Hu Est). cbn [set_conn r_ping r_now].
  pose proof (rn_stage _ _ _ _ _ _ _ _ Hok) as Ha. rewrite Est in Ha.
  destruct (conn_step_cases (r_conn r) ev (rn_conn _ _ _ _ _ _ _ _ Hok)) as (_ & Hstep & _). cbn zeta in Hstep.
  pose proof (ac_ping _ _ _ _ _ _ Ha) as Hping. unfold ping_ok in Hping.
  enough (forall n, own_call r n = true -> (exists t, calls (r_system r) !! n = Some t /\ is_ping t = true) ->
    ping_pending (set_conn (conn_step (r_conn r) ev) r) n = ping_pending r n) as Hsame.
  { unfold own_call in Hsame. destruct (r_ping r) as [due|n due|n due| |x]; try done; destruct Hu as [H1 H2]; (split; [done|]);
      rewrite Hsame; try done; [apply Nat.eqb_refl|naive_solver|apply Nat.eqb_refl|naive_solver]. }
  intros n Hown (t & Ht & Hpt). unfold ping_pending, r_engine, r_system in *. cbn [set_conn r_conn].
  destruct Hstep as [[-> _]|(e & Es & Ee & He)]; [done|]. rewrite Es, Ht.
  rewrite (pongs_event e r) in Hpong by done.
  destruct (ping_call_step (c_system (r_conn r)) e n t) as [-> Hf]; try done.
  - by apply Ha.
  - destruct e; cbn in *; try done. by subst ev.
  - destruct e; cbn in *; try done; subst ev; cbn in Hperm; apply negb_true_iff in Hperm;
      (destruct (n =? _)%nat eqn:En; [|done]); apply Nat.eqb_eq in En; subst; congruence.
  - destruct Hf as [->|[-> _]]; [done|]. cbn in Hpong. lia.
Qed.

Lemma unanswered_note since e r : unanswered since r -> unanswered since (note_failure e r).
Proof. unfold unanswered, ping_pending, note_failure, r_engine, r_system. by destruct (r_first r). Qed.

Lemma unanswered_stopped since r : r_stage r <> Running -> unanswered since r.
Proof. by intros H ?. Qed.

Lemma stop_stage result r : r_stage (stop_run result r) = Stopping result.
Proof. unfold stop_run. by destruct (match result with Ok _ => r | Err e => _ end). Qed.

Lemma unanswered_resume since r n due thrown e :
  run_ok' r -> r_stage r = Running -> r_ping r = PWaiting n due -> unanswered since r ->
  (thrown = None /\ ping_pending r n = false \/ exists msg, thrown = Some (MQTTTimeoutError msg)) -> ping_event e = true ->
  unanswered since (resume_ping second n thrown e r).
Proof.
  intros Hok Est Ep Hu Hth He _. specialize (Hu Est). rewrite Ep in Hu. destruct Hu as [H1 H2].
  pose proof (rn_stage _ _ _ _ _ _ _ _ Hok) as Ha. rewrite Est in Ha. pose proof (ac_ping _ _ _ _ _ _ Ha) as Hp.
  unfold ping_ok in Hp. rewrite Ep in Hp. destruct Hp as (_ & _ & H3 & _ & t & Ht & Hpt & Hft). unfold resume_ping. rewrite Ht.
  destruct Hth as [[-> Hpend]|[msg ->]].
  - specialize (H2 Hpend). unfold ping_pending in Hpend. rewrite Ht in Hpend. apply negb_false_iff in Hpend.
    destruct Hft as [Hft|Hft]; [by rewrite Hft in Hpend|]. rewrite (ping_finish_pong t _ Hpt Hft). cbn [sleep_again set_ping r_ping].
    cbn [set_conn r_now]. unfold r_engine, r_system. cbn [set_conn r_conn engine_event c_system].
    assert (while_running e) as Hw by (by destruct e).
    pose proof (cs_keepalive _ _ (engine_step_calm (c_system (r_conn r)) e Hw)) as ->.
    rewrite (ac_keepalive _ _ _ _ _ _ Ha : e_effective_keepalive (engine (c_system (r_conn r))) = k). lia.
  - destruct (ping_finish_timeout t (r_engine r) msg Hpt) as (x & -> & _). unfold ping_raises.
    set (r1 := set_ping (PRaised x) _). destruct (note_failure_same (Some x) r1) as (_ & -> & -> & _). cbn. lia.
Qed.

Lemma unanswered_step since r ev :
  run_ok' r -> unanswered since r -> pongs (run_step second write_timeout ping_timeout r ev) = pongs r ->
  unanswered since (run_step second write_timeout ping_timeout r ev).
Proof.
  intros Hok Hu Hpong. destruct ev as [ev|d| | | | | | | |]; cbn [run_step] in *.
  - destruct (permitted r ev) eqn:Hperm; [|done]. unfold is_running in *. cbn [set_conn r_stage] in *.
    destruct (r_stage r) eqn:Est; [|apply unanswered_stopped; cbn; by rewrite Est..].
    apply unanswered_note, unanswered_conn; try done. revert Hpong. unfold pongs.
    by destruct (note_failure_same (failure (r_system (set_conn (conn_step (r_conn r) ev) r))) (set_conn (conn_step (r_conn r) ev) r)) as (-> & _).
  - destruct (_ && _) eqn:E; [|done]. apply andb_true_iff in E as [_ Hm]. intros Est. specialize (Hu Est).
    unfold may_wait in Hm. cbn in Est. rewrite Est in Hm. cbn [set_now r_ping r_now]. destruct (gathered r) eqn:Eg; [done|].
    destruct (r_ping r) as [due|n due|n due| |x] eqn:Ep; try done.
    + destruct Hu as [H1 _]. split; [done|]. apply andb_true_iff in Hm as [_ Hm].
      intros Hn. change (ping_pending r n = false) in Hn. congruence.
    + pose proof (rn_stage _ _ _ _ _ _ _ _ Hok) as Ha. rewrite Est in Ha. pose proof (ac_ping _ _ _ _ _ _ Ha) as Hp.
      unfold ping_ok in Hp. rewrite Ep in Hp. destruct Hp as (_ & [y Hy] & _). unfold gathered in Eg. by rewrite Hy in Eg.
  - destruct (r_stage r) eqn:Est; [|done..]. destruct (r_ping r) as [due| | | |] eqn:Ep; [|done..].
    destruct (due <=? r_now r) eqn:E; [|done]. apply Z.leb_le in E. specialize (Hu Est). rewrite Ep in Hu.
    pose proof (rn_stage _ _ _ _ _ _ _ _ Hok) as Ha. rewrite Est in Ha. pose proof (ac_ping _ _ _ _ _ _ Ha) as Hp.
    unfold ping_ok in Hp. rewrite Ep in Hp. pose proof (ping_begin_spec (r_engine r)) as Hb. unfold wake.
    destruct (ping_begin (r_engine r)) as [[[v|t]|x] s'] eqn:Eb; cbn [fst]; [done| |].
    + intros _. cbn [r_ping set_pings set_ping]. split; [lia|]. unfold ping_pending, r_system, r_engine, r_system.
      cbn [set_pings set_ping set_conn r_conn engine_event c_system engine_step]. unfold new_call.
      change (engine (c_system (r_conn r))) with (r_engine r). rewrite Eb. cbn [settle calls engine].
      rewrite lookup_insert_eq. destruct Hb as [_ ->]. done.
    + unfold ping_raises. intros _. set (r1 := set_ping (PRaised x) _).
      destruct (note_failure_same (Some x) r1) as (_ & -> & -> & _). cbn. lia.
  - destruct (r_stage r) eqn:Est; [|done..]. destruct (r_ping r) as [|n due| | |] eqn:Ep; try done. specialize (Hu Est). rewrite Ep in Hu.
    pose proof (rn_stage _ _ _ _ _ _ _ _ Hok) as Ha. rewrite Est in Ha. pose proof (ac_ping _ _ _ _ _ _ Ha) as Hp.
    unfold ping_ok in Hp. rewrite Ep in Hp. intros _. cbn [set_ping r_ping r_now]. destruct Hu as [H1 H2], Hp as (_ & _ & H3 & _).
    split; [lia|]. change (ping_pending (set_ping (PWaiting n (r_now r + ping_timeout)) r) n) with (ping_pending r n). intros Hn. specialize (H2 Hn). lia.
  - destruct (r_stage r) eqn:Est; [|done..]. destruct (r_ping r) as [|n due| | |] eqn:Ep; try done. specialize (Hu Est). rewrite Ep in Hu.
    pose proof (rn_stage _ _ _ _ _ _ _ _ Hok) as Ha. rewrite Est in Ha. pose proof (ac_ping _ _ _ _ _ _ Ha) as Hp.
    unfold ping_ok in Hp. rewrite Ep in Hp. unfold ping_write_fails, ping_raises. intros _. set (r1 := set_ping (PRaised _) _).
    destruct (note_failure_same (Some (MQTTDisconnectedError "Connection lost")) r1) as (_ & -> & -> & _). cbn. lia.
  - destruct (r_stage r) eqn:Est; [|done..]. destruct (r_ping r) as [| |n due| |] eqn:Ep; try done.
    destruct (ping_pending r n) eqn:E; [done|]. eapply unanswered_resume; eauto.
  - destruct (r_stage r) eqn:Est; [|done..]. destruct (r_ping r) as [| |n due| |] eqn:Ep; try done.
    destruct (due <=? r_now r) eqn:E; [|done]. eapply unanswered_resume; eauto.
  - destruct (is_running r); [|done]. apply unanswered_stopped. by rewrite stop_stage.
  - destruct (is_running r); [|done]. destruct (gathered r); [|done]. apply unanswered_stopped. by rewrite stop_stage.
  - destruct (r_stage r) eqn:Est; [done| |done]. by apply unanswered_stopped.
Qed.

(** Nothing is forgotten. *)
Lemma pongs_grow r ev : conn_good (r_conn r) -> (pongs r <= pongs (run_step second write_timeout ping_timeout r ev))%nat.
Proof.
  intros Hc. assert (forall r', (exists l, c_events (r_conn r') = c_events (r_conn r) ++ l) -> (pongs r <= pongs r')%nat) as Hl.
  { intros r' [l E]. unfold pongs. rewrite E, List.filter_app, length_app. lia. }
  assert (Hid : forall r', r_conn r' = r_conn r -> exists l, c_events (r_conn r') = c_events (r_conn r) ++ l)
    by (intros r' ->; exists []; by rewrite app_nil_r).
  assert (Hev : forall r' e, r_conn r' = engine_event e (r_conn r) -> exists l, c_events (r_conn r') = c_events (r_conn r) ++ l)
    by (intros r' e ->; by exists [e]).
  assert (forall n thrown e, exists l, c_events (r_conn (resume_ping second n thrown e r)) = c_events (r_conn r) ++ l) as Hres.
  { intros n thrown e. unfold resume_ping. destruct (calls (r_system r) !! n); [|by apply Hid].
    destruct (task_finish _ _ _).1; [by apply (Hev _ e)|]. apply (Hev _ e). unfold ping_raises.
    by destruct (note_failure_same (Some e0) (set_ping (PRaised e0) (set_conn (engine_event e (r_conn r)) r))) as (-> & _). }
  assert (Hstop : forall result, exists l, c_events (r_conn (stop_run result r)) = c_events (r_conn r) ++ l).
  { intros result. unfold stop_run. set (r1 := match result with Ok _ => r | Err e => _ end).
    assert (r_conn r1 = r_conn r) as E by (subst r1; destruct result as [|e]; [|destruct (is_exception e)]; done).
    destruct (r_ping r1); cbn; rewrite ?E; try (by apply Hid); by eexists. }
  apply Hl. destruct ev as [ev|d| | | | | | | |]; cbn [run_step].
  - destruct (permitted r ev); [|by apply Hid].
    assert (exists l, c_events (conn_step (r_conn r) ev) = c_events (r_conn r) ++ l) as [l El].
    { destruct (conn_step_cases (r_conn r) ev Hc) as (_ & [[_ ->]|(e & _ & -> & _)] & _); [exists []; by rewrite app_nil_r|by eexists]. }
    destruct (is_running _); [|by exists l]. exists l.
    destruct (note_failure_same (failure (r_system (set_conn (conn_step (r_conn r) ev) r))) (set_conn (conn_step (r_conn r) ev) r)) as (-> & _).
    exact El.
  - destruct (_ && _); by apply Hid.
  - destruct (r_stage r), (r_ping r); try (by apply Hid). destruct (_ <=? _); [|by apply Hid]. unfold wake.
    destruct (ping_begin _).1; [by apply (Hev _ EvPing)|]. apply (Hev _ EvPing). unfold ping_raises.
    by destruct (note_failure_same (Some e) (set_ping (PRaised e) (set_conn (engine_event EvPing (r_conn r)) r))) as (-> & _).
  - destruct (r_stage r), (r_ping r); by apply Hid.
  - destruct (r_stage r), (r_ping r) as [|n ?| | |]; try (by apply Hid). apply (Hev _ (EvCancel n)). unfold ping_write_fails, ping_raises.
    match goal with |- context [note_failure ?e ?r1] => by destruct (note_failure_same e r1) as (-> & _) end.
  - destruct (r_stage r), (r_ping r); try (by apply Hid). destruct (ping_pending _ _); [by apply Hid|apply Hres].
  - destruct (r_stage r), (r_ping r); try (by apply Hid). destruct (_ <=? _); [apply Hres|by apply Hid].
  - destruct (is_running r); [apply Hstop|by apply Hid].
  - destruct (is_running r); [|by apply Hid]. destruct (gathered r); [apply Hstop|by apply Hid].
  - destruct (r_stage r); try (by apply Hid). by apply (Hev _ EvRunEnds).
Qed.

(** A run of events, taken apart. *)
Lemma run_ok_cons r ev evs :
  run_ok' r -> (forall e, RConn (CReadFails e) ∈ ev :: evs -> reads e) -> (RCancel ∈ ev :: evs -> cancelled) ->
  run_ok' (run_step second write_timeout ping_timeout r ev) /\
  (forall e, RConn (CReadFails e) ∈ evs -> reads e) /\ (RCancel ∈ evs -> cancelled).
Proof.
  intros Hok Hr Hc. split; [|split].
  - apply run_step_ok; [lia..|done| |]; [intros e ->; apply Hr|intros ->; apply Hc]; by left.
  - intros e He. apply Hr. by right.
  - intros He. apply Hc. by right.
Qed.

Lemma pongs_grow_steps r evs :
  run_ok' r -> (forall e, RConn (CReadFails e) ∈ evs -> reads e) -> (RCancel ∈ evs -> cancelled) ->
  (pongs r <= pongs (run_steps second write_timeout ping_timeout r evs))%nat.
Proof.
  revert r; induction evs as [|ev evs IH]; intros r Hok Hr Hc; [done|].
  destruct (run_ok_cons r ev evs Hok Hr Hc) as (Hok' & Hr' & Hc').
  etransitivity; [apply (pongs_grow r ev); apply Hok|by apply IH].
Qed.

Lemma unanswered_steps since r evs :
  run_ok' r -> unanswered since r -> (forall e, RConn (CReadFails e) ∈ evs -> reads e) -> (RCancel ∈ evs -> cancelled) ->
  pongs (run_steps second write_timeout ping_timeout r evs) = pongs r ->
  unanswered since (run_steps second write_timeout ping_timeout r evs).
Proof.
  revert r; induction evs as [|ev evs IH]; intros r Hok Hu Hr Hc Hp; [done|].
  destruct (run_ok_cons r ev evs Hok Hr Hc) as (Hok' & Hr' & Hc').
  cbn [run_steps foldl] in *. change (foldl (run_step second write_timeout ping_timeout)) with (run_steps second write_timeout ping_timeout) in *.
  pose proof (pongs_grow r ev (rn_conn _ _ _ _ _ _ _ _ Hok)). pose proof (pongs_grow_steps _ evs Hok' Hr' Hc').
  apply IH; [done| |done..|lia]. apply unanswered_step; [done..|lia].
Qed.

Lemma unanswered_now r : run_ok' r -> unanswered (r_now r + writing_left r) r.
Proof.
  intros Hok Est. pose proof (rn_stage _ _ _ _ _ _ _ _ Hok) as Ha. rewrite Est in Ha. pose proof (ac_ping _ _ _ _ _ _ Ha) as Hp.
  unfold ping_ok, interval_min, interval_max, writing_left in *. destruct (r_ping r) as [due|n due|n due| |x]; [lia|..|lia|lia].
  - destruct Hp as (_ & -> & Hp & _). split; [nia|lia].
  - destruct Hp as (_ & _ & Hp & Hd & _). split; [nia|lia].
Qed.

Lemma unanswered_bound since r : run_ok' r -> unanswered since r -> r_stage r = Running ->
  r_now r <= since + second * k + write_timeout + ping_timeout.
Proof.
  intros Hok Hu Est. specialize (Hu Est). pose proof (rn_stage _ _ _ _ _ _ _ _ Hok) as Ha. rewrite Est in Ha.
  pose proof (ac_ping _ _ _ _ _ _ Ha) as Hp. unfold ping_ok in Hp. destruct (r_ping r); [lia|lia|lia|done|lia].
Qed.
End silence.

(** ** The life of a connection *)

Section theorems.
Context (second write_timeout ping_timeout k start : Z).

(** C11: keepalive.  From the start of [run], whatever happens: the first PINGREQ is sent one
    keepalive interval after the start, and the time from one PINGREQ to the next is at least the
    interval and at most the interval, the timeout of a write (the drain of the PINGREQ) and the ping
    timeout; while [run] runs, no more than that has passed since the last one.  With keepalive 0
    none is ever sent. *)
Theorem keepalive_schedule c evs :
  0 < second -> 0 <= write_timeout -> 0 <= ping_timeout -> 0 <= k -> ready k c ->
  let r := run_steps second write_timeout ping_timeout (run_begin second start c) evs in
  spaced second write_timeout ping_timeout k start (r_pings r) /\
  (forall t ts, r_pings r = t :: ts -> t = start + second * k) /\
  (r_stage r = Running -> k <> 0 -> r_now r <= last_ping start (r_pings r) + second * k + write_timeout + ping_timeout) /\
  (k = 0 -> r_pings r = []).
Proof.
  intros Hs Hw Ht Hk Hc r. assert (run_ok second write_timeout ping_timeout k start (fun _ => True) True r) as Hok.
  { apply run_steps_ok; try done. by apply run_begin_ok. }
  split; [apply Hok|]. split; [|split; [|apply Hok]].
  - apply (first_steps second write_timeout ping_timeout k start Hs Hw Ht Hk (fun _ => True) True); try done; [by apply run_begin_ok|].
    apply first_begin, Hc.
  - intros Est Hk'. pose proof (rn_stage _ _ _ _ _ _ _ _ Hok) as Ha. rewrite Est in Ha.
    pose proof (ac_ping _ _ _ _ _ _ Ha) as Hp. unfold ping_ok, interval_min, interval_max in Hp. destruct (r_ping r); lia.
Qed.

(** C9: a broker that does not answer is noticed.  From any moment of the life of a connection with
    a keepalive, if no PINGRESP is dispatched any more, whatever else is received and whatever the
    application does: after the keepalive interval, the timeout of a write and the ping timeout at the latest
    (and what is left of the write's timeout, if a PINGREQ is being written at that moment, since it may have been
    answered already) the loops have failed and [run] ends with an exception.  A socket that takes no more data is
    included: the write of the PINGREQ then fails.  (The read loop dispatches nothing while
    it waits for a full queue: a consumer that stops for that long ends the connection too.) *)
Theorem silent_broker c evs evs' :
  0 < second -> 0 <= write_timeout -> 0 <= ping_timeout -> 0 < k -> ready k c ->
  let r := run_steps second write_timeout ping_timeout (run_begin second start c) evs in
  let r' := run_steps second write_timeout ping_timeout r evs' in
  pongs r' = pongs r -> r_now r + writing_left r + second * k + write_timeout + ping_timeout < r_now r' ->
  exists e, r_stage r' = Stopping (Err e) \/ r_stage r' = Over (Err e).
Proof.
  intros Hs Hw Ht Hk Hc r r' Hp Hlate.
  assert (run_ok second write_timeout ping_timeout k start (fun _ => True) True r) as Hok.
  { apply run_steps_ok; try done; [lia|]. apply run_begin_ok; done || lia. }
  assert (run_ok second write_timeout ping_timeout k start (fun _ => True) True r') as Hok' by (apply run_steps_ok; done || lia).
  pose proof (rn_stage _ _ _ _ _ _ _ _ Hok') as Hst. destruct (r_stage r') as [|[[]|e]|[[]|e]] eqn:Est.
  - assert (unanswered second write_timeout ping_timeout k (r_now r + writing_left r) r') as Hu.
    { eapply unanswered_steps; try done. by eapply unanswered_now. }
    eapply unanswered_bound in Hu; [lia|eassumption..].
  - destruct Hst as [Hst _]. lia.
  - exists e. by left.
  - destruct Hst as [[Hst _] _]. lia.
  - exists e. by right.
Qed.

(** What [run] raises unless it is cancelled. *)
Definition ends_run (e : exn) : bool :=
  match e with
  | MQTTProtocolError _ | MQTTDisconnectedError _ | MQTTTimeoutError _ | InvalidStateError
  | ValueError _ | StructError | IndexError | UnicodeDecodeError => true
  | _ => false
  end.

(** The exception [run] ends with. *)
Lemma run_over_error c evs e :
  0 < second -> 0 <= write_timeout -> 0 <= ping_timeout -> 0 <= k -> ready k c ->
  (forall e, RConn (CReadFails e) ∈ evs -> is_disconnected e = true) ->
  let r := run_steps second write_timeout ping_timeout (run_begin second start c) evs in
  r_stage r = Over (Err e) ->
  e_dead (r_engine r) = true /\ ((e = CancelledError /\ RCancel ∈ evs) \/ (ends_run e = true /\ r_death_cause r = Some e)).
Proof.
  intros Hs Hw Ht Hk Hc Hr r Est.
  assert (run_ok second write_timeout ping_timeout k start (fun e => is_disconnected e = true) (RCancel ∈ evs) r) as Hok.
  { apply run_steps_ok; try done. by apply run_begin_ok. }
  pose proof (rn_stage _ _ _ _ _ _ _ _ Hok) as Hst. rewrite Est in Hst.
  destruct Hst as [[Hst|[He Hdc]] Hd]; (split; [done|]); [by left|right].
  assert (ends_run e = true) as Hends.
  { destruct He as [He|[[He Hl]|[He|[->|[->| ->]]]]]; try done; by destruct e. }
  split; [done|]. apply Hdc. by destruct e.
Qed.

(** C10: how [run] ends.  On a transport whose reads fail with [MQTTDisconnectedError] only, as those
    of [StreamTransport] do: [run] returns only if [disconnect] was called and there is no
    keepalive; cancelled, it raises [CancelledError]; and otherwise it raises a protocol error, the
    loss of the connection, the timeout of a ping, [InvalidStateError], or an exception of the
    decoder ([ValueError] also if PINGRESP comes as the ping times out), never anything else; this is then the
    cause the engine gives later calls.  After the end the engine is dead, so that no call hangs;
    and [run] never waits once a loop has failed: it ends in two steps. *)
Theorem run_outcome c evs :
  0 < second -> 0 <= write_timeout -> 0 <= ping_timeout -> 0 <= k -> ready k c ->
  (forall e, RConn (CReadFails e) ∈ evs -> is_disconnected e = true) ->
  let r := run_steps second write_timeout ping_timeout (run_begin second start c) evs in
  (forall result, r_stage r = Running -> gathered r = Some result ->
     r_stage (run_steps second write_timeout ping_timeout r [RStop; RFinish]) = Over result) /\
  (forall result, r_stage r = Stopping result -> r_stage (run_step second write_timeout ping_timeout r RFinish) = Over result) /\
  (r_stage r = Over (Ok tt) -> e_dead (r_engine r) = true /\ k = 0 /\ e_disconnecting (r_engine r) = true) /\
  (forall e, r_stage r = Over (Err e) -> e_dead (r_engine r) = true /\
     ((e = CancelledError /\ RCancel ∈ evs) \/ (ends_run e = true /\ r_death_cause r = Some e))).
Proof.
  intros Hs Hw Ht Hk Hc Hr r.
  assert (run_ok second write_timeout ping_timeout k start (fun e => is_disconnected e = true) (RCancel ∈ evs) r) as Hok.
  { apply run_steps_ok; try done. by apply run_begin_ok. }
  pose proof (rn_stage _ _ _ _ _ _ _ _ Hok) as Hst. split_and!.
  - intros result Est Hg. cbn [run_steps foldl run_step]. unfold is_running. rewrite Est, Hg. by rewrite stop_stage.
  - intros result Est. cbn [run_step]. by rewrite Est.
  - intros Est. rewrite Est in Hst. destruct Hst as [Hst Hd]. done.
  - intros e. by apply run_over_error.
Qed.
End theorems.

(** ** Examples: keepalive 60, a clock in milliseconds, a write timeout of 30 s, a ping timeout of 10 s *)

Definition sample_connection : Connection := connection_new (system_new sample_engine) (PacketBuffer_new V50 None).
Definition sample_run (evs : list run_event) : Run := run_steps 1000 30000 10000 (run_begin 1000 0 sample_connection) evs.
Definition pingresp_frame : bytes := [Byte.xd0; Byte.x00].

Lemma sample_ready : ready 60 sample_connection.
Proof.
  split; try done.
  - exists V50, None, (system_new sample_engine), (PacketBuffer_new V50 None). apply conn_ok_new, at_rest_new.
  - apply reachable_new, dispatcher_below_none.
Qed.

Definition answered_ping : list run_event :=
  [RTick 60000; RWake; RWritten; RTick 300; RConn CNext; RConn (CRead pingresp_frame); RConn CNext; RPong; RTick 60000; RWake; RWritten].
Definition unanswered_ping : list run_event :=
  [RTick 60000; RWake; RTick 29000; RWritten; RTick 10000; RTimeout; RStop; RFinish; RTick 1001].
Definition broker_disconnects : list run_event :=
  [RConn CNext; RConn (CRead [Byte.xe0; Byte.x00]); RConn CNext; RStop; RFinish].

Lemma keepalive_schedule_witness :
  r_pings (sample_run answered_ping) = [60000; 120300] /\ spaced 1000 30000 10000 60 0 (r_pings (sample_run answered_ping)).
Proof.
  split; [vm_compute; reflexivity|].
  exact (proj1 (keepalive_schedule 1000 30000 10000 60 0 sample_connection answered_ping ltac:(lia) ltac:(lia) ltac:(lia) ltac:(lia) sample_ready)).
Defined.

Lemma silent_broker_witness :
  exists e, r_stage (sample_run unanswered_ping) = Stopping (Err e) \/ r_stage (sample_run unanswered_ping) = Over (Err e).
Proof.
  refine (silent_broker 1000 30000 10000 60 0 sample_connection [] unanswered_ping ltac:(lia) ltac:(lia) ltac:(lia) ltac:(lia) sample_ready _ _);
    vm_compute; reflexivity.
Defined.

Lemma run_outcome_witness :
  let r := run_steps 1000 30000 10000 (run_begin 1000 0 sample_connection) broker_disconnects in
  r_stage r = Over (Err (MQTTDisconnectedError "Broker sent DISCONNECT")) /\ e_dead (r_engine r) = true.
Proof.
  assert (forall e, RConn (CReadFails e) ∈ broker_disconnects -> is_disconnected e = true) as Hr.
  { intros e He. repeat (apply elem_of_cons in He as [He|He]; [discriminate He|]). by apply not_elem_of_nil in He. }
  destruct (run_outcome 1000 30000 10000 60 0 sample_connection broker_disconnects) as (_ & _ & _ & H);
    [clear; lia|clear; lia|clear; lia|clear; lia|exact sample_ready|exact Hr|].
  specialize (H (MQTTDisconnectedError "Broker sent DISCONNECT")). split; [vm_compute; reflexivity|].
  apply H. vm_compute. reflexivity.
Defined.

(** The socket takes no more data: the drain of the PINGREQ times out, and [run] ends 30 s after it, before any ping timeout. *)
Theorem stalled_ping :
  let r := sample_run [RTick 60000; RWake; RTick 30000; RWriteFails; RStop; RFinish] in
  r_stage r = Over (Err (MQTTDisconnectedError "Connection lost")) /\ r_pings r = [60000] /\ r_now r = 90000.
Proof. vm_compute. repeat split. Qed.

(** PINGRESP is dispatched in the same turn of the event loop in which the timeout fires: the future is
    no longer in the list that [ping] removes it from, and [run] ends with [ValueError], for which
    the client does not reconnect. *)
Theorem pingresp_at_the_deadline :
  r_stage (sample_run [RTick 60000; RWake; RWritten; RConn CNext; RTick 10000; RConn (CRead pingresp_frame); RConn CNext;
    RTimeout; RStop; RFinish]) = Over (Err (ValueError "list.remove(x): x not in list")).
Proof. vm_compute. reflexivity. Qed.

(** A consumer that is behind: the read loop waits for its queue, does not see the PINGRESP the broker
    has sent, and the connection ends. *)
Definition busy_connection : Connection :=
  connection_new (system_new (engine_new V50 [] 60 None 1000 None {[0%nat := mkQueue 1 []]} 1)) (PacketBuffer_new V50 None).
Definition suback_frame : bytes :=
  default [] (match encode (PSubAck (mkSubAck 1 [0] None)) V50 with Ok d => Some d | Err _ => None end).
Definition message_frame : bytes :=
  default [] (match encode (PPublish (mkPublish (py "a") [] AT_MOST_ONCE false false None None)) V50 with
              | Ok d => Some d | Err _ => None end).

Theorem slow_consumer_ends_connection :
  let r := run_steps 1000 30000 10000 (run_begin 1000 0 busy_connection)
    [RConn (CEngine (EvSubscribe [mkSubscriptionRequest (py "a") AT_MOST_ONCE false false SEND_ON_SUBSCRIBE] 0 true None));
     RConn CNext; RConn (CRead suback_frame); RConn CNext; RConn (CEngine (EvResume 0)); RConn CNext;
     RConn (CRead (message_frame ++ message_frame)); RConn CNext; RConn CNext;
     RTick 60000; RWake; RWritten; RConn (CRead pingresp_frame); RConn CNext; RTick 10000; RTimeout; RStop; RFinish] in
  length (q_items (queue_of (r_engine r) 0)) = 1%nat /\ is_Some_b (e_putting (r_engine r)) = true /\
  r_stage r = Over (Err (MQTTTimeoutError "PINGRESP not received within timeout")).
Proof. vm_compute. repeat split. Qed.
