(* ===== verification/Errors.v ===== *)
(** * What the exceptions say ([errors.py], and the warnings of [_internal/protocol.py])

    The exceptions are the constructors of [exn]; here are the attributes and messages their constructors
    compute, and the warning about a rejected UNSUBSCRIBE, as Python's string formatting writes them.

    Theorems: a message names the reason code it is about; an error of a publish is raised for the codes that mean
    rejection only, and the message of one with a known code names it; the warning is
    written when a filter is rejected, and lists the rejected filters. *)

From stdpp Require Import pretty.
From S2P Require Import Prelude Properties Packets Codec Topic SubscriptionIndex State Engine Protocol.

(** ** Formatting *)

(** [f"{n}"] *)
Definition str_int (n : Z) : pystr := py (pretty n).

(** [f"{n:X}"] of a digit, and [f"{code:02X}"] of a code below 256; codes are bytes. *)
Definition hex_upper (d : Z) : Z := if d <? 10 then 48 + d else 55 + d.
Definition hex_lower (d : Z) : Z := if d <? 10 then 48 + d else 87 + d.
Definition hex2 (n : Z) : pystr := [hex_upper (n / 16); hex_upper (n mod 16)].

(** The [k] last hexadecimal digits. *)
Fixpoint hex_digits (k : nat) (n : Z) : pystr :=
  match k with O => [] | S k' => hex_digits k' (n / 16) ++ [hex_lower (n mod 16)] end.

(** [sep.join(l)] *)
Fixpoint str_join (sep : pystr) (l : list pystr) : pystr :=
  match l with
  | [] => []
  | [s] => s
  | s :: l' => s ++ sep ++ str_join sep l'
  end.

(** The value of a digit. *)
Definition unhex (c : Z) : Z := if c <? 65 then c - 48 else c - 55.

Lemma hex2_code n : 0 <= n < 256 -> exists a b, hex2 n = [a; b] /\ unhex a * 16 + unhex b = n.
Proof.
  intros Hn. unfold hex2. do 2 eexists. split; [reflexivity|].
  byte_check n.
Qed.

Lemma hex2_inj m n : 0 <= m < 256 -> 0 <= n < 256 -> hex2 m = hex2 n -> m = n.
Proof.
  intros Hm Hn E. destruct (hex2_code m Hm) as (a & b & Ea & <-), (hex2_code n Hn) as (a' & b' & Eb & <-).
  rewrite Ea, Eb in E. by injection E as -> ->.
Qed.

(** ** The exceptions *)

Definition c_quote : Z := 39.
Definition c_dquote : Z := 34.
Definition c_backslash : Z := 92.

Section messages.
(** Which characters beyond ASCII Unicode calls printable. *)
Context (printable : Z -> bool).

(** [repr] of a string, character by character. *)
Definition repr_char (q c : Z) : pystr :=
  if (c =? q) || (c =? c_backslash) then [c_backslash; c]
  else if c =? 9 then py "\t" else if c =? 10 then py "\n" else if c =? 13 then py "\r"
  else if (c <? 32) || (c =? 127) then py "\x" ++ hex_digits 2 c
  else if (c <? 127) || printable c then [c]
  else if c <=? 0xFF then py "\x" ++ hex_digits 2 c
  else if c <=? 0xFFFF then py "\u" ++ hex_digits 4 c
  else py "\U" ++ hex_digits 8 c.

Definition repr (s : pystr) : pystr :=
  let q := if contains_char c_quote s && negb (contains_char c_dquote s) then c_dquote else c_quote in
  [q] ++ flat_map (repr_char q) s ++ [q].

(** [MQTTConnectError.__init__] *)
Record ConnectErrorFields : Type := mkConnectError {
  ce_return_code : Z;
  ce_properties : option ConnAckProperties;
  ce_reason_string : option pystr;
  ce_user_properties : list (pystr * pystr);
  ce_server_reference : option pystr;
  ce_message : pystr
}.

Definition connect_error (return_code : Z) (properties : option ConnAckProperties) : ConnectErrorFields := {|
  ce_return_code := return_code;
  ce_properties := properties;
  ce_reason_string := match properties with Some p => cap_reason_string p | None => None end;
  ce_user_properties := match properties with Some p => cap_user_properties p | None => [] end;
  ce_server_reference := match properties with Some p => cap_server_reference p | None => None end;
  ce_message := py "Connection refused: return code " ++ str_int return_code
|}.

Definition qos_exceeded_message (requested maximum : Z) : pystr :=
  py "Requested QoS " ++ str_int requested ++ py " exceeds the server's Maximum QoS " ++ str_int maximum.

Definition retain_not_available_message : pystr :=
  py "The server does not support retained messages (Retain Available is 0)".

Definition subscribe_error_message (failures : dict pystr Z) : pystr :=
  py "Broker rejected subscription: " ++
  str_join (py ", ") (map (fun fc => repr fc.1 ++ py " (0x" ++ hex2 fc.2 ++ py ")") failures).

(** A name or a string that is absent or empty is left out. *)
Definition truthy (s : option pystr) : option pystr := match s with Some [] => None | _ => s end.

Definition publish_error_message (reason_code : Z) (reason_name reason_string : option pystr) : pystr :=
  let named := match truthy reason_name with
               | Some name => py "0x" ++ hex2 reason_code ++ py " " ++ name
               | None => py "0x" ++ hex2 reason_code
               end in
  let detail := match truthy reason_string with Some s => py ": " ++ s | None => [] end in
  py "Broker rejected publish (" ++ named ++ py ")" ++ detail.

(** The message of an exception of the library; what the others say is given where they are raised. *)
Definition exn_message (e : exn) : pystr :=
  match e with
  | MQTTConnectError code => ce_message (connect_error code None)
  | MQTTQoSExceededError requested maximum => qos_exceeded_message requested maximum
  | MQTTRetainNotAvailableError => retain_not_available_message
  | MQTTSubscribeError failures => subscribe_error_message failures
  | MQTTPublishError code name text => publish_error_message code (py <$> name) text
  | ValueError m | TypeError m | RuntimeError m | MQTTInvalidTopicError m | MQTTProtocolError m
  | MQTTDisconnectedError m | MQTTTimeoutError m => py m
  | _ => []
  end.

(** ** The warning about a rejected UNSUBSCRIBE *)

Definition _UNSUBACK_REASON_NAMES : dict Z string :=
  [(0x80, "Unspecified error"%string); (0x83, "Implementation specific error"%string); (0x87, "Not authorized"%string);
   (0x8F, "Topic Filter invalid"%string); (0x91, "Packet Identifier in use"%string)].

(** The list comprehension, before it is rendered. *)
Definition rejected_unsubscribes (filters : list pystr) (codes : list Z) : list (pystr * Z) :=
  List.filter (fun fc => 0x80 <=? fc.2) (zip filters codes).

Definition render_rejected (fc : pystr * Z) : pystr :=
  repr fc.1 ++ py " (0x" ++ hex2 fc.2 ++ py " " ++ py (default "Unknown"%string (dict_get _UNSUBACK_REASON_NAMES fc.2)) ++ py ")".

(** The warning, or none. *)
Definition _warn_on_rejected_unsubscribe (filters : list pystr) (unsuback : UnsubAck) : option pystr :=
  match rejected_unsubscribes filters (ua_reason_codes unsuback) with
  | [] => None
  | rejected =>
    let reason_string := match ua_properties unsuback with Some p => uap_reason_string p | None => None end in
    Some (py "Broker rejected unsubscribe of " ++ str_join (py ", ") (map render_rejected rejected) ++
          match truthy reason_string with Some s => py " (" ++ s ++ py ")" | None => [] end ++
          py "; it may keep delivering messages on these filters")
  end.

(** ** What they tell *)

(** The message of a rejected publish determines the reason code, whatever the broker's text. *)
Theorem publish_message_code c c' name name' text text' :
  0 <= c < 256 -> 0 <= c' < 256 -> publish_error_message c name text = publish_error_message c' name' text' -> c = c'.
Proof.
  intros Hc Hc' E. apply (hex2_inj _ _ Hc Hc').
  assert (forall c name text, take 2 (drop 27 (publish_error_message c name text)) = hex2 c) as H.
  { intros c0 n t. unfold publish_error_message. destruct (truthy n), (truthy t); reflexivity. }
  by rewrite <-(H c name text), <-(H c' name' text'), E.
Qed.

(** What the engine raises for a PUBACK is raised for a rejection only, and its message has the code and, if the code is
    known, its name. *)
Theorem puback_message puback e :
  _raise_on_rejected_puback puback = Err e ->
  0x80 <= a_reason_code puback /\
  exists rest, exn_message e = py "Broker rejected publish (" ++ (py "0x" ++ hex2 (a_reason_code puback) ++
    from_option (fun name => py " " ++ py name) [] (dict_get _PUBLISH_REASON_NAMES (a_reason_code puback))) ++ py ")" ++ rest.
Proof.
  unfold _raise_on_rejected_puback. case_if; [|done]. zbool. intros [= <-]. split; [done|].
  cbn [_publish_error exn_message]. unfold publish_error_message. eexists.
  destruct (dict_get _PUBLISH_REASON_NAMES (a_reason_code puback)) as [name|] eqn:E; cbn [fmap option_fmap option_map from_option].
  - assert (truthy (Some (py name)) = Some (py name)) as ->.
    { apply dict_get_Some_elem in E. apply (Forall_forall (fun cn : Z * string => truthy (Some (py cn.2)) = Some (py cn.2)) _PUBLISH_REASON_NAMES) in E; [exact E|].
      repeat constructor. }
    reflexivity.
  - rewrite app_nil_r. reflexivity.
Qed.

(** The warning is written when a filter is rejected, and not otherwise. *)
Theorem unsubscribe_warning filters unsuback :
  is_Some (_warn_on_rejected_unsubscribe filters unsuback) <->
  exists f c, (f, c) ∈ zip filters (ua_reason_codes unsuback) /\ 0x80 <= c.
Proof.
  unfold _warn_on_rejected_unsubscribe.
  assert (forall fc, fc ∈ rejected_unsubscribes filters (ua_reason_codes unsuback) <->
    fc ∈ zip filters (ua_reason_codes unsuback) /\ 0x80 <= fc.2) as H.
  { intros fc. unfold rejected_unsubscribes. rewrite !list_elem_of_In, filter_In. by rewrite Z.leb_le. }
  destruct (rejected_unsubscribes _ _) as [|[f c] l]; split; try done.
  - intros (f & c & Hin & Hc). by destruct (not_elem_of_nil (f, c)); apply H.
  - intros _. exists f, c. apply H. by left.
Qed.
End messages.

Lemma messages_sample :
  exn_message (fun _ => true) (MQTTSubscribeError [(py "a/#", 0x87); (py "it's", 0x8F)]) =
    py "Broker rejected subscription: 'a/#' (0x87), " ++ [c_dquote] ++ py "it's" ++ [c_dquote] ++ py " (0x8F)" /\
  exn_message (fun _ => true) (MQTTPublishError 0x97 (Some "Quota exceeded"%string) (Some (py "slow down"))) =
    py "Broker rejected publish (0x97 Quota exceeded): slow down" /\
  exn_message (fun _ => true) (MQTTConnectError 5) = py "Connection refused: return code 5".
Proof. vm_compute. split_and!; reflexivity. Qed.
