(* ===== verification/Transport.v ===== *)
(** * The stream transport ([_internal/transport/base.py])

    [StreamTransport] over the asyncio streams: a reader and a writer of one socket.  What the streams
    do is asyncio's: how each of their calls ends is an input, also that [drain] does not end within its
    30 seconds, after which [wait_for] raises [TimeoutError].

    Theorem: whatever the streams do, [StreamTransport] keeps the contract of a transport that the
    engine relies on ([transport_step]): what its methods return and raise, what the connection is
    after a failure, and that the socket is released once.  The transport of the engine ([_send],
    [transport_close]) is the case in which writes fail from some moment on. *)

From S2P Require Import Prelude Properties Packets Codec Topic SubscriptionIndex State Engine Inbound Protocol Connection.

(** ** [StreamTransport] *)

(** The flags; and, recorded, what the writer was asked to do. *)
Record StreamTransport : Type := mkStreamTransport {
  st_closed : bool;
  st_writer_closed : bool;
  st_written : list bytes;   (** [writer.write] *)
  st_closes : nat;           (** [writer.close] *)
  st_aborts : nat            (** [writer.transport.abort] *)
}.

Definition stream_transport_new : StreamTransport := mkStreamTransport false false [] 0 0.

Definition set_st_closed (t : StreamTransport) : StreamTransport :=
  mkStreamTransport true (st_writer_closed t) (st_written t) (st_closes t) (st_aborts t).

Definition is_connected (t : StreamTransport) : bool := negb (st_closed t).

(** [ConnectionResetError], [TimeoutError] of the system and [ssl.SSLError] are [OSError]s. *)
Definition is_os_error (e : exn) : bool := match e with OSError => true | _ => false end.

Definition is_timeout (e : exn) : bool := match e with TimeoutError => true | _ => false end.

(** [read], when [reader.read] gives [got]. *)
Definition read (got : res bytes) (t : StreamTransport) : res bytes * StreamTransport :=
  match got with
  | Err e =>
    if is_os_error e then (Err (MQTTDisconnectedError "Connection lost"), set_st_closed t) else (Err e, t)
  | Ok [] => (Err (MQTTDisconnectedError "Connection closed by remote"), set_st_closed t)
  | Ok data => (Ok data, t)
  end.

(** [write], when [writer.write] gives [wrote] and [wait_for(writer.drain())] gives [drained]. *)
Definition write (data : bytes) (wrote drained : res unit) (t : StreamTransport) : res unit * StreamTransport :=
  let '(r, t) :=
    match wrote with
    | Ok _ => (drained, mkStreamTransport (st_closed t) (st_writer_closed t) (st_written t ++ [data]) (st_closes t) (st_aborts t))
    | Err e => (Err e, t)
    end in
  match r with
  | Ok _ => (Ok tt, t)
  | Err e =>
    if is_os_error e || is_timeout e then (Err (MQTTDisconnectedError "Connection lost"), set_st_closed t) else (Err e, t)
  end.

(** [close], when [wait_for(writer.wait_closed())] gives [waited] and [abort], if it is called, [aborted]. *)
Definition close (waited aborted : res unit) (t : StreamTransport) : res unit * StreamTransport :=
  let t := set_st_closed t in
  let t := if st_writer_closed t then t
           else mkStreamTransport (st_closed t) true (st_written t) (S (st_closes t)) (st_aborts t) in
  match waited with
  | Ok _ => (Ok tt, t)
  | Err e =>
    if is_exception e then
      let t := mkStreamTransport (st_closed t) (st_writer_closed t) (st_written t) (st_closes t) (S (st_aborts t)) in
      match aborted with
      | Err e' => if is_exception e' then (Ok tt, t) else (Err e', t)
      | Ok _ => (Ok tt, t)
      end
    else (Err e, t)
  end.

(** ** Opening one *)

(** [tls] is absent, a flag or an [ssl.SSLContext]. *)
Section factory.
Context {SSLContext : Type} (create_default_context : SSLContext).

Inductive tls_option : Type := TlsNone | TlsFlag (b : bool) | TlsContext (c : SSLContext).

(** [asyncio.open_connection] without and with [ssl]. *)
Inductive opening : Type := OpenPlain | OpenTls (c : SSLContext).

Definition open_tcp : opening := OpenPlain.
Definition open_tls (ssl_context : option SSLContext) : opening := OpenTls (default create_default_context ssl_context).

Definition _default_transport_factory (tls : tls_option) : opening :=
  match tls with
  | TlsNone | TlsFlag false => open_tcp
  | TlsFlag true => open_tls None
  | TlsContext c => open_tls (Some c)
  end.

(** Asked for TLS, the client never connects in the clear. *)
Lemma tls_never_plain tls :
  _default_transport_factory tls = OpenPlain <-> tls = TlsNone \/ tls = TlsFlag false.
Proof. destruct tls as [|[]|c]; cbn; naive_solver. Qed.
End factory.

(** ** What reads raise *)

(** A read is an event of the connection. *)
Definition read_event (got : res bytes) (t : StreamTransport) : conn_event :=
  match (read got t).1 with Ok data => CRead data | Err e => CReadFails e end.

(** Over a reader that raises [OSError] only: a read gives the bytes the reader gave, which are some,
    and leaves the transport connected; or it raises [MQTTDisconnectedError], the end of the
    stream included, and the transport is not connected any more. *)
Lemma read_outcomes got t :
  (forall e, got = Err e -> is_os_error e = true) ->
  match read got t with
  | (Ok data, t') => got = Ok data /\ data <> [] /\ t' = t
  | (Err e, t') => is_disconnected e = true /\ is_connected t' = false
  end.
Proof. intros H. destruct got as [[|b data]|e]; cbn; [done|done|]. by rewrite (H e eq_refl). Qed.

Lemma read_event_fails got t e :
  (forall x, got = Err x -> is_os_error x = true) -> read_event got t = CReadFails e -> is_disconnected e = true.
Proof.
  intros H He. pose proof (read_outcomes got t H) as Ho. unfold read_event in He.
  destruct (read got t) as [[data|x] t']; [done|]. injection He as <-. apply Ho.
Qed.

(** ** The contract of a transport *)

(** What the caller of a transport sees of a call. *)
Inductive transport_call : Type :=
| TcRead (r : res bytes)
| TcWrite (data : bytes) (r : res unit)
| TcClose (r : res unit).

(** A transport as the engine relies on it: whether it is connected, what it has taken for the peer, and whether its
    socket is released. *)
Record TransportState : Type := mkTransportState {
  ts_connected : bool;
  ts_given : list bytes;
  ts_released : bool
}.

(** The contract.  A read returns bytes, and a write takes all of its data; or they raise
    [MQTTDisconnectedError], and then the transport is not connected any more: of a write that fails the peer may
    get the data all the same.  [close] raises nothing, releases the socket and ends the connection.  A call that
    is cancelled raises [CancelledError] and does not end the connection, unless it is [close]. *)
Inductive transport_step : TransportState -> transport_call -> TransportState -> Prop :=
| ReadOk t data : data <> [] -> transport_step t (TcRead (Ok data)) t
| ReadFails t e : is_disconnected e = true ->
    transport_step t (TcRead (Err e)) (mkTransportState false (ts_given t) (ts_released t))
| ReadCancelled t : transport_step t (TcRead (Err CancelledError)) t
| WriteOk t data :
    transport_step t (TcWrite data (Ok tt)) (mkTransportState (ts_connected t) (ts_given t ++ [data]) (ts_released t))
| WriteFails t data e given : is_disconnected e = true -> given = ts_given t \/ given = ts_given t ++ [data] ->
    transport_step t (TcWrite data (Err e)) (mkTransportState false given (ts_released t))
| WriteCancelled t data :
    transport_step t (TcWrite data (Err CancelledError)) (mkTransportState (ts_connected t) (ts_given t ++ [data]) (ts_released t))
| CloseOk t : transport_step t (TcClose (Ok tt)) (mkTransportState false (ts_given t) true)
| CloseCancelled t : transport_step t (TcClose (Err CancelledError)) (mkTransportState false (ts_given t) true).

Inductive transport_run : TransportState -> list transport_call -> TransportState -> Prop :=
| RunNil t : transport_run t [] t
| RunCons t c t' cs t'' : transport_step t c t' -> transport_run t' cs t'' -> transport_run t (c :: cs) t''.

(** *** The calls of [StreamTransport], with what the streams do *)

Inductive stream_op : Type :=
| SoRead (got : res bytes)
| SoWrite (data : bytes) (wrote drained : res unit)
| SoClose (waited aborted : res unit).

(** What the streams may raise: [OSError], [TimeoutError] where [wait_for] gives up, [CancelledError] where the caller is
    cancelled; [wait_closed] and [abort] may raise anything. *)
Definition raises_only {A} (ok : exn -> bool) (r : res A) : bool := match r with Ok _ => true | Err e => ok e end.
Definition is_cancellation (e : exn) : bool := match e with CancelledError => true | _ => false end.

Definition stream_op_ok (op : stream_op) : bool :=
  match op with
  | SoRead got => raises_only (fun e => is_os_error e || is_cancellation e) got
  | SoWrite _ wrote drained =>
    raises_only is_os_error wrote && raises_only (fun e => is_os_error e || is_timeout e || is_cancellation e) drained
  | SoClose _ aborted => raises_only (fun e => negb (is_cancellation e)) aborted
  end.

Definition stream_step (op : stream_op) (t : StreamTransport) : transport_call * StreamTransport :=
  match op with
  | SoRead got => let '(r, t') := read got t in (TcRead r, t')
  | SoWrite data wrote drained => let '(r, t') := write data wrote drained t in (TcWrite data r, t')
  | SoClose waited aborted => let '(r, t') := close waited aborted t in (TcClose r, t')
  end.

Fixpoint stream_steps (ops : list stream_op) (t : StreamTransport) : list transport_call * StreamTransport :=
  match ops with
  | [] => ([], t)
  | op :: ops' => let '(c, t') := stream_step op t in let '(cs, t'') := stream_steps ops' t' in (c :: cs, t'')
  end.

(** The state of the contract that a [StreamTransport] is in. *)
Definition transport_view (t : StreamTransport) : TransportState :=
  mkTransportState (is_connected t) (st_written t) (st_writer_closed t).

(** The call ends the connection. *)
Definition call_ends (c : transport_call) : bool :=
  match c with
  | TcRead (Err e) | TcWrite _ (Err e) => negb (is_cancellation e)
  | TcClose _ => true
  | _ => false
  end.
Definition is_close (c : transport_call) : bool := match c with TcClose _ => true | _ => false end.

Lemma read_step got t :
  stream_op_ok (SoRead got) = true ->
  transport_step (transport_view t) (TcRead (read got t).1) (transport_view (read got t).2) /\
  is_connected (read got t).2 = is_connected t && negb (call_ends (TcRead (read got t).1)) /\
  st_writer_closed (read got t).2 = st_writer_closed t /\ st_closes (read got t).2 = st_closes t.
Proof.
  destruct got as [[|b data]|[]]; try done; intros _; cbn; rewrite ?andb_true_r, ?andb_false_r; (split; [|done]);
    unfold transport_view, is_connected; cbn.
  all: first [by apply (ReadFails (mkTransportState _ _ _)) | by apply ReadOk | apply ReadCancelled].
Qed.

Lemma write_step data wrote drained t :
  stream_op_ok (SoWrite data wrote drained) = true ->
  let '(r, t') := write data wrote drained t in
  transport_step (transport_view t) (TcWrite data r) (transport_view t') /\
  is_connected t' = is_connected t && negb (call_ends (TcWrite data r)) /\
  st_writer_closed t' = st_writer_closed t /\ st_closes t' = st_closes t.
Proof.
  destruct wrote as [[]|[]]; try done.
  - destruct drained as [[]|[]]; try done; intros _; cbn; rewrite ?andb_true_r, ?andb_false_r; (split; [|done]).
    all: first [apply (WriteOk (transport_view t)) | apply (WriteCancelled (transport_view t))
               | apply (WriteFails (transport_view t)); [done|by right]].
  - intros _. cbn. rewrite andb_false_r. split; [|done]. apply (WriteFails (transport_view t)); [done|by left].
Qed.

(** [close], whatever its waits give. *)
Lemma close_spec waited aborted t :
  stream_op_ok (SoClose waited aborted) = true ->
  exists r n, (r = Ok tt \/ r = Err CancelledError) /\ close waited aborted t =
    (r, mkStreamTransport true true (st_written t) (st_closes t + Nat.b2n (negb (st_writer_closed t))) n).
Proof.
  intros Hok. destruct t as [c [] l k n]; unfold close; cbn [set_st_closed st_writer_closed st_closed st_written st_closes st_aborts Nat.b2n negb];
    rewrite ?Nat.add_0_r, ?Nat.add_1_r; (destruct waited as [[]|e]; [eauto|]);
    (destruct (is_exception e) eqn:Ee; [|destruct e; eauto; done]); destruct aborted as [[]|[]]; cbn; eauto; done.
Qed.

Lemma close_step waited aborted t :
  stream_op_ok (SoClose waited aborted) = true ->
  let '(r, t') := close waited aborted t in
  transport_step (transport_view t) (TcClose r) (transport_view t') /\
  is_connected t' = false /\ st_writer_closed t' = true /\
  st_closes t' = (st_closes t + Nat.b2n (negb (st_writer_closed t)))%nat.
Proof.
  intros Hok. destruct (close_spec waited aborted t Hok) as (r & n & Hr & ->). split; [|done].
  destruct Hr as [-> | ->]; [apply (CloseOk (transport_view t))|apply (CloseCancelled (transport_view t))].
Qed.

Lemma stream_step_ok op t :
  stream_op_ok op = true ->
  let '(c, t') := stream_step op t in
  transport_step (transport_view t) c (transport_view t') /\
  is_connected t' = is_connected t && negb (call_ends c) /\
  st_writer_closed t' = st_writer_closed t || is_close c /\
  (st_closes t' + Nat.b2n (st_writer_closed t) = st_closes t + Nat.b2n (st_writer_closed t'))%nat.
Proof.
  intros Hok. destruct op as [got|data wrote drained|waited aborted]; cbn [stream_step].
  - destruct (read_step got t Hok) as (H1 & H2 & H3 & H4). destruct (read got t) as [r t']. cbn in *. rewrite H3, H4, orb_false_r.
    split_and!; try done; lia.
  - pose proof (write_step data wrote drained t Hok) as H. destruct (write data wrote drained t) as [r t'].
    destruct H as (H1 & H2 & H3 & H4). rewrite H3, H4, orb_false_r. split_and!; try done; lia.
  - pose proof (close_step waited aborted t Hok) as H. destruct (close waited aborted t) as [r t'].
    destruct H as (H1 & H2 & H3 & H4). rewrite H2, H3, H4, orb_true_r. cbn. rewrite andb_false_r.
    split_and!; try done. destruct (st_writer_closed t); cbn; lia.
Qed.

(** C8: the transport.  Whatever the streams do (any reads, writes and closes, each call of a stream ending well, in
    [OSError], by cancellation, or, where [wait_for] guards it, in the timeout): what the caller of
    [StreamTransport] sees is a run of the contract [transport_step], which ends in the state [StreamTransport] is in;
    it is connected as long as no read or write has failed, a timeout of [drain] included, and [close]
    has not been called; and the writer is closed once [close] has been called, and once only. *)
Theorem transport_refines ops t :
  forallb stream_op_ok ops = true ->
  let '(cs, t') := stream_steps ops t in
  transport_run (transport_view t) cs (transport_view t') /\
  is_connected t' = is_connected t && forallb (fun c => negb (call_ends c)) cs /\
  st_writer_closed t' = st_writer_closed t || existsb is_close cs /\
  (st_closes t' + Nat.b2n (st_writer_closed t) = st_closes t + Nat.b2n (st_writer_closed t'))%nat.
Proof.
  revert t; induction ops as [|op ops IH]; intros t Hok; cbn [stream_steps].
  { rewrite andb_true_r, orb_false_r. split_and!; try done. constructor. }
  cbn [forallb] in Hok. apply andb_true_iff in Hok as [H1 H2]. pose proof (stream_step_ok op t H1) as Hs.
  destruct (stream_step op t) as [c t1]. destruct Hs as (S1 & S2 & S3 & S4). specialize (IH t1 H2).
  destruct (stream_steps ops t1) as [cs t2]. destruct IH as (I1 & I2 & I3 & I4). cbn [forallb existsb].
  split; [by econstructor|]. split; [by rewrite I2, S2, andb_assoc|]. split; [by rewrite I3, S3, orb_assoc|lia].
Qed.

(** A write, a peer that takes no more (the drain times out), a read that is reset, and two closes, the first of which hangs. *)
Lemma transport_refines_witness :
  let ops := [SoWrite [Byte.x00] (Ok tt) (Ok tt); SoRead (Ok [Byte.x20]); SoWrite [Byte.x01] (Ok tt) (Err TimeoutError);
              SoRead (Err OSError); SoClose (Err TimeoutError) (Ok tt); SoClose (Ok tt) (Ok tt)] in
  (stream_steps ops stream_transport_new).1 =
    [TcWrite [Byte.x00] (Ok tt); TcRead (Ok [Byte.x20]); TcWrite [Byte.x01] (Err (MQTTDisconnectedError "Connection lost"));
     TcRead (Err (MQTTDisconnectedError "Connection lost")); TcClose (Ok tt); TcClose (Ok tt)] /\
  transport_run (transport_view stream_transport_new) (stream_steps ops stream_transport_new).1
    (transport_view (stream_steps ops stream_transport_new).2) /\
  st_closes (stream_steps ops stream_transport_new).2 = 1%nat.
Proof.
  intros ops. split; [vm_compute; reflexivity|]. split; [|vm_compute; reflexivity].
  pose proof (transport_refines ops stream_transport_new eq_refl) as H. exact (proj1 H).
Defined.

(** A drain that times out leaves its data with the writer, which may still send it: [st_written] has it. *)
Lemma stalled_write data t :
  let '(r, t') := write data (Ok tt) (Err TimeoutError) t in
  r = Err (MQTTDisconnectedError "Connection lost") /\ is_connected t' = false /\ st_written t' = st_written t ++ [data].
Proof. done. Qed.

(** ** The transport of the engine

    [Engine] is written against the transport whose writes all succeed until the peer is gone ([e_lost]) or it is
    closed, and then all fail, of which nothing is sent.  It keeps the contract too. *)

Inductive engine_op : Type :=
| EoSend (data : bytes)
| EoClose.

Definition engine_call (op : engine_op) (s : Engine) : transport_call * Engine :=
  match op with
  | EoSend data => let '(r, s') := _send data s in (TcWrite data r, s')
  | EoClose => let '(r, s') := transport_close s in (TcClose r, s')
  end.

Definition engine_view (s : Engine) : TransportState := mkTransportState (negb (e_lost s || e_closed s)) (e_sent s) (e_closed s).

Lemma engine_transport op s :
  transport_step (engine_view s) (engine_call op s).1 (engine_view (engine_call op s).2).
Proof.
  destruct op as [data|]; cbn [engine_call].
  - unfold _send. destruct (e_lost s || e_closed s) eqn:E; cbn; unfold engine_view; rewrite ?E; cbn.
    + apply (WriteFails (mkTransportState false (e_sent s) (e_closed s))); [done|by left].
    + rewrite E. apply (WriteOk (mkTransportState true (e_sent s) (e_closed s))).
  - unfold transport_close, modify, engine_view. cbn. rewrite orb_true_r. apply (CloseOk (mkTransportState _ _ _)).
Qed.
