(* ===== verification/Options.v ===== *)
(** * Options and results of the client ([client.py])

    [_validate_user_properties], [_build_connect_properties], [ConnectionInfo] and
    [UnsubscribeResult].  Theorems: which CONNECT options are accepted, and that accepted ones
    always make a property block the broker reads back as configured. *)

From S2P Require Import Prelude Utf8 Wire Properties Packets Codec.

Definition _MAX_SUBSCRIPTION_IDENTIFIER : Z := 268435455.
Definition _UNSUBACK_REJECTION_THRESHOLD : Z := 0x80.
Definition _MAX_SESSION_EXPIRY_INTERVAL : Z := 0xFFFFFFFF.
Definition _MAX_RECEIVE_MAXIMUM : Z := 65535.
Definition _MAX_PACKET_SIZE : Z := 268435460.
Definition _MAX_STRING_BYTES : Z := 65535.

(** ** CONNECT properties *)

(** An element of [user_properties]: a tuple of two strings, or anything else. *)
Inductive user_pair : Type := StrPair (name value : pystr) | NotStrPair.

Definition check_user_string (s : pystr) : res unit :=
  match utf8_encode s with
  | Err UnicodeEncodeError => Err (ValueError "user_properties strings must be valid UTF-8")
  | Err e => Err e
  | Ok b =>
    if _MAX_STRING_BYTES <? zlen b then Err (ValueError "user_properties strings must not exceed 65535 UTF-8 bytes")
    else raise_if (bool_decide (0 ∈ s)) (ValueError "user_properties strings must not contain U+0000")
  end.

Fixpoint _validate_user_properties (pairs : list user_pair) : res (list (pystr * pystr)) :=
  match pairs with
  | [] => Ok []
  | NotStrPair :: _ => Err (TypeError "user_properties must contain (name, value) string pairs")
  | StrPair name value :: pairs' =>
    _ ← check_user_string name;
    _ ← check_user_string value;
    rest ← _validate_user_properties pairs';
    Ok ((name, value) :: rest)
  end.

(** The arguments of [_build_connect_properties]. *)
Record ConnectOptions : Type := mkConnectOptions {
  o_session_expiry_interval : Z;
  o_receive_maximum : option Z;
  o_maximum_packet_size : option Z;
  o_user_properties : list user_pair;
  o_request_response_information : option bool;
  o_request_problem_information : option bool
}.

(** [bool(user_properties)] *)
Definition nonempty {A} (l : list A) : bool := match l with [] => false | _ => true end.

(** [any(configured.values())] *)
Definition configured (o : ConnectOptions) : bool :=
  is_Some_b (o_receive_maximum o) || is_Some_b (o_maximum_packet_size o) || nonempty (o_user_properties o) ||
  is_Some_b (o_request_response_information o) || is_Some_b (o_request_problem_information o).

(** [value is not None and not lo <= value <= hi] *)
Definition out_of_range (lo hi : Z) (value : option Z) : bool :=
  match value with Some n => negb ((lo <=? n) && (n <=? hi)) | None => false end.

Definition _build_connect_properties (v : version) (o : ConnectOptions) : res (option ConnectProperties) :=
  if decide (v = V50) then
    _ ← raise_if (out_of_range 0 _MAX_SESSION_EXPIRY_INTERVAL (Some (o_session_expiry_interval o)))
          (ValueError "session_expiry_interval must be in 0..4294967295");
    _ ← raise_if (out_of_range 1 _MAX_RECEIVE_MAXIMUM (o_receive_maximum o))
          (ValueError "receive_maximum must be in 1..65535");
    _ ← raise_if (out_of_range 1 _MAX_PACKET_SIZE (o_maximum_packet_size o))
          (ValueError "maximum_packet_size must be in 1..268435460");
    users ← _validate_user_properties (o_user_properties o);
    Ok (Some (mkConnectProperties (Some (o_session_expiry_interval o)) (o_receive_maximum o) (o_maximum_packet_size o)
                None (o_request_response_information o) (o_request_problem_information o) None None users))
  else if configured o then Err (RuntimeError "MQTT 5.0 is required for")
  else Ok None.

(** ** The result of a handshake *)

Record ConnectionInfo : Type := mkConnectionInfo {
  ci_connection_id : Z;
  ci_session_present : bool;
  ci_return_code : Z;
  ci_properties : option ConnAckProperties;
  ci_effective_client_id : pystr;
  ci_effective_keepalive : Z;
  ci_effective_session_expiry_interval : option Z
}.

Definition from_connack (connect_packet : Connect) (connack : ConnAck) (v : version) (connection_id : Z) : ConnectionInfo :=
  let properties := ca_properties connack in
  let client_id := c_client_id connect_packet in
  let keepalive := c_keepalive connect_packet in
  let expiry :=
    if decide (v = V50) then
      Some (match c_properties connect_packet with
            | Some p => default 0 (cp_session_expiry_interval p)
            | None => 0
            end)
    else None in
  match properties with
  | None => mkConnectionInfo connection_id (ca_session_present connack) (ca_return_code connack) None client_id keepalive expiry
  | Some p =>
    mkConnectionInfo connection_id (ca_session_present connack) (ca_return_code connack) (Some p)
      (match client_id with [] => default client_id (cap_assigned_client_identifier p) | _ => client_id end)
      (default keepalive (cap_server_keep_alive p))
      (match expiry, cap_session_expiry_interval p with Some _, Some n => Some n | _, _ => expiry end)
  end.

(** ** The result of an UNSUBSCRIBE *)

Record UnsubscribeResult : Type := mkUnsubscribeResult {
  ur_topic_filters : list pystr;
  ur_reason_codes : list Z;
  ur_properties : option UnsubAckProperties
}.

Definition from_unsuback (topic_filters : list pystr) (unsuback : UnsubAck) : UnsubscribeResult :=
  mkUnsubscribeResult topic_filters (ua_reason_codes unsuback) (ua_properties unsuback).

(** The dictionary comprehension over [zip(..., strict=False)]. *)
Definition failures (r : UnsubscribeResult) : dict pystr Z :=
  fold_left (fun d fc => if _UNSUBACK_REJECTION_THRESHOLD <=? fc.2 then dict_set d fc.1 fc.2 else d)
    (zip (ur_topic_filters r) (ur_reason_codes r)) [].

Definition reason_string (r : UnsubscribeResult) : option pystr :=
  match ur_properties r with Some p => uap_reason_string p | None => None end.
Definition user_properties (r : UnsubscribeResult) : list (pystr * pystr) :=
  match ur_properties r with Some p => uap_user_properties p | None => [] end.

(** ** Accepted options *)

(** A string that may be a user property. *)
Definition valid_user_string (s : pystr) : Prop :=
  (exists b, utf8_encode s = Ok b /\ zlen b <= _MAX_STRING_BYTES) /\ 0 ∉ s.

Lemma check_user_string_spec s : check_user_string s = Ok tt <-> valid_user_string s.
Proof.
  unfold check_user_string, valid_user_string. destruct (utf8_encode s) as [b|e].
  - unfold raise_if. split.
    + intros H. repeat case_if; zbool; try done. split; [by exists b|]. by apply bool_decide_eq_false in Heqb1.
    + intros [(b' & [= <-] & Hb) H0]. rewrite (proj2 (Z.ltb_ge _ _)) by done. by rewrite bool_decide_eq_false_2.
  - split; [by destruct e|]. intros [(b' & H & _) _]. done.
Qed.

Lemma validate_user_properties_spec pairs users :
  _validate_user_properties pairs = Ok users <->
  pairs = (fun kv => StrPair kv.1 kv.2) <$> users /\ Forall (fun kv => valid_user_string kv.1 /\ valid_user_string kv.2) users.
Proof.
  revert users; induction pairs as [|[name value|] pairs IH]; intros users; cbn [_validate_user_properties].
  - split; [intros [= <-]; by split|]. intros [H _]. by destruct users.
  - split.
    + destruct (check_user_string name) as [[]|] eqn:E1; [|done]. destruct (check_user_string value) as [[]|] eqn:E2; [|done].
      cbn. destruct (_validate_user_properties pairs) as [rest|] eqn:E3; [|done]. intros [= <-].
      apply check_user_string_spec in E1, E2. destruct (proj1 (IH rest) eq_refl) as [-> Hf]. by split; [|constructor].
    + intros [H Hf]. destruct users as [|[k u] users]; [done|]. injection H as -> -> ->. apply Forall_cons in Hf as [[H1 H2] Hf].
      cbn in H1, H2. apply check_user_string_spec in H1, H2. rewrite H1, H2. cbn. by rewrite (proj2 (IH users)).
  - split; [done|]. intros [H _]. by destruct users.
Qed.

Lemma out_of_range_spec lo hi value : out_of_range lo hi value = false <-> forall n, value = Some n -> lo <= n <= hi.
Proof.
  destruct value as [n|]; cbn; [|done]. rewrite negb_false_iff, andb_true_iff, !Z.leb_le. split; [by intros H m [= <-]|auto].
Qed.

(** What the record of accepted options is. *)
Definition accepted (o : ConnectOptions) (p : ConnectProperties) : Prop :=
  cp_session_expiry_interval p = Some (o_session_expiry_interval o) /\
  0 <= o_session_expiry_interval o <= _MAX_SESSION_EXPIRY_INTERVAL /\
  cp_receive_maximum p = o_receive_maximum o /\ (forall n, o_receive_maximum o = Some n -> 1 <= n <= _MAX_RECEIVE_MAXIMUM) /\
  cp_maximum_packet_size p = o_maximum_packet_size o /\ (forall n, o_maximum_packet_size o = Some n -> 1 <= n <= _MAX_PACKET_SIZE) /\
  cp_topic_alias_maximum p = None /\ cp_authentication_method p = None /\ cp_authentication_data p = None /\
  cp_request_response_information p = o_request_response_information o /\
  cp_request_problem_information p = o_request_problem_information o /\
  o_user_properties o = (fun kv => StrPair kv.1 kv.2) <$> cp_user_properties p /\
  Forall (fun kv => valid_user_string kv.1 /\ valid_user_string kv.2) (cp_user_properties p).

Lemma build_v5 o r :
  _build_connect_properties V50 o = Ok r <-> exists p, r = Some p /\ accepted o p.
Proof.
  unfold _build_connect_properties. rewrite decide_True by done. unfold raise_if, accepted. split.
  - intros H. destruct (out_of_range 0 _ _) eqn:E1; [done|]. destruct (out_of_range 1 _MAX_RECEIVE_MAXIMUM _) eqn:E2; [done|].
    destruct (out_of_range 1 _MAX_PACKET_SIZE _) eqn:E3; [done|]. cbn in H.
    destruct (_validate_user_properties (o_user_properties o)) as [users|] eqn:Eu; [|done]. injection H as <-.
    apply validate_user_properties_spec in Eu as [Hu Hf].
    pose proof (proj1 (out_of_range_spec _ _ _) E1 _ eq_refl). rewrite out_of_range_spec in E2, E3.
    eexists. split; [reflexivity|]. cbn. split_and!; try done; try apply H.
  - intros (p & -> & H1 & H2 & H3 & H4 & H5 & H6 & H7 & H8 & H9 & H10 & H11 & H12 & H13).
    assert (out_of_range 0 _MAX_SESSION_EXPIRY_INTERVAL (Some (o_session_expiry_interval o)) = false) as ->
      by (apply (proj2 (out_of_range_spec _ _ _)); intros n [= <-]; exact H2).
    rewrite (proj2 (out_of_range_spec 1 _MAX_RECEIVE_MAXIMUM _) H4), (proj2 (out_of_range_spec 1 _MAX_PACKET_SIZE _) H6).
    cbn. rewrite (proj2 (validate_user_properties_spec _ (cp_user_properties p))) by done. cbn.
    destruct p; cbn in *; subst. reflexivity.
Qed.

(** ** The property block *)

(** The bytes a string, and a list of user properties, takes. *)
Definition str_size (s : pystr) : Z := match utf8_encode s with Ok b => zlen b | Err _ => 0 end.
Definition users_size (users : list (pystr * pystr)) : Z :=
  foldr (fun kv n => 5 + str_size kv.1 + str_size kv.2 + n) 0 users.

Lemma pack_total k n : 0 <= n < 256 ^ Z.of_nat k -> pack k n = Ok (be_bytes k n).
Proof. intros Hn. unfold pack. by rewrite (proj2 (Z.leb_le _ _)), (proj2 (Z.ltb_lt _ _)) by lia. Qed.

Lemma encode_str_valid s : valid_user_string s -> exists b, encode_str s = Ok b /\ zlen b = 2 + str_size s.
Proof.
  intros [(b & Hb & Hl) _]. unfold encode_str, str_size. rewrite Hb. cbn [mbind res_bind].
  rewrite pack_total by (unfold _MAX_STRING_BYTES in Hl; zlen_lia). cbn [mbind res_bind]. eexists. split; [reflexivity|].
  zlen_norm. by rewrite be_bytes_zlen.
Qed.

Lemma encode_pairs_valid users :
  Forall (fun kv => valid_user_string kv.1 /\ valid_user_string kv.2) users ->
  exists b, encode_pairs USER_PROPERTY users = Ok b /\ zlen b = users_size users.
Proof.
  intros H. induction H as [|[k u] users [Hk Hu] _ (b & IH & Hl)]; cbn [encode_pairs users_size foldr fst snd]; [by exists []|].
  rewrite byte_of_pid. cbn [fst snd] in Hk, Hu. fold (users_size users). cbn [mbind res_bind]. destruct (encode_str_valid k Hk) as (kb & -> & Hkl). destruct (encode_str_valid u Hu) as (ub & -> & Hul).
  cbn [mbind res_bind]. rewrite IH. cbn [mbind res_bind]. eexists. split; [reflexivity|]. zlen_norm. lia.
Qed.

(** Properties that can be written, in at most [size] bytes. *)
Definition block_fits (size : Z) (d : props) : Prop := exists b, encode_props d = Ok b /\ zlen b <= size.

Lemma block_fits_users users :
  Forall (fun kv => valid_user_string kv.1 /\ valid_user_string kv.2) users -> block_fits (users_size users) (_up users).
Proof.
  intros (b & Hb & Hl)%encode_pairs_valid. destruct users as [|kv users]; [by exists []|].
  exists b. unfold _up. cbn [encode_props]. rewrite encode_prop_wire. change (wire_of USER_PROPERTY) with WPairs.
  cbn [as_pairs mbind res_bind]. rewrite Hb. cbn [mbind res_bind]. rewrite app_nil_r. split; [done|lia].
Qed.

Lemma block_fits_int pid (o : option Z) k n l d :
  wire_of pid = WUint k -> (forall z, o = Some z -> 0 <= z < 256 ^ Z.of_nat k) -> block_fits n (somes l ++ d) ->
  block_fits (1 + Z.of_nat k + n) (somes ((pid, PInt <$> o) :: l) ++ d).
Proof.
  intros Hw Ho (b & Hb & Hl). destruct o as [z|]; cbn [somes fmap option_fmap option_map app].
  - unfold block_fits. cbn [encode_props]. rewrite encode_prop_wire, Hw. cbn [as_int mbind res_bind].
    rewrite pack_total by auto. cbn [mbind res_bind]. rewrite Hb. eexists. split; [reflexivity|]. zlen_norm. rewrite be_bytes_zlen. lia.
  - exists b. split; [done|lia].
Qed.

Lemma block_fits_bool pid (o : option bool) n l d :
  wire_of pid = WUint 1 -> block_fits n (somes l ++ d) -> block_fits (2 + n) (somes ((pid, PBool <$> o) :: l) ++ d).
Proof.
  intros Hw (b & Hb & Hl). destruct o as [z|]; cbn [somes fmap option_fmap option_map app].
  - unfold block_fits. cbn [encode_props]. rewrite encode_prop_wire, Hw. cbn [as_int mbind res_bind].
    rewrite pack_total by (destruct z; cbn; lia). cbn [mbind res_bind]. rewrite Hb. eexists. split; [reflexivity|].
    zlen_norm. rewrite be_bytes_zlen. lia.
  - exists b. split; [done|lia].
Qed.

Lemma accepted_fits o p :
  accepted o p -> block_fits (17 + users_size (cp_user_properties p)) (somes (ps_fields p) ++ _up (cp_user_properties p)).
Proof.
  intros (H1 & H2 & H3 & H4 & H5 & H6 & H7 & H8 & H9 & H10 & H11 & _ & H13). cbn [ps_fields ConnectProperties_PropertySet].
  rewrite H1, H3, H5, H7, H8, H9. unfold _MAX_SESSION_EXPIRY_INTERVAL, _MAX_RECEIVE_MAXIMUM, _MAX_PACKET_SIZE in *.
  replace (17 + users_size (cp_user_properties p)) with
    (1 + Z.of_nat 4 + (1 + Z.of_nat 2 + (1 + Z.of_nat 4 + (2 + (2 + users_size (cp_user_properties p)))))) by lia.
  apply block_fits_int; [done|intros z [= <-]; cbn; lia|]. apply block_fits_int; [done|intros z Hz%H4; cbn; lia|].
  apply block_fits_int; [done|intros z Hz%H6; cbn; lia|].
  change (somes ((TOPIC_ALIAS_MAXIMUM, PInt <$> None) :: ?l)) with (somes l).
  apply block_fits_bool; [done|]. apply block_fits_bool; [done|]. by apply block_fits_users.
Qed.

(** The encoder has one exception. *)
Lemma utf8_encode_error s e : utf8_encode s = Err e -> e = UnicodeEncodeError.
Proof.
  assert (forall c e', encode_cp c = Err e' -> e' = UnicodeEncodeError) as Hcp
    by (intros c e'; unfold encode_cp; repeat case_if; congruence).
  induction s as [|c s IH]; cbn [utf8_encode]; [done|]. destruct (encode_cp c) as [b|e'] eqn:E; cbn [mbind res_bind].
  - destruct (utf8_encode s) as [bs|e'] eqn:E'; cbn; [done|]. intros [= <-]. by apply IH.
  - intros [= <-]. by eapply Hcp.
Qed.

(** The exceptions of the validation. *)
Definition refusal (e : exn) : bool := match e with ValueError _ | TypeError _ => true | _ => false end.

Lemma check_user_string_refusal s e : check_user_string s = Err e -> refusal e = true.
Proof.
  unfold check_user_string, raise_if. destruct (utf8_encode s) as [b|e'] eqn:E.
  - intros H. repeat case_if; try done; by injection H as <-.
  - apply utf8_encode_error in E as ->. by intros [= <-].
Qed.

Lemma validate_refusal pairs e : _validate_user_properties pairs = Err e -> refusal e = true.
Proof.
  induction pairs as [|[k u|] pairs IH]; cbn; [done| |by intros [= <-]].
  destruct (check_user_string k) as [[]|] eqn:E1; cbn; [|intros [= <-]; by eapply check_user_string_refusal].
  destruct (check_user_string u) as [[]|] eqn:E2; cbn; [|intros [= <-]; by eapply check_user_string_refusal].
  destruct (_validate_user_properties pairs); cbn; [done|]. intros [= <-]. by apply IH.
Qed.

(** C40: CONNECT options.  MQTT 3.1.1 accepts none of the MQTT 5.0 options.  On 5.0 exactly the options in
    their ranges, with user properties that are pairs of UTF-8 strings without U+0000 of at most
    65535 bytes, are accepted, as the record with these very values; anything else is refused
    with ValueError or TypeError.  And accepted options can always be written: unless the user
    properties alone exceed what any packet can hold, the property block of every (re)connect is
    encoded, and read back by the broker as the record configured. *)
Theorem connect_options o :
  _build_connect_properties V311 o = (if configured o then Err (RuntimeError "MQTT 5.0 is required for") else Ok None) /\
  (forall r, _build_connect_properties V50 o = Ok r <-> exists p, r = Some p /\ accepted o p) /\
  (forall e, _build_connect_properties V50 o = Err e -> refusal e = true) /\
  (forall p, accepted o p -> 17 + users_size (cp_user_properties p) <= MAX_MQTT_VARINT ->
     exists enc, encode_connect_properties (Some p) = Ok enc /\
       forall pre rest, decode_connect_properties (pre ++ enc ++ rest) (zlen pre) = Ok (Some p, zlen enc)).
Proof.
  split; [|split; [apply build_v5|split]].
  - unfold _build_connect_properties. by rewrite decide_False.
  - intros e. unfold _build_connect_properties, raise_if. rewrite decide_True by done.
    destruct (out_of_range 0 _ _); [by intros [= <-]|]. destruct (out_of_range 1 _MAX_RECEIVE_MAXIMUM _); [by intros [= <-]|].
    destruct (out_of_range 1 _MAX_PACKET_SIZE _); [by intros [= <-]|]. cbn [mbind res_bind].
    destruct (_validate_user_properties (o_user_properties o)) as [users|e'] eqn:E; [done|].
    intros [= <-]. by eapply validate_refusal.
  - intros p Hp Hsize. destruct (accepted_fits o p Hp) as (raw & Hraw & Hl). set (d := somes _ ++ _) in *.
    assert (exists enc, encode_connect_properties (Some p) = Ok enc) as [enc Henc].
    { change (exists enc, ps_encode (Some p) = Ok enc). rewrite ps_encode_eq.
      change (exists enc, encode_props_block d = Ok enc).
      destruct (encode_varint_total (zlen raw)) as (n & Hn & _); [pose proof (zlen_nonneg raw); lia|].
      assert (d <> []) as Hd by (subst d; cbn; by rewrite (proj1 Hp)).
      destruct d as [|kv d]; [done|]. exists (n ++ raw). unfold encode_props_block. rewrite Hraw. cbn [mbind res_bind]. by rewrite Hn. }
    exists enc. split; [done|]. intros pre rest. change (ps_encode (Some p) = Ok enc) in Henc.
    change (ps_decode (pre ++ enc ++ rest) (zlen pre) = Ok (Some p, zlen enc)). rewrite (ps_reads_back (Some p) enc pre rest Henc).
    unfold canon. rewrite decide_False; [done|]. intros [= E]. destruct Hp as [Hp _]. rewrite E in Hp. done.
Qed.

Definition sample_options : ConnectOptions :=
  mkConnectOptions 3600 (Some 20) (Some 1000000) [StrPair (py "app") (py "meter"); StrPair (py "app") (py "2")] None (Some false).

Lemma connect_options_witness :
  exists p enc, _build_connect_properties V50 sample_options = Ok (Some p) /\ accepted sample_options p /\
    encode_connect_properties (Some p) = Ok enc /\ decode_connect_properties (enc ++ []) 0 = Ok (Some p, zlen enc).
Proof.
  destruct (connect_options sample_options) as (_ & Hb & _ & Hw).
  destruct (proj1 (Hb _) ltac:(vm_compute; reflexivity)) as (p & Hp & Ha).
  destruct (Hw p Ha) as (enc & He & Hd).
  - injection Hp as <-. vm_compute. discriminate.
  - exists p, enc. split; [by apply Hb; exists p|]. split; [exact Ha|]. split; [exact He|]. exact (Hd [] []).
Defined.
