(* ===== verification/Client.v ===== *)
(** * The client ([client.py]): connecting

    [MQTTClient] as a record, with [_connect], [__aenter__], [__aexit__] and the checks of its public
    calls.  [_connect] runs the handshake of [Connection] on a new protocol engine and installs
    the engine, the snapshot of the handshake and the detached filters. *)

From Stdlib Require Import SpecFloat.
From S2P Require Import Prelude Utf8 Properties Packets Codec Reader Topic SubscriptionIndex State Engine Requests Inbound Protocol Ownership Calls Connection Options.

(** ** Floats: the binary64 arithmetic of Python *)

Definition float : Type := spec_float.
Definition fmul : float -> float -> float := SFmul 53 1024.
Definition flt : float -> float -> bool := SFltb.
Definition fzero : float := S754_zero false.

(** [min(a, b)] *)
Definition fmin (a b : float) : float := if flt b a then b else a.

(** ** State *)

Record ReconnectConfig : Type := mkReconnect {
  rc_enabled : bool;
  rc_initial_delay : float;
  rc_max_delay : float;
  rc_backoff_factor : float;
  rc_max_attempts : option Z
}.

(** What [__init__] stores; [cc_callback] is what awaiting [on_connection_recovery_failed] does. *)
Record ClientConfig : Type := mkConfig {
  cc_version : version;
  cc_client_id : pystr;
  cc_keepalive : Z;
  cc_clean_session : bool;
  cc_username : option pystr;
  cc_password : option pystr;
  cc_will : option Will;
  cc_reconnect : ReconnectConfig;
  cc_callback : option (res unit);
  cc_stripped_prefixes : list pystr;
  cc_session_replay_buffer_size : Z;
  cc_connect_properties : option ConnectProperties
}.

(** [cl_protocol] is the engine of the current or last connection, with its buffer; [cl_queues] and
    [cl_next] are the queues of the subscriptions and the references in use. *)
Record Client : Type := mkClient {
  cl_config : ClientConfig;
  cl_info : option ConnectionInfo;
  cl_connection_id : Z;
  cl_protocol : option (Engine * PacketBuffer);
  cl_detached : dict pystr SubscriptionEntry;
  cl_dispatcher : Dispatcher;
  cl_queues : gmap nat Queue;
  cl_next : nat
}.

Definition set_cl_info (v : option ConnectionInfo) (cl : Client) : Client :=
  mkClient (cl_config cl) v (cl_connection_id cl) (cl_protocol cl) (cl_detached cl) (cl_dispatcher cl) (cl_queues cl) (cl_next cl).

(** [__init__]: the checks in order.  [config] holds the arguments that are only stored. *)
Definition client_new (connect_timeout replay_timeout : float) (options : ConnectOptions) (max_pending_requests : Z)
    (config : option ConnectProperties -> ClientConfig) : res Client :=
  let c := config None in
  _ ← raise_if (negb (flt fzero connect_timeout)) (ValueError "mqtt_connect_timeout must be positive");
  _ ← raise_if (cc_session_replay_buffer_size c <? 0) (ValueError "session_replay_buffer_size must be non-negative");
  _ ← raise_if (negb (flt fzero replay_timeout)) (ValueError "session_replay_timeout must be positive");
  _ ← raise_if (match cc_will c with Some w => is_Some_b (w_properties w) && bool_decide (cc_version c <> V50) | None => false end)
        (RuntimeError "will properties require MQTT 5.0");
  properties ← _build_connect_properties (cc_version c) options;
  requests ← requests_new max_pending_requests;
  Ok (mkClient (config properties) None 0 None [] (rq_core requests) ∅ 0).

(** ** [_connect] *)

(** One attempt, as the network answers it: whether the sleep before it (if there is one) is
    cancelled, the transport factory, whether the peer is gone by the time CONNECT is written, and the reads. *)
Record Attempt : Type := mkAttempt {
  at_cancelled : bool;
  at_transport : res unit;
  at_lost : bool;
  at_reads : list read_result
}.

Inductive action : Type :=
| ASleep (delay : float)
| AAttempt
| AConnected (connection_id : Z)
| ARun (protocol : Engine * PacketBuffer)   (** [self._protocol.run()] *)
| AClose
| ANotify.

Definition connect_packet (c : ClientConfig) : res Connect :=
  password ← match cc_password c with Some p => b ← utf8_encode p; Ok (Some b) | None => Ok None end;
  Ok (mkConnect (cc_client_id c) (cc_clean_session c) (cc_keepalive c) (cc_username c) password (cc_will c) (cc_connect_properties c)).

(** [MQTTProtocol(transport, SessionState(), ...)] *)
Definition protocol_new (lost : bool) (cl : Client) : Engine :=
  let c := cl_config cl in
  set_e_lost lost
    (engine_new (cc_version c) (cc_stripped_prefixes c) (cc_keepalive c)
       (match cc_connect_properties c with Some p => cp_receive_maximum p | None => None end)
       (cc_session_replay_buffer_size c) (Some (cl_dispatcher cl)) (cl_queues cl) (cl_next cl)).
Definition buffer_new (cl : Client) : PacketBuffer :=
  PacketBuffer_new (cc_version (cl_config cl))
    (match cc_connect_properties (cl_config cl) with Some p => cp_maximum_packet_size p | None => None end).

(** The statements after the handshake. *)
Definition install (s : Engine) (b : PacketBuffer) (info : ConnectionInfo) (cl : Client) : Client :=
  let s := (bind_router (restore_detached (cl_detached cl) s).2).2 in
  mkClient (cl_config cl) (Some info) (ci_connection_id info) (Some (s, b)) (cl_detached cl) (bind_core (cl_dispatcher cl))
    (cl_queues cl) (cl_next cl).

(** [None]: still waiting for the CONNACK. *)
Definition _connect (a : Attempt) (cl : Client) : option (res unit) * Client * list action :=
  match at_transport a with
  | Err e => (Some (Err e), cl, [AAttempt])
  | Ok _ =>
    match connect_packet (cl_config cl) with
    | Err e => (Some (Err e), cl, [AAttempt])
    | Ok packet =>
      match connect packet (at_reads a) (buffer_new cl) (protocol_new (at_lost a) cl) with
      | (None, _, _) => (None, cl, [AAttempt])
      | (Some (Err e), _, _) => (Some (Err e), cl, [AAttempt; AClose])
      | (Some (Ok ack), b, s) =>
        let info := from_connack packet ack (cc_version (cl_config cl)) (cl_connection_id cl + 1) in
        (Some (Ok tt), install s b info cl, [AAttempt; AConnected (ci_connection_id info)])
      end
    end
  end.

(** ** Leaving *)

(** [__aexit__], once the run task has been cancelled: what is left of the client, and the engine
    after [disconnect]. *)
Definition aexit (cl : Client) : Client * option Engine :=
  (mkClient (cl_config cl) None (cl_connection_id cl) None [] (mkDispatcher ∅ (d_generation (cl_dispatcher cl) + 1))
     (cl_queues cl) (cl_next cl),
   match cl_protocol cl with Some (s, _) => Some (disconnect s).2 | None => None end).

(** ** The handshake as the client sees it *)

Lemma rejected_fails e b s : exists e' s', rejected e b s = (Some (Err e'), b, s').
Proof.
  unfold rejected, mbind, M_bind. destruct (rejecting_oversized e s) as [[a|e'] s']; cbn; by do 2 eexists.
Qed.

Lemma connack_effects pkt s ack s' :
  handle_connack pkt s = (Ok ack, s') ->
  pkt = PConnAck ack /\ ca_return_code ack = 0 /\ exists q r replay,
    s' = set_e_replay replay (set_e_retain_available r (set_e_max_publish_qos q (set_e_effective_keepalive
           (match e_version s with V50 => negotiated_keepalive (e_keepalive s) (ca_properties ack) | V311 => e_keepalive s end) s))).
Proof.
  destruct pkt as [p|p|p|p|p|p|p|p|p|p|p| | |p|p]; try done. unfold handle_connack.
  destruct (ca_return_code p =? 0) eqn:Hrc; [|done]. zbool.
  unfold begin_session, mbind, M_bind, mret, M_ret, asks, modify, lift. cbn.
  destruct (e_version s); cbn; [intros [= -> <-]; split_and!; [done..|]; by do 3 eexists|].
  destruct (ca_properties p) as [props|] eqn:Ep; cbn; [|intros [= -> <-]; rewrite Ep; split_and!; [done..|]; by do 3 eexists].
  destruct (cap_server_keep_alive props) as [k|] eqn:Ek, (cap_maximum_qos props) as [n|]; cbn;
    try (destruct (QoS_of n) as [q|]; cbn; [|done]); intros [= -> <-]; rewrite Ep; cbn; rewrite Ek;
    (split_and!; [done..|]; by do 3 eexists).
Qed.

(** A handshake that succeeds has handled one CONNACK, on the state it started from. *)
Lemma await_ok reads b s ack b' s' :
  _await_connack reads b s = (Some (Ok ack), b', s') ->
  exists buf n, decode buf (pb_version b) (pb_max_packet_size b) = Ok (Some (PConnAck ack, n)) /\
    handle_connack (PConnAck ack) s = (Ok ack, s').
Proof.
  assert (forall e b0 s0, rejected e b0 s0 = (Some (Ok ack), b', s') -> False) as Hrej.
  { intros e b0 s0 H. destruct (rejected_fails e b0 s0) as (e' & s1 & E). congruence. }
  revert b. induction reads as [|[data|e|] reads IH]; intros b; cbn [_await_connack]; try done; [|by intros ?%Hrej].
  destruct (feed b data) as [b1|e] eqn:Ef; [|by intros ?%Hrej].
  assert (pb_version b1 = pb_version b /\ pb_max_packet_size b1 = pb_max_packet_size b) as [Hv Hl].
  { unfold feed in Ef. destruct (if pb_offset b =? 0 then _ else _); [|done]. cbn in Ef.
    destruct data; [by injection Ef as <-|]. destruct (pb_exported b); [done|by injection Ef as <-]. }
  unfold iter_next. rewrite Hv, Hl. destruct (decode _ _ _) as [[[p n]|]|e] eqn:Ed.
  - destruct (handle_connack p s) as [[a|e] s1] eqn:Eh; [|by intros ?%Hrej]. intros [= -> _ ->].
    destruct (connack_effects _ _ _ _ Eh) as [-> _]. by exists (slice_from (pb_buf b1) (pb_offset b1)), n.
  - intros H. apply IH in H. cbn in H. by rewrite Hv, Hl in H.
  - by intros ?%Hrej.
Qed.

(** A decoded CONNACK has properties on MQTT 5.0 only. *)
Lemma decode_connack_v311 buf limit ack n :
  decode buf V311 limit = Ok (Some (PConnAck ack, n)) -> ca_properties ack = None.
Proof.
  unfold decode. intros H. case_if; [done|]. inv_ok. destruct x0 as [[len k]|]; [|by inv_ok].
  inv_ok. case_if; [by inv_ok|]. destruct (PacketType_of _) as [t|]; [|by inv_ok]. inv_ok.
  assert (forall A (r : res A) f, (forall a, f a <> PConnAck ack) -> f <$> r = Ok (PConnAck ack) -> False) as Hne.
  { intros A r f Hf. destruct r; cbn; [|done]. intros [= E]. by destruct (Hf a). }
  destruct t; cbn [decode_body] in *; try (exfalso; eapply Hne; [|eassumption]; done); try done.
  - destruct (_decode_connack _ _) as [a|] eqn:E; [|done]. injection H2 as ->.
    unfold _decode_connack in E. case_if; [done|]. rewrite bool_decide_eq_false_2 in E by done. cbn [andb] in E. by inv_ok.
  - case_if; [done|]. inv_ok.
Qed.

(** Detached filters come back as they were. *)
Lemma add_many_new (l : dict pystr SubscriptionEntry) :
  NoDup (keys l) -> si_entries (add_many index_new l) = l.
Proof.
  intros Hnd. assert (forall l2 l1 idx, si_entries idx = l1 -> NoDup (keys (l1 ++ l2)) -> si_entries (add_many idx l2) = l1 ++ l2) as H.
  { induction l2 as [|[f e] l2 IH]; intros l1 idx Hi Hn; [by rewrite app_nil_r|].
    cbn. rewrite cons_middle, app_assoc. apply IH; [|by rewrite <-app_assoc].
    rewrite keys_app in Hn. apply NoDup_app in Hn as (_ & Hdis & _).
    assert (f ∉ keys l1) as Hf by (intros Hin; apply (Hdis f Hin); cbn; set_solver).
    unfold add, contains. rewrite Hi, (proj2 (dict_get_None l1 f)) by done. cbn. rewrite Hi. by apply keys_set_new. }
  by apply (H l []).
Qed.

(** What the client keeps between connections. *)
Definition client_ok (cl : Client) : Prop :=
  NoDup (keys (cl_detached cl)) /\ dispatcher_below (Some (cl_dispatcher cl)) (cl_next cl).

Lemma bind_below d next : dispatcher_below (Some d) next -> dispatcher_below (Some (bind_core d)) next.
Proof.
  intros Hd d' k p [= <-] Hk. cbn in Hk. rewrite lookup_fmap in Hk. destruct (d_pending d !! k) as [q|] eqn:E; [|done].
  injection Hk as <-. by apply (Hd d k q).
Qed.

(** What a successful [connect] did. *)
Lemma connect_ok packet reads b s ack b' s' :
  connect packet reads b s = (Some (Ok ack), b', s') ->
  exists request, encode (PConnect packet) (e_version s) = Ok request /\ e_lost s = false /\ e_closed s = false /\
    send_packet (PConnect packet) s = (Ok tt, set_e_sent (e_sent s ++ [request]) s) /\
    handle_connack (PConnAck ack) (set_e_sent (e_sent s ++ [request]) s) = (Ok ack, s') /\
    exists buf n, decode buf (pb_version b) (pb_max_packet_size b) = Ok (Some (PConnAck ack, n)).
Proof.
  unfold connect. destruct (send_packet _ s) as [[[]|e] s1] eqn:Es; [|done]. intros (buf & n & Hd & Hh)%await_ok.
  pose proof Es as Hs. unfold send_packet, _encode, mbind, M_bind, asks, lift in Hs.
  destruct (encode _ _) as [request|] eqn:Er; [|done]. unfold _send in Hs.
  destruct (e_lost s || e_closed s) eqn:Eo; [done|]. apply orb_false_iff in Eo as [? ?]. injection Hs as <-.
  exists request. split_and!; try done. by exists buf, n.
Qed.

Lemma connect_step packet s s1 :
  send_packet (PConnect packet) s = (Ok tt, s1) -> engine_step (system_new s) (EvConnect packet) = system_new s1.
Proof. intros H. cbn [engine_step]. unfold run_unit, system_new. cbn [engine]. by rewrite H. Qed.

Lemma connack_step pkt s ack s1 :
  handle_connack pkt s = (Ok ack, s1) -> e_dead s = false -> engine_step (system_new s) (EvConnAck pkt) = system_new s1.
Proof.
  intros H Hd. cbn [engine_step]. unfold reading, run_reader, system_new, mbind, M_bind. cbn [failure engine].
  rewrite Hd, H. done.
Qed.

(** The engine a connection attempt installs is one of the interleavings. *)
Lemma installed cl packet ack s1 s :
  dispatcher_below (Some (cl_dispatcher cl)) (cl_next cl) ->
  send_packet (PConnect packet) (protocol_new false cl) = (Ok tt, s1) -> handle_connack (PConnAck ack) s1 = (Ok ack, s) -> e_dead s1 = false ->
  exists sys, engine sys = (bind_router (restore_detached (cl_detached cl) s).2).2 /\ calls sys = ∅ /\ reachable sys.
Proof.
  intros Hd Hsend Hh Hdead. exists (run_events (system_new (protocol_new false cl))
    [EvConnect packet; EvConnAck (PConnAck ack); EvRestoreDetached (cl_detached cl); EvBind]).
  apply and_assoc. split.
  - unfold run_events. cbn [fold_left]. by rewrite (connect_step _ _ _ Hsend), (connack_step _ _ _ _ Hh Hdead).
  - apply reachable_events. change (protocol_new false cl) with (engine_new (cc_version (cl_config cl)) (cc_stripped_prefixes (cl_config cl))
      (cc_keepalive (cl_config cl)) (match cc_connect_properties (cl_config cl) with Some p => cp_receive_maximum p | None => None end)
      (cc_session_replay_buffer_size (cl_config cl)) (Some (cl_dispatcher cl)) (cl_queues cl) (cl_next cl)).
    by apply reachable_new.
Qed.

(** The snapshot. *)
Lemma from_connack_fields packet ack v k :
  ci_connection_id (from_connack packet ack v k) = k /\ ci_return_code (from_connack packet ack v k) = ca_return_code ack.
Proof. unfold from_connack. by destruct (ca_properties ack). Qed.

(** C14: connecting.  When [_connect] succeeds, the client has a new engine, in a reachable state with
    no call, that sent CONNECT and handled the CONNACK; its filters are the detached ones of before, still
    detached; its dispatcher is the client's, on a new generation; and the snapshot it publishes has the
    next connection number, return code 0 and the keepalive the engine uses.  When it fails, the
    client is as before, and the transport is closed, unless it was never opened or the password cannot be
    encoded. *)
Theorem client_connect a cl :
  client_ok cl ->
  match _connect a cl with
  | (Some (Ok _), cl', acts) =>
    acts = [AAttempt; AConnected (cl_connection_id cl + 1)] /\ client_ok cl' /\ cl_detached cl' = cl_detached cl /\
    cl_connection_id cl' = cl_connection_id cl + 1 /\
    exists packet ack request sys b info,
      connect_packet (cl_config cl) = Ok packet /\ encode (PConnect packet) (cc_version (cl_config cl)) = Ok request /\
      cl_protocol cl' = Some (engine sys, b) /\ reachable sys /\ calls sys = ∅ /\
      e_sent (engine sys) = [request] /\ e_closed (engine sys) = false /\
      si_entries (subscriptions (e_state (engine sys))) = cl_detached cl /\
      (forall f e, (f, e) ∈ cl_detached cl -> se_ref e ∈ e_detached (engine sys)) /\
      e_dispatcher (engine sys) = Some (cl_dispatcher cl') /\ d_generation (cl_dispatcher cl') = d_generation (cl_dispatcher cl) + 1 /\
      cl_info cl' = Some info /\ info = from_connack packet ack (cc_version (cl_config cl)) (cl_connection_id cl + 1) /\
      ci_return_code info = 0 /\ ci_effective_keepalive info = e_effective_keepalive (engine sys)
  | (Some (Err _), cl', acts) => cl' = cl /\
    (acts = [AAttempt; AClose] \/ (exists e, at_transport a = Err e) \/ exists e, connect_packet (cl_config cl) = Err e)
  | (None, cl', _) => cl' = cl
  end.
Proof.
  intros [Hnd Hd]. unfold _connect. destruct (at_transport a) as [[]|e]; [|by split; [|right; left; exists e]].
  destruct (connect_packet (cl_config cl)) as [packet|e] eqn:Ep; [|by split; [|right; right; exists e]].
  destruct (connect packet (at_reads a) (buffer_new cl) (protocol_new (at_lost a) cl)) as [[[[ack|e]|] b] s] eqn:Ec;
    [|by split; [|left]|done].
  destruct (connect_ok _ _ _ _ _ _ _ Ec) as (request & Hreq & Hl & Hc & Hsend & Hh & buf & n & Hdec).
  assert (at_lost a = false) as El by exact Hl. rewrite El in *.
  destruct (from_connack_fields packet ack (cc_version (cl_config cl)) (cl_connection_id cl + 1)) as [Eid Erc].
  split; [by rewrite Eid|]. split; [split; [exact Hnd|by apply bind_below]|]. split; [done|]. split; [exact Eid|].
  destruct (installed cl packet ack _ s Hd Hsend Hh eq_refl) as (sys & Es & Ecalls & Hreach).
  exists packet, ack, request, sys, b, (from_connack packet ack (cc_version (cl_config cl)) (cl_connection_id cl + 1)).
  destruct (connack_effects _ _ _ _ Hh) as (_ & Hrc & q & r & replay & Hs).
  split; [done|]. split; [exact Hreq|]. split; [by rewrite Es|]. split; [done|]. split; [done|].
  rewrite Es, Hs. clear Es. split; [done|]. split; [done|]. split; [by apply add_many_new|]. split.
  { intros f e Hin. cbn. apply elem_of_union_l, elem_of_list_to_set, list_elem_of_fmap. by exists (f, e). }
  split; [done|]. split; [done|]. split; [done|]. split; [done|]. split; [by rewrite Erc|].
  assert (c_keepalive packet = cc_keepalive (cl_config cl)) as Ek by (unfold connect_packet in Ep; by inv_ok).
  unfold from_connack. cbn. rewrite Ek. destruct (cc_version (cl_config cl)) eqn:Ev.
  - change (pb_version (buffer_new cl)) with (cc_version (cl_config cl)) in Hdec. rewrite Ev in Hdec. by rewrite (decode_connack_v311 _ _ _ _ Hdec).
  - by destruct (ca_properties ack).
Qed.

(** [float(n)] *)
Definition float_of (n : Z) : float := binary_normalize 53 1024 n 0 false.

(** The defaults of [ReconnectConfig]. *)
Definition reconnect_default : ReconnectConfig := mkReconnect true (float_of 1) (float_of 60) (float_of 2) (Some 5).

Definition sample_config (r : ReconnectConfig) : ClientConfig :=
  mkConfig V50 (py "c") 60 true None None None r (Some (Ok tt)) [] 1000 None.

(** A client that has detached a subscription of an earlier connection. *)
Definition sample_client (r : ReconnectConfig) : Client :=
  mkClient (sample_config r) None 3 None [(py "a/#", sample_entry 4 (py "a/#") None)] (mkDispatcher ∅ 0) ∅ 10.

(** Attempts on which the broker accepts, the transport fails, and the broker closes. *)
Definition accepting : Attempt := mkAttempt false (Ok tt) false [ReadData connack_frame].
Definition refused : Attempt := mkAttempt false (Err OSError) false [].
Definition closing : Attempt := mkAttempt false (Ok tt) false [ReadFails (MQTTDisconnectedError "Connection closed by remote")].

Lemma sample_client_ok r : client_ok (sample_client r).
Proof. split; [apply NoDup_singleton|]. by intros d k p [= <-] ?. Qed.

Lemma client_connect_witness :
  let cl := sample_client reconnect_default in
  client_ok cl /\ match _connect accepting cl with (Some (Ok _), cl', _) => cl_connection_id cl' = 4 | _ => False end.
Proof.
  intros cl. split; [exact (sample_client_ok _)|]. pose proof (client_connect accepting cl (sample_client_ok _)) as H.
  destruct (_connect accepting cl) as [[[[[]|e]|] cl'] acts] eqn:E; try (vm_compute in E; discriminate E).
  destruct H as (_ & _ & _ & H & _). exact H.
Defined.
