(* ===== verification/Create.v ===== *)
(** * Making a client ([MQTTClient.__init__] and [create_client] of [client.py])

    The keyword arguments of a call, each given or omitted, with the defaults that [__init__] and [create_client] list
    separately.  Theorem: [create_client] makes the client that [MQTTClient] makes, whatever is given and whatever
    omitted, except that a transport factory of the caller sees [False] where [MQTTClient] passes [None]; and with
    no keywords it is accepted, with the values the documentation names. *)

From S2P Require Import Prelude Properties Packets Codec Topic Engine Requests Connection Options Client Transport.

Section create.
(** The contexts of [ssl], what the factories of callers return, and what awaiting a callback does. *)
Context {SSLContext : Type} (create_default_context : SSLContext) {Made : Type}.

Abbreviation tls_arg := (@tls_option SSLContext).
Abbreviation factory := (pystr -> Z -> tls_arg -> Made).

(** The keyword arguments of a call; [None] is an omitted one. *)
Record Keywords : Type := mkKeywords {
  k_client_id : option pystr;
  k_keepalive : option Z;
  k_clean_session : option bool;
  k_username : option (option pystr);
  k_password : option (option pystr);
  k_will : option (option Will);
  k_tls : option tls_arg;
  k_reconnect : option (option ReconnectConfig);
  k_on_connection_recovery_failed : option (option (res unit));
  k_mqtt_connect_timeout : option float;
  k_transport_factory : option (option factory);
  k_version : option version;
  k_session_expiry_interval : option Z;
  k_receive_maximum : option (option Z);
  k_maximum_packet_size : option (option Z);
  k_user_properties : option (list user_pair);
  k_request_response_information : option (option bool);
  k_request_problem_information : option (option bool);
  k_max_pending_requests : option Z;
  k_session_replay_buffer_size : option Z;
  k_session_replay_timeout : option float
}.

(** A client, the timeouts it keeps, and what it opens: by the default factory, or by one of the caller. *)
Record Created : Type := mkCreated {
  cr_client : Client;
  cr_connect_timeout : float;
  cr_replay_timeout : float;
  cr_transport : (@opening SSLContext) + Made
}.

(** [_DEFAULT_STRIPPED_PREFIXES] *)
Definition _DEFAULT_STRIPPED_PREFIXES : list pystr := [py "$queue"; py "$exclusive"].

(** [MQTTClient(host, port, ...)]: the defaults of the signature, then the body. *)
Definition mqtt_client (host : pystr) (port : option Z) (stripped_prefixes : option (list pystr)) (k : Keywords) : res Created :=
  let connect_timeout := default (float_of 30) (k_mqtt_connect_timeout k) in
  let replay_timeout := default (float_of 30) (k_session_replay_timeout k) in
  let tls := default TlsNone (k_tls k) in
  cl ← client_new connect_timeout replay_timeout
         (mkConnectOptions (default 0 (k_session_expiry_interval k)) (default None (k_receive_maximum k)) (default None (k_maximum_packet_size k))
            (default [] (k_user_properties k)) (default None (k_request_response_information k)) (default None (k_request_problem_information k)))
         (default 1000 (k_max_pending_requests k))
         (mkConfig (default V311 (k_version k)) (default [] (k_client_id k)) (default 60 (k_keepalive k)) (default true (k_clean_session k))
            (default None (k_username k)) (default None (k_password k)) (default None (k_will k))
            (default reconnect_default (default None (k_reconnect k))) (default None (k_on_connection_recovery_failed k))
            (default _DEFAULT_STRIPPED_PREFIXES stripped_prefixes) (default 1000 (k_session_replay_buffer_size k)));
  Ok (mkCreated cl connect_timeout replay_timeout
        (match default None (k_transport_factory k) with
         | None => inl (_default_transport_factory create_default_context tls)
         | Some f => inr (f host (default 1883 port) tls)
         end)).

(** [create_client]: its own defaults, all passed on. *)
Definition create_client (host : pystr) (port : option Z) (k : Keywords) : res Created :=
  mqtt_client host (Some (default 1883 port)) None
    (mkKeywords (Some (default [] (k_client_id k))) (Some (default 60 (k_keepalive k))) (Some (default true (k_clean_session k)))
       (Some (default None (k_username k))) (Some (default None (k_password k))) (Some (default None (k_will k)))
       (Some (default (TlsFlag false) (k_tls k))) (Some (default None (k_reconnect k))) (Some (default None (k_on_connection_recovery_failed k)))
       (Some (default (float_of 30) (k_mqtt_connect_timeout k))) (Some (default None (k_transport_factory k))) (Some (default V311 (k_version k)))
       (Some (default 0 (k_session_expiry_interval k))) (Some (default None (k_receive_maximum k))) (Some (default None (k_maximum_packet_size k)))
       (Some (default [] (k_user_properties k))) (Some (default None (k_request_response_information k)))
       (Some (default None (k_request_problem_information k))) (Some (default 1000 (k_max_pending_requests k)))
       (Some (default 1000 (k_session_replay_buffer_size k))) (Some (default (float_of 30) (k_session_replay_timeout k)))).

(** The property [connection_info]. *)
Definition connection_info (cl : Client) : res ConnectionInfo :=
  match cl_info cl with
  | None => Err (MQTTDisconnectedError "No active connection information")
  | Some info => Ok info
  end.

(** What differs: [tls] as a factory of the caller sees it. *)
Definition set_tls (tls : tls_arg) (k : Keywords) : Keywords :=
  mkKeywords (k_client_id k) (k_keepalive k) (k_clean_session k) (k_username k) (k_password k) (k_will k) (Some tls) (k_reconnect k)
    (k_on_connection_recovery_failed k) (k_mqtt_connect_timeout k) (k_transport_factory k) (k_version k) (k_session_expiry_interval k)
    (k_receive_maximum k) (k_maximum_packet_size k) (k_user_properties k) (k_request_response_information k) (k_request_problem_information k)
    (k_max_pending_requests k) (k_session_replay_buffer_size k) (k_session_replay_timeout k).

Theorem create_client_agrees host port k :
  create_client host port k = mqtt_client host port None (set_tls (default (TlsFlag false) (k_tls k)) k) /\
  (default None (k_transport_factory k) = None \/ is_Some (k_tls k) -> create_client host port k = mqtt_client host port None k).
Proof.
  split; [reflexivity|]. intros H. unfold create_client, mqtt_client. cbn. f_equal. destruct k as [? ? ? ? ? ? tls ? ? ? [[f|]|]]; cbn in *;
    destruct tls; try reflexivity; by destruct H as [|[? ?]].
Qed.

(** [create_client(host)]. *)
Definition no_keywords : Keywords :=
  mkKeywords None None None None None None None None None None None None None None None None None None None None None.

Theorem create_client_default host :
  exists c, create_client host None no_keywords = Ok c /\ cr_transport c = inl OpenPlain /\
    let config := cl_config (cr_client c) in
    cc_version config = V311 /\ cc_keepalive config = 60 /\ cc_clean_session config = true /\ cc_client_id config = [] /\
    cc_connect_properties config = None /\ cc_reconnect config = reconnect_default /\ connection_info (cr_client c) = Err (MQTTDisconnectedError "No active connection information").
Proof. eexists. split; [vm_compute; reflexivity|]. cbv zeta. split_and!; reflexivity. Qed.

(** [connection_info] after [_connect] and [__aexit__]. *)
Theorem connection_info_connected a cl :
  match _connect a cl with
  | (Some (Ok _), cl', _) => exists info, connection_info cl' = Ok info /\ ci_connection_id info = cl_connection_id cl + 1
  | (_, cl', _) => connection_info cl' = connection_info cl
  end /\ connection_info (aexit cl).1 = Err (MQTTDisconnectedError "No active connection information").
Proof.
  split; [|done]. unfold _connect. destruct (at_transport a); [|done]. destruct (connect_packet _) as [packet|]; [|done].
  destruct (connect _ _ _ _) as [[[[ack|e]|] b] s]; [|done..]. eexists. split; [reflexivity|].
  unfold from_connack. by destruct (ca_properties ack).
Qed.
End create.
