(* ===== verification/Reconnect.v ===== *)
(** * Reconnection ([_connect_with_retry] and [_run_loop] of [client.py])

    Both coroutines as functions of what the network answers: a list of attempts for one, of
    rounds for the other.  Each returns its result ([None] while it still waits), the client and
    the list of what it did.

    Theorems: the delays, the number of attempts and the result of [_connect_with_retry];
    and, over any connections that keep an invariant of the client, how connections are
    numbered, how the run loop ends and when [on_connection_recovery_failed] is awaited.  [Life] puts actual
    connections in their place. *)

From Stdlib Require Import SpecFloat.
From S2P Require Import Prelude Properties Packets Codec Reader SubscriptionIndex State Engine Protocol Connection Options Client.

(** ** [_connect_with_retry] *)

(** [except (OSError, MQTTTimeoutError)] *)
Definition retryable (e : exn) : bool := match e with OSError | MQTTTimeoutError _ => true | _ => false end.

(** [delay = min(delay * backoff_factor, max_delay)] *)
Definition next_delay (c : ReconnectConfig) (delay : float) : float := fmin (fmul delay (rc_backoff_factor c)) (rc_max_delay c).

(** [max_a is not None and attempt >= max_a] *)
Definition exhausted (c : ReconnectConfig) (attempt : Z) : bool :=
  match rc_max_attempts c with Some m => m <=? attempt | None => false end.

(** The loop, from a sleep ([sleep]) or from an attempt. *)
Fixpoint retry_loop (c : ReconnectConfig) (sleep : bool) (attempt : Z) (delay : float) (attempts : list Attempt) (cl : Client)
    : option (res unit) * Client * list action :=
  match attempts with
  | [] => (None, cl, if sleep then [ASleep delay] else [])
  | a :: attempts' =>
    if sleep && at_cancelled a then (Some (Err CancelledError), cl, [ASleep delay])
    else
      let slept := if sleep then [ASleep delay] else [] in
      let delay := if sleep then next_delay c delay else delay in
      match _connect a cl with
      | (Some (Err e), cl, acts) =>
        if retryable e then
          if negb (rc_enabled c) || exhausted c (attempt + 1) then (Some (Err e), cl, slept ++ acts)
          else
            let '(r, cl, acts') := retry_loop c true (attempt + 1) delay attempts' cl in
            (r, cl, slept ++ acts ++ acts')
        else (Some (Err e), cl, slept ++ acts)
      | (r, cl, acts) => (r, cl, slept ++ acts)
      end
  end.

Definition _connect_with_retry (wait_before_first_attempt : bool) (attempts : list Attempt) (cl : Client)
    : option (res unit) * Client * list action :=
  let c := cc_reconnect (cl_config cl) in
  retry_loop c wait_before_first_attempt 0 (rc_initial_delay c) attempts cl.

(** ** [_run_loop] *)

(** [except (MQTTDisconnectedError, MQTTTimeoutError, OSError)] around the connection, and
    [except (MQTTConnectError, MQTTTimeoutError, OSError)] around the reconnection. *)
Definition connection_lost (e : exn) : bool :=
  match e with MQTTDisconnectedError _ | MQTTTimeoutError _ | OSError => true | _ => false end.
Definition recovery_failed (e : exn) : bool :=
  match e with MQTTConnectError _ | MQTTTimeoutError _ | OSError => true | _ => false end.

(** A connection: how it ends (subscribing again, restoring the requests and [run] included; [None]: it
    lasts), with what it has made of the client's objects, and the attempts to replace it. *)
Record Round : Type := mkRound {
  rd_run : Client -> option (res unit) * Client;
  rd_attempts : list Attempt
}.

(** [await self._notify_connection_recovery_failed()] and [raise]. *)
Definition notify_and_raise (e : exn) (cl : Client) : option (res unit) * list action :=
  match cc_callback (cl_config cl) with
  | None => (Some (Err e), [])
  | Some (Ok _) => (Some (Err e), [ANotify])
  | Some (Err e') => (Some (Err e'), [ANotify])
  end.

Fixpoint _run_loop (rounds : list Round) (cl : Client) : option (res unit) * Client * list action :=
  match cl_protocol cl with
  | None => (Some (Err (RuntimeError "Not connected yet")), cl, [])
  | Some p =>
    match rounds with
    | [] => (None, cl, [])
    | rd :: rounds' =>
      match rd_run rd cl with
      | (None, cl) => (None, cl, [ARun p])
      | (Some (Ok _), cl) => (Some (Ok tt), set_cl_info None cl, [ARun p])
      | (Some (Err e), cl) =>
        let cl := set_cl_info None cl in
        if connection_lost e then
          if negb (rc_enabled (cc_reconnect (cl_config cl))) then
            let '(r, acts) := notify_and_raise e cl in (r, cl, ARun p :: acts)
          else
            match _connect_with_retry true (rd_attempts rd) cl with
            | (Some (Ok _), cl, acts) =>
              let '(r, cl, acts') := _run_loop rounds' cl in (r, cl, ARun p :: AClose :: acts ++ acts')
            | (Some (Err e), cl, acts) =>
              if recovery_failed e then
                let '(r, acts') := notify_and_raise e cl in (r, cl, ARun p :: AClose :: acts ++ acts')
              else (Some (Err e), cl, ARun p :: AClose :: acts)
            | (None, cl, acts) => (None, cl, ARun p :: AClose :: acts)
            end
        else (Some (Err e), cl, [ARun p])
      end
    end
  end.

(** [__aenter__] and the life of the run task. *)
Definition client_run (attempts : list Attempt) (rounds : list Round) (cl : Client) : option (res unit) * Client * list action :=
  match _connect_with_retry false attempts cl with
  | (Some (Ok _), cl, acts) => let '(r, cl, acts') := _run_loop rounds cl in (r, cl, acts ++ acts')
  | (r, cl, acts) => (r, cl, acts)
  end.

(** ** What was done *)

Definition sleeps (acts : list action) : list float := omap (fun a => match a with ASleep d => Some d | _ => None end) acts.
Definition tries (acts : list action) : nat := length (List.filter (fun a => match a with AAttempt => true | _ => false end) acts).
Definition connected (acts : list action) : list Z := omap (fun a => match a with AConnected i => Some i | _ => None end) acts.
Definition notified (acts : list action) : nat := length (List.filter (fun a => match a with ANotify => true | _ => false end) acts).

Definition runs (acts : list action) : list (Engine * PacketBuffer) := omap (fun a => match a with ARun p => Some p | _ => None end) acts.

(** The delays of the specification. *)
Definition backoff (c : ReconnectConfig) (k : nat) : float := Nat.iter k (next_delay c) (rc_initial_delay c).

Lemma sleeps_app a b : sleeps (a ++ b) = sleeps a ++ sleeps b.
Proof. apply omap_app. Qed.
Lemma connected_app a b : connected (a ++ b) = connected a ++ connected b.
Proof. apply omap_app. Qed.
Lemma runs_app a b : runs (a ++ b) = runs a ++ runs b.
Proof. apply omap_app. Qed.
Lemma tries_app a b : tries (a ++ b) = (tries a + tries b)%nat.
Proof. unfold tries. by rewrite List.filter_app, length_app. Qed.
Lemma notified_app a b : notified (a ++ b) = (notified a + notified b)%nat.
Proof. unfold notified. by rewrite List.filter_app, length_app. Qed.

(** ** The loop of attempts *)

(** One attempt. *)
Lemma connect_acts a cl r cl' acts :
  _connect a cl = (r, cl', acts) ->
  sleeps acts = [] /\ tries acts = 1%nat /\ notified acts = 0%nat /\ cl_config cl' = cl_config cl /\
  match r with
  | Some (Ok _) => connected acts = [cl_connection_id cl + 1] /\ cl_connection_id cl' = cl_connection_id cl + 1 /\
      is_Some (cl_protocol cl') /\ exists info, cl_info cl' = Some info /\ ci_connection_id info = cl_connection_id cl'
  | _ => cl' = cl /\ connected acts = []
  end.
Proof.
  unfold _connect. destruct (at_transport a); [|by intros [= <- <- <-]].
  destruct (connect_packet _) as [packet|]; [|by intros [= <- <- <-]].
  destruct (connect _ _ _ _) as [[[[ack|e]|] b] s]; intros [= <- <- <-]; try done.
  assert (forall p a v n, ci_connection_id (from_connack p a v n) = n) as E
    by (intros p ? v n; unfold from_connack; by case_match).
  cbn. rewrite !E. split_and!; try done. eexists. split; [reflexivity|]. apply E.
Qed.

Lemma flt_irrefl x : flt x x = false.
Proof.
  unfold flt, SFltb, SFcompare. destruct x as [s|s| |s m e]; [by destruct s|by destruct s|done|].
  destruct s; by rewrite Z.compare_refl, Pos.compare_refl.
Qed.

Lemma next_delay_max c d : flt (rc_max_delay c) (next_delay c d) = false.
Proof. unfold next_delay, fmin. destruct (flt (rc_max_delay c) (fmul d (rc_backoff_factor c))) eqn:E; [apply flt_irrefl|done]. Qed.

(** What the loop does from the [k]-th delay, after [attempt] attempts that failed. *)
Record retried (c : ReconnectConfig) (k : nat) (attempt : Z) (cl : Client) (r : option (res unit)) (cl' : Client) (acts : list action) : Prop := {
  rt_sleeps : sleeps acts = backoff c <$> seq k (length (sleeps acts));
  rt_limit : forall m, rc_max_attempts c = Some m -> Z.of_nat (tries acts) <= Z.max 1 (m - attempt);
  rt_disabled : rc_enabled c = false -> (tries acts <= 1)%nat;
  rt_notified : notified acts = 0%nat;
  rt_config : cl_config cl' = cl_config cl;
  rt_result : match r with
    | Some (Ok _) => connected acts = [cl_connection_id cl + 1] /\ cl_connection_id cl' = cl_connection_id cl + 1 /\
        is_Some (cl_protocol cl') /\ exists info, cl_info cl' = Some info /\ ci_connection_id info = cl_connection_id cl'
    | Some (Err e) => cl' = cl /\ connected acts = [] /\
        (retryable e = true -> rc_enabled c = false \/ exists m, rc_max_attempts c = Some m /\ Z.of_nat (tries acts) = Z.max 1 (m - attempt))
    | None => cl' = cl /\ connected acts = []
    end
}.

Lemma retry_loop_spec c sleep k attempt attempts cl r cl' acts :
  retry_loop c sleep attempt (backoff c k) attempts cl = (r, cl', acts) -> retried c k attempt cl r cl' acts.
Proof.
  revert sleep k attempt cl r cl' acts. induction attempts as [|a attempts IH]; intros sleep k attempt cl r cl' acts; cbn [retry_loop].
  { intros [= <- <- <-]. destruct sleep; split; cbn; try done; intros; lia. }
  destruct (sleep && at_cancelled a). { intros [= <- <- <-]. split; cbn; try done; intros; lia. }
  set (slept := if sleep then [ASleep (backoff c k)] else []).
  assert (exists k', (if sleep then next_delay c (backoff c k) else backoff c k) = backoff c k' /\
    sleeps slept = backoff c <$> seq k (k' - k) /\ (k <= k')%nat /\ tries slept = 0%nat /\ notified slept = 0%nat /\ connected slept = [])
    as (k' & -> & Hsl & Hk & Ht & Hn & Hcn).
  { destruct sleep; [exists (S k)|exists k]; rewrite ?Nat.sub_diag, ?Nat.sub_succ_l, ?Nat.sub_diag by lia; split_and!; try done; lia. }
  destruct (_connect a cl) as [[r1 cl1] acts1] eqn:Ec. pose proof (connect_acts _ _ _ _ _ Ec) as (Hs1 & Ht1 & Hn1 & Hc1 & Hr1).
  assert (forall r2, (match r2 with Some (Err e) => retryable e = true -> rc_enabled c = false \/ exhausted c (attempt + 1) = true | _ => True end) ->
    r2 = r1 -> retried c k attempt cl r2 cl1 (slept ++ acts1)) as Hend.
  { intros r2 Hr2 ->. split; rewrite ?sleeps_app, ?tries_app, ?notified_app, ?connected_app, ?Hs1, ?Ht1, ?Ht, ?Hn, ?Hn1, ?Hsl, ?Hcn; try done.
    - rewrite app_nil_r. by rewrite length_fmap, length_seq.
    - intros m _. lia.
    - destruct r1 as [[[]|e]|]; try done. destruct Hr1 as [-> ->]. split; [done|]. split; [done|].
      intros [Hd|Hx]%Hr2; [by left|]. unfold exhausted in Hx. destruct (rc_max_attempts c) as [m|] eqn:Em; [|done]. zbool.
      right. exists m. split; [done|]. lia. }
  destruct r1 as [[u|e]|]; [intros [= <- <- <-]; by apply Hend| |intros [= <- <- <-]; by apply Hend].
  destruct Hr1 as [-> Hcon1].
  destruct (retryable e) eqn:Ere; [|intros [= <- <- <-]; apply Hend; [congruence|done]].
  destruct (negb (rc_enabled c) || exhausted c (attempt + 1)) eqn:Ex.
  { intros [= <- <- <-]. apply Hend; [|done]. intros _. apply orb_true_iff in Ex as [Ex%negb_true_iff|Ex]; [by left|by right]. }
  apply orb_false_iff in Ex as [Een%negb_false_iff Ex].
  destruct (retry_loop c true (attempt + 1) (backoff c k') attempts cl) as [[r2 cl2] acts2] eqn:El.
  intros [= <- <- <-]. destruct (IH _ _ _ _ _ _ _ El) as [I1 I2 I3 I4 I5 I6].
  assert (forall m, rc_max_attempts c = Some m -> 1 < m - attempt) as Hm.
  { intros m Em. unfold exhausted in Ex. rewrite Em in Ex. zbool. lia. }
  split; rewrite ?sleeps_app, ?tries_app, ?notified_app, ?connected_app, ?Hs1, ?Ht1, ?Ht, ?Hn, ?Hn1, ?Hsl, ?Hcn, ?Hcon1; try done.
  - cbn [app]. rewrite !length_app, length_fmap, length_seq, seq_app, fmap_app. f_equal.
    by replace (k + (k' - k))%nat with k' by lia.
  - intros m Em. specialize (I2 m Em). specialize (Hm m Em). lia.
  - congruence.
  - destruct r2 as [[u|e2]|]; [done| |done]. destruct I6 as (-> & -> & Hre). split; [done|]. split; [done|].
    intros [Hd|(m & Em & Hx)]%Hre; [by left|]. right. exists m. split; [done|]. specialize (Hm m Em). lia.
Qed.

(** An attempt that is answered: the handshake's timeout is among what can happen to its reads. *)
Definition answered (a : Attempt) : Prop := ReadTimeout ∈ at_reads a.

Lemma await_answered reads b s : ReadTimeout ∈ reads -> exists r b' s', _await_connack reads b s = (Some r, b', s').
Proof.
  revert b. induction reads as [|[data|e|] reads IH]; intros b Hin; cbn [_await_connack].
  - by apply elem_of_nil in Hin.
  - apply elem_of_cons in Hin as [|Hin]; [done|].
    assert (forall e b0 s0, exists r b' s', rejected e b0 s0 = (Some r, b', s')) as Hrej.
    { intros e b0 s0. destruct (rejected_fails e b0 s0) as (? & ? & ->). by do 3 eexists. }
    destruct (feed b data) as [b1|]; [|apply Hrej]. destruct (iter_next b1) as [[[p|]|] b2]; [|by apply IH|apply Hrej].
    destruct (handle_connack p s) as [[ack|] s1]; [by do 3 eexists|apply Hrej].
  - destruct (rejected_fails e b s) as (? & ? & ->). by do 3 eexists.
  - by do 3 eexists.
Qed.

Lemma connect_answered a cl : answered a -> exists r cl' acts, _connect a cl = (Some r, cl', acts).
Proof.
  intros Ha. unfold _connect. destruct (at_transport a); [|by do 3 eexists].
  destruct (connect_packet _) as [packet|]; [|by do 3 eexists]. unfold connect.
  destruct (send_packet _ _) as [[[]|] s1]; [|by do 3 eexists].
  destruct (await_answered (at_reads a) (buffer_new cl) s1 Ha) as ([ack|] & b & s & ->); by do 3 eexists.
Qed.

Lemma retry_loop_returns c m sleep attempt delay attempts cl :
  rc_max_attempts c = Some m -> Forall answered attempts -> Z.max 1 (m - attempt) <= Z.of_nat (length attempts) ->
  exists r cl' acts, retry_loop c sleep attempt delay attempts cl = (Some r, cl', acts).
Proof.
  intros Em. revert sleep attempt delay cl. induction attempts as [|a attempts IH]; intros sleep attempt delay cl Ha Hl; cbn in Hl; [lia|].
  apply Forall_cons in Ha as [Ha Hall]. cbn [retry_loop]. case_if; [by do 3 eexists|].
  destruct (connect_answered a cl Ha) as ([u|e] & cl1 & acts1 & ->); [by do 3 eexists|].
  destruct (retryable e); [|by do 3 eexists]. destruct (negb _ || _) eqn:Ex; [by do 3 eexists|].
  apply orb_false_iff in Ex as [_ Ex]. unfold exhausted in Ex. rewrite Em in Ex. zbool.
  edestruct IH as (r & cl2 & acts2 & ->); [done|lia|]. by do 3 eexists.
Qed.

(** C13: connecting with retries.  The client sleeps the delays of the backoff sequence, in order and
    without gaps, from [initial_delay] on; the first is [initial_delay] itself, which nothing caps
    ([initial_delay_not_capped]), the later ones never exceed [max_delay], whatever floats are
    configured, so that none does if [initial_delay] does not.  At most [max_attempts] attempts are made (one if it is less, or if
    reconnection is disabled), and with that many answered attempts the coroutine ends.  It returns
    at the first success; when it raises, the client is as before and the exception is one that is
    not retried or that of the last attempt allowed. *)
Theorem connect_retries wait attempts cl r cl' acts :
  _connect_with_retry wait attempts cl = (r, cl', acts) ->
  let c := cc_reconnect (cl_config cl) in
  sleeps acts = backoff c <$> seq 0 (length (sleeps acts)) /\
  head (sleeps acts) ∈ [None; Some (rc_initial_delay c)] /\
  Forall (fun d => flt (rc_max_delay c) d = false) (tail (sleeps acts)) /\
  (flt (rc_max_delay c) (rc_initial_delay c) = false -> Forall (fun d => flt (rc_max_delay c) d = false) (sleeps acts)) /\
  (forall m, rc_max_attempts c = Some m -> Z.of_nat (tries acts) <= Z.max 1 m) /\
  (rc_enabled c = false -> (tries acts <= 1)%nat) /\
  match r with
  | Some (Ok _) => cl_connection_id cl' = cl_connection_id cl + 1 /\ connected acts = [cl_connection_id cl']
  | Some (Err e) => cl' = cl /\ connected acts = [] /\
      (retryable e = true -> rc_enabled c = false \/ exists m, rc_max_attempts c = Some m /\ Z.of_nat (tries acts) = Z.max 1 m)
  | None => cl' = cl /\ forall m, rc_max_attempts c = Some m -> Forall answered attempts -> Z.of_nat (length attempts) < Z.max 1 m
  end.
Proof.
  intros H c. unfold _connect_with_retry in H. fold c in H. change (rc_initial_delay c) with (backoff c 0) in H.
  destruct (retry_loop_spec _ _ _ _ _ _ _ _ _ H) as [H1 H2 H3 _ _ H6].
  assert (forall m, m - 0 = m) as Hz by lia. setoid_rewrite Hz in H2.
  assert (forall l, Forall (fun d => flt (rc_max_delay c) d = false) (backoff c <$> (S <$> l))) as Hcap
    by (intros l; rewrite !Forall_fmap; apply Forall_true; intros k; apply next_delay_max).
  assert (backoff c <$> seq 0 (length (sleeps acts)) = match sleeps acts with [] => [] | _ :: l => rc_initial_delay c :: (backoff c <$> (S <$> seq 0 (length l))) end) as Hb
    by (destruct (sleeps acts) as [|d l]; [done|]; cbn [length seq]; by rewrite <-seq_shift).
  rewrite Hb in H1. split_and!; try done.
  { by rewrite Hb. }
  { rewrite H1. destruct (sleeps acts); cbn; set_solver. }
  { rewrite H1. destruct (sleeps acts); [constructor|apply Hcap]. }
  { intros Hi. rewrite H1. destruct (sleeps acts); [constructor|]. by constructor; [|apply Hcap]. }
  destruct r as [[u|e]|].
  - destruct H6 as (Hc & Hi & _). by rewrite Hi.
  - by setoid_rewrite Hz in H6.
  - destruct H6 as [-> _]. split; [done|]. intros m Em Ha. destruct (Z.lt_ge_cases (Z.of_nat (length attempts)) (Z.max 1 m)) as [|Hge]; [done|].
    destruct (retry_loop_returns c m wait 0 (backoff c 0) attempts cl Em Ha) as (r0 & cl0 & acts0 & E); [lia|]. congruence.
Qed.

(** The documented example: five failing attempts, 1 s, 2 s, 4 s and 8 s apart. *)
Lemma connect_retries_witness :
  let '(r, cl', acts) := _connect_with_retry false (repeat refused 6) (sample_client reconnect_default) in
  r = Some (Err OSError) /\ cl' = sample_client reconnect_default /\ tries acts = 5%nat /\
  sleeps acts = [float_of 1; float_of 2; float_of 4; float_of 8] /\
  sleeps acts = backoff reconnect_default <$> seq 0 (length (sleeps acts)).
Proof.
  destruct (_connect_with_retry false (repeat refused 6) (sample_client reconnect_default)) as [[r cl'] acts] eqn:E.
  destruct (connect_retries _ _ _ _ _ _ E) as (H & _). vm_compute in E. injection E as <- <- <-.
  split; [reflexivity|]. split; [vm_compute; reflexivity|]. split; [vm_compute; reflexivity|].
  split; [vm_compute; reflexivity|exact H].
Defined.

(** With [initial_delay] above [max_delay] the first delay is not capped. *)
Theorem initial_delay_not_capped :
  let c := mkReconnect true (float_of 300) (float_of 60) (float_of 2) None in
  flt (rc_max_delay c) (rc_initial_delay c) = true /\
  sleeps (_connect_with_retry true [refused; refused] (sample_client c)).2 = [float_of 300; float_of 60; float_of 60].
Proof. vm_compute. split; reflexivity. Qed.

(** ** The run loop *)

Definition info_ok (cl : Client) : Prop := forall info, cl_info cl = Some info -> ci_connection_id info = cl_connection_id cl.

(** The numbers of the connections made are consecutive. *)
Definition numbered (cl cl' : Client) (acts : list action) : Prop :=
  connected acts = seqZ (cl_connection_id cl + 1) (Z.of_nat (length (connected acts))) /\
  cl_connection_id cl' = cl_connection_id cl + Z.of_nat (length (connected acts)).

Lemma numbered_none cl cl' acts : connected acts = [] -> cl_connection_id cl' = cl_connection_id cl -> numbered cl cl' acts.
Proof. intros E Hi. unfold numbered. rewrite E, Hi. cbn. split; [done|lia]. Qed.

Lemma numbered_app cl1 cl2 cl3 acts1 acts2 : numbered cl1 cl2 acts1 -> numbered cl2 cl3 acts2 -> numbered cl1 cl3 (acts1 ++ acts2).
Proof.
  intros [E1 H1] [E2 H2]. unfold numbered. rewrite connected_app, length_app, Nat2Z.inj_add. split; [|lia].
  rewrite seqZ_app by lia. rewrite E1 at 1. rewrite E2 at 1. do 2 f_equal. lia.
Qed.

Lemma retry_numbered wait attempts cl r cl' acts :
  _connect_with_retry wait attempts cl = (r, cl', acts) ->
  numbered cl cl' acts /\ notified acts = 0%nat /\ cl_config cl' = cl_config cl /\
  match r with
  | Some (Ok _) => connected acts <> [] /\ is_Some (cl_protocol cl') /\ info_ok cl'
  | _ => cl' = cl /\ connected acts = []
  end.
Proof.
  unfold _connect_with_retry. change (rc_initial_delay _) with (backoff (cc_reconnect (cl_config cl)) 0).
  intros H. destruct (retry_loop_spec _ _ _ _ _ _ _ _ _ H) as [_ _ _ Hn Hc Hr].
  destruct r as [[u|e]|].
  - destruct Hr as (E & Hi & Hp & info & Hinfo & Hid). split_and!; try done.
    + unfold numbered. rewrite E, Hi. done.
    + by rewrite E.
    + intros i. rewrite Hinfo. by intros [= <-].
  - destruct Hr as (-> & E & _). split_and!; try done. by apply numbered_none.
  - destruct Hr as (-> & E). split_and!; try done. by apply numbered_none.
Qed.

(** Where the outcome of the retries comes from. *)
Lemma retry_loop_attempt c sleep attempt delay attempts cl r cl' acts :
  retry_loop c sleep attempt delay attempts cl = (r, cl', acts) ->
  runs acts = [] /\
  match r with
  | Some (Ok u) => exists a acts', _connect a cl = (Some (Ok u), cl', acts')
  | Some (Err e) => e = CancelledError \/ exists a, (_connect a cl).1.1 = Some (Err e)
  | None => True
  end.
Proof.
  revert sleep attempt delay r cl' acts. induction attempts as [|a attempts IH]; intros sleep attempt delay r cl' acts; cbn [retry_loop].
  { intros [= <- <- <-]. by destruct sleep. }
  destruct (sleep && at_cancelled a); [intros [= <- <- <-]; split; [done|by left]|].
  set (slept := if sleep then [ASleep delay] else []). assert (runs slept = []) as Hsl by (subst slept; by destruct sleep).
  destruct (_connect a cl) as [[r1 cl1] acts1] eqn:Ec. pose proof (connect_acts _ _ _ _ _ Ec) as (_ & _ & _ & _ & Hr1).
  assert (runs acts1 = []) as Hru.
  { revert Ec. unfold _connect. destruct (at_transport a), (connect_packet (cl_config cl)) as [packet|]; try (by intros [= <- <- <-]).
    by destruct (connect _ _ _ _) as [[[[ack|e]|] b] s]; intros [= <- <- <-]. }
  assert (runs (slept ++ acts1) = []) as Hrs by (by rewrite runs_app, Hsl, Hru).
  destruct r1 as [[u|e]|]; [intros [= <- <- <-]; split; [done|by exists a, acts1]| |intros [= <- <- <-]; done].
  assert (exists a, (_connect a cl).1.1 = Some (Err e)) as Hex by (exists a; by rewrite Ec).
  destruct Hr1 as [-> _]. destruct (retryable e); [|intros [= <- <- <-]; split; [done|by right]].
  destruct (_ || _); [intros [= <- <- <-]; split; [done|by right]|].
  destruct (retry_loop _ _ _ _ attempts cl) as [[r2 cl2] acts2] eqn:El. intros [= <- <- <-].
  destruct (IH _ _ _ _ _ _ El) as [E1 H]. split; [|done]. by rewrite app_assoc, runs_app, Hrs, E1.
Qed.

(** *** Any connections

    [between] holds of the client between two connections, [live] when one starts, and [raised] of the
    exceptions with which one ends. *)

Section rounds.
Context (between live : Client -> Prop) (raised : exn -> Prop).
Hypothesis live_between : forall cl, live cl -> between cl.
Hypothesis between_info : forall cl, between cl -> between (set_cl_info None cl).
Hypothesis connect_live : forall a cl u cl' acts, between cl -> _connect a cl = (Some (Ok u), cl', acts) -> live cl'.

(** A connection keeps what is the client's. *)
Definition round_ok (rd : Round) : Prop :=
  forall cl, live cl -> let '(r, cl') := rd_run rd cl in
    between cl' /\ cl_config cl' = cl_config cl /\ cl_connection_id cl' = cl_connection_id cl /\ cl_info cl' = cl_info cl /\
    match r with Some (Err e) => raised e | _ => True end.

(** How the loop ends with an exception; [n] is how often the callback has been awaited. *)
Definition loop_end (c : ClientConfig) (e : exn) (n : nat) : Prop :=
  let enabled := rc_enabled (cc_reconnect c) in
  (raised e /\ connection_lost e = false /\ n = 0%nat) \/
  (raised e /\ connection_lost e = true /\ enabled = false /\ n = 1%nat) \/
  (enabled = true /\ n = Nat.b2n (recovery_failed e) /\ (e = CancelledError \/ exists a cl, between cl /\ (_connect a cl).1.1 = Some (Err e))).

Record loop_ok (cl : Client) (r : option (res unit)) (cl' : Client) (acts : list action) : Prop := {
  lp_numbered : numbered cl cl' acts;
  lp_between : between cl';
  lp_info : info_ok cl';
  lp_ended : r <> None -> cl_info cl' = None;
  lp_notified : match r with Some (Err e) => loop_end (cl_config cl) e (notified acts) | _ => notified acts = 0%nat end;
  lp_runs : forall p, p ∈ runs acts -> exists cl0, live cl0 /\ cl_protocol cl0 = Some p
}.

Lemma run_loop_spec rounds cl r cl' acts :
  _run_loop rounds cl = (r, cl', acts) ->
  is_Some (cl_protocol cl) -> info_ok cl -> live cl -> cc_callback (cl_config cl) = Some (Ok tt) -> Forall round_ok rounds ->
  loop_ok cl r cl' acts.
Proof.
  revert cl r cl' acts. induction rounds as [|rd rounds IH]; intros cl r cl' acts; cbn [_run_loop];
    intros H [p Hp] Hi Hlive Hcb Hrf; rewrite Hp in H.
  { injection H as <- <- <-. split; try done; [by apply numbered_none|by apply live_between|].
    by intros q ?%not_elem_of_nil. }
  apply Forall_cons in Hrf as [Hrd Hrf]. specialize (Hrd cl Hlive).
  destruct (rd_run rd cl) as [r0 cl0'] eqn:Erun. destruct Hrd as (Hbet & Hcfg0 & Hid0 & Hinf0 & Hrai).
  assert (forall q acts', (q ∈ runs acts' -> exists cl0, live cl0 /\ cl_protocol cl0 = Some q) ->
    q ∈ runs (ARun p :: acts') -> exists cl0, live cl0 /\ cl_protocol cl0 = Some q) as Hruns.
  { intros q acts' Hq. change (runs (ARun p :: acts')) with (p :: runs acts'). intros [->|]%elem_of_cons; [by exists cl|by apply Hq]. }
  assert (forall q, q ∈ runs [] -> exists cl0, live cl0 /\ cl_protocol cl0 = Some q) as Hnil by (by intros q ?%not_elem_of_nil).
  assert (forall cl2 acts2, connected acts2 = [] -> cl_connection_id cl2 = cl_connection_id cl -> numbered cl cl2 (ARun p :: acts2)) as Hnum0
    by (intros; by apply numbered_none).
  destruct r0 as [[u|e]|].
  { injection H as <- <- <-. split; try done; [by apply Hnum0|by apply between_info|intros q; by apply Hruns, Hnil]. }
  2:{ injection H as <- <- <-. split; try done; [by apply Hnum0| |intros q; by apply Hruns, Hnil].
      intros info. rewrite Hinf0, Hid0. apply Hi. }
  set (cl0 := set_cl_info None cl0') in *. apply between_info in Hbet. change (between cl0) in Hbet.
  assert (info_ok cl0) as Hi0 by done. change (cl_config cl0') with (cl_config cl0) in *. change (cl_connection_id cl0') with (cl_connection_id cl0) in *.
  destruct (connection_lost e) eqn:El.
  2:{ injection H as <- <- <-. split; try done; [by apply Hnum0|by left|intros q; by apply Hruns, Hnil]. }
  unfold notify_and_raise in H. rewrite Hcfg0 in H. destruct (rc_enabled (cc_reconnect (cl_config cl))) eqn:Een; cbn [negb] in H.
  2:{ rewrite Hcb in H. injection H as <- <- <-. split; try done; [by apply Hnum0|by right; left|intros q; by apply Hruns, Hnil]. }
  destruct (_connect_with_retry true (rd_attempts rd) cl0) as [[r1 cl1] acts1] eqn:Er.
  destruct (retry_numbered _ _ _ _ _ _ Er) as (Hnum & Hno & Hcfg & Hr1).
  destruct (retry_loop_attempt _ _ _ _ _ _ _ _ _ Er) as [Hru Hatt].
  assert (numbered cl cl1 (ARun p :: AClose :: acts1)) as Hnum1 by (destruct Hnum as [E1 E2]; rewrite Hid0 in *; by split).
  destruct r1 as [[u|e1]|].
  - destruct Hr1 as (_ & Hp1 & Hi1). destruct Hatt as (a & acts' & Hc). destruct (_run_loop rounds cl1) as [[r2 cl2] acts2] eqn:E2. injection H as <- <- <-.
    destruct (IH _ _ _ _ E2 Hp1 Hi1) as [Hnum2 Hb2 Hi2 Hnone Hn2 Hr2]; [by eapply connect_live|by rewrite Hcfg, Hcfg0|done|].
    split; try done.
    + by apply (numbered_app cl cl1 cl2 (ARun p :: AClose :: acts1)).
    + change (notified (ARun p :: AClose :: acts1 ++ acts2)) with (notified (acts1 ++ acts2)). rewrite notified_app, Hno.
      rewrite Hcfg, Hcfg0 in Hn2. done.
    + intros q. apply Hruns. change (runs (AClose :: acts1 ++ acts2)) with (runs (acts1 ++ acts2)). rewrite runs_app, Hru. apply Hr2.
  - destruct Hr1 as [-> E1]. rewrite Hcfg0, Hcb in H. destruct (recovery_failed e1) eqn:Ef; injection H as <- <- <-.
    + split; try done.
      * apply Hnum0; [|done]. change (connected (AClose :: acts1 ++ [ANotify])) with (connected (acts1 ++ [ANotify])). by rewrite connected_app, E1.
      * right; right. change (notified (ARun p :: AClose :: acts1 ++ [ANotify])) with (notified (acts1 ++ [ANotify])).
        rewrite notified_app, Hno, Ef. split_and!; try done. destruct Hatt as [|[a Ha]]; [by left|right; by exists a, cl0].
      * intros q. apply Hruns. change (runs (AClose :: acts1 ++ [ANotify])) with (runs (acts1 ++ [ANotify])). rewrite runs_app, Hru. apply Hnil.
    + split; try done; [|intros q; apply Hruns; change (runs (AClose :: acts1)) with (runs acts1); rewrite Hru; apply Hnil].
      right; right. change (notified (ARun p :: AClose :: acts1)) with (notified acts1).
      rewrite Hno, Ef. split_and!; try done. destruct Hatt as [|[a Ha]]; [by left|right; by exists a, cl0].
  - destruct Hr1 as [-> E1]. injection H as <- <- <-. split; try done.
    intros q. apply Hruns. change (runs (AClose :: acts1)) with (runs acts1). rewrite Hru. apply Hnil.
Qed.

(** The life of the client; the callback is not awaited when the first connection fails. *)
Record life_ok (cl : Client) (r : option (res unit)) (cl' : Client) (acts : list action) : Prop := {
  lf_numbered : numbered cl cl' acts;
  lf_between : between cl';
  lf_info : forall info, cl_info cl' = Some info -> ci_connection_id info = cl_connection_id cl' /\ r = None;
  lf_first : connected acts = [] -> notified acts = 0%nat;
  lf_notified : match r with
    | Some (Err e) => connected acts <> [] -> loop_end (cl_config cl) e (notified acts)
    | _ => notified acts = 0%nat
    end;
  lf_runs : forall p, p ∈ runs acts -> exists cl0, live cl0 /\ cl_protocol cl0 = Some p
}.

Lemma client_run_spec attempts rounds cl r cl' acts :
  client_run attempts rounds cl = (r, cl', acts) ->
  between cl -> cl_info cl = None -> cc_callback (cl_config cl) = Some (Ok tt) -> Forall round_ok rounds ->
  life_ok cl r cl' acts.
Proof.
  unfold client_run. intros H Hbet Hinfo Hcb Hrf. destruct (_connect_with_retry false attempts cl) as [[r1 cl1] acts1] eqn:Er.
  destruct (retry_numbered _ _ _ _ _ _ Er) as (Hnum & Hno & Hcfg & Hr1).
  destruct (retry_loop_attempt _ _ _ _ _ _ _ _ _ Er) as [Hru Hatt].
  assert (forall q, q ∈ runs acts1 -> exists cl0, live cl0 /\ cl_protocol cl0 = Some q) as Hnil
    by (intros q; rewrite Hru; by intros ?%not_elem_of_nil).
  destruct r1 as [[u|e]|].
  - destruct Hr1 as (Hne & Hp & Hi). destruct Hatt as (a & acts' & Hc). destruct (_run_loop rounds cl1) as [[r2 cl2] acts2] eqn:E2. injection H as <- <- <-.
    destruct (run_loop_spec _ _ _ _ _ E2 Hp Hi) as [Hnum2 Hb2 Hi2 Hnone Hn Hr2]; [by eapply connect_live|by rewrite Hcfg|done|].
    rewrite Hcfg in Hn. split; rewrite ?notified_app, ?connected_app, ?runs_app, ?Hno, ?Hru; try done.
    + by apply (numbered_app cl cl1 cl2).
    + intros info Hx. split; [by apply Hi2|]. destruct r2; [|done]. rewrite Hnone in Hx by done. done.
    + by intros [? _]%app_eq_nil.
    + by destruct r2 as [[]|].
  - destruct Hr1 as [-> E1]. injection H as <- <- <-. split; try done. by rewrite Hinfo.
  - destruct Hr1 as [-> E1]. injection H as <- <- <-. split; try done. by rewrite Hinfo.
Qed.
End rounds.

(** Whether the callback is awaited when the loop ends with [e]. *)
Definition notifies (c : ClientConfig) (e : exn) : bool :=
  if rc_enabled (cc_reconnect c) then recovery_failed e else connection_lost e.

Definition not_refused (e : exn) : Prop := match e with MQTTConnectError _ => False | _ => True end.

(** Over any connections that are not refused again once established: when the loop ends with an exception,
    the callback is awaited exactly once if the exception is one of those of a failed recovery (or, with
    reconnection disabled, of a lost connection), and not at all otherwise. *)
Theorem recovery_callback attempts rounds cl r cl' acts :
  client_run attempts rounds cl = (r, cl', acts) ->
  cl_info cl = None -> cc_callback (cl_config cl) = Some (Ok tt) ->
  Forall (round_ok (fun _ => True) (fun _ => True) not_refused) rounds ->
  match r with
  | Some (Err e) => connected acts <> [] -> notified acts = Nat.b2n (notifies (cl_config cl) e)
  | _ => notified acts = 0%nat
  end.
Proof.
  intros H Hinfo Hcb Hrf. destruct (client_run_spec (fun _ => True) (fun _ => True) not_refused) with (4 := H) as [_ _ _ _ Hn _]; [done..|].
  destruct r as [[u|e]|]; [done| |done]. intros Hc. unfold notifies.
  destruct (Hn Hc) as [(Hr & El & ->)|[(_ & El & -> & ->)|(-> & -> & _)]]; [|by rewrite El|done].
  destruct (rc_enabled _); [by destruct e|by rewrite El].
Qed.

Definition lost : exn := MQTTDisconnectedError "Connection lost".

(** A connection that is lost at once. *)
Definition lost_at_once (attempts : list Attempt) : Round := mkRound (fun cl => (Some (Err lost), cl)) attempts.

(** A broker that accepts the TCP connection and closes it before the CONNACK, as one that is
    starting does, ends a client that may retry without limit: [MQTTDisconnectedError] is not
    retried, and the callback is not awaited. *)
Theorem eof_before_connack_ends_client :
  let c := mkReconnect true (float_of 1) (float_of 60) (float_of 2) None in
  let '(r, cl', acts) := client_run [accepting] [lost_at_once [closing; accepting]] (sample_client c) in
  r = Some (Err (MQTTDisconnectedError "Connection closed by remote")) /\ tries acts = 2%nat /\ connected acts = [4] /\
  notified acts = 0%nat.
Proof. vm_compute. split_and!; reflexivity. Qed.
