(* ===== verification/Life.v ===== *)
(** * The life of a client, down to the bytes ([client.py] over [_internal/])

    The run loop of [Reconnect] over the connections of [Running]: a connection is the engine that
    [_connect] has installed, under [run], with everything that happens to it; what it makes of the
    objects of the client (request dispatcher, queues, detached filters) is there for the next.

    Theorem: every connection of a client's life starts in a state for which the theorems on
    [run] and on the engine hold; and which exceptions end the client, and with
    the callback awaited or not. *)

From S2P Require Import Prelude Wire Properties Packets Codec Reader Topic SubscriptionIndex State Engine Inbound Protocol Ownership Calls Connection Failures Running Requests Options Client Reconnect.

(** ** One connection *)

Inductive leg_event : Type :=
| LRun (ev : run_event)
| LDetach (filters : list pystr) (queue : nat).   (** [Subscription.detach] *)

(** [lg_restored]: what subscribing again and restoring the requests have come to; the run loop cancels [run] if
    they raise. *)
Record Leg : Type := mkLeg {
  lg_now : Z;
  lg_events : list leg_event;
  lg_restored : res unit;
  lg_attempts : list Attempt
}.

(** What [MQTTProtocol.detach] returns. *)
Definition detached_entries (filters : list pystr) (s : Engine) : dict pystr SubscriptionEntry :=
  fold_left (fun d f => match get (subscriptions (e_state s)) f with Some e => dict_set d f e | None => d end) filters [].

Definition connection_of (p : Engine * PacketBuffer) : Connection := connection_new (system_new p.1) p.2.

Section life.
Context (second write_timeout ping_timeout : Z).

(** [_detach_local], on the registered filters and the queue of the subscription: the filters are detached, and
    the queue is emptied. *)
Definition detach_local (filters : list pystr) (queue : nat) (rd : Run * dict pystr SubscriptionEntry) : Run * dict pystr SubscriptionEntry :=
  let '(r, d) := rd in
  let r' := run_step second write_timeout ping_timeout r (RConn (CEngine (EvDetach filters))) in
  let messages := length (q_items (queue_of (r_engine r') queue)) in
  (run_steps second write_timeout ping_timeout r' (repeat (RConn (CEngine (EvTake queue))) messages),
   dict_update d (detached_entries filters (r_engine r))).

Definition leg_step (rd : Run * dict pystr SubscriptionEntry) (ev : leg_event) : Run * dict pystr SubscriptionEntry :=
  let '(r, d) := rd in
  match ev with
  | LRun ev => (run_step second write_timeout ping_timeout r ev, d)
  | LDetach filters queue => detach_local filters queue (r, d)
  end.

Definition leg_state (lg : Leg) (p : Engine * PacketBuffer) (cl : Client) : Run * dict pystr SubscriptionEntry :=
  foldl leg_step (run_begin second (lg_now lg) (connection_of p), cl_detached cl) (lg_events lg).

(** The client's objects after the connection. *)
Definition keep_objects (r : Run) (d : dict pystr SubscriptionEntry) (cl : Client) : Client :=
  let s := r_engine r in
  mkClient (cl_config cl) (cl_info cl) (cl_connection_id cl) (Some (s, c_buffer (r_conn r))) d
    (default (cl_dispatcher cl) (e_dispatcher s)) (e_queues s) (Nat.max (cl_next cl) (e_next_ref s)).

(** The [try] block of [_run_loop]: the exception of the restoration, once [run] has been cancelled, or what
    [run] comes to. *)
Definition run_connection (lg : Leg) (cl : Client) : option (res unit) * Client :=
  match cl_protocol cl with
  | None => (None, cl)
  | Some p =>
    let '(r, d) := leg_state lg p cl in
    (match r_stage r with
     | Over result => Some (match lg_restored lg with Ok _ => result | Err e => Err e end)
     | _ => None
     end, keep_objects r d cl)
  end.

Definition round_of (lg : Leg) : Round := mkRound (run_connection lg) (lg_attempts lg).
End life.

(** ** What the handshake leaves *)

(** A decoded Server Keep Alive is not negative. *)
Lemma decode_prop_keepalive buf pos pid d d' pos' :
  decode_prop buf pos pid d = Ok (d', pos') ->
  from_option (fun n => 0 <= n) True (get_int d SERVER_KEEP_ALIVE) -> from_option (fun n => 0 <= n) True (get_int d' SERVER_KEEP_ALIVE).
Proof.
  intros H Hd. assert (pid = SERVER_KEEP_ALIVE \/ forall v, get_int (dict_set d pid v) SERVER_KEEP_ALIVE = get_int d SERVER_KEEP_ALIVE) as [->|Hne].
  - destruct (decide (pid = SERVER_KEEP_ALIVE)) as [|Hn]; [by left|right]. intros v. unfold get_int. by rewrite dict_get_set, decide_False by done.
  - change (decode_prop buf pos SERVER_KEEP_ALIVE d) with (v ← unpack 2 buf pos; Ok (dict_set d SERVER_KEEP_ALIVE (PInt v), pos + 2)) in H.
    inv_ok. unfold get_int. rewrite dict_get_set, decide_True by done. cbn. by eapply unpack_range.
  - rewrite decode_prop_wire in H. destruct (wire_of pid) as [[|[|k]]| | | |]; inv_ok; by rewrite Hne.
Qed.

Lemma decode_loop_keepalive fuel buf pos end_ d d' :
  decode_props_loop fuel buf pos end_ d = Ok d' ->
  from_option (fun n => 0 <= n) True (get_int d SERVER_KEEP_ALIVE) -> from_option (fun n => 0 <= n) True (get_int d' SERVER_KEEP_ALIVE).
Proof.
  revert pos d; induction fuel as [|fuel IH]; intros pos d H Hd; cbn [decode_props_loop] in H; [done|].
  case_if; [|by inv_ok]. inv_ok. destruct (PropertyID_of _) as [pid|]; [|done]. inv_ok. eapply IH; [eassumption|]. by eapply decode_prop_keepalive.
Qed.

Lemma decode_connack_keepalive buf v ack :
  _decode_connack buf v = Ok ack ->
  from_option (fun props => from_option (fun n => 0 <= n) True (cap_server_keep_alive props)) True (ca_properties ack).
Proof.
  unfold _decode_connack. intros H. case_if; [done|]. inv_ok. cbn. case_if; inv_ok; [|done].
  unfold decode_connack_properties, decode_props_block in *. inv_ok.
  match goal with H : decode_props_loop _ _ _ _ [] = Ok ?d |- _ => pose proof (decode_loop_keepalive _ _ _ _ _ _ H I) as Hk; destruct d end; inv_ok; [done|].
  exact Hk.
Qed.

Lemma decode_connack_inv buf v limit ack n :
  decode buf v limit = Ok (Some (PConnAck ack, n)) -> exists body, _decode_connack body v = Ok ack.
Proof.
  unfold decode. intros H. case_if; [done|]. inv_ok. destruct x0 as [[len k]|]; [|by inv_ok].
  inv_ok. case_if; [by inv_ok|]. destruct (PacketType_of _) as [t|]; [|by inv_ok]. inv_ok.
  assert (forall A (r : res A) f, (forall a, f a <> PConnAck ack) -> f <$> r = Ok (PConnAck ack) -> False) as Hne.
  { intros A r f Hf. destruct r; cbn; [|done]. intros [= E]. by destruct (Hf a). }
  destruct t; cbn [decode_body] in *; try (exfalso; eapply Hne; [|eassumption]; done); try done.
  - match goal with H : PConnAck <$> _decode_connack ?b v = _ |- _ => exists b; destruct (_decode_connack b v); [by injection H as ->|done] end.
  - case_if; [done|]. inv_ok.
Qed.

(** The keepalive of a connection is not negative. *)
Lemma keepalive_nonneg packet request v ack buf limit n :
  encode (PConnect packet) v = Ok request -> decode buf v limit = Ok (Some (PConnAck ack, n)) ->
  0 <= negotiated_keepalive (c_keepalive packet) (ca_properties ack) /\ 0 <= c_keepalive packet.
Proof.
  intros He [body Hd%decode_connack_keepalive]%decode_connack_inv. cbn [encode] in He. unfold _encode_connect in He. inv_ok.
  match goal with H : pack 2 _ = Ok _ |- _ => apply pack_Ok in H as (Hk & _ & _) end. split; [|lia].
  unfold negotiated_keepalive. destruct (ca_properties ack) as [props|]; cbn in *; [|lia]. destruct (cap_server_keep_alive props); cbn in *; lia.
Qed.

(** No iterator is suspended on the buffer after the handshake. *)
Lemma await_at_rest reads v limit b s ack b' s' :
  at_rest v limit b -> _await_connack reads b s = (Some (Ok ack), b', s') -> at_rest v limit b'.
Proof.
  assert (forall e b0 s0, rejected e b0 s0 = (Some (Ok ack), b', s') -> False) as Hrej.
  { intros e b0 s0 H. destruct (rejected_fails e b0 s0) as (e' & s1 & E). congruence. }
  revert b. induction reads as [|[data|e|] reads IH]; intros b Hb; cbn [_await_connack]; try done; [|by intros ?%Hrej].
  destruct (feed_at_rest v limit b data Hb) as (b1 & -> & [Hw He Hv Hl] & _).
  pose proof (iter_next_spec v limit b1 Hw Hv Hl) as Hn. destruct (decode _ _ _) as [[[p n]|]|e].
  - destruct Hn as (b2 & -> & _ & _ & _ & Hr & _). destruct (handle_connack p s) as [[a|e] s1]; [by intros [= _ <- _]|by intros ?%Hrej].
  - destruct Hn as (-> & Hr & _). by apply IH.
  - destruct Hn as (-> & Hr & _). by intros ?%Hrej.
Qed.

(** The engine [_connect] installs, with no call on it. *)
Lemma installed_system cl packet ack s1 s :
  dispatcher_below (Some (cl_dispatcher cl)) (cl_next cl) ->
  send_packet (PConnect packet) (protocol_new false cl) = (Ok tt, s1) -> handle_connack (PConnAck ack) s1 = (Ok ack, s) -> e_dead s1 = false ->
  reachable (system_new (bind_router (restore_detached (cl_detached cl) s).2).2).
Proof.
  intros Hd Hsend Hh Hdead.
  replace (system_new _) with (run_events (system_new (protocol_new false cl))
    [EvConnect packet; EvConnAck (PConnAck ack); EvRestoreDetached (cl_detached cl); EvBind]).
  - apply reachable_events. by apply reachable_new.
  - unfold run_events. cbn [fold_left]. by rewrite (connect_step _ _ _ Hsend), (connack_step _ _ _ _ Hh Hdead).
Qed.

(** ** Every connection *)

Definition keepalive_of (p : Engine * PacketBuffer) : Z := e_effective_keepalive p.1.

(** What holds when [run] is called: what [run] relies on, and the filters are the detached ones. *)
Record run_starts (p : Engine * PacketBuffer) : Prop := {
  rs_keepalive : 0 <= keepalive_of p;
  rs_ready : ready (keepalive_of p) (connection_of p);
  rs_detached : forall f e, (f, e) ∈ si_entries (subscriptions (e_state p.1)) -> se_ref e ∈ e_detached p.1
}.

Definition client_live (cl : Client) : Prop :=
  client_ok cl /\ exists p, cl_protocol cl = Some p /\ run_starts p /\ si_entries (subscriptions (e_state p.1)) = cl_detached cl.

Lemma connect_live a cl u cl' acts : client_ok cl -> _connect a cl = (Some (Ok u), cl', acts) -> client_live cl'.
Proof.
  intros [Hnd Hd] H. assert (client_ok cl') as Hok'.
  { pose proof (client_connect a cl (conj Hnd Hd)) as Hc. rewrite H in Hc. apply Hc. }
  revert H. unfold _connect. destruct (at_transport a) as [[]|e]; [|done].
  destruct (connect_packet (cl_config cl)) as [packet|e] eqn:Ep; [|done].
  destruct (connect packet (at_reads a) (buffer_new cl) (protocol_new (at_lost a) cl)) as [[[[ack|e]|] b] s] eqn:Ec; try done.
  intros [= _ <- _]. split; [done|]. eexists. split; [reflexivity|].
  destruct (connect_ok _ _ _ _ _ _ _ Ec) as (request & Hreq & Hl & Hc & Hsend & Hh & buf & n & Hdec).
  assert (at_lost a = false) as El by exact Hl. rewrite El in *.
  assert (si_entries (subscriptions (e_state (bind_router (restore_detached (cl_detached cl) s).2).2)) = cl_detached cl) as Hent.
  { destruct (connack_effects _ _ _ _ Hh) as (_ & _ & q & r & replay & ->). by apply add_many_new. }
  split; [|exact Hent]. pose proof (installed_system cl packet ack _ s Hd Hsend Hh eq_refl) as Hreach.
  assert (at_rest (pb_version b) (pb_max_packet_size b) b) as Hb.
  { unfold connect in Ec. rewrite Hsend in Ec. apply (await_at_rest _ _ _ _ _ _ _ _ (at_rest_new _ _)) in Ec. destruct Ec. by split. }
  assert (c_keepalive packet = cc_keepalive (cl_config cl)) as Ek by (unfold connect_packet in Ep; by inv_ok).
  destruct (keepalive_nonneg _ _ _ _ _ _ _ Hreq Hdec) as [Hk1 Hk2]. rewrite Ek in Hk1, Hk2.
  destruct (connack_effects _ _ _ _ Hh) as (_ & _ & q & r & replay & Hs). split.
  - unfold keepalive_of. cbn [fst]. rewrite Hs. cbn. by destruct (cc_version (cl_config cl)).
  - split; try done; [|by rewrite Hs..].
    exists (pb_version b), (pb_max_packet_size b), (system_new (bind_router (restore_detached (cl_detached cl) s).2).2), b. by apply conn_ok_new.
  - cbn [fst]. rewrite Hent. intros f e Hin. cbn. apply elem_of_union_l, elem_of_list_to_set, list_elem_of_fmap. by exists (f, e).
Qed.

(** *** The engine under [run] *)

Lemma conn_step_system c ev :
  c_system (conn_step c ev) = c_system c \/ exists e, c_system (conn_step c ev) = engine_step (c_system c) e.
Proof.
  destruct ev as [|data|e|ev]; cbn [conn_step].
  - destruct (loop_free c && _); [|by left]. destruct (iter_next _) as [[[p|]|e] b]; [right; by eexists|by left|right; by eexists].
  - destruct (loop_free c && _); [|by left]. destruct (feed _ _); [by left|right; by eexists].
  - destruct (loop_free c && _); [|by left]. destruct (is_disconnected e && _); [by left|right; by eexists].
  - destruct (is_reader_event ev); [by left|right; by eexists].
Qed.

Section run_system.
Context (second write_timeout ping_timeout : Z).

Lemma run_step_system r ev :
  r_system (run_step second write_timeout ping_timeout r ev) = r_system r \/
  exists e, r_system (run_step second write_timeout ping_timeout r ev) = engine_step (r_system r) e.
Proof.
  assert (forall e r, r_system (note_failure e r) = r_system r) as Hnote by (intros e r0; unfold note_failure; by destruct (r_first r0)).
  assert (forall n thrown e, r_system (resume_ping second n thrown e r) = r_system r \/
    exists e', r_system (resume_ping second n thrown e r) = engine_step (r_system r) e') as Hres.
  { intros n thrown e. unfold resume_ping. destruct (calls (r_system r) !! n) as [t|]; [|by left]. right. exists e.
    destruct (task_finish t thrown (r_engine r)).1; [done|]. unfold ping_raises. by rewrite Hnote. }
  assert (forall result, r_system (stop_run result r) = r_system r \/ exists e, r_system (stop_run result r) = engine_step (r_system r) e) as Hstop.
  { intros result. unfold stop_run. assert (exists r0, r_system r0 = r_system r /\ r_ping r0 = r_ping r /\
      r0 = match result with Err e => if is_exception e then set_death_cause (Some e) r else r | Ok _ => r end) as (r0 & E1 & E2 & <-)
      by (eexists; split_and!; [| |reflexivity]; destruct result as [|e]; try destruct (is_exception e); done).
    destruct (r_ping r0) as [due|n due|n due| |e]; try (left; exact E1); right; exists (EvCancel n); by rewrite <-E1. }
  destruct ev; cbn [run_step].
  - destruct (permitted r ev); [|by left]. unfold is_running. case_if; rewrite ?Hnote; apply conn_step_system.
  - case_if; by left.
  - destruct (r_stage r), (r_ping r) as [due| | | |]; try (by left). case_if; [|by left]. right. exists EvPing. unfold wake.
    destruct (ping_begin (r_engine r)).1; [done|]. unfold ping_raises. by rewrite Hnote.
  - destruct (r_stage r), (r_ping r); by left.
  - destruct (r_stage r), (r_ping r) as [|n due| | |]; try (by left). right. exists (EvCancel n). unfold ping_write_fails, ping_raises. by rewrite Hnote.
  - destruct (r_stage r), (r_ping r) as [| |n due| |]; try (by left). case_if; [by left|apply Hres].
  - destruct (r_stage r), (r_ping r) as [| |n due| |]; try (by left). case_if; [apply Hres|by left].
  - case_if; [apply Hstop|by left].
  - case_if; [|by left]. destruct (gathered r); [apply Hstop|by left].
  - destruct (r_stage r); try (by left). right. by exists EvRunEnds.
Qed.

Lemma run_steps_reachable r evs : reachable (r_system r) -> reachable (r_system (run_steps second write_timeout ping_timeout r evs)).
Proof.
  revert r; induction evs as [|ev evs IH]; intros r Hr; [done|]. cbn [run_steps foldl]. apply IH.
  destruct (run_step_system r ev) as [->|[e ->]]; [done|by apply reachable_step].
Qed.

(** What happens to the run of a leg. *)
Lemma leg_steps_run evs r d : exists evs',
  (foldl (leg_step second write_timeout ping_timeout) (r, d) evs).1 = run_steps second write_timeout ping_timeout r evs' /\
  forall ev, ev ∈ evs' -> LRun ev ∈ evs \/ exists e, ev = RConn (CEngine e).
Proof.
  revert r d; induction evs as [|ev evs IH]; intros r d; [exists []; split; [done|by intros ev ?%not_elem_of_nil]|].
  destruct ev as [ev|filters queue]; cbn [foldl leg_step].
  - destruct (IH (run_step second write_timeout ping_timeout r ev) d) as (evs' & -> & H). exists (ev :: evs'). split; [done|].
    intros ev' [->|[He|He]%H]%elem_of_cons; [left; by left|left; by right|by right].
  - unfold detach_local. match goal with |- context [foldl _ (?r1, ?d1) evs] => destruct (IH r1 d1) as (evs' & -> & H) end.
    eexists (_ :: repeat _ _ ++ evs'). split; [cbn [run_steps foldl]; unfold run_steps; rewrite foldl_app; reflexivity|].
    intros ev' [->|[Hin|[He|He]%H]%elem_of_app]%elem_of_cons; [right; by eexists| |left; by right|by right].
    apply list_elem_of_In, repeat_spec in Hin as ->. right. by eexists.
Qed.

Lemma NoDup_keys_fold {K V A} `{EqDecision K} (f : dict K V -> A -> dict K V) l d :
  (forall d a, NoDup (keys d) -> NoDup (keys (f d a))) -> NoDup (keys d) -> NoDup (keys (fold_left f l d)).
Proof. intros Hf. revert d; induction l as [|a l IH]; intros d Hd; [done|]. by apply IH, Hf. Qed.

Lemma leg_steps_detached evs r d : NoDup (keys d) -> NoDup (keys (foldl (leg_step second write_timeout ping_timeout) (r, d) evs).2).
Proof.
  revert r d; induction evs as [|ev evs IH]; intros r d Hd; [done|]. destruct ev; cbn [foldl leg_step]; unfold detach_local; apply IH; [done|].
  unfold dict_update. apply NoDup_keys_fold; [|done]. intros d' a. apply NoDup_dict_set.
Qed.
End run_system.

Lemma reachable_dispatcher sys : reachable sys -> dispatcher_below (e_dispatcher (engine sys)) (e_next_ref (engine sys)).
Proof.
  intros [Ho _]%reachable_ok d k p Hd Hk. apply (lk_bound _ _ (ow_linked _ _ _ Ho) SRequest). by exists d, k, p.
Qed.

(** *** The client *)

(** The exceptions with which a connection ends: [run] was cancelled, a loop failed, or restoring
    the subscriptions did. *)
Definition leg_raises (legs : list Leg) (e : exn) : Prop :=
  exists lg, lg ∈ legs /\
    ((e = CancelledError /\ LRun RCancel ∈ lg_events lg) \/ ends_run e = true \/ lg_restored lg = Err e).

(** Reads fail as those of [StreamTransport] do. *)
Definition stream_reads (lg : Leg) : Prop := forall e, LRun (RConn (CReadFails e)) ∈ lg_events lg -> is_disconnected e = true.

Lemma stream_reads_check lg :
  forallb (fun ev => match ev with LRun (RConn (CReadFails e)) => is_disconnected e | _ => true end) (lg_events lg) = true ->
  stream_reads lg.
Proof. rewrite forallb_forall. intros H e He%list_elem_of_In. exact (H _ He). Qed.

Lemma round_of_ok second write_timeout ping_timeout legs lg :
  0 < second -> 0 <= write_timeout -> 0 <= ping_timeout -> stream_reads lg -> lg ∈ legs ->
  round_ok client_ok client_live (leg_raises legs) (round_of second write_timeout ping_timeout lg).
Proof.
  intros Hs Hw Ht Hreads Hin cl [[Hnd Hd] (p & Hp & [Hk Hready _] & _)]. cbn [round_of rd_run]. unfold run_connection. rewrite Hp.
  destruct (leg_state second write_timeout ping_timeout lg p cl) as [r d] eqn:E. unfold leg_state in E.
  destruct (leg_steps_run second write_timeout ping_timeout (lg_events lg) (run_begin second (lg_now lg) (connection_of p)) (cl_detached cl)) as (evs & Hr & Hevs).
  pose proof (leg_steps_detached second write_timeout ping_timeout (lg_events lg) (run_begin second (lg_now lg) (connection_of p)) _ Hnd) as Hd'.
  rewrite E in Hr, Hd'. cbn [fst snd] in Hr, Hd'. split_and!; try done.
  - split; [exact Hd'|]. assert (reachable (r_system r)) as Hreach.
    { rewrite Hr. apply run_steps_reachable. unfold run_begin. case_if; apply Hready. }
    apply reachable_dispatcher in Hreach. intros d' k q [= <-] Hq. cbn [keep_objects cl_next cl_dispatcher] in *. unfold r_engine in *.
    destruct (e_dispatcher (engine (r_system r))) as [d1|] eqn:E1; cbn [default] in Hq.
    + pose proof (Hreach d1 k q eq_refl Hq). lia.
    + pose proof (Hd _ k q eq_refl Hq). lia.
  - destruct (r_stage r) as [|res|res] eqn:Est; [done..|]. destruct (lg_restored lg) as [|e] eqn:El.
    + destruct res as [|e]; [done|]. exists lg. split; [done|].
      destruct (run_over_error second write_timeout ping_timeout _ (lg_now lg) (connection_of p) evs e Hs Hw Ht Hk Hready) as [_ [[-> Hc]|[He _]]].
      * intros x [Hx|[fs Hx]]%Hevs; [by apply Hreads|done].
      * by rewrite <-Hr.
      * left. split; [done|]. apply Hevs in Hc as [Hc|[fs Hc]]; done.
      * by right; left.
    + exists lg. split; [done|]. by right; right.
Qed.

(** A client as the constructor makes it, or as leaving it has made it, can be entered. *)
Lemma client_new_enters connect_timeout replay_timeout options max_pending config cl :
  client_new connect_timeout replay_timeout options max_pending config = Ok cl -> client_ok cl /\ cl_info cl = None.
Proof.
  unfold client_new. intros H. inv_ok. split; [|done]. split; [constructor|]. intros d k p [= <-] Hk.
  match goal with H : requests_new _ = _ |- _ => unfold requests_new in H; case_if; [done|injection H as <-] end.
  cbn in Hk. by rewrite lookup_empty in Hk.
Qed.

Lemma aexit_enters cl : client_ok (aexit cl).1 /\ cl_info (aexit cl).1 = None.
Proof. split; [|done]. split; [constructor|]. intros d k p [= <-] Hk. cbn in Hk. by rewrite lookup_empty in Hk. Qed.

Lemma keys_dict_update f (d l : dict pystr SubscriptionEntry) : f ∈ keys l \/ f ∈ keys d -> f ∈ keys (dict_update d l).
Proof.
  unfold dict_update. revert d; induction l as [|[f' e] l IH]; intros d [H|H]; [by apply not_elem_of_nil in H|done|..];
    cbn [fold_left]; apply IH; rewrite keys_dict_set; cbn in *; [apply elem_of_cons in H as [->|H]|]; case_decide; set_solver.
Qed.

(** A filter detached during a connection is among the detached ones after it, whatever else happens,
    and those of before still are; the next connection starts with them ([client_live]). *)
Lemma detached_stay second write_timeout ping_timeout r d evs f :
  f ∈ keys d -> f ∈ keys (foldl (leg_step second write_timeout ping_timeout) (r, d) evs).2.
Proof.
  revert r d; induction evs as [|ev evs IH]; intros r d Hf; [done|]. destruct ev as [ev|fs q]; cbn [foldl leg_step]; unfold detach_local; apply IH; [done|].
  apply keys_dict_update. by right.
Qed.

Lemma detach_recorded second write_timeout ping_timeout r d fs q f e :
  f ∈ fs -> get (subscriptions (e_state (r_engine r))) f = Some e ->
  f ∈ keys (leg_step second write_timeout ping_timeout (r, d) (LDetach fs q)).2.
Proof.
  intros Hin He. cbn [leg_step detach_local snd]. apply keys_dict_update. left. unfold detached_entries.
  assert (forall l (d0 : dict pystr SubscriptionEntry), f ∈ l \/ f ∈ keys d0 -> f ∈ keys (fold_left (fun d f =>
    match get (subscriptions (e_state (r_engine r))) f with Some e => dict_set d f e | None => d end) l d0)) as Hfold.
  { induction l as [|f' l IH]; intros d0 [H|H]; [by apply not_elem_of_nil in H|done|..]; cbn [fold_left]; apply IH.
    - apply elem_of_cons in H as [->|H]; [right|by left]. rewrite He, keys_dict_set. case_decide; set_solver.
    - right. case_match; [|done]. rewrite keys_dict_set. case_decide; set_solver. }
  apply Hfold. by left.
Qed.

(** C12: the life of a client, from the options of the constructor down to the bytes of the transport, over
    whatever brokers and applications do.  Every connection it makes starts in a state in which everything
    proved of [run] and of the engine holds, its filters are detached ones, and its keepalive is not
    negative.  Connections are numbered consecutively, one number per successful handshake, and the
    snapshot of a handshake is there only while the run loop is alive, for the last of them.
    [on_connection_recovery_failed] is not awaited when the first connection fails, nor before the loop
    ends, nor when it ends cleanly.  When the loop ends with an exception, then a connection
    ended with one that is not the loss of a connection, and the callback is not awaited; or a
    connection was lost, reconnection is disabled, and it is awaited once; or the recovery
    was cancelled or its last attempt raised, and it is awaited once if that is one of the exceptions of a
    failed recovery. *)
Theorem client_life second write_timeout ping_timeout attempts legs cl r cl' acts :
  0 < second -> 0 <= write_timeout -> 0 <= ping_timeout -> Forall stream_reads legs ->
  client_ok cl -> cl_info cl = None -> cc_callback (cl_config cl) = Some (Ok tt) ->
  client_run attempts (round_of second write_timeout ping_timeout <$> legs) cl = (r, cl', acts) ->
  (forall p, p ∈ runs acts -> run_starts p) /\ client_ok cl' /\ numbered cl cl' acts /\
  (forall info, cl_info cl' = Some info -> ci_connection_id info = cl_connection_id cl' /\ r = None) /\
  (connected acts = [] -> notified acts = 0%nat) /\
  match r with
  | Some (Err e) => connected acts <> [] -> loop_end client_ok (leg_raises legs) (cl_config cl) e (notified acts)
  | _ => notified acts = 0%nat
  end.
Proof.
  intros Hs Hw Ht Hreads Hok Hinfo Hcb H.
  destruct (client_run_spec client_ok client_live (leg_raises legs)) with (1 := fun cl (Hl : client_live cl) => proj1 Hl) (4 := H) as [H1 H2 H3 H4 H5 H6];
    [done|exact connect_live|done..| |].
  - apply Forall_fmap, Forall_forall. intros lg Hlg. rewrite Forall_forall in Hreads. by apply round_of_ok; [..|apply Hreads|].
  - split_and!; try done. intros p Hp. destruct (H6 p Hp) as (cl0 & (_ & q & Hq & Hst & _) & Hp0). rewrite Hq in Hp0. by injection Hp0 as ->.
Qed.

(** A broker that stops answering; a second connection, which the peer closes; and then it is gone. *)
Definition silent_leg : Leg := mkLeg 0 (LRun <$> [RTick 30000; RWake; RWritten; RTick 10000; RTimeout; RStop; RFinish]) (Ok tt) [refused; accepting].
Definition closed_leg : Leg :=
  mkLeg 0 (LRun <$> [RConn CNext; RConn (CReadFails lost); RStop; RFinish]) (Ok tt) (repeat refused 5).

Definition sample_life := client_run [refused; accepting] (round_of 1000 30000 10000 <$> [silent_leg; closed_leg]) (sample_client reconnect_default).

Lemma client_life_witness :
  sample_life.1.1 = Some (Err OSError) /\ connected sample_life.2 = [4; 5] /\ length (runs sample_life.2) = 2%nat /\
  notified sample_life.2 = 1%nat /\ forall p, p ∈ runs sample_life.2 -> run_starts p.
Proof.
  do 4 (split; [vm_compute; reflexivity|]).
  assert (sample_life = (sample_life.1.1, sample_life.1.2, sample_life.2)) as E by (by destruct sample_life as [[]]).
  revert E. generalize sample_life.1.1 as r, sample_life.1.2 as cl', sample_life.2 as acts. unfold sample_life. intros r cl' acts E.
  destruct (client_life 1000 30000 10000 [refused; accepting] [silent_leg; closed_leg] (sample_client reconnect_default) r cl' acts) as (H & _);
    [clear; lia|clear; lia|clear; lia| |apply sample_client_ok|reflexivity|reflexivity|exact E|exact H].
  clear. repeat (constructor; [apply stream_reads_check; reflexivity|]). constructor.
Defined.
