(* ===== verification/Subscriptions.v ===== *)
(** * Subscriptions and calls of the application ([Subscription] and the public calls of [client.py])

    The checks of [publish], [subscribe], [request], [auth] and [ping], and what they hand to the
    protocol engine; and the life cycle of a [Subscription]: [start], [stop], [detach] and the
    restoration after a reconnect.  A coroutine is cut where it waits for the engine, whose
    answers are events.

    Theorem: [stop] never raises; for a detached subscription [protocol.subscribe] is never called again (a call made
    before goes on, and may send its SUBSCRIBE afterwards: [Detached]); and every call is for the filters and options
    of the first.  Two executions show subscriptions
    that come back after they have failed or have been stopped.  [get_message] returns the message it has
    taken unless the connection is lost or the call cancelled; two executions show how a message is lost then. *)

From S2P Require Import Prelude Utf8 Properties Packets Codec Topic SubscriptionIndex State Engine Inbound Protocol Calls Failures Delivery Options.

(** ** Public calls *)

(** [self._protocol is None] *)
Definition require_protocol (connected : bool) : res unit :=
  raise_if (negb connected) (MQTTDisconnectedError "Not connected").

(** A [bytes] or [str] payload. *)
Definition encode_payload (payload : bytes + pystr) : res bytes :=
  match payload with inl data => Ok data | inr text => utf8_encode text end.

(** [MQTTClient.publish]: the packet for the engine. *)
Definition client_publish (v : version) (connected : bool) (topic : pystr) (payload : bytes + pystr) (qos : QoS) (retain : bool)
    (properties : option PublishProperties) : res Publish :=
  _ ← validate_publish topic;
  _ ← require_protocol connected;
  _ ← raise_if (is_Some_b properties && bool_decide (v <> V50)) (RuntimeError "properties require MQTT 5.0");
  payload ← encode_payload payload;
  Ok (mkPublish topic payload qos retain false None properties).

Definition client_auth (v : version) (connected : bool) (method : pystr) (data : option bytes) : res Auth :=
  _ ← raise_if (bool_decide (v <> V50)) (RuntimeError "AUTH requires MQTT 5.0");
  _ ← require_protocol connected;
  Ok (mkAuth 0x18 (Some (mkAuthProperties (Some method) data None []))).

Definition client_ping (connected : bool) : res unit := require_protocol connected.

(** [bytes.hex()] *)
Definition hex_digit (n : Z) : Z := if n <? 10 then 48 + n else 87 + n.
Definition hex (data : bytes) : pystr := flat_map (fun b => [hex_digit (bz b / 16); hex_digit (bz b mod 16)]) data.

(** [request], up to [register]: the reply topic and correlation data (with the random bytes, should
    they be needed), and the properties of the publish. *)
Definition request_properties (v : version) (properties : option PublishProperties) (random_topic random_data : bytes)
    : res (RequestKey * PublishProperties) :=
  _ ← raise_if (bool_decide (v <> V50)) (RuntimeError "request() requires MQTT 5.0");
  reply_topic ← match p ← properties; pp_response_topic p with
                | Some t => _ ← validate_response_topic t; Ok t
                | None => Ok (py "_zmqtt/reply/" ++ hex random_topic)
                end;
  let corr := default random_data (p ← properties; pp_correlation_data p) in
  Ok ((reply_topic, corr),
      match properties with
      | Some p => mkPublishProperties (pp_payload_format_indicator p) (pp_message_expiry_interval p) (pp_topic_alias p)
                    (Some reply_topic) (Some corr) (pp_subscription_identifier p) (pp_content_type p) (pp_user_properties p)
      | None => mkPublishProperties None None None (Some reply_topic) (Some corr) None None []
      end).

(** ** Subscriptions *)

Record Subscription : Type := mkSub {
  sub_filters : list pystr;
  sub_qos : QoS;
  sub_auto_ack : bool;
  sub_queue : nat;
  sub_no_local : bool;
  sub_retain_as_published : bool;
  sub_retain_handling : RetainHandling;
  sub_subscription_identifier : option Z;
  sub_registered_filters : list pystr;
  sub_detached : bool
}.

(** [MQTTClient.subscribe] *)
Definition client_subscribe (v : version) (filters : list pystr) (qos : QoS) (auto_ack : bool) (queue : nat)
    (no_local retain_as_published : bool) (retain_handling : RetainHandling) (subscription_identifier : option Z)
    : res Subscription :=
  _ ← foldr (fun f r => _ ← validate_subscribe_topic f; r) (Ok tt) filters;
  let uses_v5_option := no_local || retain_as_published || bool_decide (retain_handling <> SEND_ON_SUBSCRIBE) in
  _ ← raise_if (uses_v5_option && bool_decide (v <> V50))
        (RuntimeError "no_local, retain_as_published, and retain_handling require MQTT 5.0");
  _ ← match subscription_identifier with
      | None => Ok tt
      | Some i =>
        _ ← raise_if (bool_decide (v <> V50)) (RuntimeError "subscription_identifier requires MQTT 5.0");
        raise_if (out_of_range 1 _MAX_SUBSCRIPTION_IDENTIFIER (Some i)) (ValueError "subscription_identifier must be in 1..268435455")
      end;
  Ok (mkSub filters qos auto_ack queue no_local retain_as_published retain_handling subscription_identifier [] false).

(** The list comprehension of [_do_subscribe]. *)
Definition subscription_requests (s : Subscription) : list SubscriptionRequest :=
  map (fun f => mkSubscriptionRequest f (sub_qos s) (sub_no_local s) (sub_retain_as_published s) (sub_retain_handling s))
    (sub_filters s).

Definition set_registered (fs : list pystr) (s : Subscription) : Subscription :=
  mkSub (sub_filters s) (sub_qos s) (sub_auto_ack s) (sub_queue s) (sub_no_local s) (sub_retain_as_published s)
    (sub_retain_handling s) (sub_subscription_identifier s) fs (sub_detached s).
Definition set_detached (s : Subscription) : Subscription :=
  mkSub (sub_filters s) (sub_qos s) (sub_auto_ack s) (sub_queue s) (sub_no_local s) (sub_retain_as_published s)
    (sub_retain_handling s) (sub_subscription_identifier s) (sub_registered_filters s) true.

(** [get_message], when it is called: what it raises at once.  [signal] is [_subscription_failure],
    a future that the end of the run loop resolves. *)
Definition get_message {A} (detached : bool) (signal : option (option exn)) : option (res A) :=
  if detached then Some (Err (MQTTDisconnectedError "Subscription detached"))
  else match signal with Some (Some e) => Some (Err e) | _ => None end.

(** [_notify_capacity_available], in the engine of the connection. *)
Definition _notify_capacity_available (connected : bool) : M unit :=
  if connected then drain_replay else mret tt.

(** [get_message], when its wait ends, or is [cancelled]: [message] is what [message_task] has taken from the queue; without a
    [signal] there is no such task, and a wait that is cancelled has taken nothing.  None: it still waits. *)
Definition get_message_resume (detached cancelled : bool) (signal : option (option exn)) (message : option Message) (connected : bool)
    : M (option Message) :=
  if cancelled then throw CancelledError
  else match signal, message with
  | Some (Some e), _ => throw e
  | _, Some m =>
    if detached then throw (MQTTDisconnectedError "Subscription detached")
    else _ ← _notify_capacity_available connected; mret (Some m)
  | _, None => mret None
  end.

(** [_notify_subscription_failure], with the result of the run loop. *)
Definition _notify_subscription_failure (run_task : res unit) (signal : option (option exn)) : option (option exn) :=
  match run_task, signal with
  | Err CancelledError, _ | Ok _, _ | _, None | _, Some (Some _) => signal
  | Err failure, Some None => Some (Some failure)
  end.

(** ** The life of the subscriptions of a client *)

(** A call that waits for the engine: [start] or [stop] of a subscription, or the restoration, at one
    subscription with those that follow. *)
Inductive sub_call : Type :=
| CStart (sub : nat)
| CStop (sub : nat)
| CRestore (sub : nat) (todo : list nat).

(** The calls made to the engine: [protocol.subscribe], [unsubscribe] and [detach].  A call of the first two sends its
    packet later, when it has the locks of its filters ([Application] has both). *)
Inductive sub_log : Type :=
| LSubscribe (sub : nat) (requests : list SubscriptionRequest)
| LUnsubscribe (sub : nat) (filters : list pystr)
| LDetach (sub : nat) (filters : list pystr).

(** [su_list] is [MQTTClient._subscriptions], [su_restoring] is [subs_to_restore]; [su_results] and
    [su_log] record what calls returned and what calls were made to the engine. *)
Record Subs : Type := mkSubs {
  su_store : gmap nat Subscription;
  su_list : list nat;
  su_protocol : bool;
  su_restoring : list nat;
  su_calls : gmap nat sub_call;
  su_stops : list (res (option UnsubscribeResult));
  su_others : list (res unit);
  su_log : list sub_log
}.

Definition set_sub (sub : nat) (s : Subscription) (su : Subs) : Subs :=
  mkSubs (<[sub := s]> (su_store su)) (su_list su) (su_protocol su) (su_restoring su) (su_calls su) (su_stops su) (su_others su) (su_log su).
Definition set_list (l : list nat) (su : Subs) : Subs :=
  mkSubs (su_store su) l (su_protocol su) (su_restoring su) (su_calls su) (su_stops su) (su_others su) (su_log su).
Definition set_restoring (protocol : bool) (l : list nat) (su : Subs) : Subs :=
  mkSubs (su_store su) (su_list su) protocol l (su_calls su) (su_stops su) (su_others su) (su_log su).
Definition end_call (n : nat) (su : Subs) : Subs :=
  mkSubs (su_store su) (su_list su) (su_protocol su) (su_restoring su) (delete n (su_calls su)) (su_stops su) (su_others su) (su_log su).
Definition ask (n : nat) (call : sub_call) (l : sub_log) (su : Subs) : Subs :=
  mkSubs (su_store su) (su_list su) (su_protocol su) (su_restoring su) (<[n := call]> (su_calls su)) (su_stops su) (su_others su) (su_log su ++ [l]).
Definition note (l : sub_log) (su : Subs) : Subs :=
  mkSubs (su_store su) (su_list su) (su_protocol su) (su_restoring su) (su_calls su) (su_stops su) (su_others su) (su_log su ++ [l]).

(** [stop] returns; [start] or the restoration ends. *)
Definition stopped (r : res (option UnsubscribeResult)) (su : Subs) : Subs :=
  mkSubs (su_store su) (su_list su) (su_protocol su) (su_restoring su) (su_calls su) (su_stops su ++ [r]) (su_others su) (su_log su).
Definition ended (r : res unit) (su : Subs) : Subs :=
  mkSubs (su_store su) (su_list su) (su_protocol su) (su_restoring su) (su_calls su) (su_stops su) (su_others su ++ [r]) (su_log su).

(** [__aenter__], to the call of [protocol.subscribe]. *)
Definition start (n sub : nat) (s : Subscription) (su : Subs) : Subs :=
  match require_protocol (su_protocol su) with
  | Err e => ended (Err e) su
  | Ok _ =>
    if sub_detached s then ended (Err (RuntimeError "A detached subscription cannot be restarted")) su
    else ask n (CStart sub) (LSubscribe sub (subscription_requests s)) (set_list (su_list su ++ [sub]) su)
  end.

(** [_stop], to the call of [protocol.unsubscribe]. *)
Definition stop (n sub : nat) (s : Subscription) (cancelled : bool) (su : Subs) : Subs :=
  if bool_decide (sub ∈ su_list su) then
    let su := set_list (remove_first sub (su_list su)) su in
    if cancelled || negb (nonempty (sub_registered_filters s)) || negb (su_protocol su) then stopped (Ok None) su
    else ask n (CStop sub) (LUnsubscribe sub (sub_registered_filters s)) su
  else stopped (Ok None) su.

(** The rest of [_stop], with the outcome of [protocol.unsubscribe]. *)
Definition stop_finish (sent : res (option (list pystr * UnsubAck))) : res (option UnsubscribeResult) :=
  match sent with
  | Ok (Some (filters, unsuback)) => Ok (Some (from_unsuback filters unsuback))
  | Ok None => Ok None
  | Err e => if is_exception e then Ok None else Err e
  end.

(** [Subscription.detach] and [_detach_local]; the messages still queued, which it drops, are not part of this state. *)
Definition sub_detach (sub : nat) (s : Subscription) (su : Subs) : Subs :=
  if bool_decide (sub ∈ su_list su) then
    let su := set_sub sub (set_detached s) (set_list (remove_first sub (su_list su)) su) in
    if su_protocol su then note (LDetach sub (sub_registered_filters s)) su else note (LDetach sub []) su
  else su.

(** The loop over [subs_to_restore], with [_reconnect]: from its check of [_detached] to its call of [protocol.subscribe] it does not
    suspend; the wait for the locks is in the call. *)
Fixpoint restore_loop (n : nat) (todo : list nat) (su : Subs) : Subs :=
  match todo with
  | [] => set_restoring (su_protocol su) [] su
  | sub :: todo' =>
    match su_store su !! sub with
    | Some s =>
      if sub_detached s then restore_loop n todo' su
      else ask n (CRestore sub todo') (LSubscribe sub (subscription_requests s)) su
    | None => restore_loop n todo' su
    end
  end.

(** A call of the run loop, which is cancelled when the application disconnects. *)
Definition is_restore (call : sub_call) : bool := match call with CRestore _ _ => true | _ => false end.
Definition run_loop_free (su : Subs) : bool := forallb (fun c => negb (is_restore c.2)) (map_to_list (su_calls su)).
Definition cancel_restore (su : Subs) : Subs :=
  mkSubs (su_store su) (su_list su) (su_protocol su) (su_restoring su)
    (filter (fun c => is_restore c.2 = false) (su_calls su)) (su_stops su) (su_others su) (su_log su).

Inductive sub_event : Type :=
| SuStart (n sub : nat)
| SuSubscribed (n : nat) (r : res (list pystr))    (** [protocol.subscribe] has ended: the filters it registered *)
| SuStop (n sub : nat) (cancelled : bool)
| SuUnsubscribed (n : nat) (r : res (option (list pystr * UnsubAck)))
| SuDetach (sub : nat)
| SuConnected                                      (** the first connection is made *)
| SuLost                                           (** the run loop notices that it is gone *)
| SuReconnected (n : nat)
| SuDisconnect.

(** An event that is not possible now changes nothing. *)
Definition sub_step (su : Subs) (ev : sub_event) : Subs :=
  match ev with
  | SuStart n sub => match su_calls su !! n, su_store su !! sub with None, Some s => start n sub s su | _, _ => su end
  | SuSubscribed n r =>
    match su_calls su !! n with
    | Some (CStart sub) | Some (CRestore sub _) =>
      match su_store su !! sub, r with
      | Some s, Ok fs =>
        let su' := end_call n (set_sub sub (set_registered fs s) su) in
        match su_calls su !! n with Some (CRestore _ todo) => restore_loop n todo su' | _ => ended (Ok tt) su' end
      | _, Err e => ended (Err e) (end_call n su)
      | None, _ => su
      end
    | _ => su
    end
  | SuStop n sub cancelled => match su_calls su !! n, su_store su !! sub with None, Some s => stop n sub s cancelled su | _, _ => su end
  | SuUnsubscribed n r => match su_calls su !! n with Some (CStop _) => stopped (stop_finish r) (end_call n su) | _ => su end
  | SuDetach sub => match su_store su !! sub with Some s => sub_detach sub s su | None => su end
  | SuConnected => set_restoring true [] su
  | SuLost => if run_loop_free su then set_restoring (su_protocol su) (su_list su) su else su
  | SuReconnected n =>
    match su_calls su !! n with
    | None => if run_loop_free su then restore_loop n (su_restoring su) su else su
    | Some _ => su
    end
  | SuDisconnect => cancel_restore (set_restoring false [] su)
  end.

Definition sub_steps (su : Subs) (evs : list sub_event) : Subs := foldl sub_step su evs.

(** A client with the subscriptions its application will use. *)
Definition subs_new (store : gmap nat Subscription) : Subs := mkSubs store [] false [] ∅ [] [] [].

(** ** Invariant *)

(** [protocol.subscribe] is not called for a subscription that was detached before. *)
Definition detached_last (log : list sub_log) : Prop :=
  forall l1 sub fs l2 requests, log = l1 ++ LDetach sub fs :: l2 -> LSubscribe sub requests ∉ l2.

Lemma detached_last_snoc log l :
  detached_last log -> (forall sub requests fs, l = LSubscribe sub requests -> LDetach sub fs ∉ log) -> detached_last (log ++ [l]).
Proof.
  intros Hd Hl l1 sub fs l2 requests E. induction l2 as [|x l2' _] using rev_ind; [by intros ?%elem_of_nil|].
  rewrite app_comm_cons, app_assoc in E. apply app_inj_tail in E as [-> ->]. intros Hin.
  apply elem_of_app in Hin as [Hin|Hin%list_elem_of_singleton]; [by eapply Hd|]. subst x.
  apply (Hl sub requests fs eq_refl). set_solver.
Qed.

Record subs_ok (store : gmap nat Subscription) (su : Subs) : Prop := {
  sk_options : forall sub s, su_store su !! sub = Some s ->
    exists s0, store !! sub = Some s0 /\ subscription_requests s = subscription_requests s0;
  sk_requests : forall sub requests, LSubscribe sub requests ∈ su_log su ->
    exists s0, store !! sub = Some s0 /\ requests = subscription_requests s0;
  sk_detached : forall sub fs, LDetach sub fs ∈ su_log su -> exists s, su_store su !! sub = Some s /\ sub_detached s = true;
  sk_last : detached_last (su_log su);
  sk_stops : forall r e, r ∈ su_stops su -> r = Err e -> e = CancelledError
}.

Lemma subs_ok_same store su su' :
  subs_ok store su -> su_store su' = su_store su -> su_log su' = su_log su -> su_stops su' = su_stops su -> subs_ok store su'.
Proof. intros [H1 H2 H3 H4 H5] E1 E2 E3. split; rewrite ?E1, ?E2, ?E3; done. Qed.

Lemma subs_ok_set store su sub s s' :
  subs_ok store su -> su_store su !! sub = Some s -> subscription_requests s' = subscription_requests s ->
  (sub_detached s = true -> sub_detached s' = true) -> subs_ok store (set_sub sub s' su).
Proof.
  intros [H1 H2 H3 H4 H5] Hs Hr Hd. split; cbn; try done.
  - intros sub' x [[<- <-]|[_ Hx]]%lookup_insert_Some; [rewrite Hr; by apply H1|by apply H1].
  - intros sub' fs (x & Hx & Hdx)%H3. destruct (decide (sub = sub')) as [<-|Hne].
    + exists s'. rewrite lookup_insert_eq. split; [done|]. apply Hd. congruence.
    + exists x. by rewrite lookup_insert_ne.
Qed.

Lemma subs_ok_log store su su' l :
  subs_ok store su -> su_store su' = su_store su -> su_log su' = su_log su ++ [l] -> su_stops su' = su_stops su ->
  match l with
  | LSubscribe sub requests => exists s, su_store su !! sub = Some s /\ sub_detached s = false /\ requests = subscription_requests s
  | LDetach sub _ => exists s, su_store su !! sub = Some s /\ sub_detached s = true
  | LUnsubscribe _ _ => True
  end -> subs_ok store su'.
Proof.
  intros [H1 H2 H3 H4 H5] E1 E2 E3 Hl. split; rewrite ?E1, ?E2, ?E3; try done.
  - intros sub requests [Hin|Hin%list_elem_of_singleton]%elem_of_app; [by apply H2|]. subst l.
    destruct Hl as (s & Hs & _ & ->). by apply H1.
  - intros sub fs [Hin|Hin%list_elem_of_singleton]%elem_of_app; [by eapply H3|]. by subst l.
  - apply detached_last_snoc; [done|]. intros sub requests fs -> Hin. destruct Hl as (s & Hs & Hd & _).
    destruct (H3 sub fs Hin) as (s' & Hs' & Hd'). congruence.
Qed.

Lemma subs_ok_stopped store su r :
  subs_ok store su -> (forall e, r = Err e -> e = CancelledError) -> subs_ok store (stopped r su).
Proof.
  intros [H1 H2 H3 H4 H5] Hr. split; cbn; try done.
  intros r' e [Hin|Hin%list_elem_of_singleton]%elem_of_app; [by apply H5|]. subst r'. apply Hr.
Qed.

Lemma stop_finish_cancelled sent e : stop_finish sent = Err e -> e = CancelledError.
Proof. destruct sent as [[[fs ack]|]|e']; cbn; try done. by destruct e'; intros [= <-]. Qed.

Lemma restore_loop_ok store n todo su : subs_ok store su -> subs_ok store (restore_loop n todo su).
Proof.
  revert su; induction todo as [|sub todo IH]; intros su Hok; cbn [restore_loop]; [by apply (subs_ok_same store su)|].
  destruct (su_store su !! sub) as [s|] eqn:Hs; [|auto]. destruct (sub_detached s) eqn:Hd; [auto|].
  eapply subs_ok_log; [exact Hok|reflexivity..|]. by exists s.
Qed.

Lemma sub_step_ok store su ev : subs_ok store su -> subs_ok store (sub_step su ev).
Proof.
  intros Hok. destruct ev as [n sub|n r|n sub cancelled|n r|sub| | |n|]; cbn [sub_step]; try by apply (subs_ok_same store su).
  - destruct (su_calls su !! n); [done|]. destruct (su_store su !! sub) as [s|] eqn:Hs; [|done]. unfold start.
    destruct (require_protocol _); [|by apply (subs_ok_same store su)]. destruct (sub_detached s) eqn:Hd; [by apply (subs_ok_same store su)|].
    eapply subs_ok_log; [exact Hok|reflexivity..|]. by exists s.
  - assert (forall sub s fs, su_store su !! sub = Some s -> subs_ok store (end_call n (set_sub sub (set_registered fs s) su))) as Hset.
    { intros sub s fs Hs. apply (subs_ok_same store (set_sub sub (set_registered fs s) su)); [|done..].
      by apply (subs_ok_set store su sub s). }
    destruct (su_calls su !! n) as [[sub|sub|sub todo]|] eqn:Hn; try done;
      (destruct (su_store su !! sub) as [s|] eqn:Hs; [|destruct r; [done|by apply (subs_ok_same store su)]]);
      (destruct r as [fs|e]; [|by apply (subs_ok_same store su)]).
    + by apply (subs_ok_same store (end_call n (set_sub sub (set_registered fs s) su))); [apply Hset|..].
    + by apply restore_loop_ok, Hset.
  - destruct (su_calls su !! n); [done|]. destruct (su_store su !! sub) as [s|] eqn:Hs; [|done]. unfold stop.
    assert (subs_ok store (set_list (remove_first sub (su_list su)) su)) as Hok' by (by apply (subs_ok_same store su)).
    case_bool_decide; [|by apply subs_ok_stopped]. destruct (_ || _ || _); [by apply subs_ok_stopped|].
    eapply subs_ok_log; [exact Hok'|reflexivity..|exact I].
  - destruct (su_calls su !! n) as [[sub|sub|sub todo]|]; try done. apply subs_ok_stopped; [by apply (subs_ok_same store su)|].
    intros e. apply stop_finish_cancelled.
  - destruct (su_store su !! sub) as [s|] eqn:Hs; [|done]. unfold sub_detach. case_bool_decide; [|done].
    set (su1 := set_list (remove_first sub (su_list su)) su).
    assert (subs_ok store (set_sub sub (set_detached s) su1)) as Hok'.
    { apply (subs_ok_set store su1 sub s); [by apply (subs_ok_same store su)|done..]. }
    assert (su_store (set_sub sub (set_detached s) su1) !! sub = Some (set_detached s)) as Hl by apply lookup_insert_eq.
    case_match; (eapply subs_ok_log; [exact Hok'|reflexivity..|]); by exists (set_detached s).
  - case_match; [by apply (subs_ok_same store su)|done].
  - destruct (su_calls su !! n); [done|]. case_match; [by apply restore_loop_ok|done].
Qed.

Lemma sub_steps_ok store evs su : subs_ok store su -> subs_ok store (sub_steps su evs).
Proof. revert su; induction evs as [|ev evs IH]; intros su Hok; [done|]. cbn. by apply IH, sub_step_ok. Qed.

(** C27: the life of subscriptions.  Whatever the application and the broker do, and whenever the
    connection is lost: a call of [stop] never raises, cancellation apart; each call of [protocol.subscribe], at
    first or after a reconnect, is for the subscription's filters with its options, always the same; and once a
    subscription is detached, [protocol.subscribe] is not called for it any more.  (A call made before
    [detach] and still waiting for the locks of its filters goes on, and sends its SUBSCRIBE afterwards:
    [Detached.waiting_restoration_subscribes].) *)
Theorem subscription_lifecycle store evs :
  let su := sub_steps (subs_new store) evs in
  (forall r e, r ∈ su_stops su -> r = Err e -> e = CancelledError) /\
  (forall sub requests, LSubscribe sub requests ∈ su_log su ->
     exists s, store !! sub = Some s /\ requests = subscription_requests s) /\
  detached_last (su_log su).
Proof.
  assert (subs_ok store (subs_new store)) as Hnew.
  { split; cbn; try (by intros * ?%elem_of_nil); [by eauto|]. intros l1 sub fs l2 requests E. by destruct l1. }
  intros su. destruct (sub_steps_ok store evs _ Hnew) as [_ H2 _ H4 H5]. done.
Qed.

(** ** Subscriptions that come back *)

Definition sample_sub : Subscription := mkSub [py "a/#"] AT_LEAST_ONCE true 0 false false SEND_ON_SUBSCRIBE None [] false.

(** The broker rejects a subscription, so [start] raises; it stays in the list of the client, and
    after the next reconnect it is subscribed again. *)
Theorem rejected_subscription_comes_back :
  let su := sub_steps (subs_new {[ 0%nat := sample_sub ]})
    [SuConnected; SuStart 0 0; SuSubscribed 0 (Err (MQTTSubscribeError [(py "a/#", 0x87)])); SuLost; SuReconnected 1] in
  su_others su = [Err (MQTTSubscribeError [(py "a/#", 0x87)])] /\ su_list su = [0%nat] /\
  su_log su = [LSubscribe 0 (subscription_requests sample_sub); LSubscribe 0 (subscription_requests sample_sub)].
Proof. vm_compute. split_and!; reflexivity. Qed.

(** A subscription stopped while the client reconnects: UNSUBSCRIBE fails on the dead connection, [stop]
    returns None, and the reconnect subscribes it again. *)
Theorem stopped_subscription_comes_back :
  let su := sub_steps (subs_new {[ 0%nat := sample_sub ]})
    [SuConnected; SuStart 0 0; SuSubscribed 0 (Ok [py "a/#"]); SuLost; SuStop 1 0 false;
     SuUnsubscribed 1 (Err (MQTTDisconnectedError "Connection lost")); SuReconnected 2] in
  su_stops su = [Ok None] /\ su_list su = [] /\
  su_log su = [LSubscribe 0 (subscription_requests sample_sub); LUnsubscribe 0 [py "a/#"]; LSubscribe 0 (subscription_requests sample_sub)].
Proof. vm_compute. split_and!; reflexivity. Qed.

(** ** Requests and messages *)

Lemma hex_digit_range n : 0 <= n < 16 -> 48 <= hex_digit n <= 57 \/ 97 <= hex_digit n <= 102.
Proof. intros Hn. unfold hex_digit. case_if; zbool; lia. Qed.

Lemma hex_digit_inj m n : 0 <= m < 16 -> 0 <= n < 16 -> hex_digit m = hex_digit n -> m = n.
Proof. intros Hm Hn. unfold hex_digit. repeat case_if; zbool; lia. Qed.

Lemma bz_nibbles b : 0 <= bz b / 16 < 16 /\ 0 <= bz b mod 16 < 16.
Proof. pose proof (bz_range b). split; [|by apply Z.mod_pos_bound]. split; [apply Z.div_pos; lia|apply Z.div_lt_upper_bound; lia]. Qed.

(** Different random bytes give different reply topics. *)
Lemma hex_inj data data' : hex data = hex data' -> data = data'.
Proof.
  revert data'; induction data as [|b data IH]; intros [|b' data']; cbn; try done.
  intros [= H1 H2 H3]. pose proof (bz_nibbles b). pose proof (bz_nibbles b').
  apply hex_digit_inj in H1, H2; try lia. f_equal; [|auto]. apply bz_inj.
  rewrite (Z.div_mod (bz b) 16), (Z.div_mod (bz b') 16) by lia. congruence.
Qed.

Lemma hex_chars data c : c ∈ hex data -> 48 <= c <= 57 \/ 97 <= c <= 102.
Proof.
  induction data as [|b data IH]; cbn; [by intros ?%elem_of_nil|]. pose proof (bz_nibbles b).
  cbn [hex flat_map app]. rewrite !elem_of_cons. intros [->|[->|?]]; [apply hex_digit_range; lia|apply hex_digit_range; lia|auto].
Qed.

Lemma hex_no_char c data : ~ (48 <= c <= 57 \/ 97 <= c <= 102) -> contains_char c (hex data) = false.
Proof. intros Hc. apply not_true_iff_false. intros Hin%contains_char_In. by apply Hc, (hex_chars data). Qed.

(** The reply topic of a request is one a responder can publish to, and the properties of the publish carry the
    key the reply is matched with. *)
Theorem request_properties_ok v properties random_topic random_data key p :
  request_properties v properties random_topic random_data = Ok (key, p) ->
  v = V50 /\ validate_response_topic key.1 = Ok tt /\
  pp_response_topic p = Some key.1 /\ pp_correlation_data p = Some key.2 /\
  match properties with
  | Some q => pp_user_properties p = pp_user_properties q /\ pp_content_type p = pp_content_type q
  | None => key = (py "_zmqtt/reply/" ++ hex random_topic, random_data)
  end.
Proof.
  unfold request_properties. rewrite bind_Ok. intros ([] & Hv%raise_if_Ok & H). apply bool_decide_eq_false, dec_stable in Hv.
  split; [done|]. apply bind_Ok in H as (topic & Ht & [= <- <-]). cbn [fst snd].
  assert (validate_response_topic topic = Ok tt) as Hvalid.
  { revert Ht. case_match; [rewrite bind_Ok; intros ([] & Hval & [= <-]); done|]. intros [= <-].
    pose proof (hex_no_char HASH random_topic ltac:(unfold HASH, PLUS, DOLLAR; lia)) as H1.
    pose proof (hex_no_char PLUS random_topic ltac:(unfold HASH, PLUS, DOLLAR; lia)) as H2.
    pose proof (hex_no_char DOLLAR random_topic ltac:(unfold HASH, PLUS, DOLLAR; lia)) as H3.
    unfold validate_response_topic, validate_publish. cbn. unfold contains_char in H1, H2, H3. by rewrite H1, H2, H3. }
  split; [done|]. destruct properties as [q|]; [done|]. injection Ht as <-. done.
Qed.

(** A message that has been taken is returned, unless the run loop has failed, the subscription is detached, or the drain
    that follows finds the connection lost or closed. *)
Theorem get_message_returns signal m connected s :
  from_option (fun e => e = None) True signal -> (forall p, p ∈ buffered s -> publish_ok p) ->
  let '(r, s') := get_message_resume false false signal (Some m) connected s in
  r = Ok (Some m) \/ exists e, r = Err e /\ e_lost s' || e_closed s' = true.
Proof.
  intros Hs Hok. unfold get_message_resume. destruct signal as [[e|]|]; [done|..].
  all: destruct connected; [|by left]; pose proof (drain_fails s) as H; unfold mbind, M_bind; cbn [_notify_capacity_available];
    destruct (drain_replay s) as [[[]|e] s']; [by left|right; exists e; split; [done|]].
  all: apply not_false_iff_true; intros Ho; by apply (H e Hok eq_refl).
Qed.

Lemma get_message_returns_witness :
  let s := engine_new V50 [] 60 None 1000 None ∅ 0 in
  let m := mkMessage 7 (py "a/b") [Byte.x01] AT_LEAST_ONCE false None in
  (get_message_resume false false None (Some m) true s).1 = Ok (Some m).
Proof.
  intros s m. pose proof (get_message_returns None m true s I) as H.
  destruct (get_message_resume false false None (Some m) true s) as [r s'] eqn:E. destruct H as [H|(e & _ & H)].
  - by intros p ?%not_elem_of_nil.
  - exact H.
  - vm_compute in E. injection E as _ <-. vm_compute in H. discriminate H.
Defined.

(** A message is lost.  Two QoS 1 messages for a queue of one: the first is delivered and acknowledged, the second waits in
    the replay buffer.  The connection is lost; [get_message] takes the first, drains the
    second into the queue, cannot acknowledge it and raises: nobody gets the first, which the broker will not send again. *)
Theorem get_message_loses_message :
  let pub (pid : Z) (payload : bytes) := EvReceive (PPublish (mkPublish (py "a/b") payload AT_LEAST_ONCE false false (Some pid) None)) in
  let sys := run_events (system_new (engine_new V50 [] 60 None 1000 None {[ 0%nat := mkQueue 1 [] ]} 8))
    [EvConnAck (PConnAck (mkConnAck true 0 None)); pub 1 [Byte.x01]; pub 2 [Byte.x02];
     EvSubscribe [observer_request (py "a/+")] 0 true None; EvReceive (PSubAck (mkSubAck 1 [0] None)); EvResume 0; EvDrain; EvLost] in
  exists m, head (q_items (queue_of (engine sys) 0)) = Some m /\ msg_payload m = [Byte.x01] /\
    last (e_sent (engine sys)) = Some (puback_bytes 1) /\
    let '(r, s) := get_message_resume false false (Some None) (Some m) true (engine (engine_step sys (EvTake 0))) in
    r = Err (MQTTDisconnectedError "Connection lost") /\ map msg_payload (q_items (queue_of s 0)) = [[Byte.x02]].
Proof. eexists. split; [vm_compute; reflexivity|]. vm_compute. split_and!; reflexivity. Qed.

(** A cancelled [get_message] loses a message too: [message_task] has taken it, the task that waits for it is cancelled before it
    goes on, and [finally] does not put the message back, which is acknowledged already. *)
Theorem cancelled_get_message_loses_message :
  let sys := run_events (system_new (engine_new V50 [] 60 None 1000 None ∅ 8))
    [EvSubscribe [observer_request (py "a/+")] 0 true None; EvReceive (PSubAck (mkSubAck 1 [1] None)); EvResume 0;
     EvReceive (PPublish (mkPublish (py "a/b") [Byte.x01] AT_LEAST_ONCE false false (Some 1) None))] in
  exists m, q_items (queue_of (engine sys) 0) = [m] /\ last (e_sent (engine sys)) = Some (puback_bytes 1) /\
    let '(r, s) := get_message_resume false true (Some None) (Some m) true (engine (engine_step sys (EvTake 0))) in
    r = Err CancelledError /\ q_items (queue_of s 0) = [].
Proof. eexists. split; [vm_compute; reflexivity|]. vm_compute. split_and!; reflexivity. Qed.
