(* ===== verification/Application.v ===== *)
(** * Subscriptions of an application over its connections ([client.py] and [_internal/protocol.py] together)

    [Subscriptions] on [Locking]: what a [Subscription] asks of [MQTTProtocol.subscribe] and [unsubscribe] runs
    under the locks in the engine of the connection, whose answers are what it resumes with; packets,
    cancellations, response observers and the end of the connection interleave.  A new connection has a new
    engine, with the queues, the dispatcher and the detached filters of before ([MQTTClient._connect]).

    Theorem: locks are always released; the filters in the answer that [stop] returns are
    registered no more; and a message in the queue of a subscription is one it asked for, over any
    number of connections.  (What [start] notes as registered may have been unsubscribed by then:
    [start_notes_late].) *)

From S2P Require Import Prelude Properties Packets Codec Topic SubscriptionIndex Guards State Engine Inbound Protocol Calls Failures Receiving Locking Delivery Routing Options Life Subscriptions.

(** ** State *)

(** [ap_engine] is the engine of the connection, or of the last one; [ap_detached] is [_detached_filters]. *)
Record App : Type := mkApp {
  ap_subs : Subs;
  ap_engine : Locked;
  ap_detached : dict pystr SubscriptionEntry
}.

Abbreviation ap_system ap := (lo_system (ap_engine ap)).

(** ** What a subscription asks, and the answer *)

(** The call of the engine that the step from [su] to [su'] makes. *)
Definition asked (su su' : Subs) : option sub_op :=
  match drop (length (su_log su)) (su_log su') with
  | LSubscribe sub requests :: _ =>
    (fun s => OSubscribe requests (sub_queue s) (sub_auto_ack s) (sub_subscription_identifier s)) <$> su_store su' !! sub
  | LUnsubscribe _ filters :: _ => Some (OUnsubscribe filters)
  | _ => None
  end.

(** Call [n] waits for a lock or for the broker, or is in its drain. *)
Definition under_way (n : nat) (lo : Locked) : bool :=
  is_Some_b (lo_waiting lo !! n) || is_Some_b (lo_body lo !! n) || is_Some_b (lo_draining lo !! n).

(** What the call [n], which has ended in a step, has returned or raised. *)
Definition call_outcome (n : nat) (lo lo' : Locked) : res call_value :=
  match List.find (fun nr => (nr.1 =? n)%nat) (drop (length (lo_returns lo)) (lo_returns lo')) with
  | Some (_, r) => r
  | None => Err CancelledError
  end.

Definition as_subscribed (x : call_value) : res (list pystr) :=
  match x with RSubscribed _ entries => Ok entries | _ => Err (TypeError "tuple") end.
Definition as_unsubscribed (x : call_value) : res (option (list pystr * UnsubAck)) :=
  match x with RUnsubscribed acknowledged => Ok acknowledged | _ => Err (TypeError "tuple") end.

(** [await protocol.subscribe(...)] or [await protocol.unsubscribe(...)] is over. *)
Definition answer (n : nat) (r : res call_value) (su : Subs) : Subs :=
  match su_calls su !! n with
  | Some (CStop _) => sub_step su (SuUnsubscribed n (x ← r; as_unsubscribed x))
  | Some _ => sub_step su (SuSubscribed n (x ← r; as_subscribed x))
  | None => su
  end.

(** The coroutine [n] goes on to [su'], with a call of the engine if it makes one; a call that raises at once
    is answered at once. *)
Definition issue (n : nat) (su su' : Subs) (lo : Locked) : res (Subs * Locked) :=
  match asked su su' with
  | None => Ok (su', lo)
  | Some op =>
    lo' ← locked_step lo (LCall n op);
    Ok (if under_way n lo' then su' else answer n (call_outcome n lo lo') su', lo')
  end.

(** The call of a subscription that a step of the engine has ended. *)
Definition call_ended (su : Subs) (lo lo' : Locked) : option nat :=
  head (map fst (List.filter (fun nc => under_way nc.1 lo && negb (under_way nc.1 lo')) (map_to_list (su_calls su)))).

(** ** Steps *)

Inductive app_event : Type :=
| ApStart (n sub : nat)
| ApStop (n sub : nat) (cancelled : bool)
| ApDetach (sub : nat)
| ApConnected (packet : Connect) (ack : AnyPacket)   (** [_connect], when the broker has answered *)
| ApLost                                      (** the run loop notices the end of the connection *)
| ApRestore (n : nat)                         (** it subscribes again *)
| ApDisconnect
| ApEngine (ev : locked_event).               (** the rest *)

(** [start], [stop], and [__aexit__] with the exception of the body. *)
Definition sub_start (n sub : nat) : app_event := ApStart n sub.
Definition sub_stop (n sub : nat) : app_event := ApStop n sub false.
Definition sub_aexit (n sub : nat) (exc : option exn) : app_event :=
  ApStop n sub (match exc with Some CancelledError => true | _ => false end).

(** What only the calls above do. *)
Definition of_subscriptions (ev : locked_event) : bool :=
  match ev with
  | LCall _ (OSubscribe _ _ _ _) | LCall _ (OUnsubscribe _) => true
  | LEngine (EvDetach _ | EvDisconnect | EvConnect _ | EvConnAck _ | EvBind) => true
  | _ => false
  end.

(** A call of the application, which needs a connection. *)
Definition needs_connection (ev : locked_event) : bool :=
  match ev with LCall _ _ | LEngine (EvPublish _ | EvPing | EvAuth _) => true | _ => false end.

Section app.
Context (v : version) (prefixes : list pystr) (keepalive : Z) (limit : option Z) (replay_size : Z).

(** The engine of a new connection, after the handshake and the statements of [_connect] that follow it. *)
Definition connect_system (packet : Connect) (ack : AnyPacket) (ap : App) : System :=
  let s := engine (ap_system ap) in
  run_events (system_new (engine_new v prefixes keepalive limit replay_size (e_dispatcher s) (e_queues s) (e_next_ref s)))
    [EvConnect packet; EvConnAck ack; EvRestoreDetached (ap_detached ap); EvBind].

(** A step of a subscription's own. *)
Definition sub_move (n : nat) (ev : sub_event) (ap : App) : res App :=
  match gs_holds (lo_guards (ap_engine ap)) !! n, lo_draining (ap_engine ap) !! n with
  | Some _, _ | _, Some _ => Ok ap
  | None, None =>
    '(su, lo) ← issue n (ap_subs ap) (sub_step (ap_subs ap) ev) (ap_engine ap);
    Ok (mkApp su lo (ap_detached ap))
  end.

Fixpoint take_all (queue messages : nat) (lo : Locked) : res Locked :=
  match messages with
  | O => Ok lo
  | S messages => lo ← locked_step lo (LEngine (EvTake queue)); take_all queue messages lo
  end.

(** [Subscription.detach] with [_detach_local]. *)
Definition detach_move (sub : nat) (ap : App) : res App :=
  let su := ap_subs ap in
  let su' := sub_step su (SuDetach sub) in
  match su_store su !! sub, drop (length (su_log su)) (su_log su') with
  | Some s, LDetach _ filters :: _ =>
    let before := engine (ap_system ap) in
    lo ← (if su_protocol su then locked_step (ap_engine ap) (LEngine (EvDetach filters)) else Ok (ap_engine ap));
    lo ← take_all (sub_queue s) (length (q_items (queue_of (engine (lo_system lo)) (sub_queue s)))) lo;
    Ok (mkApp su' lo (if su_protocol su then dict_update (ap_detached ap) (detached_entries filters before) else ap_detached ap))
  | _, _ => Ok ap
  end.

Definition app_step (ap : App) (ev : app_event) : res App :=
  match ev with
  | ApStart n sub => sub_move n (SuStart n sub) ap
  | ApStop n sub cancelled => sub_move n (SuStop n sub cancelled) ap
  | ApDetach sub => detach_move sub ap
  | ApConnected packet ack =>
    let sys := connect_system packet ack ap in
    if nonempty (map_to_list (su_calls (ap_subs ap))) || is_Some_b (failure sys) then Ok ap
    else Ok (mkApp (if su_protocol (ap_subs ap) then ap_subs ap else sub_step (ap_subs ap) SuConnected) (locked_new sys) (ap_detached ap))
  | ApLost => Ok (mkApp (sub_step (ap_subs ap) SuLost) (ap_engine ap) (ap_detached ap))
  | ApRestore n => sub_move n (SuReconnected n) ap
  | ApDisconnect =>
    lo ← (if su_protocol (ap_subs ap) then locked_step (ap_engine ap) (LEngine EvDisconnect) else Ok (ap_engine ap));
    Ok (mkApp (sub_step (ap_subs ap) SuDisconnect) lo [])
  | ApEngine ev =>
    if of_subscriptions ev || (negb (su_protocol (ap_subs ap)) && needs_connection ev) then Ok ap
    else
      lo ← locked_step (ap_engine ap) ev;
      match call_ended (ap_subs ap) (ap_engine ap) lo with
      | None => Ok (mkApp (ap_subs ap) lo (ap_detached ap))
      | Some n =>
        '(su, lo) ← issue n (ap_subs ap) (answer n (call_outcome n (ap_engine ap) lo) (ap_subs ap)) lo;
        Ok (mkApp su lo (ap_detached ap))
      end
  end.

Fixpoint app_steps (ap : App) (evs : list app_event) : res App :=
  match evs with
  | [] => Ok ap
  | ev :: evs => ap ← app_step ap ev; app_steps ap evs
  end.

(** A client that has not connected yet, with the subscriptions its application will use. *)
Definition app_new (store : gmap nat Subscription) (d : option Dispatcher) (queues : gmap nat Queue) (next : nat) : App :=
  mkApp (subs_new store) (locked_new (system_new (engine_new v prefixes keepalive limit replay_size d queues next))) [].
End app.

(** ** Steps of the locks are steps of the engine *)

Definition op_event (op : sub_op) : event :=
  match op with
  | OSubscribe filters queue auto identifier => EvSubscribe filters queue auto identifier
  | OUnsubscribe filters => EvUnsubscribe filters
  | OObserve topic => EvObserve topic
  | OUnobserve topic => EvUnobserve topic
  end.

Lemma new_call_op op sys : new_call (op_body op) sys = engine_step sys (op_event op).
Proof. by destruct op. Qed.

Lemma after_body_same n r lo : lo_system (after_body n r lo) = lo_system lo /\ lo_waiting (after_body n r lo) = lo_waiting lo.
Proof. by destruct r as [[]|]. Qed.

Lemma leave_if_ended_same r n lo lo' :
  leave_if_ended r n lo = Ok lo' -> lo_system lo' = lo_system lo /\ lo_waiting lo' = lo_waiting lo.
Proof.
  unfold leave_if_ended. destruct (lo_body lo !! n) as [c|]; [|by intros [= <-]].
  destruct (calls (lo_system lo) !! c); [by intros [= <-]|]. destruct (guard_step _ _); [|done]. intros [= <-].
  exact (after_body_same n r (set_guards _ (set_body _ lo))).
Qed.

Lemma leave_ended_same r ns lo lo' :
  leave_ended r ns lo = Ok lo' -> lo_system lo' = lo_system lo /\ lo_waiting lo' = lo_waiting lo.
Proof.
  revert lo; induction ns as [|n ns IH]; intros lo; cbn [leave_ended]; [by intros [= <-]|].
  destruct (leave_if_ended r n lo) as [lo1|] eqn:E; [|done]. cbn. intros H%IH. apply leave_if_ended_same in E. destruct H, E. split; congruence.
Qed.

(** [after_lock] runs the body of the call, or nothing. *)
Lemma after_lock_moves n lo lo' :
  after_lock n lo = Ok lo' ->
  (lo_system lo' = lo_system lo \/ exists op, lo_waiting lo !! n = Some op /\ lo_system lo' = engine_step (lo_system lo) (op_event op)) /\
  (forall m op, lo_waiting lo' !! m = Some op -> lo_waiting lo !! m = Some op).
Proof.
  unfold after_lock. destruct (lo_waiting lo !! n) as [op|] eqn:Hn; [|intros [= <-]; split; [by left|done]].
  destruct (in_body n (lo_guards lo)).
  - unfold run_body. intros [E1 E2]%leave_if_ended_same. cbn in E1, E2. rewrite E1, E2, new_call_op. split; [right; by exists op|].
    by intros m op' [_ H]%lookup_delete_Some.
  - destruct (gs_holds (lo_guards lo) !! n); intros [= <-]; (split; [by left|]); [done|]. cbn. by intros m op' [_ H]%lookup_delete_Some.
Qed.

(** A call begins. *)
Lemma call_moves n op lo lo' :
  locked_step lo (LCall n op) = Ok lo' ->
  (lo_system lo' = lo_system lo \/ lo_system lo' = engine_step (lo_system lo) (op_event op)) /\
  (forall m op', lo_waiting lo' !! m = Some op' -> lo_waiting lo !! m = Some op' \/ op' = op).
Proof.
  cbn [locked_step]. destruct (gs_holds (lo_guards lo) !! n) eqn:Hn; [intros [= <-]; auto|].
  destruct (lo_draining lo !! n); [intros [= <-]; auto|]. destruct (guard_step _ _) as [gs|]; [|done]. cbn [mbind res_bind]. intros [H1 H2]%after_lock_moves. cbn in H1, H2. rewrite lookup_insert_eq in H1. split.
  - destruct H1 as [H1|(op' & [= <-] & H1)]; auto.
  - intros m op' [[_ <-]|[_ H]]%H2%lookup_insert_Some; auto.
Qed.

(** What a step may do to the engine: nothing, an event of its own or a drain, or the body of a call that waited. *)
Lemma locked_moves ev lo lo' :
  locked_step lo ev = Ok lo' ->
  (lo_system lo' = lo_system lo \/
   (exists e, (ev = LEngine e \/ e = EvDrain) /\ is_managed e = false /\ lo_system lo' = engine_step (lo_system lo) e) \/
   exists n op, (lo_waiting lo !! n = Some op \/ ev = LCall n op) /\ lo_system lo' = engine_step (lo_system lo) (op_event op)) /\
  (forall m op, lo_waiting lo' !! m = Some op -> lo_waiting lo !! m = Some op \/ exists n, ev = LCall n op).
Proof.
  destruct ev as [n op|n|n thrown|n thrown|e].
  - intros [[H1|H1] H2]%call_moves; (split; [auto|]); try (intros m op' [?| ->]%H2; eauto). right. right. exists n, op. auto.
  - cbn [locked_step]. destruct (guard_step _ _) as [gs|]; [|done]. cbn. intros [= <-]. auto.
  - cbn [locked_step]. destruct (guard_step _ _) as [gs|]; [|done]. cbn [mbind res_bind]. intros [H1 H2]%after_lock_moves. cbn in H1, H2.
    split; [|auto]. destruct H1 as [H1|(op & H & H1)]; [by left|]. right. right. exists n, op. auto.
  - cbn [locked_step]. destruct (lo_draining lo !! n); [|intros [= <-]; auto]. destruct thrown; [intros [= <-]; auto|].
    cbn [lo_system set_draining]. destruct (drain_replay (engine (lo_system lo))) as [r s] eqn:E. intros [= <-]. split; [|auto]. right. left. exists EvDrain.
    split; [by right|]. split; [done|]. cbn [engine_step]. unfold run_unit. by rewrite E.
  - cbn [locked_step]. destruct (is_managed e) eqn:Em; [intros [= <-]; auto|]. intros [E1 E2]%leave_ended_same. cbn in E1, E2.
    rewrite E2. split; [|auto]. right. left. exists e. auto.
Qed.

(** ** What the subscriptions ask for *)

(** What a subscription is created with. *)
Definition options_of (s : Subscription) :=
  (sub_filters s, sub_qos s, sub_auto_ack s, sub_queue s, (sub_no_local s, sub_retain_as_published s, sub_retain_handling s), sub_subscription_identifier s).

Definition same_options (store store' : gmap nat Subscription) : Prop :=
  forall sub s', store' !! sub = Some s' -> exists s, store !! sub = Some s /\ options_of s = options_of s'.

#[export] Instance same_options_preorder : PreOrder same_options.
Proof.
  split; [by intros x sub s; exists s|]. intros x y z H1 H2 sub s (t & Ht & E)%H2. destruct (H1 _ _ Ht) as (u & Hu & E').
  exists u. split; [done|congruence].
Qed.

Lemma same_options_set store sub s s' :
  store !! sub = Some s -> options_of s = options_of s' -> same_options store (<[sub := s']> store).
Proof. intros Hs E sub' t [[<- <-]|[_ H]]%lookup_insert_Some; [by exists s|by exists t]. Qed.

(** A step of the subscriptions asks for at most one thing, and changes what is registered only with the answer
    to a [subscribe]. *)
Record sub_effect (ev : sub_event) (su su' : Subs) : Prop := {
  se_options : same_options (su_store su) (su_store su');
  se_log : su_log su' = su_log su \/ exists l, su_log su' = su_log su ++ [l] /\
    match l with
    | LSubscribe sub requests =>
      (exists s, su_store su' !! sub = Some s /\ sub_detached s = false /\ requests = subscription_requests s) /\
      forall n r, ev <> SuUnsubscribed n r
    | LUnsubscribe _ _ => forall n r r', ev <> SuSubscribed n r /\ ev <> SuUnsubscribed n r'
    | LDetach _ _ => exists sub, ev = SuDetach sub
    end;
  se_registered : forall sub s s', su_store su !! sub = Some s -> su_store su' !! sub = Some s' ->
    sub_registered_filters s' = sub_registered_filters s \/
    exists n fs, ev = SuSubscribed n (Ok fs) /\ sub_registered_filters s' = fs;
  se_detached : forall sub s, su_store su !! sub = Some s -> sub_detached s = true ->
    exists s', su_store su' !! sub = Some s' /\ sub_detached s' = true;
  se_stops : su_stops su' = su_stops su \/ exists r, su_stops su' = su_stops su ++ [r] /\
    (r = Ok None \/ exists n sent, ev = SuUnsubscribed n sent /\ r = stop_finish sent)
}.

Lemma effect_same ev su su' :
  su_store su' = su_store su -> su_log su' = su_log su -> su_stops su' = su_stops su -> sub_effect ev su su'.
Proof. intros E1 E2 E3. split; rewrite ?E1, ?E2, ?E3; eauto; [reflexivity|]. intros sub s s' -> [= ->]. by left. Qed.

Lemma restore_loop_same n todo su :
  su_store (restore_loop n todo su) = su_store su /\ su_stops (restore_loop n todo su) = su_stops su /\
  (su_log (restore_loop n todo su) = su_log su \/
   exists sub s, su_log (restore_loop n todo su) = su_log su ++ [LSubscribe sub (subscription_requests s)] /\ su_store su !! sub = Some s /\ sub_detached s = false).
Proof.
  induction todo as [|sub todo IH]; cbn [restore_loop]; [auto|]. destruct (su_store su !! sub) as [s|] eqn:E; [|done].
  destruct (sub_detached s) eqn:Ed; [done|]. split_and!; [done|done|]. right. by exists sub, s.
Qed.

Lemma effect_restore ev n todo su su1 :
  sub_effect ev su su1 -> su_log su1 = su_log su -> (forall m r, ev <> SuUnsubscribed m r) -> sub_effect ev su (restore_loop n todo su1).
Proof.
  intros [H1 H2 H3 H4 H5] E Hev. destruct (restore_loop_same n todo su1) as (E1 & E2 & E3). split; rewrite ?E1, ?E2; [done| |done..].
  rewrite <-E. destruct E3 as [E3|(sub & s & E3 & Hs & Hd)]; [by left|]. right. eexists. split; [exact E3|]. split; [by exists s|done].
Qed.

(** A subscription is changed, and stays detached. *)
Lemma detached_set (store : gmap nat Subscription) sub s s' :
  store !! sub = Some s -> (sub_detached s = true -> sub_detached s' = true) -> forall sub' t, store !! sub' = Some t -> sub_detached t = true ->
  exists t', <[sub := s']> store !! sub' = Some t' /\ sub_detached t' = true.
Proof.
  intros Hs Hd sub' t Ht Hdt. destruct (decide (sub = sub')) as [<-|Hne]; [rewrite lookup_insert_eq|rewrite lookup_insert_ne by done; eauto].
  eexists. split; [done|]. apply Hd. by assert (s = t) as -> by congruence.
Qed.

Lemma sub_step_effect su ev : sub_effect ev su (sub_step su ev).
Proof.
  assert (sub_effect ev su su) as Hrefl by (by apply effect_same).
  assert (forall sub t t', su_store su !! sub = Some t -> su_store su !! sub = Some t' -> sub_registered_filters t' = sub_registered_filters t \/
    exists n fs, ev = SuSubscribed n (Ok fs) /\ sub_registered_filters t' = fs) as Hsame by (intros sub t t' -> [= ->]; by left).
  destruct ev as [n sub|n r|n sub cancelled|n r|sub| | |n|]; cbn [sub_step]; try by apply effect_same.
  - destruct (su_calls su !! n); [done|]. destruct (su_store su !! sub) as [s|] eqn:Hs; [|done]. unfold start.
    destruct (require_protocol _); [|by apply effect_same]. destruct (sub_detached s) eqn:Hd; [by apply effect_same|].
    split; [reflexivity|right; eexists; split; [done|split; [by exists s|done]]|done|by eauto|by left].
  - assert (forall sub s fs, su_store su !! sub = Some s -> r = Ok fs ->
      let su1 := end_call n (set_sub sub (set_registered fs s) su) in sub_effect (SuSubscribed n r) su su1 /\ su_log su1 = su_log su) as Hset.
    { intros sub s fs Hs ->. split; [|done]. split; [by eapply same_options_set|by left| |by eapply detached_set|by left].
      cbn. intros sub' t t' Ht [[<- <-]|[_ Ht']]%lookup_insert_Some; [right; by exists n, fs|left; congruence]. }
    destruct (su_calls su !! n) as [[sub|sub|sub todo]|] eqn:Hn; try done;
      (destruct (su_store su !! sub) as [s|] eqn:Hs; [|destruct r; [done|by apply effect_same]]);
      (destruct r as [fs|e]; [|by apply effect_same]); destruct (Hset sub s fs Hs eq_refl) as [H E].
    + destruct H as [H1 H2 H3 H4 H5]. by split.
    + by apply effect_restore.
  - destruct (su_calls su !! n); [done|]. destruct (su_store su !! sub) as [s|] eqn:Hs; [|done]. unfold stop.
    assert (forall l, sub_effect (SuStop n sub cancelled) su (stopped (Ok None) (set_list l su))) as Hstop.
    { intros l. split; cbn; [reflexivity|by left|done|by eauto|right; eexists; split; [done|by left]]. }
    case_bool_decide; [|apply (Hstop (su_list su))]. destruct (_ || _ || _); [apply Hstop|].
    split; [reflexivity|right; by eexists|done|by eauto|by left].
  - destruct (su_calls su !! n) as [[sub|sub|sub todo]|]; try done.
    split; cbn; [reflexivity|by left|done|by eauto|right; eexists; split; [done|right; by exists n, r]].
  - destruct (su_store su !! sub) as [s|] eqn:Hs; [|done]. unfold sub_detach. case_bool_decide; [|done].
    assert (forall sub' t t', su_store su !! sub' = Some t -> <[sub := set_detached s]> (su_store su) !! sub' = Some t' ->
              sub_registered_filters t' = sub_registered_filters t) as Hreg.
    { intros sub' t t' Ht [[<- <-]|[_ Ht']]%lookup_insert_Some; [by assert (t = s) as -> by congruence|congruence]. }
    destruct (su_protocol _);
      (split; cbn; [by eapply same_options_set|right; eexists; split; [done|by exists sub]| |by eapply detached_set|by left]); eauto.
  - case_match; [by apply effect_same|done].
  - destruct (su_calls su !! n); [done|]. case_match; [|done]. by apply effect_restore.
Qed.

(** ** What a call reports *)

(** The answer to an [unsubscribe] says what is so. *)
Lemma outcome_said n lo lo' x : says lo lo' -> call_outcome n lo lo' = Ok x -> still_ok (engine (lo_system lo')) (Ok x).
Proof.
  intros (l & E & Hl). unfold call_outcome. rewrite E, drop_app_length. destruct (List.find _ l) as [[m r]|] eqn:Ef; [|done].
  intros ->. apply find_some in Ef as [Hin _]. by apply (Hl m), list_elem_of_In.
Qed.

(** ** The engines of the connections *)

Section invariant.
Context (v : version) (prefixes : list pystr) (keepalive : Z) (limit : option Z) (replay_size : Z).
Context (store : gmap nat Subscription).
Context (Hstore : forall sub s, store !! sub = Some s -> Forall (fun f => validate_subscribe_topic f = Ok tt) (sub_filters s)).

(** What the subscriptions ask the broker for, each for its queue. *)
Definition sub_grants (s : Subscription) : list Grant :=
  granted prefixes (EvSubscribe (subscription_requests s) (sub_queue s) (sub_auto_ack s) (sub_subscription_identifier s)).
Definition all_grants : list Grant := concat (map (fun ks => sub_grants ks.2) (map_to_list store)).

Lemma elem_of_all_grants g : g ∈ all_grants <-> exists sub s, store !! sub = Some s /\ g ∈ sub_grants s.
Proof.
  unfold all_grants. rewrite list_elem_of_In, in_concat. split.
  - intros (l & Hl & Hg). apply in_map_iff in Hl as ([sub s] & <- & Hs). exists sub, s.
    split; [by apply elem_of_map_to_list, list_elem_of_In|by apply list_elem_of_In].
  - intros (sub & s & Hs & Hg). exists (sub_grants s). split; [|by apply list_elem_of_In].
    apply in_map_iff. exists (sub, s). split; [done|]. by apply list_elem_of_In, elem_of_map_to_list.
Qed.

(** A call of a subscription of the client. *)
Definition op_fine (op : sub_op) : Prop :=
  validated (op_event op) /\ forall g, g ∈ granted prefixes (op_event op) -> g ∈ all_grants.

Lemma subscribe_fine st sub s :
  same_options store st -> st !! sub = Some s ->
  op_fine (OSubscribe (subscription_requests s) (sub_queue s) (sub_auto_ack s) (sub_subscription_identifier s)).
Proof.
  intros Ho Hs. destruct (Ho _ _ Hs) as (s0 & H0 & [= E1 E2 E3 E4 E5 E6 E7 E8]). split.
  - cbn. apply Forall_forall. intros r (f & -> & Hf)%list_elem_of_fmap. cbn.
    specialize (Hstore _ _ H0). rewrite E1 in Hstore. by eapply Forall_forall in Hstore.
  - intros g Hg. apply elem_of_all_grants. exists sub, s0. split; [done|]. revert Hg. unfold sub_grants, subscription_requests. cbn.
    by rewrite E1, E2, E4, E5, E6, E7, E8.
Qed.

(** The engine of a connection with its locks. *)
Record engine_ok (lo : Locked) : Prop := {
  eo_locked : locked_inv lo;
  eo_reachable : reachable (lo_system lo);
  eo_routed : routed (granted_item all_grants) prefixes (belongs all_grants (fun _ => [])) ∅ (engine (lo_system lo));
  eo_waiting : forall n op, lo_waiting lo !! n = Some op -> op_fine op
}.

Definition event_fine (ev : locked_event) : Prop :=
  match ev with LCall _ op => op_fine op | LEngine e => validated e | _ => True end.

Lemma unmanaged_grants e g : is_managed e = false -> g ∈ granted prefixes e -> g ∈ all_grants.
Proof. destruct e; try done; intros _ H; by apply not_elem_of_nil in H. Qed.

Lemma engine_step_fine lo ev :
  engine_ok lo -> event_fine ev -> exists lo', locked_step lo ev = Ok lo' /\ engine_ok lo' /\ says lo lo'.
Proof.
  intros [H1 H2 H3 H4] Hev. destruct (locked_step_ok lo ev H1) as (lo' & Hs & Hi & _ & Hrep). exists lo'. split; [done|]. split; [|done].
  destruct (locked_moves _ _ _ Hs) as [Hm Hw].
  assert (forall n op, lo_waiting lo !! n = Some op \/ ev = LCall n op -> op_fine op) as Hop by (intros n op [H| ->]; [by eapply H4|exact Hev]).
  assert (forall e, validated e -> (forall g, g ∈ granted prefixes e -> g ∈ all_grants) -> lo_system lo' = engine_step (lo_system lo) e ->
            reachable (lo_system lo') /\ routed (granted_item all_grants) prefixes (belongs all_grants (fun _ => [])) ∅ (engine (lo_system lo'))) as Hstep.
  { intros e Hv Hg ->. split; [by apply reachable_step|]. apply (step_routing _ _ _ _ (granted_holds _ _) (granted_uniform _ _) _ e (reachable_receiving _ H2) Hv); [|done]. by apply granted_admitted. }
  assert (reachable (lo_system lo') /\ routed (granted_item all_grants) prefixes (belongs all_grants (fun _ => [])) ∅ (engine (lo_system lo'))) as [Hr Hro].
  { destruct Hm as [->|[(e & He & Hm & E)|(n & op & Hn & E)]]; [done|..].
    - eapply Hstep; [by destruct He as [-> | ->]| |exact E]. intros g. by apply unmanaged_grants.
    - destruct (Hop n op Hn). by eapply Hstep. }
  split; [done..|]. intros m op [H|[n ->]]%Hw; [by eapply H4|exact Hev].
Qed.

(** ** The client *)

Record app_ok (ap : App) : Prop := {
  ao_engine : engine_ok (ap_engine ap);
  ao_options : same_options store (su_store (ap_subs ap));
  ao_detached : forall it, it ∈ ap_detached ap -> valid_item it /\ item_grant it ∈ all_grants
}.

(** The answer that [stop] returns is so in the engine [s]. *)
Definition recorded_ok (su su' : Subs) (s : Engine) : Prop :=
  forall r, su_stops su' = su_stops su ++ [Ok (Some r)] -> forall f, f ∈ ur_topic_filters r ->
    registered_in s f = false /\ observed_in s f = false.

Lemma recorded_nothing su s : recorded_ok su su s.
Proof. intros r E. apply (f_equal length) in E. rewrite length_app in E. cbn in E. lia. Qed.

(** A step that no answer has caused records nothing. *)
Lemma recorded_step ev su su' s : sub_effect ev su su' -> (forall n r, ev <> SuUnsubscribed n r) -> recorded_ok su su' s.
Proof.
  intros [_ _ _ _ H4] Hu r E. exfalso. destruct H4 as [E'|(r' & E' & Hr)]; rewrite E' in E.
  - apply (f_equal length) in E. rewrite length_app in E. cbn in E. lia.
  - apply app_inv_head in E as [= ->]. destruct Hr as [[=]|(n & sent & E & _)]. by destruct (Hu n sent).
Qed.

Lemma answer_effect n r su :
  exists ev, sub_effect ev su (answer n r su) /\
    (ev = SuSubscribed n (x ← r; as_subscribed x) \/ ev = SuUnsubscribed n (x ← r; as_unsubscribed x)).
Proof.
  unfold answer. destruct (su_calls su !! n) as [[sub|sub|sub todo]|].
  - eexists. split; [apply sub_step_effect|by left].
  - eexists. split; [apply sub_step_effect|by right].
  - eexists. split; [apply sub_step_effect|by left].
  - eexists. split; [by apply effect_same|by left].
Qed.

Lemma answer_recorded n r su s : (forall x, r = Ok x -> still_ok s (Ok x)) -> recorded_ok su (answer n r su) s.
Proof.
  intros Hr. destruct (answer_effect n r su) as (ev & [_ _ _ _ H4] & Hev). intros u E f Hf.
  destruct H4 as [E'|(r' & E' & Hr')]; rewrite E' in E.
  { apply (f_equal length) in E. rewrite length_app in E. cbn in E. lia. }
  apply app_inv_head in E as [= ->]. destruct Hr' as [[=]|(m & sent & -> & Hsent)]. destruct Hev as [[=]|[= <- E2]].
  destruct r as [x|e]; cbn in E2; subst sent; cbn in Hsent; [|by destruct (is_exception e)]. destruct x as [| | | |acknowledged]; try done.
  cbn in Hsent. destruct acknowledged as [[fs ack]|]; [|done]. injection Hsent as ->. by apply (Hr _ eq_refl).
Qed.

(** What is asked belongs to a subscription of the client. *)
Lemma asked_fine ev su su' op :
  sub_effect ev su su' -> same_options store (su_store su') -> asked su su' = Some op ->
  op_fine op /\ forall n r, ev <> SuUnsubscribed n r.
Proof.
  intros [_ H2 _ _ _] Ho. unfold asked. destruct H2 as [->|(l & -> & Hl)]; [by rewrite drop_all|]. rewrite drop_app_length.
  destruct l as [sub requests|sub fs|sub fs]; [| |done].
  - destruct Hl as ((s & Hs & _ & ->) & Hev). rewrite Hs. intros [= <-]. split; [by eapply subscribe_fine|done].
  - intros [= <-]. split; [split; [done|by intros g ?%not_elem_of_nil]|]. intros n r. by apply (Hl n (Err CancelledError)).
Qed.

Lemma issue_ok n ev su su' lo :
  engine_ok lo -> sub_effect ev su su' -> same_options store (su_store su') -> recorded_ok su su' (engine (lo_system lo)) ->
  exists su'' lo', issue n su su' lo = Ok (su'', lo') /\ engine_ok lo' /\ same_options store (su_store su'') /\
    recorded_ok su su'' (engine (lo_system lo')).
Proof.
  intros He Heff Ho Hrec. unfold issue. destruct (asked su su') as [op|] eqn:Ea; [|by exists su', lo].
  destruct (asked_fine ev su su' op Heff Ho Ea) as (Hop & Hu).
  destruct (engine_step_fine lo (LCall n op) He Hop) as (lo' & Hs & He' & Hsaid). rewrite Hs. cbn [mbind res_bind].
  assert (su_stops su' = su_stops su \/ su_stops su' = su_stops su ++ [Ok None]) as Hstops.
  { destruct (se_stops _ _ _ Heff) as [|(r & E & [->|(m & sent & -> & _)])]; [by left|by right|by destruct (Hu m sent)]. }
  set (r := call_outcome n lo lo'). destruct (answer_effect n r su') as (ev' & Heff' & _).
  assert (recorded_ok su' (answer n r su') (engine (lo_system lo'))) as Hrec2.
  { apply answer_recorded. intros x Hx. by eapply outcome_said. }
  eexists _, lo'. split; [reflexivity|]. split; [done|]. destruct (under_way n lo'); split.
  - done.
  - intros u E. exfalso. destruct Hstops as [E'|E']; rewrite E' in E; [|by apply app_inv_head in E].
    apply (f_equal length) in E. rewrite length_app in E. cbn in E. lia.
  - etransitivity; [exact Ho|apply Heff'].
  - intros u E f Hf. destruct Hstops as [E'|E']; [apply (Hrec2 u); [by rewrite E'|done]|]. exfalso.
    destruct (se_stops _ _ _ Heff') as [E2|(x & E2 & _)]; rewrite E2, E' in E; [by apply app_inv_head in E|].
    rewrite <-app_assoc in E. by apply app_inv_head in E.
Qed.

(** What the step says, and that it is possible. *)
Definition app_goes (ap : App) (r : res App) : Prop :=
  exists ap', r = Ok ap' /\ app_ok ap' /\ recorded_ok (ap_subs ap) (ap_subs ap') (engine (ap_system ap')).

Lemma goes_stays ap : app_ok ap -> app_goes ap (Ok ap).
Proof. intros Hok. exists ap. split; [done|]. split; [done|apply recorded_nothing]. Qed.

Lemma sub_move_ok n ev ap :
  app_ok ap -> (forall m r, ev <> SuUnsubscribed m r) -> app_goes ap (sub_move n ev ap).
Proof.
  intros Hok Hu. unfold sub_move. destruct (gs_holds _ !! n); [by apply goes_stays|]. destruct (lo_draining _ !! n); [by apply goes_stays|]. destruct Hok as [H1 H2 H3].
  pose proof (sub_step_effect (ap_subs ap) ev) as Heff.
  destruct (issue_ok n ev (ap_subs ap) (sub_step (ap_subs ap) ev) (ap_engine ap)) as (su & lo & -> & He & Ho & Hrec);
    [done|done|etransitivity; [exact H2|apply Heff]|by eapply recorded_step|].
  eexists. split; [reflexivity|]. by split.
Qed.

Lemma detached_entries_elem filters s it : it ∈ detached_entries filters s -> it ∈ si_entries (subscriptions (e_state s)).
Proof.
  unfold detached_entries. assert (forall d, (forall x, x ∈ d -> x ∈ si_entries (subscriptions (e_state s))) ->
    it ∈ fold_left (fun d f => match get (subscriptions (e_state s)) f with Some e => dict_set d f e | None => d end) filters d ->
    it ∈ si_entries (subscriptions (e_state s))) as H; [|apply H; by intros x ?%not_elem_of_nil].
  induction filters as [|f filters IH]; intros d Hd; cbn [fold_left]; [apply Hd|]. apply IH. destruct (get _ f) as [e|] eqn:E; [|done].
  intros x [->|Hx]%dict_set_elem; [by apply dict_get_Some_elem|by apply Hd].
Qed.

Lemma dict_update_elem {K V} `{EqDecision K} (d d' : dict K V) it : it ∈ dict_update d d' -> it ∈ d \/ it ∈ d'.
Proof.
  unfold dict_update. revert d; induction d' as [|[k x] d' IH]; intros d; cbn [fold_left]; [by left|].
  intros [[->|H]%dict_set_elem|H]%IH; [right; by left|by left|right; by right].
Qed.

Lemma take_all_ok q k lo : engine_ok lo -> exists lo', take_all q k lo = Ok lo' /\ engine_ok lo'.
Proof.
  revert lo; induction k as [|k IH]; intros lo Hok; cbn [take_all]; [by exists lo|].
  destruct (engine_step_fine lo (LEngine (EvTake q)) Hok I) as (lo1 & -> & Hok1 & _). by apply IH.
Qed.

Lemma detach_move_ok sub ap : app_ok ap -> app_goes ap (detach_move sub ap).
Proof.
  intros Hok. unfold detach_move. destruct (su_store (ap_subs ap) !! sub) as [s|] eqn:Hs; [|by apply goes_stays].
  destruct (drop _ _) as [|[| |sub' filters] l]; try by apply goes_stays. destruct Hok as [H1 H2 H3].
  assert (exists lo, (if su_protocol (ap_subs ap) then locked_step (ap_engine ap) (LEngine (EvDetach filters)) else Ok (ap_engine ap)) = Ok lo /\ engine_ok lo)
    as (lo & -> & Hlo).
  { destruct (su_protocol _); [|by eexists]. destruct (engine_step_fine _ (LEngine (EvDetach filters)) H1 I) as (lo & E & Hlo & _). by exists lo. }
  cbn [mbind res_bind]. destruct (take_all_ok (sub_queue s) (length (q_items (queue_of (engine (lo_system lo)) (sub_queue s)))) lo Hlo) as (lo' & -> & Hlo').
  pose proof (sub_step_effect (ap_subs ap) (SuDetach sub)) as Heff. eexists. split; [reflexivity|]. split; [split; cbn; [done| |]|].
  - etransitivity; [exact H2|apply Heff].
  - destruct (su_protocol _); [|done]. intros it [Hit|Hit%detached_entries_elem]%dict_update_elem; [by apply H3|].
    by apply (proj2 (rt_index _ _ _ _ _ (eo_routed _ H1))).
  - by eapply recorded_step.
Qed.

Lemma locked_new_ok sys : calls sys = ∅ -> nodup_index (engine sys) -> locked_inv (locked_new sys).
Proof.
  intros Hc Hnd. split; cbn; try (intros *; by rewrite lookup_empty); [apply guards_new_inv|done|..]; intros c t; by rewrite Hc, lookup_empty.
Qed.

(** A new connection. *)
Lemma connect_system_ok packet ack ap :
  app_ok ap -> engine_ok (locked_new (connect_system v prefixes keepalive limit replay_size packet ack ap)).
Proof.
  intros [[H1 H2 H3 H4] _ Hd]. unfold connect_system. set (s := engine (ap_system ap)) in *.
  set (s0 := engine_new v prefixes keepalive limit replay_size (e_dispatcher s) (e_queues s) (e_next_ref s)).
  set (evs := [EvConnect packet; EvConnAck ack; EvRestoreDetached (ap_detached ap); EvBind]).
  assert (reachable (system_new s0)) as Hr by apply reachable_new, (reachable_dispatcher _ H2).
  assert (routed (granted_item all_grants) prefixes (belongs all_grants (fun _ => [])) ∅ s0) as Hro0.
  { split; [done|done|split; [apply index_new_ok|by intros it ?%not_elem_of_nil]|]. split; [apply H3|done|].
    intros pid fl H. cbn in H. by rewrite lookup_empty in H. }
  assert (routed (granted_item all_grants) prefixes (belongs all_grants (fun _ => [])) ∅ (engine (run_events (system_new s0) evs))) as Hro.
  { apply (run_routing _ _ _ _ (granted_holds _ _) (granted_uniform _ _) evs (system_new s0)); [done| | |exact Hro0];
      repeat apply Forall_cons_2; try apply Forall_nil_2; try exact I; cbn; [apply Forall_forall|]; intros it Hit; by apply Hd. }
  split; [apply locked_new_ok; [|apply Hro]|by apply reachable_events|exact Hro|intros n op; cbn; by rewrite lookup_empty].
  assert (calls (run_events (system_new s0) evs) = ∅) as Hc.
  { subst evs. unfold run_events. cbn [fold_left engine_step]. unfold run_unit, with_engine. cbn [calls].
    case_match; [|done]. unfold run_reader. by case_match; case_match. }
  exact Hc.
Qed.

Definition app_event_ok (ev : app_event) : Prop :=
  match ev with ApEngine (LEngine e) => validated e | _ => True end.

(** The events of the engine are not calls of subscriptions. *)
Lemma rest_fine ev : of_subscriptions ev = false -> app_event_ok (ApEngine ev) -> event_fine ev.
Proof.
  destruct ev as [n []| | | |]; try done; intros _ _; (split; [done|by intros g ?%not_elem_of_nil]).
Qed.

Abbreviation step_from ap ev := (app_step v prefixes keepalive limit replay_size ap ev).

Lemma engine_move_ok ev ap : app_ok ap -> app_event_ok (ApEngine ev) -> app_goes ap (step_from ap (ApEngine ev)).
Proof.
  intros Hok Hev. cbn [app_step]. destruct (of_subscriptions ev || _) eqn:Eb; [by apply goes_stays|].
  apply orb_false_iff in Eb as [Eb _]. destruct Hok as [H1 H2 H3].
  destruct (engine_step_fine _ ev H1 (rest_fine ev Eb Hev)) as (lo & Hs & Hlo & Hrep). rewrite Hs. cbn [mbind res_bind].
  destruct (call_ended _ _ lo) as [n|].
  - set (r := call_outcome n (ap_engine ap) lo). destruct (answer_effect n r (ap_subs ap)) as (e & Heff & _).
    destruct (issue_ok n e (ap_subs ap) (answer n r (ap_subs ap)) lo) as (su & lo' & -> & He & Ho & Hrec);
      [done|done|etransitivity; [exact H2|apply Heff]| |].
    + apply answer_recorded. intros x Hx. by eapply outcome_said.
    + eexists. split; [reflexivity|]. by split.
  - eexists. split; [reflexivity|]. split; [by split|apply recorded_nothing].
Qed.

Lemma app_step_ok ap ev : app_ok ap -> app_event_ok ev -> app_goes ap (step_from ap ev).
Proof.
  intros Hok Hev. destruct ev as [n sub|n sub cancelled|sub|packet ack| |n| |ev]; cbn [app_step].
  - by apply sub_move_ok.
  - by apply sub_move_ok.
  - by apply detach_move_ok.
  - destruct (_ || _); [by apply goes_stays|]. pose proof (connect_system_ok packet ack ap Hok) as He.
    pose proof (sub_step_effect (ap_subs ap) SuConnected) as Heff. eexists. split; [reflexivity|]. destruct Hok as [H1 H2 H3].
    destruct (su_protocol _); (split; [split; cbn; [done| |done]|]); cbn; [done|apply recorded_nothing| |by eapply recorded_step].
    etransitivity; [exact H2|apply Heff].
  - pose proof (sub_step_effect (ap_subs ap) SuLost) as Heff. destruct Hok as [H1 H2 H3]. eexists. split; [reflexivity|].
    split; [split; [done|etransitivity; [exact H2|apply Heff]|done]|by eapply recorded_step].
  - by apply sub_move_ok.
  - destruct Hok as [H1 H2 H3]. pose proof (sub_step_effect (ap_subs ap) SuDisconnect) as Heff.
    assert (exists lo, (if su_protocol (ap_subs ap) then locked_step (ap_engine ap) (LEngine EvDisconnect) else Ok (ap_engine ap)) = Ok lo /\ engine_ok lo)
      as (lo & -> & Hlo).
    { destruct (su_protocol _); [|by eexists]. destruct (engine_step_fine _ (LEngine EvDisconnect) H1 I) as (lo & E & Hlo & _). by exists lo. }
    eexists. split; [reflexivity|]. split; [split; [done|etransitivity; [exact H2|apply Heff]|by intros it ?%not_elem_of_nil]|by eapply recorded_step].
  - by apply engine_move_ok.
Qed.

Lemma app_steps_ok evs ap :
  app_ok ap -> Forall app_event_ok evs -> exists ap', app_steps v prefixes keepalive limit replay_size ap evs = Ok ap' /\ app_ok ap'.
Proof.
  revert ap; induction evs as [|ev evs IH]; intros ap Hok Hev; cbn [app_steps]; [by exists ap|]. apply Forall_cons in Hev as [H1 H2].
  destruct (app_step_ok ap ev Hok H1) as (ap' & -> & Hok' & _). by apply IH.
Qed.

Lemma app_new_ok d queues next :
  dispatcher_below d next -> (forall q, q_items (default (mkQueue 0 []) (queues !! q)) = []) ->
  app_ok (app_new v prefixes keepalive limit replay_size store d queues next).
Proof.
  intros Hd Hq. split; [|reflexivity|by intros it ?%not_elem_of_nil].
  split; [by apply locked_new_ok; [|constructor]|by apply reachable_new| |intros n op; cbn; by rewrite lookup_empty].
  split; [done|done|split; [apply index_new_ok|by intros it ?%not_elem_of_nil]|]. split; [|done|].
  - intros q m Hm. specialize (Hq q). unfold queue_of in Hm. cbn in Hm. destruct (queues !! q); cbn in Hq; [rewrite Hq in Hm|]; by apply not_elem_of_nil in Hm.
  - intros pid fl H. cbn in H. by rewrite lookup_empty in H.
Qed.

(** The filter that topics are matched with. *)
Definition effective_filter (f : pystr) : pystr := match _shared_filter_to_actual f prefixes with [] => f | actual => actual end.

(** The message matches a filter of the subscription, or carries its identifier. *)
Definition wanted (s : Subscription) (m : Message) : Prop :=
  (exists f, f ∈ sub_filters s /\ _topic_matches (effective_filter f) (msg_topic m) = true) \/
  is_Some (msg_identifier m) /\ sub_subscription_identifier s = msg_identifier m.

Lemma belongs_wanted q m :
  belongs all_grants (fun _ => []) q m -> exists sub s, store !! sub = Some s /\ sub_queue s = q /\ wanted s m.
Proof.
  intros [H|(g & Hg & Hq & Hp)]; [by apply not_elem_of_nil in H|]. apply elem_of_all_grants in Hg as (sub & s & Hs & Hg).
  unfold sub_grants in Hg. cbn [granted] in Hg. apply list_elem_of_fmap in Hg as (r & -> & Hr).
  apply list_elem_of_fmap in Hr as (f & -> & Hf). exists sub, s. split; [done|]. split; [done|]. destruct Hp as [Hp|[H1 H2]]; [left|by right].
  exists f. split; [done|]. exact Hp.
Qed.
End invariant.

(** [MQTTClient.subscribe] has checked the filters. *)
Lemma subscribe_checked v filters qos auto q nl rap rh i s :
  client_subscribe v filters qos auto q nl rap rh i = Ok s -> Forall (fun f => validate_subscribe_topic f = Ok tt) (sub_filters s).
Proof.
  unfold client_subscribe. intros (u & Hv & H)%bind_Ok. apply bind_Ok in H as (u2 & _ & H). apply bind_Ok in H as (u3 & _ & [= <-]). cbn.
  clear -Hv. induction filters as [|f filters IH]; [constructor|]. cbn in Hv. apply bind_Ok in Hv as ([] & Hf & Hv). constructor; auto.
Qed.

(** C17: an application's subscriptions, over any number of connections.  Its subscriptions are made by
    [MQTTClient.subscribe]; whatever it starts, stops and detaches, and however packets, cancellations, losses of the
    connection, reconnections and restorations interleave: every step can be made, so locks are always released; a
    message in a queue, and the message with which the read loop waits for room in one, matches a filter of a
    subscription with this queue or carries its identifier; and when [stop] returns the broker's answer, none of
    the filters in it is registered or observed any more. *)
Theorem application_subscriptions v prefixes keepalive limit size store d queues next evs :
  (forall sub s, store !! sub = Some s -> exists filters qos auto q nl rap rh i, client_subscribe v filters qos auto q nl rap rh i = Ok s) ->
  dispatcher_below d next -> (forall q, q_items (default (mkQueue 0 []) (queues !! q)) = []) -> Forall app_event_ok evs ->
  let requested q m := exists sub s, store !! sub = Some s /\ sub_queue s = q /\ wanted prefixes s m in
  exists ap, app_steps v prefixes keepalive limit size (app_new v prefixes keepalive limit size store d queues next) evs = Ok ap /\
    (forall q m, m ∈ q_items (queue_of (engine (ap_system ap)) q) -> requested q m) /\
    (forall r k f e, e_putting (engine (ap_system ap)) = Some (r, k) -> ir_subscription r = Some (f, e) ->
       requested (se_queue e) (ir_message r)) /\
    (forall ev, app_event_ok ev -> exists ap', app_step v prefixes keepalive limit size ap ev = Ok ap' /\
       recorded_ok (ap_subs ap) (ap_subs ap') (engine (ap_system ap'))).
Proof.
  intros Hmade Hd Hq Hevs requested.
  assert (forall sub s, store !! sub = Some s -> Forall (fun f => validate_subscribe_topic f = Ok tt) (sub_filters s)) as Hstore.
  { intros sub s Hs. destruct (Hmade sub s Hs) as (filters & qos & auto & q & nl & rap & rh & i & Hc). by eapply subscribe_checked. }
  destruct (app_steps_ok v prefixes keepalive limit size store Hstore evs _ (app_new_ok v prefixes keepalive limit size store d queues next Hd Hq) Hevs)
    as (ap & Hs & Hok). destruct (eo_routed _ _ _ (ao_engine _ _ _ Hok)) as [_ _ _ [R1 R2 _]]. exists ap. split; [done|]. split_and!.
  - intros q m Hm. by apply (belongs_wanted prefixes store), R1.
  - intros r k f e Hp He. apply (belongs_wanted prefixes store). destruct (R2 r k Hp f e He) as [H|H]; [by apply not_elem_of_empty in H|exact H].
  - intros ev Hev. destruct (app_step_ok v prefixes keepalive limit size store Hstore ap ev Hok Hev) as (ap' & Hs' & _ & Hrec). by exists ap'.
Qed.

(** A subscription over two connections: a message on each, the restoration between them, and [stop]. *)
Definition application_events : list app_event :=
  let connected := ApConnected (mkConnect (py "c") true 60 None None None None) (PConnAck (mkConnAck false 0 None)) in
  let received p := ApEngine (LEngine (EvReceive p)) in
  let pub topic := received (PPublish (mkPublish topic [] AT_MOST_ONCE false false None None)) in
  [connected; sub_start 0 0; received (PSubAck (mkSubAck 1 [0] None)); ApEngine (LEngine (EvResume 0)); ApEngine (LDrained 0 false); pub (py "a/b");
   ApEngine (LEngine EvRunEnds); ApLost; connected; ApRestore 1; received (PSubAck (mkSubAck 1 [0] None)); ApEngine (LEngine (EvResume 0)); ApEngine (LDrained 1 false);
   pub (py "a/c"); pub (py "b"); sub_stop 2 0; received (PUnsubAck (mkUnsubAck 1 [0] None))].

Lemma application_subscriptions_witness :
  let store : gmap nat Subscription := {[ 0%nat := mkSub [py "a/#"] AT_MOST_ONCE true 0 false false SEND_ON_SUBSCRIBE None [] false ]} in
  exists ap, app_steps V50 [] 60 None 1000 (app_new V50 [] 60 None 1000 store None ∅ 8) application_events = Ok ap /\
    map msg_topic (q_items (queue_of (engine (ap_system ap)) 0)) = [py "a/b"; py "a/c"] /\
    (exists ap', app_step V50 [] 60 None 1000 ap (ApEngine (LEngine (EvResume 1))) = Ok ap' /\
       length (su_stops (ap_subs ap')) = 1%nat /\ recorded_ok (ap_subs ap) (ap_subs ap') (engine (ap_system ap'))).
Proof.
  intros store.
  destruct (application_subscriptions V50 [] 60 None 1000 store None ∅ 8 application_events) as (ap & Hs & _ & _ & Hstep).
  - intros sub s [<- <-]%lookup_singleton_Some. exists [py "a/#"], AT_MOST_ONCE, true, 0%nat, false, false, SEND_ON_SUBSCRIBE, None. vm_compute. reflexivity.
  - apply dispatcher_below_none.
  - intros q. reflexivity.
  - unfold application_events. repeat apply Forall_cons_2; try apply Forall_nil_2; vm_compute; auto.
  - exists ap. split; [exact Hs|]. destruct (Hstep (ApEngine (LEngine (EvResume 1))) I) as (ap' & Hs' & Hr).
    assert (Ok ap = app_steps V50 [] 60 None 1000 (app_new V50 [] 60 None 1000 store None ∅ 8) application_events) as E by (symmetry; exact Hs).
    vm_compute in E. injection E as ->. split; [vm_compute; reflexivity|]. exists ap'. split; [exact Hs'|]. split; [|exact Hr].
    vm_compute in Hs'. injection Hs' as <-. reflexivity.
Defined.

(** What a subscription notes as registered need not be registered.  The restoration after a reconnect has left its locks and
    drains; [stop] unsubscribes the filters of the connection before and returns the broker's answer; then the restoration goes
    on, and notes the filters that are not registered any more. *)
Definition late_events : list app_event :=
  let connected := ApConnected (mkConnect (py "c") true 60 None None None None) (PConnAck (mkConnAck false 0 None)) in
  let received p := ApEngine (LEngine (EvReceive p)) in
  [connected; sub_start 0 0; received (PSubAck (mkSubAck 1 [0] None)); ApEngine (LEngine (EvResume 0)); ApEngine (LDrained 0 false);
   ApEngine (LEngine EvRunEnds); ApLost; connected; ApRestore 1; received (PSubAck (mkSubAck 1 [0] None)); ApEngine (LEngine (EvResume 0));
   sub_stop 2 0; received (PUnsubAck (mkUnsubAck 1 [0] None)); ApEngine (LEngine (EvResume 1)); ApEngine (LDrained 1 false)].

Theorem start_notes_late :
  let store : gmap nat Subscription := {[ 0%nat := mkSub [py "a/#"] AT_MOST_ONCE true 0 false false SEND_ON_SUBSCRIBE None [] false ]} in
  exists ap, app_steps V50 [] 60 None 1000 (app_new V50 [] 60 None 1000 store None ∅ 8) late_events = Ok ap /\
    (sub_registered_filters <$> su_store (ap_subs ap) !! 0%nat) = Some [py "a/#"] /\
    su_stops (ap_subs ap) = [Ok (Some (from_unsuback [py "a/#"] (mkUnsubAck 1 [0] None)))] /\
    registered_in (engine (ap_system ap)) (py "a/#") = false.
Proof. eexists. split; [vm_compute; reflexivity|]. vm_compute. split_and!; reflexivity. Qed.
