(* ===== verification/Detached.v ===== *)
(** * Detached subscriptions ([Subscription.detach] in [client.py], [MQTTProtocol.detach] in [_internal/protocol.py])

    [detach] marks the entries of the subscription in the index and empties its queue; a new connection gets the marked
    entries again.  Theorem: from then on nothing enters the queue, over any number of connections and whatever
    the application does, provided that, when [detach] is called, each entry through which a message can still come
    to the queue is one of those it marks.

    Two executions show that this is needed: a subscription that is detached while its [start] waits, and one that was
    stopped and started again during the exchange of a QoS 2 message.  A third shows a restoration that waits for a lock when
    its subscription is detached, and subscribes afterwards. *)

From S2P Require Import Prelude Properties Packets Codec Topic SubscriptionIndex Guards State Engine Inbound Protocol Calls Failures Receiving Locking Delivery Routing Options Life Subscriptions Application.

(** ** The queue of a detached subscription *)

(** The entries of queue [q] are detached. *)
Definition hushed_item (q : nat) (dead : gset nat) (it : item) : Prop := se_queue it.2 = q -> se_ref it.2 ∈ dead.

Definition other_queue (q q' : nat) (_ : Message) : Prop := q' <> q.

Lemma hushed_holds q dead it m :
  hushed_item q dead it -> permits (msg_topic m) (msg_identifier m) (item_grant it) -> se_ref it.2 ∈ dead \/ other_queue q (se_queue it.2) m.
Proof. intros H _. destruct (decide (se_queue it.2 = q)) as [E|E]; [left; by apply H|by right]. Qed.

Lemma hushed_uniform q (dead : gset nat) ref q' m m' : ref ∈ dead -> other_queue q q' m -> other_queue q q' m'.
Proof. done. Qed.

(** Nothing is in the queue [q], and nothing can enter it. *)
Definition silent (prefixes : list pystr) (q : nat) (dead : gset nat) (s : Engine) : Prop :=
  routed (hushed_item q dead) prefixes (other_queue q) dead s.

Lemma silent_empty prefixes q dead s : silent prefixes q dead s -> q_items (queue_of s q) = [].
Proof. intros [_ _ _ [H _ _]]. specialize (H q). destruct (q_items _) as [|m l]; [done|]. by destruct (H m (list_elem_of_here _ _)). Qed.

Lemma silent_step prefixes q dead sys ev :
  receiving_ok (engine sys) -> validated ev -> admitted (hushed_item q dead) prefixes ev -> silent prefixes q dead (engine sys) ->
  silent prefixes q dead (engine (engine_step sys ev)).
Proof. apply (step_routing _ _ _ _ (hushed_holds q dead) (hushed_uniform q dead)). Qed.

(** More entries are detached. *)
Lemma silent_more prefixes q (dead dead' : gset nat) s :
  dead ⊆ dead' -> dead' ⊆ e_detached s -> silent prefixes q dead s -> silent prefixes q dead' s.
Proof.
  intros Hsub Hd [R1 R2 [R3 R4] [Q1 Q2 Q3]].
  assert (forall r, addressed (other_queue q) dead r -> addressed (other_queue q) dead' r) as Ha.
  { intros r Hr f e He. destruct (Hr f e He) as [H|H]; [left; by apply Hsub|by right]. }
  split; [done|done| |].
  - split; [done|]. intros it Hit. destruct (R4 it Hit) as [H1 H2]. split; [done|]. intros Hq. by apply Hsub, H2.
  - split; [done| |]; eauto.
Qed.

Lemma silent_restore prefixes q dead l s :
  Forall valid_item l -> silent prefixes q dead s ->
  silent prefixes q (list_to_set (map (fun fe => se_ref fe.2) l) ∪ dead) (restore_detached l s).2.
Proof.
  intros Hv [R1 R2 R3 [Q1 Q2 Q3]]. set (refs := list_to_set (map (fun fe : item => se_ref fe.2) l)).
  assert (forall r, addressed (other_queue q) dead r -> addressed (other_queue q) (refs ∪ dead) r) as Ha.
  { intros r Hr f e He. destruct (Hr f e He) as [H|H]; [left; set_solver|by right]. }
  split; [done|cbn; set_solver| |].
  - cbn. apply index_good_add_many.
    + intros it Hit. split; [by eapply Forall_forall in Hv|]. intros _. apply elem_of_union_l, elem_of_list_to_set, list_elem_of_fmap. by exists it.
    + destruct R3 as [R3 R4]. split; [done|]. intros it Hit. destruct (R4 it Hit) as [H1 H2]. split; [done|]. intros Hq. set_solver.
  - split; [done| |]; cbn; eauto.
Qed.

(** ** What can still come to a queue *)

(** An entry through which a message may enter a queue. *)
Definition may_deliver (s : Engine) (e : SubscriptionEntry) : Prop :=
  (exists f, (f, e) ∈ si_entries (subscriptions (e_state s))) \/
  (exists r k f, e_putting s = Some (r, k) /\ ir_subscription r = Some (f, e)) \/
  (exists pid fl f, inflight_qos2_in (e_state s) !! pid = Some fl /\ i2_delivered fl = false /\ ir_subscription (i2_recipient fl) = Some (f, e)).

(** A call that does not subscribe queue [q]. *)
Definition op_quiet (q : nat) (op : sub_op) : Prop := match op with OSubscribe _ q' _ _ => q' <> q | _ => True end.

(** No call that subscribes [q] waits for its locks, and each entry of [q] is that of one of the [filters]. *)
Record detach_settled (q : nat) (filters : list pystr) (lo : Locked) : Prop := {
  sd_waiting : forall n op, lo_waiting lo !! n = Some op -> op_quiet q op;
  sd_entries : forall e, may_deliver (engine (lo_system lo)) e -> se_queue e = q ->
    exists f e', f ∈ filters /\ get (subscriptions (e_state (engine (lo_system lo)))) f = Some e' /\ se_ref e' = se_ref e
}.

(** The same, executable. *)
Definition recipient_entries (r : InboundRecipient) : list SubscriptionEntry :=
  match ir_subscription r with Some (_, e) => [e] | None => [] end.
Definition delivering_entries (s : Engine) : list SubscriptionEntry :=
  map snd (si_entries (subscriptions (e_state s))) ++
  match e_putting s with Some (r, _) => recipient_entries r | None => [] end ++
  flat_map (fun fl => recipient_entries (i2_recipient fl.2)) (map_to_list (inflight_qos2_in (e_state s))).

Definition op_quiet_b (q : nat) (op : sub_op) : bool := match op with OSubscribe _ q' _ _ => negb (Nat.eqb q' q) | _ => true end.

Definition settled_b (q : nat) (filters : list pystr) (lo : Locked) : bool :=
  let s := engine (lo_system lo) in
  let marked e := existsb (fun f => match get (subscriptions (e_state s)) f with Some e' => Nat.eqb (se_ref e') (se_ref e) | None => false end) filters in
  forallb (fun c => op_quiet_b q c.2) (map_to_list (lo_waiting lo)) &&
  forallb (fun e => negb (Nat.eqb (se_queue e) q) || marked e) (delivering_entries s).

Lemma recipient_entry r f e : ir_subscription r = Some (f, e) -> In e (recipient_entries r).
Proof. intros H. unfold recipient_entries. rewrite H. by left. Qed.

Lemma delivering_entries_all s e : may_deliver s e -> In e (delivering_entries s).
Proof.
  unfold delivering_entries. rewrite !in_app_iff. intros [(f & H)|[(r & k & f & Hp & Hr)|(pid & fl & f & Hl & _ & Hr)]].
  - left. apply in_map_iff. exists (f, e). split; [done|]. by apply list_elem_of_In.
  - right. left. rewrite Hp. by eapply recipient_entry.
  - right. right. apply in_flat_map. exists (pid, fl). split; [by apply list_elem_of_In, elem_of_map_to_list|]. by eapply recipient_entry.
Qed.

Lemma settled_check q filters lo : settled_b q filters lo = true -> detach_settled q filters lo.
Proof.
  unfold settled_b. intros [H1 H2]%andb_true_iff. rewrite forallb_forall in H1. rewrite forallb_forall in H2. split.
  - intros n op Hn. specialize (H1 (n, op) ltac:(by apply list_elem_of_In, elem_of_map_to_list)). destruct op; try done. cbn in H1.
    intros ->. by rewrite Nat.eqb_refl in H1.
  - intros e He Hq. specialize (H2 e (delivering_entries_all _ _ He)). rewrite Hq, Nat.eqb_refl in H2. cbn in H2.
    apply existsb_exists in H2 as (f & Hf & H). destruct (get _ f) as [e'|] eqn:Eg; [|done]. exists f, e'.
    split; [by apply list_elem_of_In|]. split; [done|]. by apply Nat.eqb_eq.
Qed.

Lemma detach_marks filters s f e :
  f ∈ filters -> get (subscriptions (e_state s)) f = Some e -> se_ref e ∈ e_detached (detach filters s).2.
Proof.
  unfold detach, mbind, M_bind. cbn. generalize (e_detached s) as d. set (idx := subscriptions (e_state s)).
  assert (forall l (d : gset nat) x, x ∈ d ->
    x ∈ fold_left (fun d f => match get idx f with Some e => {[ se_ref e ]} ∪ d | None => d end) l d) as Hmono.
  { intros l; induction l as [|g l IH]; intros d x Hx; cbn [fold_left]; [done|]. apply IH. case_match; set_solver. }
  induction filters as [|g filters IH]; intros d Hf Hg; [by apply not_elem_of_nil in Hf|]. cbn [fold_left].
  apply elem_of_cons in Hf as [<-|Hf]; [|by apply IH]. rewrite Hg. apply Hmono. set_solver.
Qed.

(** [_detach_local] takes all messages of the queue, and nothing else changes. *)
Lemma take_all_engine q k lo lo' :
  take_all q k lo = Ok lo' ->
  (exists x, engine (lo_system lo') = set_e_queues x (engine (lo_system lo))) /\
  q_items (queue_of (engine (lo_system lo')) q) = drop k (q_items (queue_of (engine (lo_system lo)) q)) /\ lo_waiting lo' = lo_waiting lo.
Proof.
  revert lo; induction k as [|k IH]; intros lo; cbn [take_all]; [intros [= <-]; split; [|by split]; exists (e_queues (engine (lo_system lo))); by destruct (engine (lo_system lo))|].
  cbn [locked_step is_managed]. destruct (leave_ended _ _ _) as [lo1|] eqn:E; [|done]. cbn [mbind res_bind]. intros (H1 & H2 & H3)%IH.
  apply leave_ended_same in E as [E1 E2]. cbn in E1, E2. rewrite E1 in H1, H2. cbn in H1, H2. split; [|split; [|congruence]].
  - destruct H1 as [x ->]. by eexists.
  - rewrite H2. unfold queue_of at 1. cbn. rewrite lookup_insert_eq. cbn.
    destruct (q_items (queue_of (engine (lo_system lo)) q)); cbn [tail drop]; [by destruct k|done].
Qed.

(** ** The application *)

Section hush.
Context (v : version) (prefixes : list pystr) (keepalive : Z) (limit : option Z) (replay_size : Z).
Context (store : gmap nat Subscription).
Context (Hstore : forall sub s, store !! sub = Some s -> Forall (fun f => validate_subscribe_topic f = Ok tt) (sub_filters s)).
Context (Hqueues : forall sub s sub' s', store !! sub = Some s -> store !! sub' = Some s' -> sub_queue s = sub_queue s' -> sub = sub').
Context (sub : nat) (s0 : Subscription) (Hsub : store !! sub = Some s0).

(** Subscription [sub] is detached. *)
Definition is_detached_sub (su : Subs) : Prop := exists s, su_store su !! sub = Some s /\ sub_detached s = true.

Record hushed_engine (lo : Locked) : Prop := {
  he_silent : exists dead, silent prefixes (sub_queue s0) dead (engine (lo_system lo));
  he_waiting : forall n op, lo_waiting lo !! n = Some op -> op_quiet (sub_queue s0) op
}.

Definition event_quiet (ev : locked_event) : Prop := match ev with LCall _ op => op_quiet (sub_queue s0) op | _ => True end.

Lemma quiet_admitted dead op : op_quiet (sub_queue s0) op -> admitted (hushed_item (sub_queue s0) dead) prefixes (op_event op).
Proof. destruct op; try done. intros Hq r ref _ f H. exfalso. exact (Hq H). Qed.

Lemma unmanaged_admitted dead e : is_managed e = false -> admitted (hushed_item (sub_queue s0) dead) prefixes e.
Proof. by destruct e. Qed.

Lemma hushed_step lo ev lo' :
  engine_ok prefixes store lo -> event_fine prefixes store ev -> event_quiet ev -> hushed_engine lo -> locked_step lo ev = Ok lo' -> hushed_engine lo'.
Proof.
  intros Hok Hev Hq [[dead Hs] Hw] Hstep. destruct (locked_moves _ _ _ Hstep) as [Hm Hw']. split.
  - exists dead. pose proof (reachable_receiving _ (eo_reachable _ _ _ Hok)) as Hr. destruct Hm as [->|[(e & He & Hm & ->)|(n & op & Hn & ->)]]; [done|..].
    + apply silent_step; [done|by destruct He as [-> | ->]|by apply unmanaged_admitted|done].
    + assert (op_fine prefixes store op /\ op_quiet (sub_queue s0) op) as [[Hv _] Hq'].
      { destruct Hn as [Hn| ->]; [|done]. split; [by eapply eo_waiting|by eapply Hw]. }
      by apply silent_step; [| |apply quiet_admitted|].
  - intros n op [H|[m ->]]%Hw'; [by eapply Hw|exact Hq].
Qed.

(** What is asked for is not asked for [sub]. *)
Lemma asked_quiet ev su su' op :
  sub_effect ev su su' -> same_options store (su_store su') -> is_detached_sub su -> asked su su' = Some op -> op_quiet (sub_queue s0) op.
Proof.
  intros [_ H2 _ H4 _] Ho (s & Hs & Hd). destruct (H4 _ _ Hs Hd) as (s' & Hs' & Hd'). unfold asked.
  destruct H2 as [->|(l & -> & Hl)]; [by rewrite drop_all|]. rewrite drop_app_length. destruct l as [sub' requests|sub' fs|sub' fs]; [|by intros [= <-]|done].
  destruct Hl as ((t & Ht & Hdt & ->) & _). rewrite Ht. intros [= <-] Hq. destruct (Ho _ _ Ht) as (t0 & Ht0 & [= E1 E2 E3 E4 E5 E6 E7 E8]).
  assert (sub' = sub) as -> by (eapply (Hqueues _ t0 _ s0); [done|done|congruence]). congruence.
Qed.

Lemma detached_effect ev su su' : sub_effect ev su su' -> is_detached_sub su -> is_detached_sub su'.
Proof. intros H (s & Hs & Hd). by apply (se_detached _ _ _ H sub s). Qed.

Lemma issue_hushed n ev su su' lo su'' lo' :
  engine_ok prefixes store lo -> hushed_engine lo -> sub_effect ev su su' -> same_options store (su_store su') -> is_detached_sub su ->
  issue n su su' lo = Ok (su'', lo') -> hushed_engine lo' /\ is_detached_sub su''.
Proof.
  intros He Hh Heff Ho Hd. unfold issue. pose proof (detached_effect _ _ _ Heff Hd) as Hd'. destruct (asked su su') as [op|] eqn:Ea; [|by intros [= <- <-]].
  destruct (locked_step lo (LCall n op)) as [lo1|] eqn:Hs; [|done]. cbn [mbind res_bind]. intros [= <- <-]. split.
  - eapply hushed_step; [done| | |done|exact Hs]; [by eapply asked_fine|by eapply asked_quiet].
  - destruct (under_way n lo1); [done|]. destruct (answer_effect n (call_outcome n lo lo1) su') as (ev' & Heff' & _). by eapply detached_effect.
Qed.

Lemma hushed_event lo e lo' :
  engine_ok prefixes store lo -> validated e -> hushed_engine lo -> is_managed e = false -> locked_step lo (LEngine e) = Ok lo' ->
  hushed_engine lo' /\ engine_ok prefixes store lo'.
Proof.
  intros Hok Hev Hh Hm Hs. split; [by apply (hushed_step lo (LEngine e))|].
  destruct (engine_step_fine prefixes store lo (LEngine e) Hok Hev) as (lo1 & E & H & _). rewrite Hs in E. by injection E as ->.
Qed.

Lemma take_all_hushed q k lo lo' : engine_ok prefixes store lo -> hushed_engine lo -> take_all q k lo = Ok lo' -> hushed_engine lo'.
Proof.
  revert lo; induction k as [|k IH]; intros lo Hok Hh; cbn [take_all]; [by intros [= <-]|].
  destruct (locked_step lo (LEngine (EvTake q))) as [lo1|] eqn:Hs; [|done]. cbn [mbind res_bind].
  destruct (hushed_event lo (EvTake q) lo1 Hok I Hh eq_refl Hs) as [Hh1 Hok1]. by apply IH.
Qed.

Record hushed (ap : App) : Prop := {
  hu_engine : hushed_engine (ap_engine ap);
  hu_sub : is_detached_sub (ap_subs ap)
}.

Lemma sub_move_hushed n ev ap ap' : app_ok prefixes store ap -> hushed ap -> sub_move n ev ap = Ok ap' -> hushed ap'.
Proof.
  intros [H1 H2 H3] [Hh Hd]. unfold sub_move. destruct (gs_holds _ !! n); [by intros [= <-]|]. destruct (lo_draining _ !! n); [by intros [= <-]|].
  destruct (issue _ _ _ _) as [[su lo]|] eqn:Hi; [|done]. cbn [mbind res_bind]. intros [= <-]. pose proof (sub_step_effect (ap_subs ap) ev) as Heff.
  apply (issue_hushed n ev) in Hi as [Hh' Hd']; try done; try by split. etransitivity; [exact H2|apply Heff].
Qed.

(** A step of the engine, if there is a connection. *)
Lemma connected_event_hushed (connected : bool) lo e lo' :
  engine_ok prefixes store lo -> validated e -> hushed_engine lo -> is_managed e = false ->
  (if connected then locked_step lo (LEngine e) else Ok lo) = Ok lo' -> hushed_engine lo' /\ engine_ok prefixes store lo'.
Proof. intros Hok Hev Hh Hm. destruct connected; [by apply hushed_event|by intros [= <-]]. Qed.

Lemma detach_move_hushed sub' ap ap' : app_ok prefixes store ap -> hushed ap -> detach_move sub' ap = Ok ap' -> hushed ap'.
Proof.
  intros [H1 H2 H3] [Hh Hd]. unfold detach_move. destruct (su_store (ap_subs ap) !! sub') as [s|]; [|by intros [= <-]].
  destruct (drop _ _) as [|[| |sub2 filters] l]; try by intros [= <-]. cbn [mbind res_bind].
  destruct (if su_protocol (ap_subs ap) then locked_step _ _ else _) as [lo|] eqn:E; [|done]. cbn [mbind res_bind].
  destruct (connected_event_hushed _ _ (EvDetach filters) lo H1 I Hh eq_refl E) as [Hh1 Hok1].
  destruct (take_all _ _ lo) as [lo'|] eqn:Ht; [|done]. intros [= <-]. split; [by eapply take_all_hushed|].
  eapply detached_effect; [apply (sub_step_effect (ap_subs ap) (SuDetach sub'))|done].
Qed.

(** A new connection: the entries that [detach] has kept are the only ones. *)
Lemma connect_hushed packet ack ap :
  app_ok prefixes store ap -> hushed ap -> hushed_engine (locked_new (connect_system v prefixes keepalive limit replay_size packet ack ap)).
Proof.
  intros [[_ H2 H3 _] _ Hd] [[[dead Hs] _] _]. split; [|intros n op; cbn; by rewrite lookup_empty]. set (s := engine (ap_system ap)) in *.
  set (start := system_new (engine_new v prefixes keepalive limit replay_size (e_dispatcher s) (e_queues s) (e_next_ref s))).
  assert (silent prefixes (sub_queue s0) ∅ (engine start)) as H0.
  { split; [done|done|split; [apply index_new_ok|by intros it ?%not_elem_of_nil]|]. split; [apply Hs|done|].
    intros pid fl H. cbn in H. by rewrite lookup_empty in H. }
  assert (reachable start) as Hr by apply reachable_new, (reachable_dispatcher _ H2).
  set (sys := run_events start [EvConnect packet; EvConnAck ack]).
  assert (silent prefixes (sub_queue s0) ∅ (engine sys)) as H1.
  { apply (run_routing _ _ _ _ (hushed_holds (sub_queue s0) ∅) (hushed_uniform (sub_queue s0) ∅) [EvConnect packet; EvConnAck ack] start);
      [done|by repeat constructor|by repeat constructor|exact H0]. }
  apply (silent_restore _ _ _ (ap_detached ap)) in H1; [|apply Forall_forall; intros it Hit; by apply Hd].
  exists (list_to_set (map (fun fe => se_ref fe.2) (ap_detached ap)) ∪ ∅). unfold connect_system. cbn [lo_system locked_new].
  change (run_events _ _) with (engine_step (engine_step sys (EvRestoreDetached (ap_detached ap))) EvBind).
  apply silent_step; [|done|done|exact H1]. apply reachable_receiving, reachable_step. by apply reachable_events.
Qed.

Abbreviation step_of ap ev := (app_step v prefixes keepalive limit replay_size ap ev).

Lemma engine_move_hushed ev ap ap' :
  app_ok prefixes store ap -> app_event_ok (ApEngine ev) -> hushed ap -> step_of ap (ApEngine ev) = Ok ap' -> hushed ap'.
Proof.
  intros [H1 H2 H3] Hev [Hh Hd]. cbn [app_step]. destruct (of_subscriptions ev || _) eqn:Eb; [by intros [= <-]|].
  apply orb_false_iff in Eb as [Eb _]. pose proof (rest_fine prefixes store ev Eb Hev) as Hfine.
  destruct (engine_step_fine prefixes store _ ev H1 Hfine) as (lo & Hs & Hlo & _). rewrite Hs. cbn [mbind res_bind].
  assert (hushed_engine lo) as Hh1.
  { apply (hushed_step (ap_engine ap) ev); try done. by destruct ev as [n []| | | |]. }
  destruct (call_ended _ _ lo) as [n|]; [|by intros [= <-]]. destruct (answer_effect n (call_outcome n (ap_engine ap) lo) (ap_subs ap)) as (e & Heff & _).
  destruct (issue _ _ _ _) as [[su lo']|] eqn:Hi; [|done]. cbn. intros [= <-].
  apply (issue_hushed n e) in Hi as [Hh' Hd']; try done; try by split. etransitivity; [exact H2|apply Heff].
Qed.

Lemma app_step_hushed ap ev ap' : app_ok prefixes store ap -> app_event_ok ev -> hushed ap -> step_of ap ev = Ok ap' -> hushed ap'.
Proof.
  intros Hok Hev Hh. assert (forall e, is_detached_sub (sub_step (ap_subs ap) e)) as Hsub_step.
  { intros e. eapply detached_effect; [apply sub_step_effect|apply Hh]. }
  destruct ev as [n sub'|n sub' cancelled|sub'|packet ack| |n| |ev]; cbn [app_step].
  - by apply sub_move_hushed.
  - by apply sub_move_hushed.
  - by apply detach_move_hushed.
  - destruct (_ || _); [by intros [= <-]|]. intros [= <-]. split; [by apply connect_hushed|]. cbn. destruct (su_protocol _); [apply Hh|apply (Hsub_step SuConnected)].
  - intros [= <-]. split; [apply Hh|apply (Hsub_step SuLost)].
  - by apply sub_move_hushed.
  - destruct (if su_protocol (ap_subs ap) then locked_step _ _ else _) as [lo|] eqn:E; [|done]. intros [= <-]. split; [|apply (Hsub_step SuDisconnect)].
    by destruct (connected_event_hushed _ _ EvDisconnect lo (ao_engine _ _ _ Hok) I (hu_engine _ Hh) eq_refl E).
  - by apply engine_move_hushed.
Qed.

Lemma app_steps_hushed evs ap ap' :
  app_ok prefixes store ap -> Forall app_event_ok evs -> hushed ap -> app_steps v prefixes keepalive limit replay_size ap evs = Ok ap' -> hushed ap'.
Proof.
  revert ap; induction evs as [|ev evs IH]; intros ap Hok Hev Hh; cbn [app_steps]; [by intros [= <-]|]. apply Forall_cons in Hev as [H1 H2].
  destruct (app_step_ok v prefixes keepalive limit replay_size store Hstore ap ev Hok H1) as (ap1 & Hs & Hok1 & _). rewrite Hs. cbn.
  apply IH; [done..|]. by apply (app_step_hushed ap ev).
Qed.

(** [detach] hushes a subscription that has settled. *)
Lemma detach_hushes ap s ap' :
  app_ok prefixes store ap -> su_protocol (ap_subs ap) = true -> su_store (ap_subs ap) !! sub = Some s -> sub ∈ su_list (ap_subs ap) ->
  detach_settled (sub_queue s0) (sub_registered_filters s) (ap_engine ap) -> step_of ap (ApDetach sub) = Ok ap' -> hushed ap'.
Proof.
  intros [H1 H2 H3] Hp Hs Hl [Hw He]. destruct (H2 _ _ Hs) as (t & Ht & [= E1 E2 E3 E4 E5 E6 E7 E8]). assert (t = s0) as -> by congruence.
  cbn [app_step]. unfold detach_move. rewrite Hs, Hp. cbn [sub_step]. rewrite Hs. unfold sub_detach. rewrite bool_decide_true by done. cbn [su_protocol set_sub set_list].
  rewrite Hp. cbn [su_log note set_sub set_list]. rewrite drop_app_length.
  destruct (locked_step (ap_engine ap) (LEngine (EvDetach (sub_registered_filters s)))) as [lo|] eqn:E; [|done]. cbn [mbind res_bind].
  destruct (take_all _ _ lo) as [lo'|] eqn:Et; [|done]. intros [= <-]. split; [|exists (set_detached s); cbn; by rewrite lookup_insert_eq].
  apply take_all_engine in Et as ([x Hx] & Hq & Hwt). revert E. cbn [locked_step is_managed]. intros [E' E'']%leave_ended_same. cbn in E', E''.
  rewrite <-E4 in Hq. rewrite drop_all in Hq. split; [|intros n op; cbn [ap_engine]; rewrite Hwt, E''; apply Hw].
  set (s1 := engine (ap_system ap)) in *. rewrite E' in Hx.
  change (engine (engine_step (ap_system ap) (EvDetach (sub_registered_filters s)))) with (detach (sub_registered_filters s) s1).2 in Hx.
  exists (e_detached (detach (sub_registered_filters s) s1).2).
  assert (forall e, may_deliver s1 e -> se_queue e = sub_queue s0 -> se_ref e ∈ e_detached (detach (sub_registered_filters s) s1).2) as Hm.
  { intros e Hmay Hqe. destruct (He e Hmay Hqe) as (f & e' & Hf & Hg & <-). by apply (detach_marks _ _ f). }
  destruct (eo_routed _ _ _ H1) as [R1 _ [R3 R4] [_ Q2 Q3]]. cbn [ap_engine]. rewrite Hx. split; cbn.
  - exact R1.
  - done.
  - split; [exact R3|]. intros [f e] Hit. split; [by apply R4|]. intros Hqe. apply Hm; [|done]. left. by exists f.
  - split.
    + intros q' m Hm' ->. rewrite Hx in Hq. apply (not_elem_of_nil m). rewrite <-Hq. exact Hm'.
    + intros r k Hp' f e Hr. destruct (decide (se_queue e = sub_queue s0)) as [Hqe|]; [left|by right]. apply Hm; [|done]. right. left. by exists r, k, f.
    + intros pid fl Hfl Hdl f e Hr. destruct (decide (se_queue e = sub_queue s0)) as [Hqe|]; [left|by right]. apply Hm; [|done].
      right. right. by exists pid, fl, f.
Qed.
End hush.

(** C18: a detached subscription is silent.  Take an application whose subscriptions have different queues, after any
    history; one of them, which the client lists and which has settled, is detached.  Then its queue is empty and stays empty,
    whatever follows: packets, the end of QoS 2 exchanges, the message with which the read loop waits, other
    subscriptions, disconnects and reconnects; and no step fails. *)
Theorem detached_silent v prefixes keepalive limit size store d queues next evs ap sub s evs' :
  (forall sub s, store !! sub = Some s -> exists filters qos auto q nl rap rh i, client_subscribe v filters qos auto q nl rap rh i = Ok s) ->
  (forall sub s sub' s', store !! sub = Some s -> store !! sub' = Some s' -> sub_queue s = sub_queue s' -> sub = sub') ->
  dispatcher_below d next -> (forall q, q_items (default (mkQueue 0 []) (queues !! q)) = []) -> Forall app_event_ok evs ->
  app_steps v prefixes keepalive limit size (app_new v prefixes keepalive limit size store d queues next) evs = Ok ap ->
  su_protocol (ap_subs ap) = true -> su_store (ap_subs ap) !! sub = Some s -> sub ∈ su_list (ap_subs ap) ->
  detach_settled (sub_queue s) (sub_registered_filters s) (ap_engine ap) -> Forall app_event_ok evs' ->
  exists ap', app_steps v prefixes keepalive limit size ap (ApDetach sub :: evs') = Ok ap' /\
    q_items (queue_of (engine (ap_system ap')) (sub_queue s)) = [].
Proof.
  intros Hmade Hqueues Hd Hq Hevs Hsteps Hp Hs Hl Hset Hevs'.
  assert (forall sub s, store !! sub = Some s -> Forall (fun f => validate_subscribe_topic f = Ok tt) (sub_filters s)) as Hstore.
  { intros sub' s' H'. destruct (Hmade sub' s' H') as (filters & qos & auto & q & nl & rap & rh & i & Hc). by eapply subscribe_checked. }
  destruct (app_steps_ok v prefixes keepalive limit size store Hstore evs _ (app_new_ok v prefixes keepalive limit size store d queues next Hd Hq) Hevs)
    as (ap0 & Hs0 & Hok). assert (ap0 = ap) as -> by congruence.
  destruct (ao_options _ _ _ Hok _ _ Hs) as (s0 & Hs0' & E). assert (sub_queue s = sub_queue s0) as Eq by (by injection E as _ _ _ -> _ _ _ _).
  rewrite Eq in *.
  destruct (app_step_ok v prefixes keepalive limit size store Hstore ap (ApDetach sub) Hok I) as (ap1 & Hs1 & Hok1 & _).
  pose proof (detach_hushes v prefixes keepalive limit size store sub s0 Hs0' ap s ap1 Hok Hp Hs Hl Hset Hs1) as Hh1.
  destruct (app_steps_ok v prefixes keepalive limit size store Hstore evs' ap1 Hok1 Hevs') as (ap' & Hs' & _).
  exists ap'. cbn [app_steps]. rewrite Hs1. split; [exact Hs'|].
  destruct (app_steps_hushed v prefixes keepalive limit size store Hstore Hqueues sub s0 Hs0' evs' ap1 ap' Hok1 Hevs' Hh1 Hs') as [[[dead Hsil] _] _].
  by apply silent_empty in Hsil.
Qed.

(** ** Executions *)

Abbreviation detach_store := ({[ 0%nat := mkSub [py "a/#"] EXACTLY_ONCE true 0 false false SEND_ON_SUBSCRIBE None [] false ]} : gmap nat Subscription).
Definition arrives (p : AnyPacket) : app_event := ApEngine (LEngine (EvReceive p)).
Definition sent_publish (pid : Z) (topic : pystr) : app_event := arrives (PPublish (mkPublish topic [] EXACTLY_ONCE false false (Some pid) None)).
Definition accepted_connection : app_event := ApConnected (mkConnect (py "c") false 60 None None None None) (PConnAck (mkConnAck true 0 None)).

(** A message and half an exchange before the detachment; the rest of the exchange, other messages and a reconnection after it. *)
Definition before_detach : list app_event :=
  [accepted_connection; sub_start 0 0; arrives (PSubAck (mkSubAck 1 [2] None)); ApEngine (LEngine (EvResume 0)); ApEngine (LDrained 0 false);
   sent_publish 1 (py "a/b"); arrives (PPubRel (mkAck 1 0 None)); sent_publish 2 (py "a/c")].
Definition after_detach : list app_event :=
  [arrives (PPubRel (mkAck 2 0 None)); sent_publish 3 (py "a/d"); ApEngine (LEngine EvRunEnds); ApLost; accepted_connection; ApRestore 1;
   sent_publish 1 (py "a/e")].

Lemma wire_id_small pid : (1 <=? pid) && (pid <=? 100) = true -> wire_id pid.
Proof. intros H. apply andb_true_iff in H as [?%Z.leb_le ?%Z.leb_le]. unfold wire_id, MAX_PACKET_ID. lia. Qed.

Lemma sent_publish_ok pid topic : (1 <=? pid) && (pid <=? 100) = true -> app_event_ok (sent_publish pid topic).
Proof. intros H. right. exists pid. split; [reflexivity|by apply wire_id_small]. Qed.

Lemma pubrel_ok pid : (1 <=? pid) && (pid <=? 100) = true -> app_event_ok (arrives (PPubRel (mkAck pid 0 None))).
Proof. apply wire_id_small. Qed.

Ltac events_ok := repeat apply Forall_cons_2; [..|apply Forall_nil_2];
  first [exact I | apply sent_publish_ok; reflexivity | apply pubrel_ok; reflexivity].

Abbreviation detach_run evs := (app_steps V50 [] 60 None 1000 (app_new V50 [] 60 None 1000 detach_store None ∅ 8) evs).

(** Subscription [sub] is in the list of a connected client, and has settled. *)
Definition detachable (sub : nat) (ap : App) : bool :=
  su_protocol (ap_subs ap) && bool_decide (sub ∈ su_list (ap_subs ap)) &&
  match su_store (ap_subs ap) !! sub with Some s => settled_b (sub_queue s) (sub_registered_filters s) (ap_engine ap) | None => false end.

Lemma detached_silent_witness :
  exists ap s ap', detach_run before_detach = Ok ap /\ map msg_topic (q_items (queue_of (engine (ap_system ap)) 0)) = [py "a/b"] /\
    su_store (ap_subs ap) !! 0%nat = Some s /\ app_steps V50 [] 60 None 1000 ap (ApDetach 0 :: after_detach) = Ok ap' /\
    q_items (queue_of (engine (ap_system ap')) (sub_queue s)) = [].
Proof.
  assert (match detach_run before_detach with
          | Ok ap => detachable 0 ap && bool_decide (map msg_topic (q_items (queue_of (engine (ap_system ap)) 0)) = [py "a/b"])
          | Err _ => false end = true) as Hb by (vm_compute; reflexivity).
  destruct (detach_run before_detach) as [ap|] eqn:E; [|discriminate]. unfold detachable in Hb.
  apply andb_true_iff in Hb as [[[Hp Hl]%andb_true_iff Hs]%andb_true_iff Hq]. apply bool_decide_eq_true in Hl, Hq.
  destruct (su_store (ap_subs ap) !! 0%nat) as [s|] eqn:Es; [|discriminate].
  destruct (detached_silent V50 [] 60 None 1000 detach_store None ∅ 8 before_detach ap 0 s after_detach) as (ap' & H1 & H2).
  - intros sub t [<- <-]%lookup_singleton_Some. exists [py "a/#"], EXACTLY_ONCE, true, 0%nat, false, false, SEND_ON_SUBSCRIBE, None. vm_compute. reflexivity.
  - by intros sub t sub' t' [<- <-]%lookup_singleton_Some [<- <-]%lookup_singleton_Some.
  - apply dispatcher_below_none.
  - intros q. reflexivity.
  - unfold before_detach. events_ok.
  - exact E.
  - exact Hp.
  - exact Es.
  - exact Hl.
  - by apply settled_check.
  - unfold after_detach. events_ok.
  - exists ap, s, ap'. exact (conj eq_refl (conj Hq (conj Es (conj H1 H2)))).
Defined.

(** [detach] while [start] waits for SUBACK: the filters are not noted as registered yet, so nothing is marked, and the
    messages go to the queue of the detached subscription, from which nobody can take them. *)
Theorem detached_while_starting :
  exists ap, detach_run [accepted_connection; sub_start 0 0; ApDetach 0; arrives (PSubAck (mkSubAck 1 [2] None)); ApEngine (LEngine (EvResume 0)); ApEngine (LDrained 0 false);
      arrives (PPublish (mkPublish (py "a/b") [] AT_LEAST_ONCE false false (Some 1) None))] = Ok ap /\
    sub_detached <$> su_store (ap_subs ap) !! 0%nat = Some true /\ su_list (ap_subs ap) = [] /\
    map msg_topic (q_items (queue_of (engine (ap_system ap)) 0)) = [py "a/b"] /\ e_unacknowledged (engine (ap_system ap)) = ∅.
Proof. eexists. split; [vm_compute; reflexivity|]. split_and!; vm_compute; reflexivity. Qed.

(** A QoS 2 exchange that began before the subscription was stopped and started again ends after it is detached: its
    entry is not that of the index. *)
Theorem detached_after_restart :
  exists ap, detach_run [accepted_connection; sub_start 0 0; arrives (PSubAck (mkSubAck 1 [2] None)); ApEngine (LEngine (EvResume 0)); ApEngine (LDrained 0 false);
      sent_publish 1 (py "a/b"); sub_stop 1 0; arrives (PUnsubAck (mkUnsubAck 1 [0] None)); ApEngine (LEngine (EvResume 1));
      sub_start 2 0; arrives (PSubAck (mkSubAck 1 [2] None)); ApEngine (LEngine (EvResume 2)); ApEngine (LDrained 2 false); ApDetach 0; arrives (PPubRel (mkAck 1 0 None))] = Ok ap /\
    sub_detached <$> su_store (ap_subs ap) !! 0%nat = Some true /\
    map msg_topic (q_items (queue_of (engine (ap_system ap)) 0)) = [py "a/b"].
Proof. eexists. split; [vm_compute; reflexivity|]. split_and!; vm_compute; reflexivity. Qed.

(** A restoration checks [_detached] when it calls [protocol.subscribe], which then waits for the locks: here of the filter that the
    application also observes.  The subscription is detached meanwhile; when the lock is free the SUBSCRIBE is sent. *)
Definition restore_waits : list app_event :=
  let observe := ApEngine (LCall 2 (OObserve (py "a/#"))) in
  [accepted_connection; sub_start 0 0; arrives (PSubAck (mkSubAck 1 [2] None)); ApEngine (LEngine (EvResume 0)); ApEngine (LDrained 0 false);
   ApEngine (LEngine EvRunEnds); ApLost; accepted_connection; observe; ApRestore 1; ApDetach 0].

Theorem waiting_restoration_subscribes :
  exists ap ap', detach_run restore_waits = Ok ap /\ sub_detached <$> su_store (ap_subs ap) !! 0%nat = Some true /\
    length (e_sent (engine (ap_system ap))) = 2%nat /\
    app_steps V50 [] 60 None 1000 ap [arrives (PSubAck (mkSubAck 1 [0] None)); ApEngine (LEngine (EvResume 0)); ApEngine (LResume 1 false)] = Ok ap' /\
    length (e_sent (engine (ap_system ap'))) = 3%nat /\
    Ok <$> last (e_sent (engine (ap_system ap'))) = Some (encode (PSubscribe (mkSubscribe 1 [mkSubscriptionRequest (py "a/#") EXACTLY_ONCE false false SEND_ON_SUBSCRIBE] None)) V50).
Proof. eexists _, _. split; [vm_compute; reflexivity|]. vm_compute. split_and!; reflexivity. Qed.
